(* ===== verification/_CoqProject ===== *)
-Q . S2P
Prelude.v
Compat.v
Search.v
Bytes.v
Md5.v
Alloc.v
Net.v
Hash.v
Counters.v
Barrier.v
Token.v
Clock.v
Output.v
Queue.v
Rings.v
Jar.v
Packet.v
Typed.v
File.v
Load.v
Store.v
Locate.v
Magic.v
LiDetect.v
Li.v
Order.v
Stash.v
Number.v
Netmap.v
Regex.v
Page.v
Strings.v
Teardown.v
Tree.v
Splay.v
Prealloc.v
Stream.v
Track.v
Stable.v
Flows.v
Flowsplit.v
Peek.v
Netfuse.v
Tests.v
