(* ===== verification/Prelude.v ===== *)
(** * Verification of libpeak

    libpeak is a packet-inspection library in C.  A frame comes in
    ([peak_packet_parse]), its layers are located and checked, a flow is looked up or
    made for its two ends ([TRACK_KEY], [peak_track_acquire]), the application is
    guessed from the payload ([peak_li_get]), patterns are searched in it
    ([peak_string_find]), and events on the way are counted ([peak_audit_inc]).
    Underneath are byte-order codecs, addresses, hashes and containers made of
    macros.  This library models that core, one file per component, and proves what
    makes each part correct.

    ** Files

    In the order of their dependencies.

    - [Prelude]: machine integers ([wrap], [fits]), memory as bounds-checked lists of
      bytes ([rd], [wr] and their block forms), [memcmp], the monad [run] of code whose
      termination is in question, the hint database [peak] and tactics.
    - [Compat] - contrib/libcompat: [strlcpy] and [strlcat]; [strcmp] and [strcasecmp].
    - [Search]: what [bsearch] of the C library promises, and tables of names.
    - [Bytes] - include/peak_type.h: byte swaps, the endian decoders and encoders,
      serial-number comparison.
    - [Md5] - contrib/libcompat/md5.c: the message digest, with RFC 1321 next to it.
    - [Alloc] - include/peak_alloc.h: blocks with a head in front and magic values on
      both ends, over a heap of the C library's blocks.
    - [Net] - include/peak_net.h: 16-byte addresses, comparison, prefix match.
    - [Hash] - include/peak_hash.h: FNV-1a, the rolling hash, one-at-a-time.
    - [Counters] - lib/peak_audit.c: counters per thread, and their merge into a shared
      export as a step relation over the interleaved threads.
    - [Barrier] - include/peak_sys.h: the barrier, a mutex and a condition variable, as a
      step relation over the interleaved threads.
    - [Token] - include/peak_token.h: token buckets, with the arithmetic of [int64_t].
    - [Clock] - include/peak_timeslice.h: the clock that is set once per slice.
    - [Output] - include/peak_output.h: messages and the priority they need, which several
      threads raise, as a step relation.
    - [Queue] - include/sys/queue.h: singly-linked lists and tail queues as the macros
      have them, with links in the elements and pointers to links.
    - [Rings] - include/sys/queue.h: its other families, doubly-linked lists, simple queues
      with plain and with hidden pointers, and circular queues, as instances of one class.
    - [Jar] - lib/peak_jar.c and .h: a ring buffer of texts that contexts link by the
      queues of [Queue].
    - [Packet] - lib/peak_packet.c, lib/peak_packet.h: decapsulation of frames.  It uses
      [Bytes], [Net] and, for dropped packets, [Counters].
    - [Typed]: lemmas about [Packet]: every field of a packet stays a value of its C type,
      which the printing of addresses and numbers relies on.
    - [File]: what readers and writers use of the system's files.
    - [Load] - lib/peak_load.c: one reader per format of capture files.
    - [Store] - lib/peak_store.c: the writer of pcap files, and records of the other
      formats, which [Load] reads back.
    - [Locate] - lib/peak_locate.c and .h: the table of locations, the database of
      address ranges and its file, searched with any conforming [bsearch].
    - [Magic] - lib/peak_magic.c and .h: the table of file types over libmagic.
    - [LiDetect] - lib/peak_li.c, the 44 detectors of application protocols, over the
      packets of [Packet].
    - [Li] - lib/peak_li.c and .h, the table of detectors and the functions that walk it.
      It is proved against the class [Safe] of [LiDetect].
    - [Order]: the class [KeyOrder], which says that a comparison function orders its
      arguments by an integer key, and the lists ascending in that key.
    - [Stash] - include/peak_stash.h: bounded stacks.
    - [Number] - lib/peak_number.c: comparisons with the number of a text, which push
      their results on a [Stash].
    - [Netmap] - lib/peak_netmap.c, include/peak_transfer.h: packets received and sent in
      rings that are shared with the kernel, over any conforming netmap(4) ([NetmapApi]).
    - [Regex] - lib/peak_regex.c: a list of regular expressions over PCRE, which push
      their results on a [Stash].
    - [Page] - include/peak_page.h: sorted lists in pages, for any [KeyOrder].
    - [Strings] - lib/peak_string.c: a trie of [Page]s, searched into a [Stash].
    - [Teardown] - the [exit] functions of lib/peak_string.c, peak_regex.c, peak_number.c,
      peak_locate.c, peak_magic.c, peak_load.c and peak_store.c, on a heap of blocks.
    - [Tree] - include/sys/tree.h: red-black trees with their parent pointers, for any
      [KeyOrder]; the instance [red_black_tree] of the classes [SearchTree] and
      [OrderedTree].
    - [Splay] - include/sys/tree.h: splay trees, for any [KeyOrder].
    - [Prealloc] - include/peak_prealloc.h: the pool of preallocated chunks.
    - [Stream] - lib/peak_stream.c: buffers of consecutive pages that grow at the end and
      shrink at the front, over any [OrderedTree] of free pages and a pool.
    - [Track] - lib/peak_track.c and .h: flows over any [SearchTree] and a pool.
    - [Stable]: the class of readers that answer the same when the memory goes on, which
      the decapsulation and all detectors are.
    - [Flows]: what the programs share: the flows of the packets of a capture, as the
      tracker numbers them.
    - [Flowsplit] - bin/flowsplit/flowsplit.c: a program, composed of [Load], [Packet],
      [Track] and [Store].
    - [Peek] - bin/peek/peek.c: a program, composed of [Load], [Clock], [Packet], [Track]
      and [Li].
    - [Netfuse] - bin/netfuse/netfuse.c: a program on [Netmap].
    - [Tests] - test/base, test/string, test/number, test/audit: the tests of the repository,
      evaluated on the definitions above.

    A definition has the name of the function, macro or structure it models; auxiliary
    definitions (a loop, a branch) are named after it.  The state of a component is a
    record with the fields of the C structure; functions take and return it.

    ** Conventions

    Integers are [Z]; an operation of an unsigned type that can leave its range is
    wrapped to its width where the code's type wraps.  Where it is not wrapped a theorem
    bounds it, with three exceptions that are taken as the compiler makes them or as what
    they mean: the shift of a byte into the sign of an [int] in the 32-bit decoders is that of
    an unsigned integer, the size of the block of a pool is the product itself, and times in
    milli- and microseconds are not bounded.  Structures overlaid on bytes
    are reads at the offsets of their members.  The host is little-endian and 64-bit.
    [None] is undefined behaviour (an access outside the memory, a NULL pointer
    followed, a shift by the width) or a panic, so a theorem that a function returns
    [Some] says that none of it happens.  NULL as a value is an option in a field or
    an argument.  Whether an allocation succeeds is an argument.  Pointers into
    containers are positions: a page and an index, a subtree and the way up from it,
    an index into a stash.  Where structures are shared ([Track]), they are in an
    explicit store from addresses and the containers hold addresses.

    ** What the theorems show

    - Codecs and addresses: every encoder and decoder pair works exactly in bounds, is
      inverse and touches only its bytes ([codecs_roundtrip]); swaps relate the two orders ([bswap_decodes]);
      [netprefix] compares leading bits ([netprefix_compares]); the predicates on IPv4
      addresses agree ([netaddr4_classifies]); ports are printed in full ([portprint_port]).
    - Hashes: shifting the window of the rolling hash equals hashing the new window,
      except for the sizes where it is undefined ([roll_window]); no hash misses a
      changed byte ([hashes_detect_byte]); the message digest is the one of RFC 1321
      however the message is split ([md5_is_rfc1321]).
    - Allocation: what is handed out passes the check of its guards, a write past its end
      does not, nor does a write in front of it unless it leaves the magic of the other kind
      of block, and there is nothing handed out exactly if the request is refused
      ([alloc_guards]); reallocation keeps the bytes
      ([realloc_keeps]); without checks no product is truncated ([plain_exact]).  Releasing
      what was made frees every block once and nothing else ([string_exit_frees],
      [regex_exit_frees], [number_exit_frees], [tables_exit_free]).
    - Counters and time: no event is lost or counted twice under any interleaving
      ([audit_conserves]), a sync moves everything ([audit_sync_moves]), fields behave
      as an array ([audit_fields]); a bucket keeps its rate ([token_rate]); monotonic
      counters are ([clock_monotonic]).  If the condition
      variable has no spurious wake-ups, the thread that is told it is the last of two or
      more runs alone, and without joins next to a thread that is the only one nobody leaves
      a barrier before all of its round have come ([barrier_excludes]); otherwise this can
      fail ([spurious_breaks], [late_join]).  Messages are printed up to the priority
      ([output_levels], [panic_prints]), which one thread can raise safely and two cannot
      ([bump_bounds]).
    - Packets: building a frame and parsing it gives the parts back ([parse_frame]);
      the layers of an accepted frame nest ([parse_layers_ipv4], [parse_layers_ipv6]); a
      verdict comes with at most one count, and there is one without an access out of bounds
      for every frame without IPv6 that has the longest headers' room in memory, which is all
      that can be said as the length of a frame is not looked at ([parse_total]); the loop
      over IPv6 extension headers ends, or reaches the cycle that is characterised
      ([ipv6_terminates]).
    - Capture files: readers stay in their buffers but for a packet that is
      characterised ([load_in_bounds]) and end, but for the empty block that is
      ([load_terminates]); what is stored is loaded again ([pcap_roundtrip]); records of
      every format are delivered ([load_record], [pcapng_next]).
    - Detection: detectors stay in the payload ([detectors_in_bounds]) but for the two
      whose over-read is characterised ([ber_overread]); length fields and requests
      are what the protocols say ([length_fields], [tftp_requests]); the verdict of
      [peak_li_get], if it is not one of those two detectors that fails, agrees with
      [peak_li_test] ([get_agrees_with_test]); merging,
      naming and an ambiguous greeting ([merge_laws], [names_roundtrip],
      [banner_220_verdict]).
    - Containers: tail queues and singly-linked lists refine lists ([tailq_refines],
      [slist_refines]), and so do the other families ([list_refines], [simpleq_refines],
      [xsimpleq_refines], [circleq_refines]); a stash is a bounded stack ([stash_is_stack]) that can be sorted ([stash_sort]); pages find,
      insert and sort ([page_find_correct], [page_insert_correct], [page_sorts]); trees
      stay balanced under all insertions and removals ([rb_reachable]) and hold what was
      put in ([rb_update], [rb_search]); splay trees refine ascending lists
      ([splay_refines]); a jar that is not full refines lists
      ([jar_refines_lists]), packing into a full one ends ([jar_pack_ends]), and where its
      room overlaps live texts is characterised ([jar_write_room], [jar_repair_keeps]); a pool hands out each chunk once
      ([prealloc_accounts]); streams stay apart up to a claim that is
      characterised, for a stream of which part of a page was released, and keep their data
      if they begin at a page or move ([stream_claim], [stream_release],
      [streams_reachable], [claim_spills]).
    - Patterns and numbers: insertion stores under the path of the pattern and nowhere
      else ([string_add_stores]); a search reports exactly the patterns that occur, but
      for those that it passes over at the end of the input, which are characterised and none
      if a byte matches in one way only ([string_find_reports]); the same of
      comparisons ([number_add_stores], [number_find_reports]) and the texts they are
      read from ([number_texts]), and of regular expressions ([regex_find_reports],
      [regex_add_stores]).
    - Locations: an address is found in the one range that has it ([locate_get_finds]);
      names and numbers correspond ([locate_names_roundtrip], and for file types
      [magic_names_roundtrip]); a file gives its ranges
      back and a damaged one none ([locate_file_roundtrip]).
    - Flows: [peak_track_acquire] refines a cache of bounded size that evicts the least
      recently used key ([track_acquire_lru]); a tracker is in order from [init] to
      [exit] ([track_lifecycle]); the key of the two directions of a flow
      ([track_key_direction]).
    - Capture: the packet received is the next one of its ring and is claimed, devices
      take turns ([netmap_recv_next]); it is released once, by dropping, forwarding or
      swapping buffers, of which none is lost ([netmap_release]); both stay possible
      through all calls of a program that detaches no device with a claimed packet, names are
      unique if they fit, and the table is in order in any case ([netmap_reachable],
      [detached_claim], [long_name_twice]); devices come and go ([netmap_table]).
    - Programs, up to what ends a capture for the loader ([capture_end]): flowsplit puts every
      packet of a flow into the one file of the flow, in order ([flowsplit_splits]), under different names ([split_names]); peek reports every packet of a flow once, with the number
      of the flow and its application by the first verdicts of both directions
      ([peek_reports], [report_renders]), and its options are kept up to the ninth, which is written behind
      the array ([peek_options]); netfuse sends what either device receives on the other
      one, and leaves nothing behind ([netfuse_relays]).

    ** Bounds and fuel

    Most loops are structural: over the bytes, the table, the pages, the tree, the way
    up.  The others have fuel, and theorems say that it is enough:

    - [netprefix_loop]: 16, the bytes of an address; [strlcpy_rest]: the bytes of the
      memory; [binary_loop]: the elements of the table;
    - [RB_REMOVE_COLOR]: one round per level of the way up and two to spare
      ([remove_color_ok]); [foreach_loop] of [Page] and [Tree]: the elements; the loops of
      [Queue] and [Rings]: the elements of the list;
    - [splay_loop] and [minmax_loop]: the elements, which every round of [SPLAY] hangs
      elsewhere ([splay_loop_spec]);
    - [probe_loop], [claim_loop], [release_loop] of [Stream]: the pages; the loop of
      [peak_track_exit]: the flows; [flowsplit_loop] and [peek_loop]: the packets of the
      capture;
    - [update_loop] of [Md5]: the blocks; the loops of [Jar]: the texts in the buffer, and
      for [peak_jar_pack] a round for every 32 bytes of it ([jar_pack_ends]);
    - [while_node], [foreach_elem] and [_peak_string_exit] of [Teardown]: the pages and the
      elements of the nodes ([weight]);
    - [ipv6_loop] and [_peak_load_pcapng] take any fuel, because they need not end:
      [ipv6_terminates] and [load_terminates] give the bound when they do.

    ** Not modelled

    The C library ([qsort], [inet_ntop], [localtime_r], what vfprintf(3) makes of a format),
    the pthread primitives below the barrier (a mutex and a condition variable do what
    POSIX says; the spin lock of a pool is a flag), zlib, lzma, PCRE, libmagic and
    netmap(4), system calls, what getopt(3) returns, and the errors the command line tools
    print.  bin/geoconv is a grammar for yacc and lex that writes the file [Locate]
    reads.  Of include/sys/tree.h the iterations that read the neighbour before the body are
    left out for [Tree], whose positions do not survive a body that changes the tree, and of
    include/sys/queue.h what QUEUE_MACRO_DEBUG adds. *)

From stdpp Require Export prelude gmap strings.
From Stdlib Require Export ZArith Lia.

#[export] Set Default Goal Selector "!".

Declare Scope peak_scope.
Delimit Scope peak_scope with peak.
Global Open Scope Z_scope.

(** ** Machine integers

    A [w]-bit unsigned integer is a [Z] in [0, 2^w); C's modular arithmetic is
    written out with [wrap]. *)

Definition wrap (w z : Z) : Z := z mod 2 ^ w.

Abbreviation u8 := (wrap 8).
Abbreviation u16 := (wrap 16).
Abbreviation u32 := (wrap 32).
Abbreviation u64 := (wrap 64).

(** A conversion to a signed [w]-bit integer (two's complement). *)
Definition swrap (w z : Z) : Z :=
  let u := wrap w z in if u <? 2 ^ (w - 1) then u else u - 2 ^ w.

Abbreviation s32 := (swrap 32).
Abbreviation s64 := (swrap 64).

(** [x] is a value of an unsigned [w]-bit type. *)
Definition fits (w x : Z) : Prop := 0 <= x < 2 ^ w.

#[export] Instance fits_dec w x : Decision (fits w x).
Proof. unfold fits. apply _. Defined.

Notation "x '≪' k" := (Z.shiftl x k) (at level 35, k at next level, no associativity) : peak_scope.
Notation "x '≫' k" := (Z.shiftr x k) (at level 35, k at next level, no associativity) : peak_scope.
Notation "x '.|' y" := (Z.lor x y) (at level 50, left associativity) : peak_scope.
Notation "x '.&' y" := (Z.land x y) (at level 40, left associativity) : peak_scope.
Notation "x '.^' y" := (Z.lxor x y) (at level 50, left associativity) : peak_scope.
Open Scope peak_scope.

(** A record [s] with the field of the setter [f] set to [v]. *)
Notation "s <| f v |>" := (f v s)
  (at level 1, left associativity, f at level 0, v at level 0, only parsing) : peak_scope.

Lemma wrap_bound w z : 0 <= w -> fits w (wrap w z).
Proof. intros Hw. apply Z.mod_pos_bound. by apply Z.pow_pos_nonneg. Qed.

Lemma wrap_small w z : fits w z -> wrap w z = z.
Proof. apply Z.mod_small. Qed.

Lemma wrap_idem w z : 0 <= w -> wrap w (wrap w z) = wrap w z.
Proof. intros Hw. by apply wrap_small, wrap_bound. Qed.

Lemma wrap_add_l w x y : wrap w (wrap w x + y) = wrap w (x + y).
Proof. apply Zplus_mod_idemp_l. Qed.

Lemma wrap_add_r w x y : wrap w (x + wrap w y) = wrap w (x + y).
Proof. apply Zplus_mod_idemp_r. Qed.

Lemma wrap_sub_l w x y : wrap w (wrap w x - y) = wrap w (x - y).
Proof. apply Zminus_mod_idemp_l. Qed.

Lemma wrap_sub_r w x y : wrap w (x - wrap w y) = wrap w (x - y).
Proof. apply Zminus_mod_idemp_r. Qed.

Lemma wrap_mul_l w x y : wrap w (wrap w x * y) = wrap w (x * y).
Proof. apply Zmult_mod_idemp_l. Qed.

Lemma wrap_mul_r w x y : wrap w (x * wrap w y) = wrap w (x * y).
Proof. apply Zmult_mod_idemp_r. Qed.

Lemma fits_mono v w x : v <= w -> fits v x -> fits w x.
Proof.
  intros Hvw [H0 H1]. split; [done|]. eapply Z.lt_le_trans; [done|].
  by apply Z.pow_le_mono_r.
Qed.

Lemma swrap_small w z : 0 < w -> fits (w - 1) z -> swrap w z = z.
Proof.
  intros Hw Hz. unfold swrap. rewrite wrap_small by (eapply fits_mono; [|done]; lia).
  unfold fits in Hz. by rewrite (proj2 (Z.ltb_lt _ _)) by lia.
Qed.

(** Values that share no bit: the [or] is a sum. *)
Lemma lor_disjoint_add a b : a .& b = 0 -> a .| b = a + b.
Proof.
  intros H. rewrite (Z.add_nocarry_lxor a b H). symmetry.
  by apply Z.lxor_lor.
Qed.

Lemma land_shiftl_low a b k : 0 <= k -> fits k b -> (a ≪ k) .& b = 0.
Proof.
  intros Hk Hb. apply Z.bits_inj'. intros i Hi.
  rewrite Z.land_spec, Z.bits_0. destruct (decide (i < k)).
  - by rewrite Z.shiftl_spec_low by lia.
  - rewrite <- (wrap_small k b) by done. unfold wrap.
    rewrite Z.mod_pow2_bits_high by lia. apply andb_false_r.
Qed.

(** An [or] of a shifted value and a value below the shift is a sum. *)
Lemma lor_shiftl_add a b k :
  0 <= k -> fits k b -> (a ≪ k) .| b = a * 2 ^ k + b.
Proof.
  intros Hk Hb. rewrite lor_disjoint_add by (by apply land_shiftl_low).
  by rewrite Z.shiftl_mul_pow2.
Qed.

(** Keeping the low [k] bits of a value is a remainder. *)
Lemma land_low k a m : m = Z.ones k -> 0 <= k -> a .& m = a mod 2 ^ k.
Proof. intros -> Hk. by apply Z.land_ones. Qed.

Lemma shiftr_div a k : 0 <= k -> a ≫ k = a / 2 ^ k.
Proof. apply Z.shiftr_div_pow2. Qed.

Lemma shiftr_fits w a k : 0 <= k -> fits w a -> fits w (a ≫ k).
Proof.
  intros Hk [H0 H1]. rewrite Z.shiftr_div_pow2 by done.
  assert (0 < 2 ^ k) by (by apply Z.pow_pos_nonneg). split.
  - by apply Z.div_pos.
  - apply Z.div_lt_upper_bound; nia.
Qed.

Lemma lxor_fits k a b : 0 <= k -> fits k a -> fits k b -> fits k (a .^ b).
Proof.
  intros Hk Ha Hb. rewrite <- (wrap_small k a Ha), <- (wrap_small k b Hb).
  replace (wrap k a .^ wrap k b) with (wrap k (a .^ b)); [by apply wrap_bound|].
  unfold wrap. apply Z.bits_inj'. intros i Hi. rewrite Z.lxor_spec.
  destruct (decide (i < k)).
  - by rewrite !Z.mod_pow2_bits_low, Z.lxor_spec by lia.
  - by rewrite !Z.mod_pow2_bits_high by lia.
Qed.

(** ** Memory

    A buffer is the list of its bytes; a pointer into it is an index.  Reading
    or writing outside the buffer is undefined behaviour in C: here it is
    [None], which the option monad propagates, so "the code returns [Some _]"
    includes "the code makes no access out of bounds". *)

Definition msize (m : list Z) : Z := Z.of_nat (length m).

Definition rd (m : list Z) (i : Z) : option Z :=
  if 0 <=? i then m !! Z.to_nat i else None.

Definition wr (m : list Z) (i b : Z) : option (list Z) :=
  if (0 <=? i) && (i <? msize m) then Some (<[Z.to_nat i := b]> m) else None.

(** [n] bytes from index [i] on (the source of a [memcpy]). *)
Fixpoint rd_n (m : list Z) (i : Z) (n : nat) : option (list Z) :=
  match n with
  | O => Some []
  | S n => b ← rd m i; bs ← rd_n m (i + 1) n; Some (b :: bs)
  end.

(** The destination of a [memcpy]. *)
Fixpoint wr_n (m : list Z) (i : Z) (bs : list Z) : option (list Z) :=
  match bs with
  | [] => Some m
  | b :: bs => m1 ← wr m i b; wr_n m1 (i + 1) bs
  end.

(** Every element is an unsigned char. *)
Definition bytes (m : list Z) : Prop := Forall (fits 8) m.

Lemma rd_is_Some m i : is_Some (rd m i) <-> 0 <= i < msize m.
Proof.
  unfold rd, msize. destruct (Z.leb_spec 0 i).
  - rewrite lookup_lt_is_Some. lia.
  - rewrite is_Some_alt. lia.
Qed.

Lemma rd_in m i : 0 <= i < msize m -> exists b, rd m i = Some b.
Proof. apply rd_is_Some. Qed.

Lemma rd_out m i : ~ (0 <= i < msize m) -> rd m i = None.
Proof. rewrite <- rd_is_Some. apply eq_None_not_Some. Qed.

Lemma rd_bound m i b : rd m i = Some b -> 0 <= i < msize m.
Proof. intros H. by apply rd_is_Some, (mk_is_Some _ b). Qed.

Lemma rd_byte m i b : bytes m -> rd m i = Some b -> fits 8 b.
Proof.
  unfold rd. intros Hm. destruct (0 <=? i); [|done].
  intros Hl. eapply Forall_lookup_1; eauto.
Qed.

(** A property of bytes can be tried on all of them. *)
Lemma byte_cases (P : Z -> bool) :
  forallb (fun n => P (Z.of_nat n)) (seq 0 256) = true -> forall b, fits 8 b -> P b = true.
Proof.
  intros H b [H0 H1]. change (2 ^ 8) with 256 in H1. rewrite forallb_forall in H.
  rewrite <- (Z2Nat.id b) by done. apply H, in_seq. lia.
Qed.

Lemma wr_is_Some m i b : is_Some (wr m i b) <-> 0 <= i < msize m.
Proof.
  unfold wr. destruct (Z.leb_spec 0 i), (Z.ltb_spec i (msize m)); simpl;
    rewrite is_Some_alt; lia.
Qed.

Lemma wr_in m i b : 0 <= i < msize m -> exists m', wr m i b = Some m'.
Proof. intros H. by apply (wr_is_Some m i b). Qed.

Lemma wr_inv m i b m' :
  wr m i b = Some m' -> 0 <= i < msize m /\ m' = <[Z.to_nat i := b]> m.
Proof.
  unfold wr. destruct (Z.leb_spec 0 i), (Z.ltb_spec i (msize m)); simpl; try done.
  intros [= <-]. done.
Qed.

Lemma wr_size m i b m' : wr m i b = Some m' -> msize m' = msize m.
Proof. intros [_ ->]%wr_inv. unfold msize. by rewrite length_insert. Qed.

Lemma wr_bytes m i b m' : bytes m -> fits 8 b -> wr m i b = Some m' -> bytes m'.
Proof. intros Hm Hb [_ ->]%wr_inv. by apply Forall_insert. Qed.

Lemma rd_wr m i b m' j :
  wr m i b = Some m' -> rd m' j = if decide (i = j) then Some b else rd m j.
Proof.
  intros [Hi ->]%wr_inv. unfold rd, msize in *. case_decide; subst.
  - destruct (Z.leb_spec 0 j); [|lia]. rewrite list_lookup_insert_eq by lia. done.
  - destruct (Z.leb_spec 0 j); [|done]. rewrite list_lookup_insert_ne by lia. done.
Qed.

Lemma rd_n_is_Some m i n :
  0 <= i -> i + Z.of_nat n <= msize m -> exists bs, rd_n m i n = Some bs /\ length bs = n.
Proof.
  revert i. induction n as [|n IH]; intros i Hi Hn; simpl.
  - by exists [].
  - destruct (rd_in m i) as [b ->]; [lia|]. simpl.
    destruct (IH (i + 1)) as (bs & -> & Hbs); [lia..|]. simpl.
    exists (b :: bs). simpl. auto.
Qed.

Lemma rd_n_length m i n bs : rd_n m i n = Some bs -> length bs = n.
Proof.
  revert i bs. induction n as [|n IH]; intros i bs; simpl; [by intros [= <-]|].
  destruct (rd m i) as [b|]; simpl; [|done].
  destruct (rd_n m (i + 1) n) as [bs'|] eqn:E; simpl; [|done].
  intros [= <-]. simpl. by rewrite (IH _ _ E).
Qed.

Lemma rd_n_bytes m i n bs : bytes m -> rd_n m i n = Some bs -> bytes bs.
Proof.
  intros Hm. revert i bs. induction n as [|n IH]; intros i bs; simpl; [intros [= <-]; constructor|].
  destruct (rd m i) as [b|] eqn:Eb; simpl; [|done].
  destruct (rd_n m (i + 1) n) as [bs'|] eqn:E; simpl; [|done].
  intros [= <-]. constructor; [by eapply rd_byte|by eapply IH].
Qed.

Lemma rd_n_lookup m i n bs k :
  rd_n m i n = Some bs -> (k < n)%nat -> bs !! k = rd m (i + Z.of_nat k).
Proof.
  revert i bs k. induction n as [|n IH]; intros i bs k Hr Hk; simpl in *; [lia|].
  destruct (rd m i) as [b|] eqn:Eb; simpl in *; [|done].
  destruct (rd_n m (i + 1) n) as [bs'|] eqn:E; simpl in *; [|done].
  simplify_eq. destruct k as [|k]; simpl.
  - by rewrite Z.add_0_r.
  - rewrite (IH _ _ _ E) by lia. f_equal. lia.
Qed.

Lemma rd_n_inv m i n bs :
  0 <= i -> rd_n m i n = Some bs -> (0 < n)%nat -> i + Z.of_nat n <= msize m.
Proof.
  revert i bs. induction n as [|n IH]; intros i bs Hi Hr Hn; simpl in *; [lia|].
  destruct (rd m i) as [b|] eqn:Eb; simpl in *; [|done].
  destruct (rd_n m (i + 1) n) as [bs'|] eqn:E; simpl in *; [|done].
  apply rd_bound in Eb. destruct n as [|n]; [lia|].
  assert (0 <= i + 1) by lia. specialize (IH _ _ H E). lia.
Qed.

Lemma wr_n_spec m i bs :
  0 <= i -> i + Z.of_nat (length bs) <= msize m ->
  exists m', wr_n m i bs = Some m' /\ msize m' = msize m /\
    forall j, rd m' j = if decide (i <= j < i + Z.of_nat (length bs))
                        then bs !! Z.to_nat (j - i) else rd m j.
Proof.
  revert m i. induction bs as [|b bs IH]; intros m i Hi Hlen; simpl in *.
  - exists m. split_and!; [done..|]. intros j. by rewrite decide_False by lia.
  - destruct (wr_in m i b) as [m1 E]; [lia|]. rewrite E. simpl.
    pose proof (wr_size _ _ _ _ E) as Hs.
    destruct (IH m1 (i + 1)) as (m' & -> & Hm' & Hj); [lia..|].
    exists m'. split_and!; [done|congruence|]. intros j. rewrite Hj, (rd_wr _ _ _ _ _ E).
    repeat case_decide; subst; try lia.
    + replace (Z.to_nat (j - i)) with (S (Z.to_nat (j - (i + 1)))) by lia. done.
    + by rewrite Z.sub_diag.
    + done.
Qed.

Lemma rd_n_app m p j k :
  rd_n m p (j + k) = (l ← rd_n m p j; r ← rd_n m (p + Z.of_nat j) k; Some (l ++ r)).
Proof.
  revert p. induction j as [|j IH]; intros p; simpl.
  - rewrite Z.add_0_r. by destruct (rd_n m p k).
  - destruct (rd m p); simpl; [|done]. rewrite IH.
    destruct (rd_n m (p + 1) j); simpl; [|done].
    replace (p + Z.of_nat (S j)) with (p + 1 + Z.of_nat j) by lia.
    by destruct (rd_n m (p + 1 + Z.of_nat j) k).
Qed.

Lemma wr_n_app m p l r :
  wr_n m p (l ++ r) = (m ← wr_n m p l; wr_n m (p + Z.of_nat (length l)) r).
Proof.
  revert m p. induction l as [|b l IH]; intros m p; simpl.
  - by rewrite Z.add_0_r.
  - destruct (wr m p b) as [m1|]; simpl; [|done]. rewrite IH.
    destruct (wr_n m1 (p + 1) l); simpl; [|done]. f_equal. lia.
Qed.

(** Where the block fits, the memory around it. *)
Lemma wr_n_list m (p : nat) bs :
  (p + length bs <= length m)%nat -> wr_n m (Z.of_nat p) bs = Some (take p m ++ bs ++ drop (p + length bs) m).
Proof.
  revert m p. induction bs as [|b bs IH]; intros m p H; cbn [wr_n length app] in *.
  { by rewrite Nat.add_0_r, take_drop. }
  unfold wr, msize. destruct (Z.leb_spec 0 (Z.of_nat p)), (Z.ltb_spec (Z.of_nat p) (Z.of_nat (length m))); try lia. cbn [andb mbind option_bind].
  rewrite Nat2Z.id. replace (Z.of_nat p + 1) with (Z.of_nat (S p)) by lia. rewrite IH by (rewrite length_insert; lia).
  rewrite drop_insert_lt by lia. rewrite (take_S_r _ _ b) by (apply list_lookup_insert_eq; lia). rewrite take_insert_ge by lia.
  by rewrite <- app_assoc, Nat.add_succ_l, Nat.add_succ_r.
Qed.

Lemma wr_n_bytes m i bs m' : bytes m -> bytes bs -> wr_n m i bs = Some m' -> bytes m'.
Proof.
  intros Hm Hbs. revert m i Hm. induction Hbs as [|b bs Hb _ IH]; intros m i Hm; simpl.
  - by intros [= <-].
  - destruct (wr m i b) as [m1|] eqn:E; simpl; [|done].
    intros Hw. eapply IH; [|done]. by eapply wr_bytes.
Qed.

(** Reads that agree byte by byte agree as blocks. *)
Lemma rd_n_eq m i n bs :
  length bs = n -> (forall k, (k < n)%nat -> rd m (i + Z.of_nat k) = bs !! k) ->
  rd_n m i n = Some bs.
Proof.
  revert i bs. induction n as [|n IH]; intros i bs Hl Hk; destruct bs as [|b bs]; try done.
  simpl in *. pose proof (Hk O ltac:(lia)) as H0. rewrite Z.add_0_r in H0. rewrite H0. simpl.
  rewrite (IH (i + 1) bs); [done|lia|]. intros k Hlt.
  replace (i + 1 + Z.of_nat k) with (i + Z.of_nat (S k)) by lia. by apply Hk; lia.
Qed.

Lemma wr_n_rd_n m i n bs : 0 <= i -> rd_n m i n = Some bs -> wr_n m i bs = Some m.
Proof.
  revert i bs. induction n as [|n IH]; intros i bs Hi; simpl; [by intros [= <-]|].
  destruct (rd m i) as [b|] eqn:Eb; simpl; [|done].
  destruct (rd_n m (i + 1) n) as [bs'|] eqn:E; simpl; [|done].
  intros [= <-]. simpl. pose proof (rd_bound _ _ _ Eb) as Hb.
  assert (wr m i b = Some m) as ->; [|simpl; by apply IH; [lia|]].
  unfold wr, rd in *. destruct (Z.leb_spec 0 i); [|lia].
  destruct (Z.ltb_spec i (msize m)); [|lia]. simpl. f_equal. by apply list_insert_id.
Qed.

Lemma rd_app_r (l r : list Z) i : 0 <= i -> rd (l ++ r) (msize l + i) = rd r i.
Proof.
  intros Hi. unfold rd, msize.
  destruct (Z.leb_spec 0 (Z.of_nat (length l) + i)), (Z.leb_spec 0 i); try lia.
  rewrite lookup_app_r by lia. f_equal. lia.
Qed.

Lemma rd_n_app_r (l r : list Z) i n : 0 <= i -> rd_n (l ++ r) (msize l + i) n = rd_n r i n.
Proof.
  revert i. induction n as [|n IH]; intros i Hi; simpl; [done|].
  rewrite rd_app_r by done. rewrite <- Z.add_assoc, IH by lia. done.
Qed.

Lemma rd_n_take m n : (n <= length m)%nat -> rd_n m 0 n = Some (take n m).
Proof.
  intros Hn. apply rd_n_eq; [rewrite length_take; lia|]. intros k Hk. unfold rd.
  destruct (Z.leb_spec 0 (0 + Z.of_nat k)); [|lia]. rewrite lookup_take_lt by done. f_equal. lia.
Qed.

(** The block in the middle of a buffer. *)
Lemma rd_n_middle l bs r : rd_n (l ++ bs ++ r) (msize l) (length bs) = Some bs.
Proof.
  rewrite <- (Z.add_0_r (msize l)), rd_n_app_r, rd_n_take by (rewrite ?length_app; lia).
  by rewrite take_app_length.
Qed.

(** A part of a block that was read. *)
Lemma rd_n_part m p n h k j :
  rd_n m p n = Some h -> 0 <= k -> k + Z.of_nat j <= Z.of_nat n -> rd_n h k j = rd_n m (p + k) j.
Proof.
  intros H Hk Hj. replace n with (Z.to_nat k + (j + (n - Z.to_nat k - j)))%nat in H by lia.
  rewrite !rd_n_app in H. rewrite Z2Nat.id in H by done.
  destruct (rd_n m p (Z.to_nat k)) as [a|] eqn:Ea; cbn in H; [|done].
  destruct (rd_n m (p + k) j) as [b|] eqn:Eb; cbn in H; [|done].
  destruct (rd_n m (p + k + Z.of_nat j) _) as [c|]; cbn in H; [|done]. injection H as <-.
  replace k with (msize a) by (unfold msize; rewrite (rd_n_length _ _ _ _ Ea); lia).
  rewrite <- (rd_n_length _ _ _ _ Eb) at 1. by rewrite rd_n_middle.
Qed.

(** [memcmp(3)] on two blocks of the same size: C specifies only the sign of the
    result, the one of the first bytes that differ. *)
Fixpoint memcmp (x y : list Z) : Z :=
  match x, y with
  | a :: x, b :: y => if a =? b then memcmp x y else if a <? b then -1 else 1
  | _, _ => 0
  end.

Lemma memcmp_eq x y : length x = length y -> memcmp x y = 0 <-> x = y.
Proof.
  revert y. induction x as [|a x IH]; intros [|b y]; try done. simpl. intros [= Hl].
  destruct (Z.eqb_spec a b) as [->|]; [rewrite IH by done; naive_solver|].
  destruct (a <? b); naive_solver.
Qed.

Lemma memcmp_antisym x y : length x = length y -> memcmp y x = - memcmp x y.
Proof.
  revert y. induction x as [|a x IH]; intros [|b y]; try done. simpl. intros [= Hl].
  rewrite Z.eqb_sym. destruct (Z.eqb_spec a b) as [->|]; [by apply IH|].
  destruct (Z.ltb_spec a b), (Z.ltb_spec b a); lia.
Qed.

(** ** Runs of code that may loop

    A loop whose termination is itself in question takes fuel; a run ends ([Done]),
    does something undefined, or exhausts its fuel. *)

Inductive run (A : Type) :=
  | Done (a : A)
  | Undefined
  | OutOfFuel.
Arguments Done {_} _.
Arguments Undefined {_}.
Arguments OutOfFuel {_}.

#[export] Instance run_ret : MRet run := @Done.
#[export] Instance run_bind : MBind run := fun A B f m =>
  match m with Done a => f a | Undefined => Undefined | OutOfFuel => OutOfFuel end.

(** An access that is undefined out of bounds. *)
Definition try {A} (o : option A) : run A :=
  match o with Some a => Done a | None => Undefined end.

(** ** Automation

    [peak] holds the facts about ranges the components reuse. *)

Create HintDb peak discriminated.
#[export] Hint Resolve wrap_bound rd_byte wr_bytes rd_n_bytes lxor_fits shiftr_fits : peak.
#[export] Hint Extern 1 (0 <= _) => lia : peak.
#[export] Hint Extern 2 (fits _ _) => (unfold fits in *; lia) : peak.

(** Unfold the width predicates and close an arithmetic goal with divisions. *)
Ltac width_lia :=
  unfold fits, wrap in *; rewrite ?Z.shiftl_mul_pow2, ?Z.shiftr_div_pow2 in * by lia;
  Z.to_euclidean_division_equations; lia.

Lemma s64_small x : - 2 ^ 63 <= x < 2 ^ 63 -> s64 x = x.
Proof. intros Hx. unfold swrap. destruct (Z.ltb_spec (u64 x) (2 ^ (64 - 1))); width_lia. Qed.

Lemma s64_u64 x : s64 (u64 x) = s64 x.
Proof. unfold swrap. by rewrite wrap_idem by lia. Qed.

(** Split an option-monad computation that is known to succeed. *)
Ltac opt_inv :=
  repeat match goal with
  | H : _ ≫= _ = Some _ |- _ =>
      apply bind_Some in H; let x := fresh "v" in let E := fresh "E" in
      destruct H as (x & E & H)
  | H : Some _ = Some _ |- _ => injection H as H; subst
  | H : (_, _) = (_, _) |- _ => injection H as ?; subst
  | H : None = Some _ |- _ => discriminate H
  end.
