(* ===== verification/Compat.v ===== *)
(** * Strings of the C library

    The [strlcpy] and [strlcat] of [contrib/libcompat], and what is used of the C library's
    comparisons.  A string is the memory from its
    pointer on, and its characters are those before the first NUL; without a NUL it runs
    off its memory, which is undefined.  Source and destination do not overlap. *)

From S2P Require Import Prelude.

(** ** Characters *)

(** The characters before the NUL. *)
Fixpoint cstr (m : list Z) : list Z :=
  match m with [] => [] | c :: m => if c =? 0 then [] else c :: cstr m end.

(** The string at the pointer ends inside the memory. *)
Definition has_nul (m : list Z) : Prop := 0 ∈ m.

Lemma cstr_app l r : Forall (fun c => c <> 0) l -> cstr (l ++ r) = l ++ cstr r.
Proof.
  induction 1 as [|c l Hc _ IH]; simpl; [done|]. destruct (Z.eqb_spec c 0); [done|]. by rewrite IH.
Qed.

Lemma cstr_nonzero m : Forall (fun c => c <> 0) (cstr m).
Proof. induction m as [|c m IH]; simpl; [constructor|]. destruct (Z.eqb_spec c 0); by constructor. Qed.

Lemma cstr_split m : has_nul m -> exists r, m = cstr m ++ 0 :: r.
Proof.
  unfold has_nul. induction m as [|c m IH]; [by intros H%elem_of_nil|]. simpl.
  destruct (Z.eqb_spec c 0) as [->|Hc]; [by exists m|]. intros [E|H]%elem_of_cons; [congruence|].
  destruct (IH H) as [r E]. exists r. simpl. by rewrite <- E.
Qed.

(** [alloca]: the bytes are written before they are read. *)
Definition alloca (n : Z) : list Z := replicate (Z.to_nat n) 0.

(** ** Comparison of names

    Literals are Rocq strings. *)

(** [strcmp(3)] *)
Fixpoint strcmp (x y : string) : Z :=
  match x, y with
  | EmptyString, EmptyString => 0
  | EmptyString, String _ _ => -1
  | String _ _, EmptyString => 1
  | String a x, String b y =>
      if (Ascii.nat_of_ascii a =? Ascii.nat_of_ascii b)%nat then strcmp x y
      else if (Ascii.nat_of_ascii a <? Ascii.nat_of_ascii b)%nat then -1 else 1
  end.

Lemma strcmp_eq x y : strcmp x y = 0 <-> x = y.
Proof.
  revert y. induction x as [|a x IH]; intros [|b y]; simpl; try done.
  destruct (Nat.eqb_spec (Ascii.nat_of_ascii a) (Ascii.nat_of_ascii b)) as [E|E].
  - apply (f_equal Ascii.ascii_of_nat) in E. rewrite !Ascii.ascii_nat_embedding in E. subst. rewrite IH. naive_solver.
  - destruct (_ <? _)%nat; naive_solver.
Qed.

Lemma strcmp_lt_trans x y z : strcmp x y < 0 -> strcmp y z < 0 -> strcmp x z < 0.
Proof.
  revert y z. induction x as [|a x IH]; intros [|b y] [|c z]; simpl; try lia.
  destruct (Nat.eqb_spec (Ascii.nat_of_ascii a) (Ascii.nat_of_ascii b)),
    (Nat.eqb_spec (Ascii.nat_of_ascii b) (Ascii.nat_of_ascii c)),
    (Nat.eqb_spec (Ascii.nat_of_ascii a) (Ascii.nat_of_ascii c)); try lia; [apply IH|..];
    destruct (Nat.ltb_spec (Ascii.nat_of_ascii a) (Ascii.nat_of_ascii b)),
      (Nat.ltb_spec (Ascii.nat_of_ascii b) (Ascii.nat_of_ascii c)),
      (Nat.ltb_spec (Ascii.nat_of_ascii a) (Ascii.nat_of_ascii c)); lia.
Qed.

Lemma strcmp_antisym x y : strcmp y x = - strcmp x y.
Proof.
  revert y. induction x as [|a x IH]; intros [|b y]; simpl; try done. rewrite Nat.eqb_sym.
  destruct (Nat.eqb_spec (Ascii.nat_of_ascii a) (Ascii.nat_of_ascii b)); [apply IH|].
  destruct (Nat.ltb_spec (Ascii.nat_of_ascii a) (Ascii.nat_of_ascii b)),
    (Nat.ltb_spec (Ascii.nat_of_ascii b) (Ascii.nat_of_ascii a)); lia.
Qed.

(** [tolower(3)] in the C locale. *)
Definition tolower (a : Ascii.ascii) : Ascii.ascii :=
  let n := Ascii.N_of_ascii a in
  if (65 <=? n)%N && (n <=? 90)%N then Ascii.ascii_of_N (n + 32) else a.

(** [strcasecmp(3)] *)
Fixpoint strcasecmp (x y : string) : Z :=
  match x, y with
  | EmptyString, EmptyString => 0
  | EmptyString, String _ _ => -1
  | String _ _, EmptyString => 1
  | String a x, String b y =>
      let a := Ascii.nat_of_ascii (tolower a) in let b := Ascii.nat_of_ascii (tolower b) in
      if (a =? b)%nat then strcasecmp x y else if (a <? b)%nat then -1 else 1
  end.

Fixpoint lower (s : string) : string :=
  match s with EmptyString => EmptyString | String a s => String (tolower a) (lower s) end.

Lemma strcasecmp_lower x y : strcasecmp x y = strcmp (lower x) (lower y).
Proof. revert y. induction x as [|a x IH]; intros [|b y]; simpl; [done..|]. by rewrite IH. Qed.

Lemma strcasecmp_eq x y : strcasecmp x y = 0 <-> lower x = lower y.
Proof. rewrite strcasecmp_lower. apply strcmp_eq. Qed.

Lemma strcasecmp_eqb x y : (strcasecmp x y =? 0) = String.eqb (lower x) (lower y).
Proof.
  destruct (String.eqb_spec (lower x) (lower y)) as [E|E]; rewrite <- strcasecmp_eq in E; [by rewrite E|by apply Z.eqb_neq].
Qed.

(** ** strlcpy.c *)

(** The loop that copies; whether it ended with the NUL. *)
Fixpoint strlcpy_copy (n : nat) (dst : list Z) (d : Z) (src : list Z) (s : Z) : option (list Z * Z * Z * bool) :=
  match n with
  | O => Some (dst, d, s, false)
  | S n =>
      c ← rd src s; dst ← wr dst d c;
      if c =? 0 then Some (dst, d + 1, s + 1, true) else strlcpy_copy n dst (d + 1) src (s + 1)
  end.

(** [while] over the rest of [src]; there is a byte less to go each time. *)
Fixpoint strlcpy_rest (fuel : nat) (src : list Z) (s : Z) : option Z :=
  match fuel with
  | O => None
  | S fuel => c ← rd src s; if c =? 0 then Some (s + 1) else strlcpy_rest fuel src (s + 1)
  end.

Definition compat_strlcpy (dst src : list Z) (siz : Z) : option (list Z * Z) :=
  '(dst, d, s, nul) ← strlcpy_copy (Z.to_nat (siz - 1)) dst 0 src 0;
  if (nul : bool) then Some (dst, s - 1)
  else
    dst ← (if negb (siz =? 0) then wr dst d 0 else Some dst);
    s ← strlcpy_rest (S (length src)) src s;
    Some (dst, s - 1).

(** The copying loop writes the first [n] characters, or all with the NUL. *)
Lemma strlcpy_copy_spec n l r a z b :
  Forall (fun c => c <> 0) l -> (n <= length z)%nat ->
  strlcpy_copy n (a ++ z) (msize a) (b ++ l ++ 0 :: r) (msize b) =
    if decide (length l < n)%nat
    then Some (a ++ l ++ 0 :: drop (S (length l)) z, msize a + msize l + 1, msize b + msize l + 1, true)
    else Some (a ++ take n l ++ drop n z, msize a + Z.of_nat n, msize b + Z.of_nat n, false).
Proof.
  intros Hl. revert a z b l Hl. induction n as [|n IH]; intros a z b l Hl Hn; cbn [strlcpy_copy].
  { rewrite decide_False by lia. by rewrite !Z.add_0_r. }
  destruct z as [|z0 z]; [simpl in Hn; lia|]. cbn [length] in Hn.
  assert (forall c, wr (a ++ z0 :: z) (msize a) c = Some (a ++ c :: z)) as Hwr.
  { intros c. unfold wr, msize. rewrite length_app. cbn [length].
    destruct (Z.leb_spec 0 (Z.of_nat (length a))), (Z.ltb_spec (Z.of_nat (length a)) (Z.of_nat (length a + S (length z)))); try lia.
    cbn [andb]. by rewrite Nat2Z.id, insert_app_r_alt, Nat.sub_diag by lia. }
  destruct l as [|c l].
  - rewrite decide_True by (simpl; lia). pose proof (rd_app_r b ([] ++ 0 :: r) 0 ltac:(lia)) as E. rewrite Z.add_0_r in E.
    rewrite E. cbn [app]. change (rd (0 :: r) 0) with (Some 0). cbn [mbind option_bind]. rewrite Hwr. cbn [mbind option_bind Z.eqb].
    simpl. rewrite drop_0. unfold msize at 3 5. simpl. by rewrite !Z.add_0_r.
  - inversion Hl as [|? ? Hc Hl']; subst.
    pose proof (rd_app_r b ((c :: l) ++ 0 :: r) 0 ltac:(lia)) as E. rewrite Z.add_0_r in E. rewrite E.
    change (rd ((c :: l) ++ 0 :: r) 0) with (Some c). cbn [mbind option_bind]. rewrite Hwr. cbn [mbind option_bind].
    destruct (Z.eqb_spec c 0); [done|].
    replace (a ++ c :: z) with ((a ++ [c]) ++ z) by (by rewrite <- app_assoc).
    replace (b ++ (c :: l) ++ 0 :: r) with ((b ++ [c]) ++ l ++ 0 :: r) by (by rewrite <- app_assoc).
    replace (msize a + 1) with (msize (a ++ [c])) by (unfold msize; rewrite length_app; simpl; lia).
    replace (msize b + 1) with (msize (b ++ [c])) by (unfold msize; rewrite length_app; simpl; lia).
    rewrite IH by (done || lia). cbn [length].
    destruct (decide (length l < n)%nat), (decide (S (length l) < S n)%nat); try lia; rewrite <- !app_assoc; simpl;
      unfold msize; rewrite !length_app; simpl; do 3 f_equal; try lia; f_equal; lia.
Qed.

Lemma strlcpy_rest_spec fuel b l r :
  Forall (fun c => c <> 0) l -> (length l < fuel)%nat ->
  strlcpy_rest fuel (b ++ l ++ 0 :: r) (msize b) = Some (msize b + msize l + 1).
Proof.
  intros Hl. revert fuel b. induction Hl as [|c l Hc _ IH]; intros [|fuel] b Hf; simpl in Hf; try lia; cbn [strlcpy_rest];
    pose proof (rd_app_r b) as E.
  - specialize (E ([] ++ 0 :: r) 0 ltac:(lia)). rewrite Z.add_0_r in E. rewrite E.
    change (rd ([] ++ 0 :: r) 0) with (Some 0). cbn [mbind option_bind Z.eqb]. change (msize []) with 0. f_equal. lia.
  - specialize (E ((c :: l) ++ 0 :: r) 0 ltac:(lia)). rewrite Z.add_0_r in E. rewrite E.
    change (rd ((c :: l) ++ 0 :: r) 0) with (Some c). cbn [mbind option_bind].
    destruct (Z.eqb_spec c 0); [done|].
    replace (b ++ (c :: l) ++ 0 :: r) with ((b ++ [c]) ++ l ++ 0 :: r) by (by rewrite <- app_assoc).
    replace (msize b + 1) with (msize (b ++ [c])) by (unfold msize; rewrite length_app; simpl; lia).
    rewrite IH by lia. f_equal. unfold msize. rewrite length_app. simpl. lia.
Qed.

(** A copy into [len + 1] bytes holds the first [len] characters. *)
Lemma strlcpy_spec dst m len :
  has_nul m -> 0 <= len -> msize dst = len + 1 ->
  exists dst', compat_strlcpy dst m (len + 1) = Some (dst', msize (cstr m)) /\
    cstr dst' = take (Z.to_nat len) (cstr m).
Proof.
  intros Hm Hlen Hd. pose proof (cstr_nonzero m) as Hnz. destruct (cstr_split m Hm) as [r E].
  set (l := cstr m) in *. clearbody l. subst m. unfold compat_strlcpy. replace (len + 1 - 1) with len by lia.
  pose proof (strlcpy_copy_spec (Z.to_nat len) l r [] dst [] Hnz) as Hc.
  unfold msize in Hd. cbn [app] in Hc. change (msize []) with 0 in Hc.
  destruct (decide (length l < Z.to_nat len)%nat) as [Hlt|Hge].
  - rewrite Hc by lia. cbn [mbind option_bind]. eexists. split; [f_equal; f_equal; lia|].
    rewrite cstr_app by done. simpl. rewrite app_nil_r, take_ge; [done|lia].
  - rewrite Hc by lia. cbn [mbind option_bind]. rewrite Z2Nat.id by lia. destruct (Z.eqb_spec (len + 1) 0) as [|_]; [lia|]. cbn [negb].
    set (n := Z.to_nat len) in *. assert (length (take n l) = n) as Ht by (rewrite length_take; lia).
    assert (wr (take n l ++ drop n dst) (0 + len) 0 = Some (take n l ++ [0])) as ->.
    { unfold wr, msize. rewrite length_app, Ht, length_drop.
      destruct (Z.leb_spec 0 (0 + len)), (Z.ltb_spec (0 + len) (Z.of_nat (n + (length dst - n)))); try lia. cbn [andb].
      replace (Z.to_nat (0 + len)) with n by lia. rewrite insert_app_r_alt, Ht, Nat.sub_diag by lia.
      assert (length (drop n dst) = 1%nat) as H1 by (rewrite length_drop; lia). destruct (drop n dst) as [|x [|]]; done. }
    cbn [mbind option_bind]. replace (l ++ 0 :: r) with (take n l ++ drop n l ++ 0 :: r) by (by rewrite app_assoc, take_drop).
    replace (0 + len) with (msize (take n l)) by (unfold msize; lia).
    rewrite strlcpy_rest_spec; [|by apply Forall_drop|rewrite !length_app, length_drop; simpl; lia].
    cbn [mbind option_bind]. eexists. split; [f_equal; f_equal; unfold msize; rewrite Ht, length_drop; lia|].
    rewrite cstr_app by (by apply Forall_take). simpl. by rewrite app_nil_r.
Qed.

Lemma strlcpy_copy_length n dst d src s dst' d' s' b :
  strlcpy_copy n dst d src s = Some (dst', d', s', b) -> length dst' = length dst.
Proof.
  revert dst d s. induction n as [|n IH]; intros dst d s; cbn [strlcpy_copy]; [by intros [= <- _ _ _]|]. intros H.
  apply bind_Some in H as (c & _ & H). apply bind_Some in H as (dst1 & Hw & H). apply wr_size in Hw. unfold msize in Hw.
  assert (length dst1 = length dst) by lia. destruct (c =? 0); [injection H as <- _ _ _; done|]. apply IH in H. lia.
Qed.

Lemma strlcpy_length dst src siz dst' r : compat_strlcpy dst src siz = Some (dst', r) -> length dst' = length dst.
Proof.
  unfold compat_strlcpy. intros H. apply bind_Some in H as ([[[dst1 d] s] nul] & Hc & H). apply strlcpy_copy_length in Hc.
  destruct nul; [injection H as <- _; done|]. apply bind_Some in H as (dst2 & Hw & H). apply bind_Some in H as (s' & _ & H). injection H as <- _.
  destruct (negb _); [apply wr_size in Hw; unfold msize in Hw; lia|congruence].
Qed.

(** A string that is shorter than its memory ends in it. *)
Lemma short_has_nul m : (length (cstr m) < length m)%nat -> has_nul m.
Proof.
  unfold has_nul. induction m as [|c m IH]; simpl; [lia|]. destruct (Z.eqb_spec c 0) as [->|]; [left|]. simpl. intros H. right. apply IH. lia.
Qed.

(** Without a NUL the copy runs off the memory. *)
Lemma strlcpy_rest_over fuel src s : ~ has_nul src -> strlcpy_rest fuel src s = None.
Proof.
  intros Hn. revert s. induction fuel as [|fuel IH]; intros s; [done|]. cbn [strlcpy_rest].
  destruct (rd src s) as [c|] eqn:E; cbn [mbind option_bind]; [|done]. destruct (Z.eqb_spec c 0) as [->|]; [|apply IH].
  destruct Hn. unfold rd in E. destruct (0 <=? s); [|done]. by eapply list_elem_of_lookup_2.
Qed.

Lemma strlcpy_over dst src siz : ~ has_nul src -> compat_strlcpy dst src siz = None.
Proof.
  intros Hn. unfold compat_strlcpy.
  assert (forall n dst d s r, strlcpy_copy n dst d src s = Some r -> snd r = false) as Hcopy.
  { induction n as [|n IH]; intros d1 d s r; cbn [strlcpy_copy]; [by intros [= <-]|].
    destruct (rd src s) as [c|] eqn:E; cbn [mbind option_bind]; [|done].
    destruct (wr d1 d c); cbn [mbind option_bind]; [|done]. destruct (Z.eqb_spec c 0) as [->|]; [|apply IH].
    destruct Hn. unfold rd in E. destruct (0 <=? s); [|done]. by eapply list_elem_of_lookup_2. }
  destruct (strlcpy_copy _ dst 0 src 0) as [[[[d1 d] s] nul]|] eqn:E; [|done]. apply Hcopy in E. simpl in E. subst nul.
  cbn [mbind option_bind]. destruct (if negb (siz =? 0) then _ else _); [|done]. cbn [mbind option_bind].
  by rewrite strlcpy_rest_over.
Qed.

(** ** strlcat.c *)

(** [strlen(3)] *)
Definition strlen (m : list Z) : option Z := if decide (0 ∈ m) then Some (msize (cstr m)) else None.

(** The end of [dst] within [n] bytes. *)
Fixpoint strlcat_end (n : nat) (dst : list Z) (d : Z) : option Z :=
  match n with
  | O => Some d
  | S n => c ← rd dst d; if c =? 0 then Some d else strlcat_end n dst (d + 1)
  end.

(** [while] over [src]; there is a byte less to go each time. *)
Fixpoint strlcat_loop (fuel : nat) (dst : list Z) (d : Z) (src : list Z) (s n : Z) : option (list Z * Z * Z) :=
  match fuel with
  | O => None
  | S fuel =>
      c ← rd src s;
      if c =? 0 then Some (dst, d, s)
      else if negb (n =? 1) then dst ← wr dst d c; strlcat_loop fuel dst (d + 1) src (s + 1) (n - 1)
      else strlcat_loop fuel dst d src (s + 1) n
  end.

Definition compat_strlcat (dst src : list Z) (siz : Z) : option (list Z * Z) :=
  dlen ← strlcat_end (Z.to_nat siz) dst 0;
  let n := siz - dlen in
  if n =? 0 then len ← strlen src; Some (dst, dlen + len)
  else
    '(dst, d, s) ← strlcat_loop (S (length src)) dst dlen src 0 n;
    dst ← wr dst d 0;
    Some (dst, dlen + s).

Lemma wr_app a x z c : wr (a ++ x :: z) (msize a) c = Some (a ++ c :: z).
Proof.
  unfold wr, msize. rewrite length_app. cbn [length].
  destruct (Z.leb_spec 0 (Z.of_nat (length a))), (Z.ltb_spec (Z.of_nat (length a)) (Z.of_nat (length a + S (length z)))); try lia.
  cbn [andb]. by rewrite Nat2Z.id, insert_app_r_alt, Nat.sub_diag by lia.
Qed.

Lemma rd_app_hd b c r : rd (b ++ c :: r) (msize b) = Some c.
Proof. pose proof (rd_app_r b (c :: r) 0 ltac:(lia)) as E. rewrite Z.add_0_r in E. by rewrite E. Qed.

Lemma msize_snoc b c : msize (b ++ [c]) = msize b + 1.
Proof. unfold msize. rewrite length_app. simpl. lia. Qed.

Lemma strlcat_end_spec n m b :
  (n <= length m)%nat -> strlcat_end n (b ++ m) (msize b) = Some (msize b + msize (cstr (take n m))).
Proof.
  revert m b. induction n as [|n IH]; intros m b Hn; cbn [strlcat_end].
  { change (msize (cstr (take 0 m))) with 0. f_equal. lia. }
  destruct m as [|c m]; [simpl in Hn; lia|]. rewrite rd_app_hd. cbn [mbind option_bind take cstr].
  destruct (Z.eqb_spec c 0) as [->|Hc]; [change (msize []) with 0; f_equal; lia|].
  replace (b ++ c :: m) with ((b ++ [c]) ++ m) by (by rewrite <- app_assoc). rewrite <- (msize_snoc b c), IH by (simpl in Hn; lia).
  rewrite msize_snoc. unfold msize. simpl. f_equal. lia.
Qed.

Lemma strlcat_loop_spec fuel l r a z b n :
  Forall (fun c => c <> 0) l -> (length l < fuel)%nat -> (0 < n <= length z)%nat ->
  strlcat_loop fuel (a ++ z) (msize a) (b ++ l ++ 0 :: r) (msize b) (Z.of_nat n) =
    Some (a ++ take (n - 1) l ++ drop (min (n - 1) (length l)) z, msize a + Z.of_nat (min (n - 1) (length l)), msize b + msize l).
Proof.
  intros Hl. revert fuel a z b n. induction Hl as [|c l Hc _ IH]; intros [|fuel] a z b n Hf Hn; simpl in Hf; try lia; cbn [strlcat_loop].
  - cbn [app]. rewrite rd_app_hd. cbn [mbind option_bind Z.eqb]. rewrite take_nil, Nat.min_0_r. change (msize []) with 0. by rewrite !Z.add_0_r.
  - cbn [app]. rewrite rd_app_hd. cbn [mbind option_bind]. destruct (Z.eqb_spec c 0); [done|].
    replace (b ++ c :: l ++ 0 :: r) with ((b ++ [c]) ++ l ++ 0 :: r) by (by rewrite <- app_assoc). rewrite <- !(msize_snoc b c).
    assert (msize (c :: l) = 1 + msize l) as Ecl by (unfold msize; simpl; lia).
    destruct (Z.eqb_spec (Z.of_nat n) 1) as [E|E]; cbn [negb].
    + rewrite IH by lia. rewrite msize_snoc, Ecl. replace n with 1%nat by lia. simpl. do 2 f_equal. lia.
    + destruct z as [|x z]; [simpl in Hn; lia|]. rewrite wr_app. cbn [mbind option_bind].
      replace (a ++ c :: z) with ((a ++ [c]) ++ z) by (by rewrite <- app_assoc). rewrite <- (msize_snoc a c).
      replace (Z.of_nat n - 1) with (Z.of_nat (n - 1)) by lia. rewrite IH by (simpl in Hn; lia). rewrite !msize_snoc, Ecl.
      destruct n as [|[|n]]; [lia|lia|]. rewrite <- app_assoc. simpl. rewrite Nat.sub_0_r. f_equal. f_equal; [f_equal; lia|lia].
Qed.

Lemma cstr_prefix n m : exists z, m = cstr (take n m) ++ z.
Proof.
  revert n. induction m as [|c m IH]; intros n; [exists []; by destruct n|]. destruct n as [|n]; [by exists (c :: m)|].
  cbn [take cstr]. destruct (c =? 0); [by eexists|]. destruct (IH n) as [z Hz]. exists z. simpl. by f_equal.
Qed.

(** Concatenation in [siz] bytes: as much of [src] as fits, behind the string that is there
    and with a NUL at the end, or nothing if there is none; the length it would have. *)
Theorem strlcat_concatenates dst src siz :
  has_nul src -> 0 <= siz <= msize dst ->
  let l := cstr (take (Z.to_nat siz) dst) in
  exists dst', compat_strlcat dst src siz = Some (dst', msize l + msize (cstr src)) /\
    (siz <= msize l -> dst' = dst) /\
    (msize l < siz -> cstr dst' = l ++ take (Z.to_nat (siz - 1 - msize l)) (cstr src)) /\
    length dst' = length dst /\ drop (Z.to_nat siz) dst' = drop (Z.to_nat siz) dst.
Proof.
  intros Hs Hsiz l. unfold compat_strlcat. pose proof (strlcat_end_spec (Z.to_nat siz) dst [] ltac:(unfold msize in Hsiz; lia)) as E.
  cbn [app] in E. change (msize []) with 0 in E. fold l in E. rewrite Z.add_0_l in E. rewrite E. cbn [mbind option_bind].
  assert (exists z, dst = l ++ z) as [z Hz].
  { apply cstr_prefix. }
  assert (msize l <= siz) as Hle.
  { unfold l, msize. assert (forall x, (length (cstr x) <= length x)%nat) as Hc.
    { clear. induction x as [|c x IH]; simpl; [done|]. destruct (c =? 0); simpl; lia. }
    specialize (Hc (take (Z.to_nat siz) dst)). rewrite length_take in Hc. lia. }
  assert (Forall (fun c => c <> 0) l) as Hl by apply cstr_nonzero. clearbody l. subst dst.
  destruct (cstr_split src Hs) as [r Er]. destruct (Z.eqb_spec (siz - msize l) 0) as [E0|E0].
  - unfold strlen. rewrite decide_True by done. cbn [mbind option_bind]. eexists. split; [done|]. split_and!; [done|lia|done|done].
  - pose proof (cstr_nonzero src) as Hnz. set (q := cstr src) in *. clearbody q. subst src.
    set (n := Z.to_nat (siz - msize l)). replace (siz - msize l) with (Z.of_nat n) by lia.
    unfold msize in Hsiz, Hle, E0, n. rewrite length_app in Hsiz.
    rewrite (strlcat_loop_spec _ q r l z [] n Hnz); [|rewrite length_app; simpl; lia|lia]. cbn [mbind option_bind].
    assert (n - 1 < length z)%nat as Hnz' by lia. set (k := min (n - 1) (length q)).
    destruct (drop k z) as [|x z'] eqn:Ed; [apply (f_equal length) in Ed; rewrite length_drop in Ed; simpl in Ed; lia|].
    assert (msize l + Z.of_nat k = msize (l ++ take (n - 1) q)) as -> by (unfold msize; rewrite length_app, length_take; lia).
    rewrite app_assoc, wr_app. cbn [mbind option_bind]. eexists. split; [done|].
    assert (drop (S k) z = z') as Ez' by (rewrite <- Nat.add_1_r, <- drop_drop, Ed; done). split_and!.
    + unfold msize. lia.
    + intros _. rewrite cstr_app by (apply Forall_app; split; [done|by apply Forall_take]). simpl. rewrite app_nil_r.
      do 2 f_equal. unfold n, msize. lia.
    + rewrite !length_app, length_take. apply (f_equal length) in Ed. rewrite length_drop in Ed. cbn [length] in *. lia.
    + rewrite <- app_assoc. rewrite !drop_app, !(drop_ge l) by lia. cbn [app]. rewrite (drop_ge (take (n - 1) q)) by (rewrite length_take; lia).
      cbn [app]. rewrite length_take. rewrite <- (take_drop k z) at 1. rewrite drop_app, Ed, length_take.
      destruct (Nat.le_gt_cases n k); [lia|]. rewrite (drop_ge (take k z)) by (rewrite length_take; lia). cbn [app].
      replace (Z.to_nat siz - length l - min (n - 1) (length q))%nat with (S (Z.to_nat siz - length l - k - 1)) by lia.
      replace (Z.to_nat siz - length l - min k (length z))%nat with (S (Z.to_nat siz - length l - k - 1)) by lia. done.
Qed.

Lemma strlcat_concatenates_witness :
  compat_strlcat [97; 0; 0; 0; 9] [98; 99; 100; 0] 4 = Some ([97; 98; 99; 0; 9], 4) /\
  exists dst', compat_strlcat [97; 0; 0; 0; 9] [98; 99; 100; 0] 4 = Some (dst', 4) /\ cstr dst' = [97; 98; 99].
Proof.
  split; [done|]. destruct (strlcat_concatenates [97; 0; 0; 0; 9] [98; 99; 100; 0] 4) as (dst' & E & _ & H & _);
    [by apply (bool_decide_unpack _); vm_compute|by vm_compute|]. exists dst'. split; [exact E|by apply H].
Defined.
