(* ===== verification/Search.v ===== *)
(** * Binary search

    [bsearch(3)] is any function that keeps the promise the C standard makes ([Bsearch]);
    theorems about its users hold for all of them, and [binary_search] is one. *)

From S2P Require Import Prelude Compat.

(** ** bsearch(3)

    The comparison is the one with the key, and the result an index. *)

(** What the array must be like: elements below the key, equal to it, above it. *)
Definition partitioned {A} (cmp : A -> Z) (l : list A) : Prop :=
  forall i j x y, (i < j)%nat -> l !! i = Some x -> l !! j = Some y ->
    (cmp x < 0 -> cmp y < 0) /\ (cmp x = 0 -> cmp y <= 0).

Class Bsearch (bsearch : forall A, (A -> Z) -> list A -> option nat) : Prop := {
  bsearch_promise A (cmp : A -> Z) (l : list A) :
    partitioned cmp l ->
    match bsearch A cmp l with
    | Some i => exists x, l !! i = Some x /\ cmp x = 0
    | None => forall x, x ∈ l -> cmp x <> 0
    end;
}.

(** The search that halves the range from [lo] to [hi], which are [fuel] apart at most. *)
Fixpoint binary_loop {A} (fuel : nat) (cmp : A -> Z) (l : list A) (lo hi : nat) : option nat :=
  match fuel with
  | O => None
  | S fuel =>
      if (lo <? hi)%nat then
        let i := ((lo + hi) / 2)%nat in
        x ← l !! i;
        if cmp x <? 0 then binary_loop fuel cmp l lo i
        else if 0 <? cmp x then binary_loop fuel cmp l (S i) hi
        else Some i
      else None
  end.

Definition binary_search (A : Type) (cmp : A -> Z) (l : list A) : option nat :=
  binary_loop (S (length l)) cmp l 0 (length l).

Lemma binary_loop_spec {A} fuel (cmp : A -> Z) (l : list A) lo hi :
  partitioned cmp l -> (hi <= length l)%nat -> (hi < lo + fuel)%nat ->
  (forall i x, l !! i = Some x -> cmp x = 0 -> (lo <= i < hi)%nat) ->
  match binary_loop fuel cmp l lo hi with
  | Some i => exists x, l !! i = Some x /\ cmp x = 0
  | None => forall x, x ∈ l -> cmp x <> 0
  end.
Proof.
  intros Hp. revert lo hi. induction fuel as [|fuel IH]; intros lo hi Hhi Hf Hin; cbn [binary_loop].
  { intros x (i & Hi)%list_elem_of_lookup Hx. specialize (Hin i x Hi Hx). lia. }
  destruct (Nat.ltb_spec lo hi).
  2: { intros x (i & Hi)%list_elem_of_lookup Hx. specialize (Hin i x Hi Hx). lia. }
  assert (lo <= (lo + hi) / 2 < hi)%nat as Hmid
    by (split; [apply Nat.div_le_lower_bound|apply Nat.Div0.div_lt_upper_bound]; lia).
  cbv zeta. set (k := ((lo + hi) / 2)%nat) in *. destruct (lookup_lt_is_Some_2 l k) as [x Hx]; [lia|]. rewrite Hx. cbn [mbind option_bind].
  destruct (Z.ltb_spec (cmp x) 0); [|destruct (Z.ltb_spec 0 (cmp x))].
  - apply IH; [lia..|]. intros i y Hi Hy. pose proof (Hin i y Hi Hy). split; [lia|].
    destruct (decide (i < k)%nat) as [|Hge]; [done|]. assert (i = k \/ k < i)%nat as [->|Hlt] by lia; [simplify_eq; lia|].
    destruct (Hp k i x y Hlt Hx Hi) as [Hneg _]. lia.
  - apply IH; [lia..|]. intros i y Hi Hy. pose proof (Hin i y Hi Hy). split; [|lia].
    destruct (decide (k < i)%nat) as [|Hge]; [lia|]. assert (i = k \/ i < k)%nat as [->|Hlt] by lia; [simplify_eq; lia|].
    destruct (Hp i k y x Hlt Hi Hx) as [_ Hpos]. lia.
  - exists x. split; [done|lia].
Qed.

#[export] Instance binary_search_bsearch : Bsearch binary_search.
Proof.
  split. intros A cmp l Hp. apply binary_loop_spec; [done|lia..|].
  intros i x Hi _. apply lookup_lt_Some in Hi. lia.
Qed.

(** ** Tables of names

    The elements of a table ascend by their names, which are compared by [strcmp] after
    [norm], the identity or [lower]. *)

Section table.
Context {A : Type} (norm : string -> string) (name : A -> string).

(** Each name is below the next one. *)
Fixpoint names_ascend (l : list A) : bool :=
  match l with
  | x :: (y :: _) as l => (strcmp (norm (name x)) (norm (name y)) <? 0) && names_ascend l
  | _ => true
  end.

Lemma names_ascend_lt l i j x y :
  names_ascend l = true -> (i < j)%nat -> l !! i = Some x -> l !! j = Some y -> strcmp (norm (name x)) (norm (name y)) < 0.
Proof.
  revert i j x y. induction l as [|a l IH]; intros i j x y Ha Hij Hx Hy; [done|].
  destruct l as [|b l]; [destruct j as [|[]]; [lia|done..]|]. cbn [names_ascend] in Ha.
  apply andb_true_iff in Ha as [Hab%Z.ltb_lt Ha]. destruct j as [|j]; [lia|]. simpl in Hy. destruct i as [|i]; simpl in Hx.
  - injection Hx as <-. destruct j as [|j]; [by injection Hy as <-|].
    eapply strcmp_lt_trans; [exact Hab|]. by apply (IH 0%nat (S j)); [done|lia|..].
  - by apply (IH i j); [done|lia|..].
Qed.

Lemma names_partitioned l s : names_ascend l = true -> partitioned (fun x => strcmp (norm s) (norm (name x))) l.
Proof.
  intros Ha i j x y Hij Hx Hy. pose proof (names_ascend_lt _ _ _ _ _ Ha Hij Hx Hy) as Hlt.
  split; intros H; [by eapply strcmp_lt_trans|]. apply strcmp_eq in H as ->. lia.
Qed.

(** The name of an element determines its place. *)
Lemma names_unique l i j x y :
  names_ascend l = true -> l !! i = Some x -> l !! j = Some y -> norm (name x) = norm (name y) -> i = j.
Proof.
  intros Ha Hx Hy E. assert (strcmp (norm (name x)) (norm (name y)) = 0) as H0 by (by apply strcmp_eq).
  destruct (decide (i < j)%nat) as [H|H]; [pose proof (names_ascend_lt _ _ _ _ _ Ha H Hx Hy); lia|].
  destruct (decide (j < i)%nat) as [H'|H']; [|lia].
  pose proof (names_ascend_lt _ _ _ _ _ Ha H' Hy Hx). pose proof (strcmp_antisym (norm (name x)) (norm (name y))). lia.
Qed.

(** What any search finds in a table. *)
Lemma names_search bsearch `{!Bsearch bsearch} l s cmp :
  names_ascend l = true -> (forall x, cmp x = strcmp (norm s) (norm (name x))) ->
  match bsearch A cmp l with
  | Some i => exists x, l !! i = Some x /\ norm (name x) = norm s
  | None => forall x, x ∈ l -> norm (name x) <> norm s
  end.
Proof.
  intros Ha Hc. assert (partitioned cmp l) as Hp.
  { intros i j x y Hij Hx Hy. rewrite !Hc. by apply (names_partitioned l s Ha i j). }
  pose proof (bsearch_promise _ _ _ Hp) as Hs. destruct (bsearch A cmp l) as [i|].
  - destruct Hs as (x & Hx & E). exists x. split; [done|]. rewrite Hc in E. by apply strcmp_eq in E.
  - intros x Hx E. apply (Hs x Hx). rewrite Hc. by apply strcmp_eq.
Qed.

End table.
