(* ===== verification/Bytes.v ===== *)
(** * Byte order conversions

    Models [include/peak_type.h]: byte swaps, the little- and big-endian
    decoders and encoders every protocol header of the library is read with,
    and the serial-number comparison [wrap32].  A decoder reads memory at a
    pointer and an encoder stores to it, so both are partial: [None] is an
    access outside the buffer.  [le_val] and [be_val] are the specification the
    decoders are proved to implement. *)

From S2P Require Import Prelude.

(** ** peak_type.h *)

Definition peak_bswap16 (u : Z) : Z := u16 ((u ≪ 8) .| (u ≫ 8)).

Definition peak_bswap32 (u : Z) : Z :=
  u32 (u32 (peak_bswap16 (u16 u) ≪ 16) .| peak_bswap16 (u16 (u ≫ 16))).

Definition peak_bswap64 (u : Z) : Z :=
  u64 (u64 (peak_bswap32 (u32 u) ≪ 32) .| peak_bswap32 (u32 (u ≫ 32))).

Definition peak_le16dec (m : list Z) (p : Z) : option Z :=
  p1 ← rd m (p + 1); p0 ← rd m p;
  Some (u16 ((p1 ≪ 8) .| p0)).

Definition peak_le16enc (m : list Z) (p u : Z) : option (list Z) :=
  m ← wr m p (u8 u);
  wr m (p + 1) (u8 (u ≫ 8)).

Definition peak_le32dec (m : list Z) (p : Z) : option Z :=
  p3 ← rd m (p + 3); p2 ← rd m (p + 2); p1 ← rd m (p + 1); p0 ← rd m p;
  Some (u32 (((p3 ≪ 24) .| (p2 ≪ 16) .| (p1 ≪ 8)) .| p0)).

Definition peak_le32enc (m : list Z) (p u : Z) : option (list Z) :=
  m ← wr m p (u8 u);
  m ← wr m (p + 1) (u8 (u ≫ 8));
  m ← wr m (p + 2) (u8 (u ≫ 16));
  wr m (p + 3) (u8 (u ≫ 24)).

Definition peak_le64dec (m : list Z) (p : Z) : option Z :=
  hi ← peak_le32dec m (p + 4); lo ← peak_le32dec m p;
  Some (u64 (u64 (hi ≪ 32) .| lo)).

Definition peak_le64enc (m : list Z) (p u : Z) : option (list Z) :=
  m ← peak_le32enc m p (u32 u);
  peak_le32enc m (p + 4) (u32 (u ≫ 32)).

Definition peak_be16dec (m : list Z) (p : Z) : option Z :=
  p1 ← rd m (p + 1); p0 ← rd m p;
  Some (u16 (p1 .| (p0 ≪ 8))).

Definition peak_be16enc (m : list Z) (p u : Z) : option (list Z) :=
  m ← wr m p (u8 (u ≫ 8));
  wr m (p + 1) (u8 u).

Definition peak_be32dec (m : list Z) (p : Z) : option Z :=
  p0 ← rd m p; p1 ← rd m (p + 1); p2 ← rd m (p + 2); p3 ← rd m (p + 3);
  Some (u32 (((p0 ≪ 24) .| (p1 ≪ 16) .| (p2 ≪ 8)) .| p3)).

Definition peak_be32enc (m : list Z) (p u : Z) : option (list Z) :=
  m ← wr m p (u8 (u ≫ 24));
  m ← wr m (p + 1) (u8 (u ≫ 16));
  m ← wr m (p + 2) (u8 (u ≫ 8));
  wr m (p + 3) (u8 u).

Definition peak_be64dec (m : list Z) (p : Z) : option Z :=
  hi ← peak_be32dec m p; lo ← peak_be32dec m (p + 4);
  Some (u64 (u64 (hi ≪ 32) .| lo)).

Definition peak_be64enc (m : list Z) (p u : Z) : option (list Z) :=
  m ← peak_be32enc m p (u32 (u ≫ 32));
  peak_be32enc m (p + 4) (u32 u).

(** [wrap32(x)]: the macro's serial-number test, on the difference of two
    serials. *)
Definition wrap16 (x : Z) : bool := (2 ^ 16 - 1) / 2 <? u16 x.
Definition wrap32 (x : Z) : bool := (2 ^ 32 - 1) / 2 <? u32 x.
Definition wrap64 (x : Z) : bool := (2 ^ 64 - 1) / 2 <? u64 x.

(** ** Specification: the value of a byte string *)

Fixpoint le_val (bs : list Z) : Z :=
  match bs with
  | [] => 0
  | b :: bs => b + 256 * le_val bs
  end.

Definition be_val (bs : list Z) : Z := le_val (reverse bs).

(** The [n] low bytes of a value, least significant first. *)
Fixpoint le_bytes (n : nat) (u : Z) : list Z :=
  match n with
  | O => []
  | S n => u mod 256 :: le_bytes n (u / 256)
  end.

(** ** Lemmas on the specification *)

Lemma le_val_fits bs : bytes bs -> fits (8 * Z.of_nat (length bs)) (le_val bs).
Proof.
  induction 1 as [|b bs Hb _ IH]; simpl; [done|].
  unfold fits in *. rewrite Nat2Z.inj_succ.
  replace (8 * Z.succ (Z.of_nat (length bs))) with (8 + 8 * Z.of_nat (length bs)) by lia.
  rewrite Z.pow_add_r by lia. lia.
Qed.

Lemma le_bytes_length n u : length (le_bytes n u) = n.
Proof. revert u. induction n; simpl; auto. Qed.

Lemma le_bytes_bytes n u : bytes (le_bytes n u).
Proof.
  revert u. induction n as [|n IH]; simpl; constructor; [|apply IH].
  apply Z.mod_pos_bound. lia.
Qed.

Lemma le_val_le_bytes n u : fits (8 * Z.of_nat n) u -> le_val (le_bytes n u) = u.
Proof.
  revert u. induction n as [|n IH]; intros u Hu; [unfold fits in Hu; cbn in *; lia|]. simpl.
  rewrite IH.
  - rewrite (Z.div_mod u 256) at 3 by lia. lia.
  - unfold fits in *. split; [apply Z.div_pos; lia|].
    apply Z.div_lt_upper_bound; [lia|].
    replace (8 * Z.of_nat (S n)) with (8 + 8 * Z.of_nat n) in Hu by lia.
    rewrite Z.pow_add_r in Hu by lia. lia.
Qed.

Lemma le_bytes_le_val bs : bytes bs -> le_bytes (length bs) (le_val bs) = bs.
Proof.
  induction 1 as [|b bs Hb _ IH]; simpl; [done|]. unfold fits in Hb.
  replace (b + 256 * le_val bs) with (b + le_val bs * 256) by lia.
  rewrite Z.mod_add, Z.mod_small, Z.div_add, Z.div_small, Z.add_0_l by lia.
  by rewrite IH.
Qed.

(** ** The decoders compute the specification *)

Lemma or2 a b : fits 8 b -> (a ≪ 8) .| b = a * 256 + b.
Proof. intros Hb. by rewrite lor_shiftl_add. Qed.

Lemma or4 a b c d :
  fits 8 b -> fits 8 c -> fits 8 d ->
  ((a ≪ 24) .| (b ≪ 16) .| (c ≪ 8)) .| d =
  a * 2 ^ 24 + b * 2 ^ 16 + c * 2 ^ 8 + d.
Proof.
  intros Hb Hc Hd. rewrite <- !Z.lor_assoc.
  rewrite (lor_shiftl_add c d 8) by (lia || done).
  assert (fits 16 (c * 2 ^ 8 + d)) by (unfold fits in *; lia).
  rewrite (lor_shiftl_add b _ 16) by (lia || done).
  assert (fits 24 (b * 2 ^ 16 + (c * 2 ^ 8 + d))) by (unfold fits in *; lia).
  rewrite lor_shiftl_add by (lia || done). lia.
Qed.

Lemma or_words hi lo :
  fits 32 hi -> fits 32 lo -> u64 (u64 (hi ≪ 32) .| lo) = hi * 2 ^ 32 + lo.
Proof.
  intros Hh Hl. rewrite (wrap_small 64 (hi ≪ 32)).
  2: { rewrite Z.shiftl_mul_pow2 by lia. unfold fits in *. lia. }
  rewrite lor_shiftl_add by (lia || done). apply wrap_small. unfold fits in *. lia.
Qed.

(** Case analysis on the memory reads of a goal, each read a byte. *)
Ltac reads Hm :=
  repeat match goal with
  | |- context [rd ?m ?i] =>
      let b := fresh "b" in let E := fresh "E" in
      destruct (rd m i) as [b|] eqn:E; simpl; [pose proof (rd_byte _ _ _ Hm E)|]
  end.

Ltac norm_offs := repeat match goal with
  | |- context [?p + ?a + ?b] =>
      let c := eval vm_compute in (a + b) in
      replace (p + a + b) with (p + c) by lia
  end.

Lemma le16dec_spec m p : bytes m -> peak_le16dec m p = le_val <$> rd_n m p 2.
Proof.
  intros Hm. unfold peak_le16dec. simpl. norm_offs. reads Hm; try done.
  rewrite or2 by done. f_equal. rewrite wrap_small; [lia|]. unfold fits in *; lia.
Qed.

Lemma le32dec_spec m p : bytes m -> peak_le32dec m p = le_val <$> rd_n m p 4.
Proof.
  intros Hm. unfold peak_le32dec. simpl. norm_offs. reads Hm; try done.
  rewrite or4 by done. f_equal. rewrite wrap_small; [lia|]. unfold fits in *; lia.
Qed.

Lemma be16dec_spec m p : bytes m -> peak_be16dec m p = be_val <$> rd_n m p 2.
Proof.
  intros Hm. unfold peak_be16dec. simpl. norm_offs. reads Hm; try done.
  rewrite Z.lor_comm, or2 by done. f_equal. rewrite wrap_small; [|unfold fits in *; lia].
  unfold be_val. simpl. lia.
Qed.

Lemma be32dec_spec m p : bytes m -> peak_be32dec m p = be_val <$> rd_n m p 4.
Proof.
  intros Hm. unfold peak_be32dec. simpl. norm_offs. reads Hm; try done.
  rewrite or4 by done. f_equal. rewrite wrap_small; [|unfold fits in *; lia].
  unfold be_val. simpl. lia.
Qed.

Lemma le_val_app l r : le_val (l ++ r) = le_val l + 2 ^ (8 * Z.of_nat (length l)) * le_val r.
Proof.
  induction l as [|b l IH]; simpl; [lia|]. rewrite IH.
  replace (8 * Z.of_nat (S (length l))) with (8 + 8 * Z.of_nat (length l)) by lia.
  rewrite Z.pow_add_r by lia. lia.
Qed.

Lemma le64dec_spec m p : bytes m -> peak_le64dec m p = le_val <$> rd_n m p 8.
Proof.
  intros Hm. unfold peak_le64dec. rewrite !le32dec_spec by done.
  change 8%nat with (4 + 4)%nat. rewrite rd_n_app. change (Z.of_nat 4) with 4.
  destruct (rd_n m p 4) as [l|] eqn:El, (rd_n m (p + 4) 4) as [r|] eqn:Er;
    simpl; try done.
  f_equal. rewrite le_val_app, (rd_n_length _ _ _ _ El).
  pose proof (le_val_fits l (rd_n_bytes _ _ _ _ Hm El)) as Hl.
  pose proof (le_val_fits r (rd_n_bytes _ _ _ _ Hm Er)) as Hr.
  rewrite (rd_n_length _ _ _ _ El) in Hl. rewrite (rd_n_length _ _ _ _ Er) in Hr.
  rewrite or_words by done. change (8 * Z.of_nat 4) with 32. lia.
Qed.

Lemma be64dec_spec m p : bytes m -> peak_be64dec m p = be_val <$> rd_n m p 8.
Proof.
  intros Hm. unfold peak_be64dec. rewrite !be32dec_spec by done.
  change 8%nat with (4 + 4)%nat. rewrite rd_n_app. change (Z.of_nat 4) with 4.
  destruct (rd_n m p 4) as [l|] eqn:El, (rd_n m (p + 4) 4) as [r|] eqn:Er;
    simpl; try done.
  f_equal. unfold be_val. rewrite reverse_app, le_val_app, length_reverse, (rd_n_length _ _ _ _ Er).
  assert (forall x i, rd_n m i 4 = Some x -> fits 32 (le_val (reverse x))) as Hf.
  { intros x i Hx. pose proof (le_val_fits (reverse x)) as H.
    rewrite length_reverse, (rd_n_length _ _ _ _ Hx) in H. apply H.
    by apply Forall_reverse, (rd_n_bytes _ _ _ _ Hm Hx). }
  rewrite or_words by eauto. change (8 * Z.of_nat 4) with 32. lia.
Qed.

(** ** The encoders store the specification *)

Lemma le_bytes_2 u : le_bytes 2 u = [u8 u; u8 (u ≫ 8)].
Proof. simpl. by rewrite shiftr_div. Qed.

Lemma le_bytes_4 u : le_bytes 4 u = [u8 u; u8 (u ≫ 8); u8 (u ≫ 16); u8 (u ≫ 24)].
Proof. simpl. rewrite !shiftr_div, !Z.div_div by lia. done. Qed.

(** The encoders of one store per byte against a block store. *)
Ltac stores :=
  repeat match goal with
  | |- (wr ?m ?p ?b ≫= _) = (wr ?m ?p ?b ≫= _) => destruct (wr m p b); simpl; [|done]
  end;
  match goal with |- wr ?m ?p ?b = _ => by destruct (wr m p b) end.

Lemma le16enc_spec m p u : peak_le16enc m p u = wr_n m p (le_bytes 2 u).
Proof. rewrite le_bytes_2. unfold peak_le16enc. simpl. norm_offs. stores. Qed.

Lemma be16enc_spec m p u : peak_be16enc m p u = wr_n m p (reverse (le_bytes 2 u)).
Proof. rewrite le_bytes_2. unfold peak_be16enc. simpl. norm_offs. stores. Qed.

Lemma le32enc_spec m p u : peak_le32enc m p u = wr_n m p (le_bytes 4 u).
Proof. rewrite le_bytes_4. unfold peak_le32enc. simpl. norm_offs. stores. Qed.

Lemma be32enc_spec m p u : peak_be32enc m p u = wr_n m p (reverse (le_bytes 4 u)).
Proof. rewrite le_bytes_4. unfold peak_be32enc. simpl. norm_offs. stores. Qed.

Lemma le_bytes_wrap n u : le_bytes n (wrap (8 * Z.of_nat n) u) = le_bytes n u.
Proof.
  revert u. induction n as [|n IH]; intros u; [done|]. simpl. unfold wrap.
  replace (8 * Z.of_nat (S n)) with (8 + 8 * Z.of_nat n) by lia.
  rewrite Z.pow_add_r by lia. change (2 ^ 8) with 256.
  assert (0 < 2 ^ (8 * Z.of_nat n)) by (apply Z.pow_pos_nonneg; lia).
  rewrite Z.rem_mul_r by lia. f_equal.
  - rewrite (Z.mul_comm 256), Z.mod_add, Z.mod_mod by lia. done.
  - rewrite (Z.mul_comm 256), Z.div_add, (Z.div_small (u mod 256)), Z.add_0_l by
      (lia || apply Z.mod_pos_bound; lia).
    apply IH.
Qed.

Lemma le_bytes_8 u : le_bytes 8 u = le_bytes 4 (u32 u) ++ le_bytes 4 (u32 (u ≫ 32)).
Proof.
  change 32 with (8 * Z.of_nat 4) at 1 2. rewrite !le_bytes_wrap. simpl.
  by rewrite shiftr_div, !Z.div_div by lia.
Qed.

Lemma le64enc_spec m p u : peak_le64enc m p u = wr_n m p (le_bytes 8 u).
Proof.
  unfold peak_le64enc. rewrite le_bytes_8, wr_n_app, le_bytes_length, le32enc_spec.
  destruct (wr_n m p _); simpl; [|done]. by rewrite le32enc_spec.
Qed.

Lemma be64enc_spec m p u : peak_be64enc m p u = wr_n m p (reverse (le_bytes 8 u)).
Proof.
  unfold peak_be64enc.
  rewrite le_bytes_8, reverse_app, wr_n_app, length_reverse, le_bytes_length, be32enc_spec.
  destruct (wr_n m p _); simpl; [|done]. by rewrite be32enc_spec.
Qed.

(** ** The codec interface

    What a client of the header promises itself: an encoder and a decoder of
    [n] bytes that agree, touch exactly those bytes and fail exactly outside
    the buffer. *)

Class Codec (n : nat) (enc : list Z -> Z -> Z -> option (list Z))
    (dec : list Z -> Z -> option Z) : Prop := {
  codec_enc_in m p u : is_Some (enc m p u) <-> 0 <= p /\ p + Z.of_nat n <= msize m;
  codec_dec_in m p : bytes m -> is_Some (dec m p) <-> 0 <= p /\ p + Z.of_nat n <= msize m;
  codec_put m p u m' :
    bytes m -> fits (8 * Z.of_nat n) u -> enc m p u = Some m' ->
    bytes m' /\ msize m' = msize m /\ dec m' p = Some u /\
    forall j, ~ (p <= j < p + Z.of_nat n) -> rd m' j = rd m j;
  codec_get m p u : bytes m -> dec m p = Some u -> fits (8 * Z.of_nat n) u /\ enc m p u = Some m;
}.

Section codec.
Context {n : nat} {enc : list Z -> Z -> Z -> option (list Z)} {dec : list Z -> Z -> option Z} {C : Codec n enc dec}.

Lemma codec_enc m p u :
  bytes m -> 0 <= p -> p + Z.of_nat n <= msize m -> fits (8 * Z.of_nat n) u ->
  exists m', enc m p u = Some m' /\ bytes m' /\ msize m' = msize m /\ dec m' p = Some u /\
    forall j, ~ (p <= j < p + Z.of_nat n) -> rd m' j = rd m j.
Proof.
  intros Hm H0 H1 Hu. destruct (proj2 (codec_enc_in m p u) (conj H0 H1)) as [m' E]. exists m'. split; [done|].
  by apply (codec_put m p u m' Hm Hu E).
Qed.

Lemma codec_dec m p u :
  bytes m -> 0 <= p -> dec m p = Some u -> fits (8 * Z.of_nat n) u /\ p + Z.of_nat n <= msize m /\ enc m p u = Some m.
Proof.
  intros Hm H0 E. destruct (codec_get m p u Hm E). split_and!; [done| |done]. by apply (codec_dec_in m p Hm), (mk_is_Some _ u).
Qed.

Lemma codec_bound m p : bytes m -> 0 <= p -> p + Z.of_nat n <= msize m -> is_Some (dec m p).
Proof. intros Hm H0 H1. by apply codec_dec_in. Qed.
End codec.

(** A block is written or read where all of it lies in the buffer. *)
Lemma wr_n_in m p bs : (0 < length bs)%nat -> is_Some (wr_n m p bs) <-> 0 <= p /\ p + Z.of_nat (length bs) <= msize m.
Proof.
  intros Hn. split; [|intros [H0 H1]; destruct (wr_n_spec m p bs H0 H1) as (m' & -> & _); by eexists].
  revert m p Hn. induction bs as [|b bs IH]; intros m p Hn [m' H]; cbn [wr_n length] in *; [lia|].
  destruct (wr m p b) as [m1|] eqn:E; [|done]. cbn [mbind option_bind] in H. unfold wr in E.
  destruct (Z.leb_spec 0 p), (Z.ltb_spec p (msize m)); try done. injection E as <-. unfold msize in *.
  destruct bs as [|c bs]; [cbn; lia|]. specialize (IH _ (p + 1) ltac:(cbn; lia) (mk_is_Some _ _ H)). rewrite length_insert in IH. cbn [length] in *. lia.
Qed.

Lemma rd_n_in m p n : (0 < n)%nat -> is_Some (rd_n m p n) <-> 0 <= p /\ p + Z.of_nat n <= msize m.
Proof.
  intros Hn. split; [|intros [H0 H1]; destruct (rd_n_is_Some m p n H0 H1) as (bs & -> & _); by eexists].
  intros [bs H]. assert (0 <= p) as Hp; [|split; [done|by eapply rd_n_inv]].
  destruct n as [|n]; [lia|]. cbn [rd_n] in H. destruct (rd m p) eqn:E; [|done]. by apply rd_bound in E as [].
Qed.

(** Any pair that stores and reads the [n] bytes of a value in an order given
    by an involution [ord] is a codec. *)
Lemma codec_of_spec n (ord : list Z -> list Z) enc dec :
  (0 < n)%nat ->
  (forall l, ord (ord l) = l) -> (forall l, length (ord l) = length l) ->
  (forall l, bytes l -> bytes (ord l)) ->
  (forall m p u, enc m p u = wr_n m p (ord (le_bytes n u))) ->
  (forall m p, bytes m -> dec m p = (fun bs => le_val (ord bs)) <$> rd_n m p n) ->
  Codec n enc dec.
Proof.
  intros Hn Hinv Hlen Hb Henc Hdec.
  assert (forall u, length (ord (le_bytes n u)) = n) as Hl by (intros u; by rewrite Hlen, le_bytes_length). split.
  - intros m p u. rewrite Henc, wr_n_in; rewrite Hl; done.
  - intros m p Hm. rewrite Hdec, fmap_is_Some by done. by apply rd_n_in.
  - intros m p u m' Hm Hu E. rewrite Henc in E.
    destruct (proj1 (wr_n_in m p (ord (le_bytes n u)) ltac:(by rewrite Hl)) (mk_is_Some _ _ E)) as [Hp Hsz].
    destruct (wr_n_spec m p _ Hp Hsz) as (m1 & Hw & Hs & Hj). rewrite Hw in E. injection E as ->. rewrite Hl in Hj.
    assert (bytes m') as Hm' by (eapply wr_n_bytes; [done|apply Hb, le_bytes_bytes|done]).
    split_and!; [done..| |].
    + rewrite Hdec by done. rewrite (rd_n_eq _ _ _ (ord (le_bytes n u))) by (done || intros k Hk; rewrite Hj, decide_True by lia; f_equal; lia).
      simpl. by rewrite Hinv, le_val_le_bytes.
    + intros j Hout. by rewrite Hj, decide_False by lia.
  - intros m p u Hm Hd. rewrite Hdec in Hd by done. apply fmap_Some in Hd as (bs & Hr & ->).
    destruct (proj1 (rd_n_in m p n Hn) (mk_is_Some _ _ Hr)) as [Hp _].
    pose proof (rd_n_length _ _ _ _ Hr) as Hlb. pose proof (rd_n_bytes _ _ _ _ Hm Hr) as Hbs. split.
    + pose proof (le_val_fits (ord bs) (Hb _ Hbs)) as Hf. by rewrite Hlen, Hlb in Hf.
    + rewrite Henc. rewrite <- Hlb at 1. rewrite <- Hlen at 1.
      rewrite le_bytes_le_val, Hinv by auto. by eapply wr_n_rd_n.
Qed.

#[export] Instance le16_codec : Codec 2 peak_le16enc peak_le16dec.
Proof. apply (codec_of_spec 2 id); auto using le16enc_spec, le16dec_spec with lia. Qed.
#[export] Instance le32_codec : Codec 4 peak_le32enc peak_le32dec.
Proof. apply (codec_of_spec 4 id); auto using le32enc_spec, le32dec_spec with lia. Qed.
#[export] Instance le64_codec : Codec 8 peak_le64enc peak_le64dec.
Proof. apply (codec_of_spec 8 id); auto using le64enc_spec, le64dec_spec with lia. Qed.
Lemma bytes_reverse l : bytes l -> bytes (reverse l).
Proof. apply Forall_reverse. Qed.

#[export] Instance be16_codec : Codec 2 peak_be16enc peak_be16dec.
Proof.
  apply (codec_of_spec 2 reverse); auto using be16enc_spec, be16dec_spec, reverse_involutive,
    length_reverse, bytes_reverse with lia.
Qed.
#[export] Instance be32_codec : Codec 4 peak_be32enc peak_be32dec.
Proof.
  apply (codec_of_spec 4 reverse); auto using be32enc_spec, be32dec_spec, reverse_involutive,
    length_reverse, bytes_reverse with lia.
Qed.
#[export] Instance be64_codec : Codec 8 peak_be64enc peak_be64dec.
Proof.
  apply (codec_of_spec 8 reverse); auto using be64enc_spec, be64dec_spec, reverse_involutive,
    length_reverse, bytes_reverse with lia.
Qed.

(** ** Byte swaps *)

Lemma bswap16_val u : fits 16 u -> peak_bswap16 u = u mod 256 * 256 + u / 256.
Proof.
  intros Hu. unfold peak_bswap16. rewrite lor_shiftl_add by
    (try (rewrite shiftr_div by lia); width_lia). width_lia.
Qed.

Lemma bswap16_fits u : fits 16 u -> fits 16 (peak_bswap16 u).
Proof. intros Hu. by apply wrap_bound. Qed.

Lemma bswap32_val u :
  fits 32 u -> peak_bswap32 u = peak_bswap16 (u mod 2 ^ 16) * 2 ^ 16 + peak_bswap16 (u / 2 ^ 16).
Proof.
  intros Hu. unfold peak_bswap32. rewrite shiftr_div by lia.
  assert (fits 16 (u / 2 ^ 16)) as Hh by width_lia.
  rewrite (wrap_small 16 (u / 2 ^ 16)) by done. change (u16 u) with (u mod 2 ^ 16).
  assert (fits 16 (u mod 2 ^ 16)) as Hl by width_lia.
  pose proof (bswap16_fits _ Hh) as H1. pose proof (bswap16_fits _ Hl) as H2.
  rewrite (wrap_small 32 (_ ≪ 16)) by (rewrite Z.shiftl_mul_pow2 by lia; unfold fits in *; lia).
  rewrite lor_shiftl_add by (lia || done). apply wrap_small. unfold fits in *; lia.
Qed.

Lemma bswap64_val u :
  fits 64 u -> peak_bswap64 u = peak_bswap32 (u mod 2 ^ 32) * 2 ^ 32 + peak_bswap32 (u / 2 ^ 32).
Proof.
  intros Hu. unfold peak_bswap64. rewrite shiftr_div by lia.
  assert (fits 32 (u / 2 ^ 32)) as Hh by width_lia.
  rewrite (wrap_small 32 (u / 2 ^ 32)) by done. change (u32 u) with (u mod 2 ^ 32).
  apply or_words; by apply wrap_bound.
Qed.

Lemma bswap16_le_val a b :
  fits 8 a -> fits 8 b -> peak_bswap16 (le_val [a; b]) = be_val [a; b].
Proof.
  intros Ha Hb. rewrite bswap16_val by (simpl; unfold fits in *; lia).
  unfold be_val. simpl. width_lia.
Qed.

(** Splitting a value at a byte boundary. *)
Lemma le_val_split l r :
  bytes l -> let k := 8 * Z.of_nat (length l) in
  le_val (l ++ r) mod 2 ^ k = le_val l /\ le_val (l ++ r) / 2 ^ k = le_val r.
Proof.
  intros Hl k. pose proof (le_val_fits l Hl) as [H0 H1]. fold k in H1.
  rewrite le_val_app. fold k. assert (0 < 2 ^ k) by (apply Z.pow_pos_nonneg; lia).
  rewrite (Z.mul_comm (2 ^ k)). rewrite Z.mod_add, Z.div_add by lia.
  by rewrite Z.mod_small, Z.div_small by lia.
Qed.

Lemma be_val_app l r : be_val (l ++ r) = be_val r + 2 ^ (8 * Z.of_nat (length r)) * be_val l.
Proof. unfold be_val. by rewrite reverse_app, le_val_app, length_reverse. Qed.

Lemma bswap32_le_val bs :
  bytes bs -> length bs = 4%nat -> peak_bswap32 (le_val bs) = be_val bs.
Proof.
  intros Hb Hl. pose proof (le_val_fits bs Hb) as Hf. rewrite Hl in Hf.
  rewrite bswap32_val by done.
  destruct bs as [|a [|b [|c [|d []]]]]; try done.
  apply Forall_cons in Hb as [? [? [? [? _]%Forall_cons]%Forall_cons]%Forall_cons].
  change [a; b; c; d] with ([a; b] ++ [c; d]).
  destruct (le_val_split [a; b] [c; d]) as [E1 E2]; [by repeat (apply Forall_cons_2 || apply Forall_nil_2)|].
  change (8 * Z.of_nat (length [a; b])) with 16 in E1, E2. rewrite E1, E2.
  rewrite !bswap16_le_val, be_val_app by done.
  change (8 * Z.of_nat (length [c; d])) with 16. lia.
Qed.

Lemma bswap64_le_val bs :
  bytes bs -> length bs = 8%nat -> peak_bswap64 (le_val bs) = be_val bs.
Proof.
  intros Hb Hl. pose proof (le_val_fits bs Hb) as Hf. rewrite Hl in Hf.
  rewrite bswap64_val by done.
  rewrite <- (take_drop 4 bs) in Hb |- *. apply Forall_app in Hb as [H1 H2].
  assert (length (take 4 bs) = 4%nat) as L1 by (rewrite length_take; lia).
  assert (length (drop 4 bs) = 4%nat) as L2 by (rewrite length_drop; lia).
  destruct (le_val_split (take 4 bs) (drop 4 bs)) as [E1 E2]; [done|].
  rewrite L1 in E1, E2. change (8 * Z.of_nat 4) with 32 in E1, E2.
  rewrite E1, E2, !bswap32_le_val, be_val_app, L2 by done. lia.
Qed.

Lemma bswap16_le_val' bs :
  bytes bs -> length bs = 2%nat -> peak_bswap16 (le_val bs) = be_val bs.
Proof.
  intros Hb Hl. destruct bs as [|a [|b []]]; try done.
  apply Forall_cons in Hb as [? [? _]%Forall_cons]. by apply bswap16_le_val.
Qed.

(** A decoder that swaps the value of another is the other byte order. *)
Lemma dec_swap m p n swap le be :
  (forall bs, bytes bs -> length bs = n -> swap (le_val bs) = be_val bs) ->
  le = le_val <$> rd_n m p n -> be = be_val <$> rd_n m p n -> bytes m -> be = swap <$> le.
Proof.
  intros Hs -> -> Hm. destruct (rd_n m p n) as [bs|] eqn:E; simpl; [|done].
  f_equal. symmetry. apply Hs; [by eapply rd_n_bytes|by eapply rd_n_length].
Qed.

(** ** Properties *)

(** C26.  Every encoder/decoder pair of peak_type.h (16, 32 and 64 bits, both byte
    orders) is a codec ([Codec]): encoding and decoding succeed exactly when the field lies
    in the buffer, decoding gives the value back, no other byte changes, and encoding
    a decoded value restores the buffer unchanged. *)
Theorem codecs_roundtrip :
  Codec 2 peak_le16enc peak_le16dec /\ Codec 2 peak_be16enc peak_be16dec /\
  Codec 4 peak_le32enc peak_le32dec /\ Codec 4 peak_be32enc peak_be32dec /\
  Codec 8 peak_le64enc peak_le64dec /\ Codec 8 peak_be64enc peak_be64dec.
Proof. split_and!; apply _. Qed.

(** Reading a field big-endian is reading it little-endian and swapping its
    bytes, at every width and every position (in or out of the buffer): what
    the loader relies on for captures of the other byte order. *)
Theorem bswap_decodes m p :
  bytes m ->
  peak_be16dec m p = peak_bswap16 <$> peak_le16dec m p /\
  peak_be32dec m p = peak_bswap32 <$> peak_le32dec m p /\
  peak_be64dec m p = peak_bswap64 <$> peak_le64dec m p.
Proof.
  intros Hm. split_and!.
  - by apply (dec_swap m p 2); auto using bswap16_le_val', le16dec_spec, be16dec_spec.
  - by apply (dec_swap m p 4); auto using bswap32_le_val, le32dec_spec, be32dec_spec.
  - by apply (dec_swap m p 8); auto using bswap64_le_val, le64dec_spec, be64dec_spec.
Qed.

Lemma bswap_decodes_witness :
  bytes [1; 2; 3; 4; 5; 6; 7; 255] /\
  peak_be32dec [1; 2; 3; 4; 5; 6; 7; 255] 4 = Some 0x050607FF.
Proof.
  assert (bytes [1; 2; 3; 4; 5; 6; 7; 255]) as H
    by (repeat constructor; unfold fits; lia).
  split; [exact H|].
  destruct (bswap_decodes _ 4 H) as (_ & E & _). etransitivity; [exact E|reflexivity].
Defined.
