(* ===== verification/Md5.v ===== *)
(** * The MD5 message digest

    Models [contrib/libcompat/md5.c] and [md5.h], and [explicit_bzero.c]: a context that
    takes a message in parts, keeps the bytes that do not fill a block, and is closed with
    padding and the length.  The specification is the algorithm of RFC 1321 on a whole
    message, with its auxiliary functions as they are written there. *)

From S2P Require Import Prelude Bytes.

Definition MD5_BLOCK_LENGTH : Z := 64.
Definition MD5_DIGEST_LENGTH : Z := 16.

(** [u_int32_t state[4]] *)
Record words := Words { w0 : Z; w1 : Z; w2 : Z; w3 : Z }.

Record MD5_CTX := { state : words; count : Z; buffer : list Z }.

Definition with_state (v : words) (ctx : MD5_CTX) : MD5_CTX := {| state := v; count := count ctx; buffer := buffer ctx |}.
Definition with_count (v : Z) (ctx : MD5_CTX) : MD5_CTX := {| state := state ctx; count := v; buffer := buffer ctx |}.
Definition with_buffer (v : list Z) (ctx : MD5_CTX) : MD5_CTX := {| state := state ctx; count := count ctx; buffer := v |}.

(** ** The transformation *)

Definition F1 (x y z : Z) : Z := z .^ (x .& (y .^ z)).
Definition F2 (x y z : Z) : Z := F1 z x y.
Definition F3 (x y z : Z) : Z := (x .^ y) .^ z.
Definition F4 (x y z : Z) : Z := y .^ (x .| u32 (Z.lnot z)).

(** The four variables of the transformation, a step of it with its arguments (the number
    of the word, the constant that is added, the shift), and what the step does. *)
Inductive var := Va | Vb | Vc | Vd.

Definition get (v : var) (r : words) : Z := match v with Va => w0 r | Vb => w1 r | Vc => w2 r | Vd => w3 r end.

Definition put (v : var) (u : Z) (r : words) : words :=
  match v with
  | Va => Words u (w1 r) (w2 r) (w3 r) | Vb => Words (w0 r) u (w2 r) (w3 r)
  | Vc => Words (w0 r) (w1 r) u (w3 r) | Vd => Words (w0 r) (w1 r) (w2 r) u
  end.

Inductive step := MD5STEP (f : Z -> Z -> Z -> Z) (w x y z : var) (k : nat) (t s : Z).

Definition MD5STEP_run (st : step) (in_ : list Z) (r : words) : option words :=
  let '(MD5STEP f w x y z k t s) := st in
  i ← in_ !! k;
  let data := u32 (i + t) in
  let r := put w (u32 (get w r + (f (get x r) (get y r) (get z r) + data))) r in
  let r := put w (u32 (get w r ≪ s) .| (get w r ≫ (32 - s))) r in
  Some (put w (u32 (get w r + get x r)) r).

Fixpoint run_steps (l : list step) (in_ : list Z) (r : words) : option words :=
  match l with [] => Some r | st :: l => r ← MD5STEP_run st in_ r; run_steps l in_ r end.

Definition steps : list step :=
  [
   MD5STEP F1 Va Vb Vc Vd  0 0xd76aa478  7;
   MD5STEP F1 Vd Va Vb Vc  1 0xe8c7b756 12;
   MD5STEP F1 Vc Vd Va Vb  2 0x242070db 17;
   MD5STEP F1 Vb Vc Vd Va  3 0xc1bdceee 22;
   MD5STEP F1 Va Vb Vc Vd  4 0xf57c0faf  7;
   MD5STEP F1 Vd Va Vb Vc  5 0x4787c62a 12;
   MD5STEP F1 Vc Vd Va Vb  6 0xa8304613 17;
   MD5STEP F1 Vb Vc Vd Va  7 0xfd469501 22;
   MD5STEP F1 Va Vb Vc Vd  8 0x698098d8  7;
   MD5STEP F1 Vd Va Vb Vc  9 0x8b44f7af 12;
   MD5STEP F1 Vc Vd Va Vb 10 0xffff5bb1 17;
   MD5STEP F1 Vb Vc Vd Va 11 0x895cd7be 22;
   MD5STEP F1 Va Vb Vc Vd 12 0x6b901122  7;
   MD5STEP F1 Vd Va Vb Vc 13 0xfd987193 12;
   MD5STEP F1 Vc Vd Va Vb 14 0xa679438e 17;
   MD5STEP F1 Vb Vc Vd Va 15 0x49b40821 22;
   MD5STEP F2 Va Vb Vc Vd  1 0xf61e2562  5;
   MD5STEP F2 Vd Va Vb Vc  6 0xc040b340  9;
   MD5STEP F2 Vc Vd Va Vb 11 0x265e5a51 14;
   MD5STEP F2 Vb Vc Vd Va  0 0xe9b6c7aa 20;
   MD5STEP F2 Va Vb Vc Vd  5 0xd62f105d  5;
   MD5STEP F2 Vd Va Vb Vc 10 0x02441453  9;
   MD5STEP F2 Vc Vd Va Vb 15 0xd8a1e681 14;
   MD5STEP F2 Vb Vc Vd Va  4 0xe7d3fbc8 20;
   MD5STEP F2 Va Vb Vc Vd  9 0x21e1cde6  5;
   MD5STEP F2 Vd Va Vb Vc 14 0xc33707d6  9;
   MD5STEP F2 Vc Vd Va Vb  3 0xf4d50d87 14;
   MD5STEP F2 Vb Vc Vd Va  8 0x455a14ed 20;
   MD5STEP F2 Va Vb Vc Vd 13 0xa9e3e905  5;
   MD5STEP F2 Vd Va Vb Vc  2 0xfcefa3f8  9;
   MD5STEP F2 Vc Vd Va Vb  7 0x676f02d9 14;
   MD5STEP F2 Vb Vc Vd Va 12 0x8d2a4c8a 20;
   MD5STEP F3 Va Vb Vc Vd  5 0xfffa3942  4;
   MD5STEP F3 Vd Va Vb Vc  8 0x8771f681 11;
   MD5STEP F3 Vc Vd Va Vb 11 0x6d9d6122 16;
   MD5STEP F3 Vb Vc Vd Va 14 0xfde5380c 23;
   MD5STEP F3 Va Vb Vc Vd  1 0xa4beea44  4;
   MD5STEP F3 Vd Va Vb Vc  4 0x4bdecfa9 11;
   MD5STEP F3 Vc Vd Va Vb  7 0xf6bb4b60 16;
   MD5STEP F3 Vb Vc Vd Va 10 0xbebfbc70 23;
   MD5STEP F3 Va Vb Vc Vd 13 0x289b7ec6  4;
   MD5STEP F3 Vd Va Vb Vc  0 0xeaa127fa 11;
   MD5STEP F3 Vc Vd Va Vb  3 0xd4ef3085 16;
   MD5STEP F3 Vb Vc Vd Va  6 0x04881d05 23;
   MD5STEP F3 Va Vb Vc Vd  9 0xd9d4d039  4;
   MD5STEP F3 Vd Va Vb Vc 12 0xe6db99e5 11;
   MD5STEP F3 Vc Vd Va Vb 15 0x1fa27cf8 16;
   MD5STEP F3 Vb Vc Vd Va  2 0xc4ac5665 23;
   MD5STEP F4 Va Vb Vc Vd  0 0xf4292244  6;
   MD5STEP F4 Vd Va Vb Vc  7 0x432aff97 10;
   MD5STEP F4 Vc Vd Va Vb 14 0xab9423a7 15;
   MD5STEP F4 Vb Vc Vd Va  5 0xfc93a039 21;
   MD5STEP F4 Va Vb Vc Vd 12 0x655b59c3  6;
   MD5STEP F4 Vd Va Vb Vc  3 0x8f0ccc92 10;
   MD5STEP F4 Vc Vd Va Vb 10 0xffeff47d 15;
   MD5STEP F4 Vb Vc Vd Va  1 0x85845dd1 21;
   MD5STEP F4 Va Vb Vc Vd  8 0x6fa87e4f  6;
   MD5STEP F4 Vd Va Vb Vc 15 0xfe2ce6e0 10;
   MD5STEP F4 Vc Vd Va Vb  6 0xa3014314 15;
   MD5STEP F4 Vb Vc Vd Va 13 0x4e0811a1 21;
   MD5STEP F4 Va Vb Vc Vd  4 0xf7537e82  6;
   MD5STEP F4 Vd Va Vb Vc 11 0xbd3af235 10;
   MD5STEP F4 Vc Vd Va Vb  2 0x2ad7d2bb 15;
   MD5STEP F4 Vb Vc Vd Va  9 0xeb86d391 21 ].

(** [memcpy(in, block)]: [n] words from [p] on. *)
Fixpoint words_in (block : list Z) (p : Z) (n : nat) : option (list Z) :=
  match n with
  | O => Some []
  | S n => w ← peak_le32dec block p; ws ← words_in block (p + 4) n; Some (w :: ws)
  end.

(** The block is the one of [m] at [p]. *)
Definition MD5Transform (st : words) (m : list Z) (p : Z) : option words :=
  in_ ← words_in m p 16;
  r ← run_steps steps in_ st;
  Some (Words (u32 (w0 st + w0 r)) (u32 (w1 st + w1 r)) (u32 (w2 st + w2 r)) (u32 (w3 st + w3 r))).

(** ** The context *)

Definition MD5Init (ctx : MD5_CTX) : MD5_CTX :=
  {| state := Words 0x67452301 0xefcdab89 0x98badcfe 0x10325476; count := 0; buffer := buffer ctx |}.

(** The loop over the blocks of the input: the state, the rest of the input. *)
Fixpoint update_loop (n : nat) (st : words) (input : list Z) (p len : Z) : option (words * Z * Z) :=
  match n with
  | O => None
  | S n =>
      if len <? MD5_BLOCK_LENGTH then Some (st, p, len) else
      st ← MD5Transform st input p;
      update_loop n st input (p + MD5_BLOCK_LENGTH) (len - MD5_BLOCK_LENGTH)
  end.

(** [memcpy(ctx->buffer + have, input, len)] *)
Definition fill (ctx : MD5_CTX) (have : Z) (input : list Z) (p len : Z) : option MD5_CTX :=
  bs ← rd_n input p (Z.to_nat len);
  b ← wr_n (buffer ctx) have bs;
  Some (with_buffer b ctx).

Definition MD5Update (ctx : MD5_CTX) (input : list Z) (len : Z) : option MD5_CTX :=
  let have := (count ctx ≫ 3) .& (MD5_BLOCK_LENGTH - 1) in
  let need := MD5_BLOCK_LENGTH - have in
  let ctx := with_count (u64 (count ctx + u64 (len ≪ 3))) ctx in
  '(ctx, p, len, have) ← (if len <? need then Some (ctx, 0, len, have) else
    '(ctx, p, len, have) ← (if have =? 0 then Some (ctx, 0, len, have) else
      ctx ← fill ctx have input 0 need;
      st ← MD5Transform (state ctx) (buffer ctx) 0;
      Some (with_state st ctx, need, len - need, 0));
    '(st, p, len) ← update_loop (S (Z.to_nat (len / MD5_BLOCK_LENGTH))) (state ctx) input p len;
    Some (with_state st ctx, p, len, have));
  if len =? 0 then Some ctx else fill ctx have input p len.

Definition PUT_64BIT_LE (m : list Z) (cp v : Z) : option (list Z) :=
  m ← wr m (cp + 7) (u8 (v ≫ 56)); m ← wr m (cp + 6) (u8 (v ≫ 48)); m ← wr m (cp + 5) (u8 (v ≫ 40));
  m ← wr m (cp + 4) (u8 (v ≫ 32)); m ← wr m (cp + 3) (u8 (v ≫ 24)); m ← wr m (cp + 2) (u8 (v ≫ 16));
  m ← wr m (cp + 1) (u8 (v ≫ 8)); wr m cp (u8 v).

Definition PUT_32BIT_LE (m : list Z) (cp v : Z) : option (list Z) :=
  m ← wr m (cp + 3) (u8 (v ≫ 24)); m ← wr m (cp + 2) (u8 (v ≫ 16)); m ← wr m (cp + 1) (u8 (v ≫ 8)); wr m cp (u8 v).

Definition PADDING : list Z := 0x80 :: replicate 63 0.

(** explicit_bzero.c *)
Definition compat_explicit_bzero (p : list Z) (n : Z) : option (list Z) := wr_n p 0 (replicate (Z.to_nat n) 0).

(** The context after it. *)
Definition ctx_zero : MD5_CTX := {| state := Words 0 0 0 0; count := 0; buffer := replicate 64 0 |}.

Definition MD5Final (digest : option (list Z)) (ctx : MD5_CTX) : option (option (list Z) * MD5_CTX) :=
  cnt ← PUT_64BIT_LE (replicate 8 0) 0 (count ctx);
  let padlen := MD5_BLOCK_LENGTH - ((count ctx ≫ 3) .& (MD5_BLOCK_LENGTH - 1)) in
  let padlen := if padlen <? 1 + 8 then padlen + MD5_BLOCK_LENGTH else padlen in
  ctx ← MD5Update ctx PADDING (padlen - 8);
  ctx ← MD5Update ctx cnt 8;
  digest ← (match digest with
    | None => Some None
    | Some m =>
        m ← PUT_32BIT_LE m (0 * 4) (w0 (state ctx)); m ← PUT_32BIT_LE m (1 * 4) (w1 (state ctx));
        m ← PUT_32BIT_LE m (2 * 4) (w2 (state ctx)); m ← PUT_32BIT_LE m (3 * 4) (w3 (state ctx));
        Some (Some m)
    end);
  Some (digest, ctx_zero).

(** A message in parts, as the header comment of the file says it is used. *)
Fixpoint update_all (ctx : MD5_CTX) (parts : list (list Z)) : option MD5_CTX :=
  match parts with
  | [] => Some ctx
  | part :: parts => ctx ← MD5Update ctx part (msize part); update_all ctx parts
  end.

Definition md5 (ctx : MD5_CTX) (digest : list Z) (parts : list (list Z)) : option (option (list Z) * MD5_CTX) :=
  ctx ← update_all (MD5Init ctx) parts;
  MD5Final (Some digest) ctx.

(** ** RFC 1321 *)

Module Rfc1321.

Definition F (x y z : Z) : Z := (x .& y) .| (Z.lnot x .& z).
Definition G (x y z : Z) : Z := (x .& z) .| (y .& Z.lnot z).
Definition H (x y z : Z) : Z := (x .^ y) .^ z.
Definition I (x y z : Z) : Z := y .^ (x .| u32 (Z.lnot z)).

Definition rotl (x s : Z) : Z := u32 (x ≪ s) .| (x ≫ (32 - s)).

(** The table of sines. *)
Definition T : list Z :=
  [ 0xd76aa478; 0xe8c7b756; 0x242070db; 0xc1bdceee; 0xf57c0faf; 0x4787c62a; 0xa8304613; 0xfd469501;
    0x698098d8; 0x8b44f7af; 0xffff5bb1; 0x895cd7be; 0x6b901122; 0xfd987193; 0xa679438e; 0x49b40821;
    0xf61e2562; 0xc040b340; 0x265e5a51; 0xe9b6c7aa; 0xd62f105d; 0x02441453; 0xd8a1e681; 0xe7d3fbc8;
    0x21e1cde6; 0xc33707d6; 0xf4d50d87; 0x455a14ed; 0xa9e3e905; 0xfcefa3f8; 0x676f02d9; 0x8d2a4c8a;
    0xfffa3942; 0x8771f681; 0x6d9d6122; 0xfde5380c; 0xa4beea44; 0x4bdecfa9; 0xf6bb4b60; 0xbebfbc70;
    0x289b7ec6; 0xeaa127fa; 0xd4ef3085; 0x04881d05; 0xd9d4d039; 0xe6db99e5; 0x1fa27cf8; 0xc4ac5665;
    0xf4292244; 0x432aff97; 0xab9423a7; 0xfc93a039; 0x655b59c3; 0x8f0ccc92; 0xffeff47d; 0x85845dd1;
    0x6fa87e4f; 0xfe2ce6e0; 0xa3014314; 0x4e0811a1; 0xf7537e82; 0xbd3af235; 0x2ad7d2bb; 0xeb86d391 ].

(** The function, the number of the word and the shift of the step [i]. *)
Definition fn (i : nat) : Z -> Z -> Z -> Z := match (i / 16)%nat with 0%nat => F | 1%nat => G | 2%nat => H | _ => I end.
Definition word (i : nat) : nat :=
  match (i / 16)%nat with 0%nat => i mod 16 | 1%nat => (5 * i + 1) mod 16 | 2%nat => (3 * i + 5) mod 16 | _ => (7 * i) mod 16 end%nat.
Definition shift (i : nat) : Z :=
  let row := match (i / 16)%nat with 0%nat => [7; 12; 17; 22] | 1%nat => [5; 9; 14; 20] | 2%nat => [4; 11; 16; 23] | _ => [6; 10; 15; 21] end in
  nth (i mod 4) row 0.

(** The registers change their places after every step. *)
Definition round (X : list Z) (r : words) (i : nat) : words :=
  let '(Words A B C D) := r in
  Words D (u32 (B + rotl (u32 (A + fn i B C D + nth (word i) X 0 + nth i T 0)) (shift i))) B C.

Definition compress (st : words) (X : list Z) : words :=
  let '(Words A B C D) := foldl (round X) st (seq 0 64) in
  Words (u32 (w0 st + A)) (u32 (w1 st + B)) (u32 (w2 st + C)) (u32 (w3 st + D)).

Definition block_words (block : list Z) : list Z := (fun i => le_val (take 4 (drop (4 * i) block))) <$> seq 0 16.

Fixpoint blocks (n : nat) (st : words) (m : list Z) : words :=
  match n with O => st | S n => blocks n (compress st (block_words (take 64 m))) (drop 64 m) end.

(** One bit, zeros up to 8 bytes below a multiple of 64, the number of bits. *)
Definition pad (m : list Z) : list Z :=
  m ++ 0x80 :: replicate (Z.to_nat ((55 - msize m) mod 64)) 0 ++ le_bytes 8 (8 * msize m).

Definition digest (m : list Z) : list Z :=
  let p := pad m in
  let st := blocks (length p / 64) (Words 0x67452301 0xefcdab89 0x98badcfe 0x10325476) p in
  le_bytes 4 (w0 st) ++ le_bytes 4 (w1 st) ++ le_bytes 4 (w2 st) ++ le_bytes 4 (w3 st).

End Rfc1321.

Import Rfc1321.

(** ** The transformation is the one of the RFC *)

Lemma F1_F x y z : F1 x y z = F x y z.
Proof.
  apply Z.bits_inj'. intros n Hn. unfold F1, F. rewrite !Z.lxor_spec, Z.lor_spec, !Z.land_spec, Z.lxor_spec, Z.lnot_spec by done.
  by destruct (Z.testbit x n), (Z.testbit y n), (Z.testbit z n).
Qed.

Lemma F2_G x y z : F2 x y z = G x y z.
Proof.
  apply Z.bits_inj'. intros n Hn. unfold F2, F1, G. rewrite !Z.lxor_spec, Z.lor_spec, !Z.land_spec, Z.lxor_spec, Z.lnot_spec by done.
  by destruct (Z.testbit x n), (Z.testbit y n), (Z.testbit z n).
Qed.

(** The variables that are [A], [B], [C], [D] before the step [i]. *)
Definition vars (i : nat) : var * var * var * var :=
  match (i mod 4)%nat with
  | 0%nat => (Va, Vb, Vc, Vd) | 1%nat => (Vd, Va, Vb, Vc) | 2%nat => (Vc, Vd, Va, Vb) | _ => (Vb, Vc, Vd, Va)
  end.

Definition view (i : nat) (r : words) : words :=
  let '(w, x, y, z) := vars i in Words (get w r) (get x r) (get y r) (get z r).

Lemma view_0 r : view 0 r = r.
Proof. by destruct r. Qed.

Lemma view_64 r : view (0 + 64) r = r.
Proof. by destruct r. Qed.

Definition code_fn (i : nat) : Z -> Z -> Z -> Z := match (i / 16)%nat with 0%nat => F1 | 1%nat => F2 | 2%nat => F3 | _ => F4 end.

Definition row (i : nat) : step := let '(w, x, y, z) := vars i in MD5STEP (code_fn i) w x y z (word i) (nth i T 0) (shift i).

Lemma steps_rows : steps = row <$> seq 0 64.
Proof. reflexivity. Qed.

Lemma code_fn_fn i x y z : code_fn i x y z = fn i x y z.
Proof. unfold code_fn, fn. destruct (i / 16)%nat as [|[|[|]]]; [apply F1_F|apply F2_G|done|done]. Qed.

Lemma word_lt i : (word i < 16)%nat.
Proof. unfold word. destruct (i / 16)%nat as [|[|[|]]]; by apply Nat.mod_upper_bound. Qed.

Lemma sum_step w f x t : u32 (w + (f + u32 (x + t))) = u32 (w + f + x + t).
Proof. rewrite Z.add_assoc, wrap_add_r. f_equal. lia. Qed.

(** One step of the code is one round of the RFC, with the variables in their new places. *)
Lemma step_round X r i :
  length X = 16%nat -> exists r', MD5STEP_run (row i) X r = Some r' /\ view (S i) r' = round X (view i r) i.
Proof.
  intros HX. destruct (lookup_lt_is_Some_2 X (word i)) as [x Hx]; [rewrite HX; apply word_lt|].
  unfold row, round, view, vars. rewrite (nth_lookup_Some _ _ _ _ Hx).
  assert (S i mod 4 = (if i mod 4 =? 3 then 0 else S (i mod 4)))%nat as ->.
  { pose proof (Nat.mod_upper_bound i 4). destruct (Nat.eqb_spec (i mod 4) 3) as [E|E]; rewrite <- Nat.add_1_r, <- Nat.Div0.add_mod_idemp_l.
    - by rewrite E.
    - rewrite Nat.mod_small; lia. }
  pose proof (Nat.mod_upper_bound i 4 ltac:(lia)) as H4.
  destruct (i mod 4)%nat as [|[|[|[|]]]]; [..|lia]; cbn [Nat.eqb MD5STEP_run]; rewrite Hx; cbn [mbind option_bind get put w0 w1 w2 w3];
    eexists; (split; [done|]); rewrite !code_fn_fn, !sum_step, Z.add_comm; done.
Qed.

Lemma run_steps_rounds X n i r :
  length X = 16%nat -> exists r', run_steps (row <$> seq i n) X r = Some r' /\ view (i + n) r' = foldl (round X) (view i r) (seq i n).
Proof.
  intros HX. revert i r. induction n as [|n IH]; intros i r; cbn [seq fmap list_fmap run_steps foldl].
  { exists r. by rewrite Nat.add_0_r. }
  destruct (step_round X r i HX) as (r1 & -> & Hv). cbn [mbind option_bind]. destruct (IH (S i) r1) as (r2 & -> & Hv2).
  exists r2. split; [done|]. by rewrite Nat.add_succ_r, <- Hv, <- Hv2.
Qed.

(** ** Memory as lists *)

Lemma rd_n_drop m (p n : nat) : (p + n <= length m)%nat -> rd_n m (Z.of_nat p) n = Some (take n (drop p m)).
Proof.
  intros H. pose proof (rd_n_app_r (take p m) (drop p m) 0 n ltac:(done)) as E. rewrite take_drop in E.
  unfold msize in E. rewrite length_take, Nat.min_l, Z.add_0_r in E by lia. rewrite E. apply rd_n_take. rewrite length_drop. lia.
Qed.

Lemma words_in_spec m (p n : nat) :
  bytes m -> (p + 4 * n <= length m)%nat ->
  words_in m (Z.of_nat p) n = Some ((fun i => le_val (take 4 (drop (4 * i) (drop p m)))) <$> seq 0 n).
Proof.
  intros Hm. revert p. induction n as [|n IH]; intros p H; cbn [words_in]; [done|].
  rewrite le32dec_spec, rd_n_drop by (done || lia). cbn [fmap option_fmap option_map mbind option_bind].
  replace (Z.of_nat p + 4) with (Z.of_nat (p + 4)) by lia. rewrite IH by lia. cbn [mbind option_bind seq fmap list_fmap].
  rewrite drop_0. do 2 f_equal. rewrite <- (fmap_S_seq 0 n), <- list_fmap_compose. apply list_fmap_ext. intros i x _. cbn [compose].
  rewrite !drop_drop. do 3 f_equal. lia.
Qed.

Lemma compress_steps X st :
  length X = 16%nat ->
  (r ← run_steps steps X st; Some (Words (u32 (w0 st + w0 r)) (u32 (w1 st + w1 r)) (u32 (w2 st + w2 r)) (u32 (w3 st + w3 r)))) =
  Some (compress st X).
Proof.
  intros HX. rewrite steps_rows. destruct (run_steps_rounds X 64 0 st HX) as (r & -> & Hv). cbn [mbind option_bind].
  rewrite view_0, view_64 in Hv. unfold compress. rewrite <- Hv. by destruct r.
Qed.

Lemma block_words_at m p :
  (fun i => le_val (take 4 (drop (4 * i) (drop p m)))) <$> seq 0 16 = block_words (take 64 (drop p m)).
Proof.
  unfold block_words. apply list_fmap_ext. intros i x Hi. apply lookup_seq in Hi as [-> Hi]. f_equal.
  rewrite skipn_firstn_comm, take_take. do 2 f_equal. lia.
Qed.

Lemma transform_spec st m (p : nat) :
  bytes m -> (p + 64 <= length m)%nat ->
  MD5Transform st m (Z.of_nat p) = Some (compress st (block_words (take 64 (drop p m)))).
Proof.
  intros Hm H. apply bind_Some. exists (block_words (take 64 (drop p m))). split; [by rewrite words_in_spec, block_words_at by (done || lia)|].
  apply compress_steps. unfold block_words. by rewrite length_fmap, length_seq.
Qed.

(** ** Blocks *)

Lemma blocks_app q st m x : (64 * q <= length m)%nat -> blocks q st (m ++ x) = blocks q st m.
Proof.
  revert st m. induction q as [|q IH]; intros st m H; cbn [blocks]; [done|].
  rewrite take_app_le, drop_app_le by lia. apply IH. rewrite length_drop. lia.
Qed.

Lemma blocks_add q k st m x : length m = (64 * q)%nat -> blocks (q + k) st (m ++ x) = blocks k (blocks q st m) x.
Proof.
  revert st m. induction q as [|q IH]; intros st m H; cbn [blocks Nat.add].
  { by apply nil_length_inv in H as ->. }
  rewrite take_app_le, drop_app_le by lia. apply IH. rewrite length_drop. lia.
Qed.

Lemma blocks_take q st m n : (64 * q <= n)%nat -> blocks q st (take n m) = blocks q st m.
Proof.
  revert st m n. induction q as [|q IH]; intros st m n H; cbn [blocks]; [done|].
  rewrite take_take, Nat.min_l by lia. rewrite <- (IH _ (drop 64 m) (n - 64)%nat) by lia. f_equal. by rewrite skipn_firstn_comm.
Qed.

Lemma update_loop_spec n st input (p q r : nat) :
  bytes input -> (p + 64 * q + r <= length input)%nat -> (r < 64)%nat -> (q <= n)%nat ->
  update_loop (S n) st input (Z.of_nat p) (Z.of_nat (64 * q + r)) = Some (blocks q st (drop p input), Z.of_nat (p + 64 * q), Z.of_nat r).
Proof.
  intros Hb. revert n st p. induction q as [|q IH]; intros n st p Hl Hr Hn; cbn [update_loop]; unfold MD5_BLOCK_LENGTH.
  - destruct (Z.ltb_spec (Z.of_nat (64 * 0 + r)) 64); [|lia]. by rewrite Nat.mul_0_r, Nat.add_0_r.
  - destruct (Z.ltb_spec (Z.of_nat (64 * S q + r)) 64); [lia|]. rewrite transform_spec by (done || lia). cbn [mbind option_bind].
    replace (Z.of_nat p + 64) with (Z.of_nat (p + 64)) by lia. replace (Z.of_nat (64 * S q + r) - 64) with (Z.of_nat (64 * q + r)) by lia.
    destruct n as [|n]; [lia|]. rewrite IH by lia. cbn [blocks]. rewrite drop_drop. do 3 f_equal. lia.
Qed.

(** ** What a context holds *)

Definition st0 : words := Words 0x67452301 0xefcdab89 0x98badcfe 0x10325476.

(** The context has absorbed the message [m]: its blocks are in the state, the rest in the
    buffer. *)
Definition holds (ctx : MD5_CTX) (m : list Z) : Prop :=
  length (buffer ctx) = 64%nat /\ bytes (buffer ctx) /\ count ctx = u64 (8 * msize m) /\
  state ctx = blocks (length m / 64) st0 m /\ take (length m mod 64) (buffer ctx) = drop (64 * (length m / 64)) m.

Lemma have_spec (L : Z) : (u64 (8 * L) ≫ 3) .& (MD5_BLOCK_LENGTH - 1) = L mod 64.
Proof.
  rewrite shiftr_div by lia. rewrite (land_low 6) by done. change (2 ^ 6) with 64. unfold wrap. change (2 ^ 64) with (2 ^ 3 * 2 ^ 61). change 8 with (2 ^ 3).
  rewrite Z.mul_mod_distr_l, Z.mul_comm, Z.div_mul by lia. apply Z.mod_mod_divide. by exists (2 ^ 55).
Qed.

Lemma holds_init ctx : length (buffer ctx) = 64%nat -> bytes (buffer ctx) -> holds (MD5Init ctx) [].
Proof. intros H1 H2. by split_and!. Qed.

Lemma fill_spec ctx (have p n : nat) input :
  (p + n <= length input)%nat -> (have + n <= length (buffer ctx))%nat ->
  fill ctx (Z.of_nat have) input (Z.of_nat p) (Z.of_nat n) =
    Some (with_buffer (take have (buffer ctx) ++ take n (drop p input) ++ drop (have + n) (buffer ctx)) ctx).
Proof.
  intros H1 H2. unfold fill. rewrite Nat2Z.id, rd_n_drop by done. cbn [mbind option_bind].
  assert (length (take n (drop p input)) = n) as Hn by (rewrite length_take, length_drop; lia).
  rewrite wr_n_list by lia. by rewrite Hn.
Qed.

Lemma filled_ok (buf ins : list Z) (have n : nat) :
  length buf = 64%nat -> bytes buf -> bytes ins -> length ins = n -> (have + n <= 64)%nat ->
  length (take have buf ++ ins ++ drop (have + n) buf) = 64%nat /\ bytes (take have buf ++ ins ++ drop (have + n) buf) /\
  take (have + n) (take have buf ++ ins ++ drop (have + n) buf) = take have buf ++ ins.
Proof.
  intros H1 H2 H3 <- H4. assert (length (take have buf) = have) as Ht by (rewrite length_take; lia). split_and!.
  - rewrite !length_app, Ht, length_drop. lia.
  - unfold bytes. rewrite !Forall_app. split_and!; [by apply Forall_take|done|by apply Forall_drop].
  - rewrite app_assoc, take_app_le by (rewrite length_app; lia). apply take_ge. rewrite length_app. lia.
Qed.

(** Whole blocks from [p] on and a rest that goes to the front of the buffer. *)
Lemma update_tail ctx m input (p n : nat) :
  length (buffer ctx) = 64%nat -> bytes (buffer ctx) -> bytes input -> (p + n <= length input)%nat ->
  (length m mod 64 = 0)%nat -> state ctx = blocks (length m / 64) st0 m -> count ctx = u64 (8 * (msize m + Z.of_nat n)) ->
  exists ctx', ('(st, p, len) ← update_loop (S (Z.to_nat (Z.of_nat n / MD5_BLOCK_LENGTH))) (state ctx) input (Z.of_nat p) (Z.of_nat n);
    if len =? 0 then Some (with_state st ctx) else fill (with_state st ctx) 0 input p len) = Some ctx' /\
    holds ctx' (m ++ take n (drop p input)).
Proof.
  intros Hl Hb Hin Hp Hm Hs Hc. set (q := (n / 64)%nat). set (r := (n mod 64)%nat).
  pose proof (Nat.div_mod n 64 ltac:(lia)) as Hn. fold q r in Hn. assert (r < 64)%nat as Hr by (by apply Nat.mod_upper_bound).
  assert (Z.to_nat (Z.of_nat n / MD5_BLOCK_LENGTH) = q) as -> by (unfold MD5_BLOCK_LENGTH; change 64 with (Z.of_nat 64); rewrite <- Nat2Z.inj_div; by rewrite Nat2Z.id).
  rewrite Hn, update_loop_spec by (done || lia). cbn [mbind option_bind]. rewrite Hs.
  set (k := (length m / 64)%nat). assert (length m = 64 * k)%nat as Hk by (pose proof (Nat.div_mod (length m) 64 ltac:(lia)) as Hdm; fold k in Hdm; lia).
  set (x := take (64 * q + r) (drop p input)). assert (length x = 64 * q + r)%nat as Hx by (unfold x; rewrite length_take, length_drop; lia).
  assert (length (m ++ x) / 64 = k + q /\ length (m ++ x) mod 64 = r)%nat as [Hq' Hr'].
  { rewrite length_app, Hk, Hx. split; symmetry; [apply (Nat.div_unique _ _ _ r)|apply (Nat.mod_unique _ _ (k + q))]; lia. }
  assert (blocks q (blocks k st0 m) (drop p input) = blocks (k + q) st0 (m ++ x)) as ->.
  { rewrite blocks_add by done. unfold x. by rewrite blocks_take by lia. }
  assert (drop (64 * (k + q)) (m ++ x) = take r (drop (p + 64 * q) input)) as Hd.
  { rewrite drop_app_ge, Hk by lia. replace (64 * (k + q) - 64 * k)%nat with (64 * q)%nat by lia. unfold x.
    rewrite skipn_firstn_comm, drop_drop. f_equal. lia. }
  assert (count ctx = u64 (8 * msize (m ++ x))) as Hc' by (rewrite Hc; unfold msize; rewrite length_app, Hx, Hk; do 2 f_equal; lia).
  destruct (Z.eqb_spec (Z.of_nat r) 0) as [Hr0|Hr0].
  - eexists. split; [done|]. unfold holds. rewrite Hq', Hr', Hd. assert (r = 0)%nat as -> by lia. by split_and!.
  - rewrite (fill_spec _ 0 (p + 64 * q) r) by (cbn [buffer with_state]; lia). eexists. split; [done|].
    destruct (filled_ok (buffer ctx) (take r (drop (p + 64 * q) input)) 0 r) as (H1 & H2 & H3); [done|done|by apply Forall_take, Forall_drop|
      rewrite length_take, length_drop; lia|lia|].
    unfold holds. rewrite Hq', Hr', Hd. split_and!; done.
Qed.

(** Input that does not fill the block. *)
Lemma holds_short ctx m input (n : nat) :
  let h := (length m mod 64)%nat in
  holds ctx m -> bytes input -> (n <= length input)%nat -> (h + n < 64)%nat ->
  holds (with_buffer (take h (buffer ctx) ++ take n input ++ drop (h + n) (buffer ctx)) (with_count (u64 (8 * (msize m + Z.of_nat n))) ctx))
    (m ++ take n input).
Proof.
  intros h (Hl & Hb & Hc & Hs & Ht) Hin Hn Hlt. set (k := (length m / 64)%nat) in *.
  pose proof (Nat.div_mod (length m) 64 ltac:(lia)) as Hdm. fold k h in Hdm, Ht.
  assert (length (m ++ take n input) / 64 = k /\ length (m ++ take n input) mod 64 = h + n)%nat as [Hq' Hr'].
  { rewrite length_app, length_take, Nat.min_l, Hdm by lia. split; symmetry; [apply (Nat.div_unique _ _ _ (h + n))|apply (Nat.mod_unique _ _ k)]; lia. }
  assert (msize (m ++ take n input) = msize m + Z.of_nat n) as Hm' by (unfold msize; rewrite length_app, length_take; lia).
  destruct (filled_ok (buffer ctx) (take n input) h n) as (H1 & H2 & H3); [done|done|by apply Forall_take|rewrite length_take; lia|lia|].
  unfold holds. rewrite Hq', Hr', Hm'. split_and!; [done..| |]; cbn [state buffer with_buffer with_count].
  - by rewrite Hs, blocks_app by lia.
  - by rewrite H3, Ht, drop_app_le by lia.
Qed.

Lemma update_spec ctx m input (n : nat) :
  holds ctx m -> bytes m -> bytes input -> (n <= length input)%nat ->
  exists ctx', MD5Update ctx input (Z.of_nat n) = Some ctx' /\ holds ctx' (m ++ take n input).
Proof.
  intros (Hl & Hb & Hc & Hs & Ht) Hbm Hin Hn. unfold MD5Update.
  set (h := (length m mod 64)%nat) in *. set (k := (length m / 64)%nat) in *.
  pose proof (Nat.div_mod (length m) 64 ltac:(lia)) as Hdm. fold k h in Hdm. assert (h < 64)%nat as Hh by (by apply Nat.mod_upper_bound).
  assert ((count ctx ≫ 3) .& (MD5_BLOCK_LENGTH - 1) = Z.of_nat h) as ->.
  { rewrite Hc, have_spec. unfold msize, h. by rewrite Nat2Z.inj_mod. }
  assert (u64 (count ctx + u64 (Z.of_nat n ≪ 3)) = u64 (8 * (msize m + Z.of_nat n))) as ->.
  { rewrite wrap_add_r, Hc, wrap_add_l, Z.shiftl_mul_pow2 by lia. f_equal. lia. }
  set (ctx1 := with_count _ ctx). assert (length (buffer ctx1) = 64%nat) as Hl1 by done. pose proof (eq_refl : MD5_BLOCK_LENGTH = 64) as H64.
  destruct (Z.ltb_spec (Z.of_nat n) (MD5_BLOCK_LENGTH - Z.of_nat h)) as [Hlt|Hge]; rewrite H64 in *; cbn [mbind option_bind].
  - (* The block is not filled. *)
    pose proof (holds_short ctx m input n (conj Hl (conj Hb (conj Hc (conj Hs Ht)))) Hin Hn ltac:(lia)) as Hholds. fold h ctx1 in Hholds.
    destruct (Z.eqb_spec (Z.of_nat n) 0) as [Hn0|Hn0].
    + assert (n = 0%nat) as -> by lia. eexists. split; [done|]. rewrite take_0, app_nil_l, Nat.add_0_r, take_drop in Hholds. rewrite take_0.
      by destruct ctx.
    + change 0 with (Z.of_nat 0). rewrite (fill_spec ctx1 h 0 n input) by lia. eexists. split; [done|exact Hholds].
  - destruct (Z.eqb_spec (Z.of_nat h) 0) as [Hh0|Hh0]; cbn [mbind option_bind].
    + assert (h = 0%nat) as Hz by lia. rewrite Hz in *.
      destruct (update_tail ctx1 m input 0 n) as (ctx' & E & H); [done|done|done|lia|done|done|done|]. exists ctx'. split; [|by rewrite drop_0 in H].
      change (Z.of_nat 0) with 0 in E. destruct (update_loop _ _ _ _ _) as [[[st p] len]|]; [|done]. exact E.
    + set (nd := (64 - h)%nat). replace (64 - Z.of_nat h) with (Z.of_nat nd) by lia.
      pose proof (fill_spec ctx1 h 0 nd input ltac:(lia) ltac:(lia)) as Hf. change (Z.of_nat 0) with 0 in Hf. rewrite Hf, drop_0. clear Hf. cbn [mbind option_bind].
      destruct (filled_ok (buffer ctx) (take nd input) h nd) as (H1 & H2 & H3); [done|done|by apply Forall_take|rewrite length_take; lia|lia|].
      set (buf := take h (buffer ctx) ++ take nd input ++ drop (h + nd) (buffer ctx)) in *.
      assert (buf = drop (64 * k) m ++ take nd input) as Hbuf.
      { rewrite <- Ht, <- H3. symmetry. apply take_ge. rewrite H1. lia. }
      set (m1 := m ++ take nd input). assert (length m1 = 64 * (k + 1))%nat as Hm1 by (unfold m1; rewrite length_app, length_take; lia).
      match goal with |- context [MD5Transform ?s ?b 0] => change (MD5Transform s b 0) with (MD5Transform (state ctx) buf 0) end.
      pose proof (transform_spec (state ctx) buf 0 H2 ltac:(lia)) as Htr. change (Z.of_nat 0) with 0 in Htr. rewrite Htr. clear Htr. cbn [mbind option_bind].
      assert (compress (state ctx) (block_words (take 64 (drop 0 buf))) = blocks (k + 1) st0 m1) as ->.
      { rewrite drop_0, Hs. assert (m1 = take (64 * k) m ++ buf) as -> by (unfold m1; by rewrite Hbuf, app_assoc, take_drop).
        rewrite blocks_add by (rewrite length_take; lia). cbn [blocks]. by rewrite blocks_take by lia. }
      set (ctx2 := with_state (blocks (k + 1) st0 m1) (with_buffer buf ctx1)). replace (Z.of_nat n - Z.of_nat nd) with (Z.of_nat (n - nd)) by lia.
      destruct (update_tail ctx2 m1 input nd (n - nd)) as (ctx' & E & H); [done|done|done|lia|..].
      { rewrite Hm1, Nat.mul_comm. apply Nat.Div0.mod_mul. }
      { change (state ctx2) with (blocks (k + 1) st0 m1). assert (length m1 / 64 = k + 1)%nat as -> by (rewrite Hm1, Nat.mul_comm; apply Nat.div_mul; lia). done. }
      { change (count ctx2) with (u64 (8 * (msize m + Z.of_nat n))). do 2 f_equal. unfold m1, msize. rewrite length_app, length_take. lia. }
      exists ctx'. split; [destruct (update_loop _ _ _ _ _) as [[[st p] len]|]; [exact E|done]|].
      assert (m ++ take n input = m1 ++ take (n - nd) (drop nd input)) as ->; [|done].
      unfold m1. rewrite <- app_assoc. f_equal. rewrite <- (take_drop nd (take n input)), take_take, Nat.min_l, skipn_firstn_comm by lia. done.
Qed.

Lemma update_all_spec ctx m parts :
  holds ctx m -> bytes m -> Forall bytes parts ->
  exists ctx', update_all ctx parts = Some ctx' /\ holds ctx' (m ++ concat parts).
Proof.
  intros H Hm Hp. revert ctx m H Hm. induction Hp as [|part parts Hpart _ IH]; intros ctx m H Hm; cbn [update_all concat].
  { exists ctx. by rewrite app_nil_r. }
  destruct (update_spec ctx m part (length part) H Hm Hpart) as (ctx1 & E & H1); [done|]. unfold msize. rewrite E. cbn [mbind option_bind].
  rewrite firstn_all in H1. rewrite app_assoc. apply IH; [done|by apply Forall_app].
Qed.

(** ** The end *)

Lemma le_bytes_mod n u w : (8 * Z.of_nat n <= w) -> le_bytes n (u mod 2 ^ w) = le_bytes n u.
Proof.
  revert u w. induction n as [|n IH]; intros u w Hw; cbn [le_bytes]; [done|].
  replace w with (8 + (w - 8)) by lia. rewrite Z.pow_add_r by lia. change (2 ^ 8) with 256. rewrite Z.rem_mul_r by lia.
  rewrite (Z.mul_comm 256), Z.mod_add, Z.div_add, Z.mod_mod by lia. rewrite (Z.div_small (u mod 256)) by (by apply Z.mod_pos_bound).
  rewrite Z.add_0_l, IH by lia. done.
Qed.

Lemma shifted_byte v k : 0 <= k -> u8 (v ≫ k) = v / 2 ^ k mod 256.
Proof. intros Hk. by rewrite shiftr_div. Qed.

Lemma put64_spec v : PUT_64BIT_LE (replicate 8 0) 0 v = Some (le_bytes 8 v).
Proof.
  unfold PUT_64BIT_LE. cbn -[wrap Z.shiftr]. rewrite !shifted_byte by lia. cbn [le_bytes]. rewrite !Z.div_div by lia. done.
Qed.

Lemma put_digest m st :
  length m = 16%nat ->
  (m ← PUT_32BIT_LE m (0 * 4) (w0 st); m ← PUT_32BIT_LE m (1 * 4) (w1 st); m ← PUT_32BIT_LE m (2 * 4) (w2 st); PUT_32BIT_LE m (3 * 4) (w3 st)) =
  Some (le_bytes 4 (w0 st) ++ le_bytes 4 (w1 st) ++ le_bytes 4 (w2 st) ++ le_bytes 4 (w3 st)).
Proof.
  intros Hm. do 16 (destruct m as [|? m]; [done|]). destruct m; [|done]. unfold PUT_32BIT_LE. cbn -[wrap Z.shiftr]. rewrite !shifted_byte by lia.
  cbn [le_bytes app]. rewrite !Z.div_div by lia. done.
Qed.

(** The padding of the code is the one of the RFC. *)
Lemma pad_parts m :
  let padlen := MD5_BLOCK_LENGTH - msize m mod 64 in
  exists n : nat, (if padlen <? 1 + 8 then padlen + MD5_BLOCK_LENGTH else padlen) - 8 = Z.of_nat n /\ (n <= 64)%nat /\
    (m ++ take n PADDING) ++ le_bytes 8 (8 * msize m) = pad m /\ (length (pad m) mod 64 = 0)%nat.
Proof.
  cbv zeta. unfold MD5_BLOCK_LENGTH. pose proof (Z.mod_pos_bound (msize m) 64 ltac:(lia)). exists (S (Z.to_nat ((55 - msize m) mod 64))).
  assert ((55 - msize m) mod 64 = if msize m mod 64 <=? 55 then 55 - msize m mod 64 else 119 - msize m mod 64) as E.
  { pose proof (Z.div_mod (msize m) 64 ltac:(lia)). destruct (Z.leb_spec (msize m mod 64) 55); symmetry;
      [apply (Z.mod_unique_pos _ _ (- (msize m / 64)))|apply (Z.mod_unique_pos _ _ (- (msize m / 64) - 1))]; lia. }
  split_and!.
  - destruct (Z.ltb_spec (64 - msize m mod 64) (1 + 8)), (Z.leb_spec (msize m mod 64) 55); lia.
  - destruct (Z.leb_spec (msize m mod 64) 55); lia.
  - unfold pad, PADDING. cbn [take]. rewrite <- app_assoc. cbn [app]. do 3 f_equal. rewrite take_replicate. f_equal.
    destruct (Z.leb_spec (msize m mod 64) 55); lia.
  - unfold pad. rewrite length_app. cbn [length]. rewrite length_app, length_replicate, le_bytes_length.
    apply Nat2Z.inj. rewrite Nat2Z.inj_mod. unfold msize in *. pose proof (Z.div_mod (Z.of_nat (length m)) 64 ltac:(lia)).
    destruct (Z.leb_spec (Z.of_nat (length m) mod 64) 55); symmetry;
      [apply (Z.mod_unique_pos _ _ (Z.of_nat (length m) / 64 + 1))|apply (Z.mod_unique_pos _ _ (Z.of_nat (length m) / 64 + 2))]; lia.
Qed.

Lemma final_spec m ctx dg :
  holds ctx m -> bytes m -> length dg = 16%nat -> MD5Final (Some dg) ctx = Some (Some (Rfc1321.digest m), ctx_zero).
Proof.
  intros H Hm Hdg. pose proof H as (_ & _ & Hc & _). unfold MD5Final. rewrite put64_spec, Hc, have_spec. unfold wrap at 1. rewrite le_bytes_mod by lia.
  cbn [mbind option_bind]. destruct (pad_parts m) as (n & -> & Hn & Hpad & Hlen).
  assert (bytes PADDING) as HbP by (vm_compute; repeat constructor; done).
  destruct (update_spec ctx m PADDING n H Hm HbP Hn) as (ctx1 & -> & H1). cbn [mbind option_bind].
  destruct (update_spec ctx1 _ (le_bytes 8 (8 * msize m)) 8 H1) as (ctx2 & E & H2); [apply Forall_app; split; [done|by apply Forall_take]|apply le_bytes_bytes|done|].
  change (Z.of_nat 8) with 8 in E. rewrite E. cbn [mbind option_bind]. rewrite (take_ge (le_bytes 8 _)), Hpad in H2 by (by rewrite le_bytes_length).
  destruct H2 as (_ & _ & _ & Hs & _). pose proof (put_digest dg (state ctx2) Hdg) as Hp. unfold digest. fold st0. rewrite Hs in *.
  destruct (PUT_32BIT_LE dg _ _) as [m0|]; [|done]. cbn [mbind option_bind] in *. destruct (PUT_32BIT_LE m0 _ _) as [m1|]; [|done].
  cbn [mbind option_bind] in *. destruct (PUT_32BIT_LE m1 _ _) as [m2|]; [|done]. cbn [mbind option_bind] in *. by rewrite Hp.
Qed.

(** C35.  The digest of a message that is given in any parts is the one RFC 1321 defines for
    the whole message, and the context is wiped. *)
Theorem md5_is_rfc1321 ctx dg parts :
  length (buffer ctx) = 64%nat -> bytes (buffer ctx) -> length dg = 16%nat -> Forall bytes parts ->
  md5 ctx dg parts = Some (Some (Rfc1321.digest (concat parts)), ctx_zero).
Proof.
  intros H1 H2 H3 H4. unfold md5. destruct (update_all_spec (MD5Init ctx) [] parts) as (ctx' & -> & H); [by apply holds_init|constructor|done|].
  cbn [mbind option_bind]. apply final_spec; [done| |done]. clear H. induction H4; [constructor|]. by apply Forall_app.
Qed.

Definition w_ctx : MD5_CTX := {| state := Words 1 2 3 4; count := 5; buffer := replicate 64 6 |}.

(** The digest of "abc" that the RFC lists. *)
Lemma md5_is_rfc1321_witness :
  md5 w_ctx (replicate 16 0) [[97]; []; [98; 99]] =
    Some (Some [0x90; 0x01; 0x50; 0x98; 0x3c; 0xd2; 0x4f; 0xb0; 0xd6; 0x96; 0x3f; 0x7d; 0x28; 0xe1; 0x7f; 0x72], ctx_zero).
Proof.
  rewrite (md5_is_rfc1321 w_ctx (replicate 16 0) [[97]; []; [98; 99]]); [by vm_compute|done| |done|].
  - vm_compute. by repeat constructor.
  - by repeat constructor.
Defined.
