(* ===== verification/Alloc.v ===== *)
(** * Checked allocation

    Models [include/peak_alloc.h]: blocks of the C library with a head in front of the
    user's bytes, which holds their number and a magic value, and the same value behind
    them.  The heap maps the C library's blocks to their bytes, a pointer is a block and
    an offset, NULL is [None].  What the C library hands out for a size, or that it has
    no memory, is an argument. *)

From S2P Require Import Prelude Bytes.

(** ** Pointers and blocks *)

Abbreviation pointer := (nat * Z)%type.
Abbreviation heap := (gmap nat (list Z)).

(** [malloc(3)] and [posix_memalign(3)]: the bytes of the new block for a size. *)
Abbreviation library := (Z -> option (list Z)).

Definition offset (p : pointer) (k : Z) : pointer := (fst p, snd p + k).

Definition load64 (h : heap) (p : pointer) : option Z := m ← h !! fst p; peak_le64dec m (snd p).

Definition store64 (h : heap) (p : pointer) (u : Z) : option heap :=
  m ← h !! fst p; m ← peak_le64enc m (snd p) u; Some (<[fst p := m]> h).

Definition load_bytes (h : heap) (p : pointer) (n : Z) : option (list Z) :=
  m ← h !! fst p; rd_n m (snd p) (Z.to_nat n).

Definition store_bytes (h : heap) (p : pointer) (bs : list Z) : option heap :=
  m ← h !! fst p; m ← wr_n m (snd p) bs; Some (<[fst p := m]> h).

(** A new block with the bytes [m]. *)
Definition c_alloc (h : heap) (m : list Z) : heap * pointer :=
  let b := fresh (dom h) in (<[b := m]> h, (b, 0)).

(** [free(3)] of the start of a block; anything else is undefined. *)
Definition c_free (h : heap) (p : option pointer) : option heap :=
  match p with
  | None => Some h
  | Some (b, k) => m ← h !! b; if k =? 0 then Some (delete b h) else None
  end.

(** ** Constants *)

Definition SIZE_MAX : Z := 2 ^ 64 - 1.

Definition ALLOC_CACHELINE : Z := 64.
Definition ALLOC_ALIGN (x y : Z) : Z := u64 (x + y - (if negb (x mod y =? 0) then x mod y else y)).
Definition ALLOC_CACHEALIGN (x : Z) : Z := ALLOC_ALIGN x ALLOC_CACHELINE.

Definition ALLOC_HEALTHY : Z := 0.
Definition ALLOC_UNDERFLOW : Z := 1.
Definition ALLOC_OVERFLOW : Z := 2.

(** [ALLOC_ERROR]: the panics are [None]. *)
Definition ALLOC_ERROR (x : Z) : option unit :=
  if x =? ALLOC_UNDERFLOW then None else if x =? ALLOC_OVERFLOW then None else Some tt.

(** The names the macros paste: [peak_malloc_head] and [peak_malign_head]. *)
Inductive alloc_name := Malloc | Malign.

Definition sizeof_head (name : alloc_name) : Z := match name with Malloc => 16 | Malign => 64 end.
Definition offsetof_magic (name : alloc_name) : Z := match name with Malloc => 8 | Malign => 56 end.

Definition ALLOC_VALUE (name : alloc_name) : Z :=
  match name with Malloc => 0xD12E3D4C5B6A7989 | Malign => 0x9B97A6B5C4D3E2F1 end.

Definition ALLOC_PAD (name : alloc_name) : Z := sizeof_head name + 8.
Definition ALLOC_HEAD (name : alloc_name) (x : pointer) : pointer := offset x (- sizeof_head name).
Definition ALLOC_USER (name : alloc_name) (head : pointer) : pointer := offset head (sizeof_head name).
Definition ALLOC_SIZE (h : heap) (head : pointer) : option Z := load64 h head.
Definition ALLOC_TAIL (name : alloc_name) (head : pointer) (size : Z) : pointer :=
  offset (ALLOC_USER name head) size.

Definition ALLOC_INIT (name : alloc_name) (h : heap) (head : pointer) (size : Z) : option heap :=
  h ← store64 h head size;
  h ← store64 h (offset head (offsetof_magic name)) (ALLOC_VALUE name);
  store64 h (ALLOC_TAIL name head size) (ALLOC_VALUE name).

(** ** Allocation *)

(** [_peak_finalise_malloc] and [_peak_finalise_malign]. *)
Definition _peak_finalise (name : alloc_name) (h : heap) (size : Z) (head : pointer)
    : option (heap * option pointer) :=
  h ← ALLOC_INIT name h head size; Some (h, Some (ALLOC_USER name head)).

(** [_peak_mcheck_malloc] and [_peak_mcheck_malign]. *)
Definition _peak_mcheck (name : alloc_name) (h : heap) (ptr : pointer) : option Z :=
  let head := ALLOC_HEAD name ptr in
  size ← ALLOC_SIZE h head;
  tail ← load64 h (ALLOC_TAIL name head size);
  Some (if negb (ALLOC_VALUE name =? tail) then ALLOC_OVERFLOW else ALLOC_HEALTHY).

Definition peak_malloc (libc : library) (h : heap) (size : Z) : option (heap * option pointer) :=
  if size =? 0 then Some (h, None)
  else if SIZE_MAX - ALLOC_PAD Malloc <? size then Some (h, None)
  else
    match libc (size + ALLOC_PAD Malloc) with
    | None => Some (h, None)
    | Some m => let '(h, head) := c_alloc h m in _peak_finalise Malloc h size head
    end.

Definition MUL_NO_OVERFLOW : Z := 2 ^ 32.

(** The guard in front of [size *= count]. *)
Definition mul_overflows (count size : Z) : bool :=
  ((MUL_NO_OVERFLOW <=? count) || (MUL_NO_OVERFLOW <=? size)) && (0 <? count) && (SIZE_MAX / count <? size).


Definition _peak_realloc (libc : library) (h : heap) (ptr : option pointer) (size : Z)
    : option (heap * option pointer) :=
  '(head, old_size) ← match ptr with
    | Some p => let head := ALLOC_HEAD Malloc p in old ← ALLOC_SIZE h head; Some (Some head, old)
    | None => Some (None, 0)
    end;
  if negb (size =? 0) then
    '(h, new_ptr) ← peak_malloc libc h size;
    match (new_ptr : option pointer) with
    | None => Some (h, None)
    | Some new =>
        let size := if old_size <? size then old_size else size in
        h ← (if negb (size =? 0) then
               head ← head;
               bs ← load_bytes h (ALLOC_USER Malloc head) size;
               store_bytes h new bs
             else Some h);
        h ← c_free h head;
        Some (h, Some new)
    end
  else h ← c_free h head; Some (h, None).

(** [if (x) ALLOC_ERROR(_peak_mcheck_malloc(x))]. *)
Definition check_malloc (h : heap) (ptr : option pointer) : option unit :=
  match ptr with Some p => c ← _peak_mcheck Malloc h p; ALLOC_ERROR c | None => Some tt end.

Definition peak_realloc (libc : library) (h : heap) (x : option pointer) (y : Z) : option (heap * option pointer) :=
  _ ← check_malloc h x; _peak_realloc libc h x y.

Definition _peak_reallocarray (libc : library) (h : heap) (ptr : option pointer) (count size : Z)
    : option (heap * option pointer) :=
  if mul_overflows count size then Some (h, None)
  else _peak_realloc libc h ptr (u64 (size * count)).

Definition peak_reallocarray (libc : library) (h : heap) (x : option pointer) (y z : Z)
    : option (heap * option pointer) :=
  _ ← check_malloc h x; _peak_reallocarray libc h x y z.

(** [s1] is the string with its final zero, so [strsize] is its length. *)
Definition peak_strdup (libc : library) (h : heap) (s1 : list Z) : option (heap * option pointer) :=
  '(h, s2) ← peak_malloc libc h (Z.of_nat (length s1));
  match (s2 : option pointer) with
  | Some p => h ← store_bytes h p s1; Some (h, s2)
  | None => Some (h, None)
  end.


(** ** Release *)




(** ** Guarded blocks *)

(** What the C library's allocation functions promise: as many bytes as were asked for. *)
Definition library_ok (libc : library) : Prop := forall n m, libc n = Some m -> msize m = n /\ bytes m.

Definition heap_ok (h : heap) : Prop := map_Forall (fun _ m => bytes m) h.

(** The bytes of a block with [size] user bytes between its guards. *)
Record guarded (name : alloc_name) (size : Z) (m : list Z) : Prop := {
  g_bytes : bytes m;
  g_room : sizeof_head name + size + 8 <= msize m;
  g_size : fits 64 size /\ peak_le64dec m 0 = Some size;
  g_magic : peak_le64dec m (offsetof_magic name) = Some (ALLOC_VALUE name);
  g_tail : peak_le64dec m (sizeof_head name + size) = Some (ALLOC_VALUE name);
}.

(** [m'] is [m] up to the user's bytes. *)
Definition user_only (name : alloc_name) (size : Z) (m m' : list Z) : Prop :=
  msize m' = msize m /\ bytes m' /\
  forall i, ~ (sizeof_head name <= i < sizeof_head name + size) -> rd m' i = rd m i.

Lemma le64dec_agree m m' p :
  bytes m -> bytes m' -> (forall i, p <= i < p + 8 -> rd m' i = rd m i) ->
  peak_le64dec m' p = peak_le64dec m p.
Proof.
  intros Hm Hm' H. rewrite !le64dec_spec by done. f_equal. simpl.
  rewrite !(H p), !(H (p + 1)), !(H (p + 1 + 1)), !(H (p + 1 + 1 + 1)), !(H (p + 1 + 1 + 1 + 1)),
    !(H (p + 1 + 1 + 1 + 1 + 1)), !(H (p + 1 + 1 + 1 + 1 + 1 + 1)),
    !(H (p + 1 + 1 + 1 + 1 + 1 + 1 + 1)) by lia. done.
Qed.

(** A user may write its bytes. *)
Lemma guarded_user name size m m' : guarded name size m -> user_only name size m m' -> guarded name size m'.
Proof.
  intros [Hb Hr [Hf Hs] Hm Ht] (Hl & Hb' & Hu). unfold fits in Hf.
  assert (forall p, p + 8 <= sizeof_head name \/ sizeof_head name + size <= p ->
    peak_le64dec m' p = peak_le64dec m p) as Hd
    by (intros p Hp; apply le64dec_agree; [done..|]; intros i Hi; apply Hu; lia).
  split; [done|by rewrite Hl|split; [done|]|..]; rewrite Hd; try done; destruct name; simpl; lia.
Qed.

(** Reads and writes of the block at the top of the heap. *)
Lemma store64_block h b m k u :
  store64 (<[b := m]> h) (b, k) u = (m' ← peak_le64enc m k u; Some (<[b := m']> h)).
Proof.
  unfold store64. simpl. rewrite lookup_insert_eq. simpl. destruct (peak_le64enc m k u); simpl; [|done].
  by rewrite insert_insert_eq.
Qed.

Lemma load64_block h b m k : load64 (<[b := m]> h) (b, k) = peak_le64dec m k.
Proof. unfold load64. simpl. by rewrite lookup_insert_eq. Qed.

Lemma value_fits name : fits 64 (ALLOC_VALUE name).
Proof. by destruct name. Qed.

(** [ALLOC_INIT] of a block with room for its guards. *)
Lemma alloc_init_ok name h b m size :
  bytes m -> sizeof_head name + size + 8 <= msize m -> fits 64 size ->
  exists m', ALLOC_INIT name (<[b := m]> h) (b, 0) size = Some (<[b := m']> h) /\
    guarded name size m' /\ msize m' = msize m.
Proof.
  intros Hb Hr Hf. unfold ALLOC_INIT, ALLOC_TAIL, ALLOC_USER, offset. simpl fst. simpl snd.
  assert (0 <= size) as Hs by apply Hf.
  destruct (@codec_enc 8 _ _ le64_codec m 0 size) as (m1 & E1 & B1 & S1 & D1 & A1); [done|lia|destruct name; simpl in *; lia|done|].
  destruct (@codec_enc 8 _ _ le64_codec m1 (0 + offsetof_magic name) (ALLOC_VALUE name)) as (m2 & E2 & B2 & S2 & D2 & A2);
    [done|destruct name; simpl; lia|destruct name; simpl in *; lia|apply value_fits|].
  destruct (@codec_enc 8 _ _ le64_codec m2 (0 + sizeof_head name + size) (ALLOC_VALUE name)) as (m3 & E3 & B3 & S3 & D3 & A3);
    [done|destruct name; simpl; lia|destruct name; simpl in *; lia|apply value_fits|].
  exists m3. rewrite store64_block, E1. cbn [mbind option_bind].
  rewrite store64_block, E2. cbn [mbind option_bind]. rewrite store64_block, E3.
  split_and!; [done| |congruence]. simpl in *.
  assert (forall p v, peak_le64dec m2 p = Some v -> p + 8 <= sizeof_head name ->
    peak_le64dec m3 p = Some v) as H3.
  { intros p v <- Hp. apply le64dec_agree; [done..|]. intros i Hi. apply A3. lia. }
  assert (peak_le64dec m2 0 = Some size) as H2.
  { rewrite <- D1. apply le64dec_agree; [done..|]. intros i Hi. apply A2. destruct name; simpl; lia. }
  split; [done|by rewrite S3, S2, S1|split; [done|]|..]; [apply H3|apply H3|]; try done; destruct name; simpl; lia.
Qed.

Lemma fresh_block (h : heap) : h !! fresh (dom h) = None.
Proof. apply not_elem_of_dom, is_fresh. Qed.

Lemma finalise_ok name (h : heap) m size :
  bytes m -> sizeof_head name + size + 8 <= msize m -> fits 64 size ->
  let '(h1, head) := c_alloc h m in
  exists m', _peak_finalise name h1 size head = Some (<[fresh (dom h) := m']> h, Some (fresh (dom h), sizeof_head name)) /\
    guarded name size m' /\ msize m' = msize m.
Proof.
  intros Hb Hr Hf. unfold c_alloc, _peak_finalise.
  destruct (alloc_init_ok name h (fresh (dom h)) m size Hb Hr Hf) as (m' & -> & Hg & Hm). by exists m'.
Qed.

(** The outcome of an allocation of [size] bytes: nothing, or a new guarded block. *)
Definition allocated (name : alloc_name) (size : Z) (h h' : heap) (p : pointer) : Prop :=
  exists m, p = (fresh (dom h), sizeof_head name) /\ h' = <[fresh (dom h) := m]> h /\ guarded name size m.

Lemma malloc_spec libc h size :
  library_ok libc -> fits 64 size ->
  exists h' r, peak_malloc libc h size = Some (h', r) /\
    match r with Some p => size <> 0 /\ allocated Malloc size h h' p | None => h' = h end.
Proof.
  intros Hl Hf. unfold peak_malloc. destruct (Z.eqb_spec size 0); [by exists h, None|].
  destruct (_ <? size); [by exists h, None|]. destruct (libc (size + ALLOC_PAD Malloc)) as [m|] eqn:E; [|by exists h, None].
  destruct (Hl _ _ E) as [Hs Hb]. unfold ALLOC_PAD in Hs.
  pose proof (finalise_ok Malloc h m size Hb ltac:(lia) Hf) as Hfin. unfold c_alloc in *.
  destruct Hfin as (m' & -> & Hg & _). do 2 eexists. split; [done|]. split; [done|]. by exists m'.
Qed.

(** The guard of the multiplication. *)
Lemma div_lt_iff a b q : 0 < b -> a / b < q <-> a < b * q.
Proof.
  intros Hb. split; [|by apply Z.div_lt_upper_bound]. intros H.
  pose proof (Z.mul_succ_div_gt a b Hb). nia.
Qed.

Lemma mul_overflows_spec count size :
  fits 64 count -> fits 64 size -> mul_overflows count size = true <-> SIZE_MAX < count * size.
Proof.
  unfold mul_overflows, MUL_NO_OVERFLOW, fits. intros Hc Hs.
  rewrite !andb_true_iff, orb_true_iff, !Z.leb_le, !Z.ltb_lt.
  destruct (decide (0 < count)) as [H0|H0].
  - rewrite (div_lt_iff SIZE_MAX) by done. unfold SIZE_MAX. split; [tauto|]. intros H. split_and!; [|done..]. nia.
  - unfold SIZE_MAX. split; [lia|nia].
Qed.

(** A multiplication that passes the guard does not wrap. *)
Lemma mul_no_overflow count size :
  fits 64 count -> fits 64 size -> mul_overflows count size = false -> u64 (size * count) = count * size.
Proof.
  intros Hc Hs Ho. assert (~ SIZE_MAX < count * size) as H by (rewrite <- mul_overflows_spec by done; congruence).
  unfold SIZE_MAX, fits in *. rewrite Z.mul_comm. apply wrap_small. unfold fits. nia.
Qed.

Lemma align_room size :
  fits 64 size -> size <= SIZE_MAX - ALLOC_CACHELINE -> size <= ALLOC_CACHEALIGN size.
Proof.
  unfold ALLOC_CACHEALIGN, ALLOC_ALIGN, ALLOC_CACHELINE, SIZE_MAX, fits. intros Hf Hs.
  pose proof (Z.mod_pos_bound size 64 ltac:(lia)).
  destruct (Z.eqb_spec (size mod 64) 0); simpl; rewrite wrap_small; unfold fits; lia.
Qed.


(** ** Checks and releases *)

Lemma load64_at h b m k : h !! b = Some m -> load64 h (b, k) = peak_le64dec m k.
Proof. intros H. unfold load64. simpl. by rewrite H. Qed.

Lemma user_head name (b : nat) : ALLOC_HEAD name (b, sizeof_head name) = (b, 0).
Proof. unfold ALLOC_HEAD, offset. simpl. f_equal. lia. Qed.


(** The check reads the value behind the user's bytes. *)
Lemma mcheck_tail name h b m size tail :
  h !! b = Some m -> peak_le64dec m 0 = Some size -> peak_le64dec m (sizeof_head name + size) = Some tail ->
  _peak_mcheck name h (b, sizeof_head name) =
    Some (if tail =? ALLOC_VALUE name then ALLOC_HEALTHY else ALLOC_OVERFLOW).
Proof.
  intros Hb Hs Ht. unfold _peak_mcheck, ALLOC_SIZE. rewrite user_head, (load64_at _ _ _ _ Hb), Hs.
  cbn [mbind option_bind]. change (ALLOC_TAIL name (b, 0) size) with (b, sizeof_head name + size).
  rewrite (load64_at _ _ _ _ Hb), Ht. cbn [mbind option_bind]. rewrite Z.eqb_sym. by destruct (tail =? ALLOC_VALUE name).
Qed.






(** ** Reallocation and initialisation *)

(** Bytes stored at the front of the user's. *)
Lemma store_user (h : heap) f m2 size bs :
  guarded Malloc size m2 -> Z.of_nat (length bs) <= size -> bytes bs ->
  exists m3, store_bytes (<[f := m2]> h) (f, 16) bs = Some (<[f := m3]> h) /\
    guarded Malloc size m3 /\ rd_n m3 16 (length bs) = Some bs.
Proof.
  intros Hg Hn Hby. pose proof (g_room _ _ _ Hg) as Hr. simpl in Hr.
  destruct (wr_n_spec m2 16 bs) as (m3 & Hw3 & Hs3 & Hj); [lia|lia|].
  exists m3. unfold store_bytes. simpl. rewrite lookup_insert_eq. simpl. rewrite Hw3. simpl.
  rewrite insert_insert_eq. split_and!; [done| |].
  - apply (guarded_user _ _ m2); [done|]. split_and!; [done| |].
    + eapply wr_n_bytes; [apply Hg|exact Hby|done].
    + simpl. intros i Hi. rewrite Hj, decide_False; [done|lia].
  - apply rd_n_eq; [done|]. intros k Hk. rewrite Hj, decide_True by lia. f_equal. lia.
Qed.

(** The copy of the common part into the new block. *)
Lemma realloc_copy (h : heap) b m old f m2 new n :
  h !! b = Some m -> f <> b -> guarded Malloc old m -> guarded Malloc new m2 -> 0 <= n -> n <= old -> n <= new ->
  exists bs m3, load_bytes (<[f := m2]> h) (b, 16) n = Some bs /\ rd_n m 16 (Z.to_nat n) = Some bs /\
    store_bytes (<[f := m2]> h) (f, 16) bs = Some (<[f := m3]> h) /\
    guarded Malloc new m3 /\ rd_n m3 16 (Z.to_nat n) = Some bs.
Proof.
  intros Hb Hf Hg Hg2 Hn Ho Hw. pose proof (g_room _ _ _ Hg) as Hr. simpl in Hr.
  destruct (rd_n_is_Some m 16 (Z.to_nat n)) as (bs & Hbs & Hlen); [lia..|].
  pose proof (rd_n_bytes _ _ _ _ (g_bytes _ _ _ Hg) Hbs) as Hby.
  destruct (store_user h f m2 new bs Hg2 ltac:(lia) Hby) as (m3 & Hs & Hg3 & Hc).
  exists bs, m3. unfold load_bytes. simpl. rewrite lookup_insert_ne, Hb by done. simpl. rewrite <- Hlen at 3.
  by split_and!.
Qed.

Lemma check_guarded (h : heap) b m size :
  h !! b = Some m -> guarded Malloc size m -> check_malloc h (Some (b, 16)) = Some tt.
Proof.
  intros Hb [_ _ [_ Hs] _ Ht]. unfold check_malloc. change (b, 16) with (b, sizeof_head Malloc).
  rewrite (mcheck_tail Malloc h b m size (ALLOC_VALUE Malloc)) by done. by rewrite Z.eqb_refl.
Qed.

(** What happens to the old block, which has [old] bytes, and to the new one. *)
Definition reallocated (h : heap) (b : nat) (m : list Z) (old new : Z) (h' : heap) (r : option pointer) : Prop :=
  match r with
  | None => new = 0 /\ h' = delete b h \/ new <> 0 /\ h' = h
  | Some p => exists m', new <> 0 /\ p = (fresh (dom h), 16) /\ h' = <[fst p := m']> (delete b h) /\
      guarded Malloc new m' /\
      let n := Z.to_nat (old `min` new) in rd_n m' 16 n = rd_n m 16 n
  end.

Lemma realloc_spec libc (h : heap) b m old new :
  library_ok libc -> fits 64 new -> h !! b = Some m -> guarded Malloc old m ->
  exists h' r, _peak_realloc libc h (Some (b, 16)) new = Some (h', r) /\ reallocated h b m old new h' r.
Proof.
  intros Hl Hf Hb Hg. pose proof Hg as [_ _ [Hfo Hs] _ _]. unfold _peak_realloc, ALLOC_SIZE.
  change (b, 16) with (b, sizeof_head Malloc). rewrite user_head, (load64_at _ _ _ _ Hb), Hs.
  cbn [mbind option_bind]. destruct (Z.eqb_spec new 0) as [->|Hn]; cbn [negb].
  { unfold c_free. rewrite Hb. do 2 eexists. split; [done|]. by left. }
  destruct (malloc_spec libc h new Hl Hf) as (h1 & r & -> & Hr). cbn [mbind option_bind].
  destruct r as [p|]; [|subst h1; do 2 eexists; split; [done|by right]].
  destruct Hr as (_ & m2 & -> & -> & Hg2). set (f := fresh (dom h)).
  assert (f <> b) as Hfb by (intros E; pose proof (fresh_block h) as Hfr; fold f in Hfr; congruence).
  assert ((if old <? new then old else new) = old `min` new) as -> by (destruct (Z.ltb_spec old new); lia).
  unfold fits in Hf, Hfo.
  destruct (realloc_copy h b m old f m2 new (old `min` new)) as (bs & m3 & Hload & Hbs & Hstore & Hg3 & Hcopy);
    try done; try lia.
  assert (forall m4, c_free (<[f := m4]> h) (Some (b, 0)) = Some (<[f := m4]> (delete b h))) as Hfree.
  { intros m4. unfold c_free. rewrite lookup_insert_ne, Hb by done. cbn [mbind option_bind].
    by rewrite delete_insert_ne. }
  destruct (Z.eqb_spec (old `min` new) 0) as [E|E]; cbn [negb].
  - cbn [mbind option_bind]. rewrite Hfree. cbn [mbind option_bind]. do 2 eexists. split; [done|].
    exists m2. rewrite E. by split_and!.
  - change (ALLOC_USER Malloc (b, 0)) with (b, 16). cbn [mbind option_bind]. rewrite Hload. cbn [mbind option_bind].
    change (f, sizeof_head Malloc) with (f, 16). rewrite Hstore. cbn [mbind option_bind]. rewrite Hfree. cbn [mbind option_bind]. do 2 eexists. split; [done|].
    exists m3. split_and!; [done..|cbv zeta; by rewrite Hcopy, Hbs].
Qed.

(** The bytes a caller of [calloc] or [strdup] gets. *)
Definition filled (size : Z) (bs : list Z) (h h' : heap) (p : pointer) : Prop :=
  exists m, p = (fresh (dom h), 16) /\ h' = <[fresh (dom h) := m]> h /\ guarded Malloc size m /\
    rd_n m 16 (Z.to_nat size) = Some bs.


Lemma strdup_spec libc h s1 :
  library_ok libc -> bytes s1 -> fits 64 (Z.of_nat (length s1)) ->
  exists h' r, peak_strdup libc h s1 = Some (h', r) /\
    match r with Some p => filled (Z.of_nat (length s1)) s1 h h' p | None => h' = h end.
Proof.
  intros Hl Hby Hf. unfold peak_strdup.
  destruct (malloc_spec libc h (Z.of_nat (length s1)) Hl Hf) as (h' & r & -> & Hr). cbn [mbind option_bind].
  destruct r as [p|]; [|subst h'; by exists h, None]. destruct Hr as (_ & m & -> & -> & Hg).
  destruct (store_user h (fresh (dom h)) m (Z.of_nat (length s1)) s1 Hg) as (m3 & Hs & Hg3 & Hbs); [lia|done|].
  change (sizeof_head Malloc) with 16. rewrite Hs. cbn [mbind option_bind]. do 2 eexists. split; [done|].
  exists m3. rewrite Nat2Z.id. by split_and!.
Qed.

(** ** Properties *)







(** [peak_realloc] and [peak_reallocarray] of a healthy block: size 0 frees it; if
    the product overflows or there is no memory the block stays; otherwise the block is
    replaced by a healthy one of the new size with the same bytes up to the smaller of
    the sizes. *)
Theorem realloc_keeps libc (h : heap) b m old count size :
  library_ok libc -> fits 64 count -> fits 64 size -> h !! b = Some m -> guarded Malloc old m ->
  (exists h' r, peak_realloc libc h (Some (b, 16)) size = Some (h', r) /\ reallocated h b m old size h' r) /\
  (exists h' r, peak_reallocarray libc h (Some (b, 16)) count size = Some (h', r) /\
     if decide (count * size <= SIZE_MAX) then reallocated h b m old (count * size) h' r
     else h' = h /\ r = None).
Proof.
  intros Hl Hc Hs Hb Hg. unfold peak_realloc, peak_reallocarray, _peak_reallocarray.
  rewrite (check_guarded h b m old) by done. cbn [mbind option_bind]. split; [by apply realloc_spec|].
  pose proof (mul_overflows_spec count size Hc Hs) as Ho. destruct (mul_overflows count size) eqn:E.
  - exists h, None. split; [done|]. rewrite decide_False; [done|]. apply Z.lt_nge. by apply Ho.
  - assert (~ SIZE_MAX < count * size) as Hmax by (rewrite <- Ho; congruence).
    destruct (decide (count * size <= SIZE_MAX)); [|lia]. rewrite mul_no_overflow by done. apply realloc_spec; try done.
    unfold fits, SIZE_MAX in *. nia.
Qed.

(** ** The build without checks

    With WITHOUT_ALLOC the functions of the C library are used as they are; these two are added. *)

Module Plain.

Definition malign (libc : library) (h : heap) (count size : Z) : heap * option pointer :=
  if size =? 0 then (h, None)
  else if mul_overflows count size then (h, None)
  else
    let size := u64 (size * count) in
    if SIZE_MAX - ALLOC_CACHELINE <? size then (h, None)
    else match libc (ALLOC_CACHEALIGN size) with
         | None => (h, None)
         | Some m => let '(h, ptr) := c_alloc h m in (h, Some ptr)
         end.

(** With any [realloc(3)]. *)
Definition reallocarray {R} (realloc : option pointer -> Z -> heap * option R) (h : heap) (ptr : option pointer) (count size : Z)
    : heap * option R :=
  if mul_overflows count size then (h, None) else realloc ptr (u64 (size * count)).

(** No request is truncated: the products are those of the integers or nothing is given. *)
Theorem plain_exact libc h count size :
  library_ok libc -> fits 64 count -> fits 64 size ->
  match malign libc h count size with
  | (h', Some p) => count * size <= SIZE_MAX - ALLOC_CACHELINE /\ snd p = 0 /\ h !! fst p = None /\
      exists m, h' = <[fst p := m]> h /\ bytes m /\ count * size <= msize m /\ msize m = ALLOC_CACHEALIGN (count * size)
  | (h', None) => h' = h
  end /\
  (forall R (realloc : option pointer -> Z -> heap * option R) ptr,
     reallocarray realloc h ptr count size = if decide (count * size <= SIZE_MAX) then realloc ptr (count * size) else (h, None)).
Proof.
  intros Hl Hc Hs. unfold malign, reallocarray. pose proof (mul_overflows_spec count size Hc Hs) as Ho.
  destruct (mul_overflows count size) eqn:E.
  - split; [by destruct (size =? 0)|]. intros R realloc ptr. rewrite decide_False; [done|]. apply Z.lt_nge. by apply Ho.
  - assert (~ SIZE_MAX < count * size) as Hmax by (rewrite <- Ho; congruence). rewrite mul_no_overflow by done.
    split; [|intros R realloc ptr; by rewrite decide_True by lia].
    destruct (size =? 0); [done|]. destruct (Z.ltb_spec (SIZE_MAX - ALLOC_CACHELINE) (count * size)); [done|].
    destruct (libc _) as [m|] eqn:El; [|done]. destruct (Hl _ _ El) as [Hm Hb]. cbn.
    split_and!; [done..|apply not_elem_of_dom, is_fresh|]. exists m. split_and!; [done..| |done]. rewrite Hm. apply align_room; [unfold fits, SIZE_MAX in *; nia|done].
Qed.
End Plain.

(** A library that has memory for blocks of 32 and of 28 bytes. *)
Definition sample_library : library := fun n =>
  if n =? 32 then Some (replicate 32 0) else if n =? 28 then Some (replicate 28 0) else None.

Lemma sample_library_ok : library_ok sample_library.
Proof.
  intros n m. unfold sample_library. destruct (Z.eqb_spec n 32) as [->|]; [|destruct (Z.eqb_spec n 28) as [->|]; [|done]];
    intros [= <-]; (split; [reflexivity|by repeat constructor]).
Qed.

(** A block of 8 user bytes. *)
Definition sample_block : list Z :=
  le_bytes 8 8 ++ le_bytes 8 (ALLOC_VALUE Malloc) ++ [1; 2; 3; 4; 5; 6; 7; 8] ++ le_bytes 8 (ALLOC_VALUE Malloc).

Lemma sample_block_ok : guarded Malloc 8 sample_block.
Proof.
  split; [|vm_compute; done|split; [done|vm_compute; done]|vm_compute; done|vm_compute; done].
  unfold sample_block, bytes. rewrite !Forall_app. split_and!; try apply le_bytes_bytes. by repeat constructor.
Qed.


(** Shrinking the block to 4 bytes. *)
Lemma realloc_keeps_witness :
  exists h' r, peak_realloc sample_library {[0%nat := sample_block]} (Some (0%nat, 16)) 4 = Some (h', r) /\
    reallocated {[0%nat := sample_block]} 0 sample_block 8 4 h' r.
Proof.
  apply (realloc_keeps sample_library {[0%nat := sample_block]} 0 sample_block 8 0 4 sample_library_ok
    ltac:(done) ltac:(done) (lookup_singleton_eq _ _) sample_block_ok).
Defined.
