(* ===== verification/Net.v ===== *)
(** * Network addresses

    Models [include/peak_net.h]: the 16-byte address both protocol versions are
    mapped to, its constructors, comparisons and prefix match.  The union's
    members are views of the same 16 bytes: a word, dword or qword access is a
    codec of [Bytes] at its offset, on a little-endian host. *)

From stdpp Require Import pretty.
From S2P Require Import Prelude Bytes.
Open Scope Z_scope.

(** [struct netaddr]: its 16 bytes. *)
Abbreviation netaddr := (list Z).

Definition netaddr_ok (a : netaddr) : Prop := length a = 16%nat /\ bytes a.

(** The IPv4-mapped prefix ::ffff:0:0/96. *)
Definition net_in64 : netaddr := [0; 0; 0; 0; 0; 0; 0; 0; 0; 0; 0xff; 0xff; 0; 0; 0; 0].

Definition netto4 (x : netaddr) : list Z := drop 12 x.
Definition netto6 (x : netaddr) : list Z := x.

Definition netaddr4 (in4 : netaddr) (ip : Z) : option netaddr :=
  q0 ← peak_le64dec net_in64 0;
  in4 ← peak_le64enc in4 0 q0;
  q1 ← peak_le64dec net_in64 8;
  in4 ← peak_le64enc in4 8 q1;
  peak_le32enc in4 12 ip.

Definition netaddr6 (in6 : netaddr) (m : list Z) (ip : Z) : option netaddr :=
  bs ← rd_n m ip 16;
  wr_n in6 0 bs.

Definition netcmp (x y : netaddr) : Z := memcmp x y.

Definition netcmp4 (x : netaddr) : Z := memcmp (take (16 - 4) x) (take (16 - 4) net_in64).

Definition netcmp6 (x : netaddr) : Z := if netcmp4 x =? 0 then 1 else 0.

Definition NET_PREFIX4 (x : Z) : Z := if x =? 0 then 0 else x + 96.
Definition NET_PREFIX6 (x : Z) : Z := x.
Definition NET_PREFIX_MAX : Z := 128.

Definition prefix : list Z := [0x80; 0xC0; 0xE0; 0xF0; 0xF8; 0xFC; 0xFE; 0xFF].

(** The loop over whole bytes, then the masked comparison of the last one; [fuel]
    bounds the 16 bytes of an address. *)
Fixpoint netprefix_loop (fuel : nat) (x y : netaddr) (i yp : Z) : option Z :=
  match fuel with
  | O => None
  | S fuel =>
      if 8 <=? yp then
        a ← rd x i; b ← rd y i;
        let ret := a - b in
        if negb (ret =? 0) then Some ret else netprefix_loop fuel x y (i + 1) (yp - 8)
      else
        a ← rd x i; b ← rd y i; p ← rd prefix yp;
        Some ((a .& p) - (b .& p))
  end.

Definition netprefix (x y : netaddr) (yp : Z) : option Z :=
  if yp =? 0 then Some 0
  else
    let yp := if NET_PREFIX_MAX <? yp then NET_PREFIX_MAX else yp in
    netprefix_loop 16 x y 0 (yp - 1).

(** The address family [netprint] picks for an address. *)
Definition AF_INET : Z := 2.
Definition AF_INET6 : Z := 10.

Definition netprint_family (x : netaddr) : option Z :=
  r ← netprefix x net_in64 96;
  Some (if negb (r =? 0) then AF_INET6 else AF_INET).

(** With any [inet_ntop(3)]. *)
Definition netprint (inet_ntop : Z -> list Z -> string) (x : netaddr) : option string :=
  nf ← netprint_family x;
  Some (inet_ntop nf (if nf =? AF_INET then netto4 x else netto6 x)).

Definition NET_PORTSTRLEN : nat := 8.

(** What [snprintf(3)] leaves in a buffer of [n] bytes: the text as far as there is room for it and
    the final zero. *)
Definition snprintf (n : nat) (text : string) : string := String.substring 0 (pred n) text.

(** [y] is an [int]. *)
Definition portprint (y : Z) : string :=
  if negb (y =? 0) && (y .& Z.lnot 0xFFFF =? 0) then snprintf NET_PORTSTRLEN (":" +:+ pretty (u16 y)) else "".

(** A number below [10^k] has at most [k] digits. *)
Lemma pretty_N_go_length k x s : (x < 10 ^ N.of_nat k)%N -> (String.length (pretty_N_go x s) <= k + String.length s)%nat.
Proof.
  revert x s. induction k as [|k IH]; intros x s Hx.
  { assert (x = 0%N) as -> by (cbn in Hx; lia). by rewrite pretty_N_go_0. }
  destruct (decide (x = 0%N)) as [->|H0]; [rewrite pretty_N_go_0; lia|]. rewrite pretty_N_go_step by lia.
  etransitivity; [apply IH|cbn; lia]. apply N.Div0.div_lt_upper_bound.
  by rewrite Nat2N.inj_succ, N.pow_succ_r' in Hx.
Qed.

Lemma substring_whole n s : (String.length s <= n)%nat -> String.substring 0 n s = s.
Proof. revert n. induction s as [|c s IH]; intros [|n] H; cbn in *; [done..|lia|]. f_equal. apply IH. lia. Qed.

(** A port is printed in full, anything else not at all. *)
Lemma portprint_port y : portprint y = if (0 <? y) && (y <? 2 ^ 16) then (":" +:+ pretty y)%string else ""%string.
Proof.
  unfold portprint.
  assert (y .& Z.lnot 0xFFFF = (y / 2 ^ 16) * 2 ^ 16) as ->.
  { rewrite <- Z.ldiff_land. change 0xFFFF with (Z.ones 16). by rewrite Z.ldiff_ones_r, Z.shiftl_mul_pow2, Z.shiftr_div_pow2 by lia. }
  pose proof (Z.div_mod y (2 ^ 16) ltac:(lia)). pose proof (Z.mod_pos_bound y (2 ^ 16) ltac:(lia)).
  destruct (Z.ltb_spec 0 y) as [Hy|Hy].
  2: { destruct (Z.eqb_spec y 0); [done|]. cbn [negb andb]. destruct (Z.eqb_spec (y / 2 ^ 16 * 2 ^ 16) 0); [lia|done]. }
  rewrite (proj2 (Z.eqb_neq _ _)) by lia. cbn [negb andb].
  destruct (Z.ltb_spec y (2 ^ 16)) as [Hy'|Hy'].
  - rewrite Z.div_small by lia. cbn [Z.mul Z.eqb]. rewrite wrap_small by (unfold fits; lia).
    unfold snprintf. rewrite substring_whole; [done|]. destruct y as [|p|p]; [lia| |lia].
    change (pretty (Z.pos p)) with (pretty_N_go (N.pos p) "").
    assert (N.pos p < 10 ^ N.of_nat 5)%N as Hp by (change (10 ^ N.of_nat 5)%N with 100000%N; lia).
    apply (pretty_N_go_length 5 _ "") in Hp. cbn [String.length] in Hp.
    revert Hp. generalize (pretty_N_go (N.pos p) ""). intros s Hs. change (S (String.length s) <= 7)%nat. lia.
  - destruct (Z.eqb_spec (y / 2 ^ 16 * 2 ^ 16) 0); [|done]. assert (1 <= y / 2 ^ 16) by (by apply Z.div_le_lower_bound). lia.
Qed.

(** ** Addresses as 128-bit numbers *)

Lemma be_val_cons a l : be_val (a :: l) = be_val l + 2 ^ (8 * Z.of_nat (length l)) * a.
Proof.
  change (a :: l) with ([a] ++ l). rewrite be_val_app. unfold be_val at 2.
  rewrite reverse_singleton. simpl. lia.
Qed.

Lemma be_val_fits bs : bytes bs -> fits (8 * Z.of_nat (length bs)) (be_val bs).
Proof.
  intros Hb. unfold be_val. rewrite <- (length_reverse bs).
  by apply le_val_fits, bytes_reverse.
Qed.

Lemma memcmp_be_val x y :
  length x = length y -> bytes x -> bytes y ->
  memcmp x y = match be_val x ?= be_val y with Lt => -1 | Eq => 0 | Gt => 1 end.
Proof.
  revert y. induction x as [|a x IH]; intros [|b y]; try done. intros [= Hl] Hx Hy.
  apply Forall_cons in Hx as [Ha Hx], Hy as [Hb Hy]. simpl.
  pose proof (be_val_fits _ Hx) as Fx. pose proof (be_val_fits _ Hy) as Fy.
  rewrite !be_val_cons, Hl in *. set (k := 2 ^ (8 * Z.of_nat (length y))) in *.
  unfold fits in Fx, Fy. fold k in Fx, Fy.
  destruct (Z.eqb_spec a b) as [->|Hne].
  - rewrite IH by done.
    by rewrite (Z.add_comm (be_val x)), (Z.add_comm (be_val y)), Z.add_compare_mono_l.
  - destruct (Z.ltb_spec a b).
    + assert (be_val x + k * a < be_val y + k * b) as Hlt by nia.
      by rewrite (proj2 (Z.compare_lt_iff _ _) Hlt).
    + assert (be_val y + k * b < be_val x + k * a) as Hlt by nia.
      by rewrite (proj2 (Z.compare_gt_iff _ _) Hlt).
Qed.

(** The masked comparison keeps the leading [yp + 1] bits of a byte. *)
Lemma prefix_mask yp b :
  0 <= yp < 8 -> fits 8 b ->
  exists p, rd prefix yp = Some p /\ b .& p = b / 2 ^ (7 - yp) * 2 ^ (7 - yp).
Proof.
  intros Hyp Hb.
  assert (exists p, rd prefix yp = Some p /\ p = 2 ^ 8 - 2 ^ (7 - yp)) as (p & Hp & ->).
  { assert (yp = 0 \/ yp = 1 \/ yp = 2 \/ yp = 3 \/ yp = 4 \/ yp = 5 \/ yp = 6 \/ yp = 7)
      as Hc by lia.
    repeat (destruct Hc as [->|Hc]; [by eexists|]). subst. by eexists. }
  exists (2 ^ 8 - 2 ^ (7 - yp)). split; [done|].
  set (k := 7 - yp). assert (0 <= k <= 7) as Hk by lia.
  assert (2 ^ 8 - 2 ^ k = Z.ones (8 - k) ≪ k) as ->.
  { rewrite Z.ones_equiv, Z.shiftl_mul_pow2 by lia. unfold Z.pred.
    rewrite Z.mul_add_distr_r, <- Z.pow_add_r by lia.
    replace (8 - k + k) with 8 by lia. lia. }
  rewrite <- Z.shiftr_div_pow2, <- Z.shiftl_mul_pow2 by lia.
  apply Z.bits_inj'. intros i Hi. rewrite Z.land_spec.
  destruct (decide (i < k)).
  - rewrite !Z.shiftl_spec_low by lia. apply andb_false_r.
  - rewrite !Z.shiftl_spec, Z.shiftr_spec by lia. replace (i - k + k) with i by lia.
    destruct (decide (i < 8)).
    + rewrite Z.ones_spec_low by lia. apply andb_true_r.
    + rewrite Z.ones_spec_high by lia. rewrite andb_false_r. symmetry.
      rewrite <- (wrap_small 8 b Hb). apply Z.mod_pow2_bits_high. lia.
Qed.

(** The sign of [a - b], the only part of the result the callers use. *)
Lemma scaled_compare a b k : 0 < k -> (a * k - b * k ?= 0) = (a ?= b).
Proof.
  intros Hk. rewrite <- Z.mul_sub_distr_r.
  destruct (Z.compare_spec a b); [|by apply Z.compare_lt_iff; nia|by apply Z.compare_gt_iff; nia].
  apply Z.compare_eq_iff. nia.
Qed.

Lemma sub_compare a b : (a - b ?= 0) = (a ?= b).
Proof. destruct (Z.compare_spec a b); [apply Z.compare_eq_iff|apply Z.compare_lt_iff|apply Z.compare_gt_iff]; lia. Qed.

Lemma rd_drop_cons (x : list Z) (n : nat) a l :
  drop n x = a :: l -> rd x (Z.of_nat n) = Some a /\ drop (S n) x = l.
Proof.
  intros H. split.
  - unfold rd. destruct (Z.leb_spec 0 (Z.of_nat n)); [|lia].
    rewrite Nat2Z.id, <- (Nat.add_0_r n), <- lookup_drop, H. done.
  - rewrite <- Nat.add_1_r, <- drop_drop, H. done.
Qed.

(** The leading bits of [a :: l]: those of [a], then those of [l]. *)
Lemma be_val_lead_cons a l yp :
  fits 8 a -> bytes l -> let n := 8 * Z.of_nat (length l) in
  (0 <= yp < 8 -> be_val (a :: l) / 2 ^ (n + 8 - (yp + 1)) = a / 2 ^ (7 - yp)) /\
  (8 <= yp < n + 8 ->
     be_val (a :: l) / 2 ^ (n + 8 - (yp + 1)) =
       a * 2 ^ (yp - 7) + be_val l / 2 ^ (n - (yp - 8 + 1)) /\
     0 <= be_val l / 2 ^ (n - (yp - 8 + 1)) < 2 ^ (yp - 7)).
Proof.
  intros Ha Hl n. pose proof (be_val_fits l Hl) as [F0 F1]. fold n in F1.
  rewrite be_val_cons. fold n. split; intros Hyp.
  - replace (n + 8 - (yp + 1)) with (n + (7 - yp)) by lia. rewrite Z.pow_add_r by lia.
    assert (0 < 2 ^ n) by (apply Z.pow_pos_nonneg; lia).
    assert (0 < 2 ^ (7 - yp)) by (apply Z.pow_pos_nonneg; lia).
    rewrite <- Z.div_div by lia.
    rewrite (Z.mul_comm (2 ^ n)), Z.div_add by lia.
    by rewrite (Z.div_small (be_val l)) by lia.
  - set (d := n - (yp - 8 + 1)). replace (n + 8 - (yp + 1)) with d by lia.
    assert (2 ^ n = 2 ^ (yp - 7) * 2 ^ d) as E
      by (rewrite <- Z.pow_add_r by lia; f_equal; lia).
    assert (0 < 2 ^ d) by (apply Z.pow_pos_nonneg; lia).
    split.
    + rewrite E. replace (2 ^ (yp - 7) * 2 ^ d * a) with (a * 2 ^ (yp - 7) * 2 ^ d) by lia.
      rewrite Z.div_add by lia. lia.
    + split; [apply Z.div_pos; lia|]. apply Z.div_lt_upper_bound; [lia|].
      rewrite Z.mul_comm, <- E. done.
Qed.

Lemma netprefix_loop_spec fuel x y (i : nat) yp lx ly :
  drop i x = lx -> drop i y = ly -> length lx = length ly -> bytes lx -> bytes ly ->
  0 <= yp < 8 * Z.of_nat (length lx) -> (length lx <= fuel)%nat ->
  exists r, netprefix_loop fuel x y (Z.of_nat i) yp = Some r /\
    let d := 2 ^ (8 * Z.of_nat (length lx) - (yp + 1)) in
    (r ?= 0) = (be_val lx / d ?= be_val ly / d).
Proof.
  revert i yp lx ly. induction fuel as [|fuel IH]; intros i yp lx ly Hx Hy Hl Bx By Hyp Hf; [lia|].
  destruct lx as [|a lx]; simpl in Hyp; [lia|]. destruct ly as [|b ly]; [done|].
  apply rd_drop_cons in Hx as [Ha Hx], Hy as [Hb Hy]. injection Hl as Hl.
  apply Forall_cons in Bx as [Fa Bx], By as [Fb By]. simpl length in *.
  set (n := 8 * Z.of_nat (length lx)) in *.
  replace (8 * Z.of_nat (S (length lx)) - (yp + 1)) with (n + 8 - (yp + 1)) by lia.
  pose proof (be_val_lead_cons a lx yp Fa Bx) as [X1 X2].
  pose proof (be_val_lead_cons b ly yp Fb By) as [Y1 Y2].
  rewrite <- Hl in Y1, Y2. fold n in X1, X2, Y1, Y2.
  simpl netprefix_loop. rewrite Ha, Hb. simpl. destruct (Z.leb_spec 8 yp).
  - destruct X2 as [X2 X3], Y2 as [Y2 Y3]; [lia..|]. rewrite X2, Y2.
    assert (0 < 2 ^ (yp - 7)) by (apply Z.pow_pos_nonneg; lia).
    destruct (Z.eqb_spec (a - b) 0); simpl.
    + assert (a = b) as -> by lia. replace (Z.of_nat i + 1) with (Z.of_nat (S i)) by lia.
      destruct (IH (S i) (yp - 8) lx ly) as (r & Hr & Hc); auto; [lia..|].
      exists r. split; [done|]. by rewrite Z.add_compare_mono_l.
    + exists (a - b). split; [done|]. rewrite sub_compare.
      destruct (Z.compare_spec a b); [lia| |]; symmetry;
        [apply Z.compare_lt_iff|apply Z.compare_gt_iff]; nia.
  - rewrite X1, Y1 by lia.
    destruct (prefix_mask yp a) as (p & Hp & Ma); [lia|done|].
    destruct (prefix_mask yp b) as (p' & Hp' & Mb); [lia|done|].
    assert (p' = p) as -> by congruence. rewrite Hp. simpl.
    eexists. split; [done|]. rewrite Ma, Mb. rewrite <- Z.mul_sub_distr_r.
    rewrite Z.mul_sub_distr_r, scaled_compare; [done|]. apply Z.pow_pos_nonneg; lia.
Qed.

Lemma netprefix_spec x y yp :
  netaddr_ok x -> netaddr_ok y -> 0 <= yp ->
  exists r, netprefix x y yp = Some r /\
    let d := 2 ^ (128 - yp `min` 128) in (r ?= 0) = (be_val x / d ?= be_val y / d).
Proof.
  intros [Lx Bx] [Ly By] Hyp. unfold netprefix.
  pose proof (be_val_fits _ Bx) as Fx. pose proof (be_val_fits _ By) as Fy.
  rewrite Lx in Fx. rewrite Ly in Fy. unfold fits in Fx, Fy.
  destruct (Z.eqb_spec yp 0) as [->|].
  - exists 0. split; [done|]. simpl.
    rewrite !Z.div_small by (split; [lia|]; eapply Z.lt_le_trans; [apply Fx || apply Fy|done]).
    done.
  - set (q := if NET_PREFIX_MAX <? yp then NET_PREFIX_MAX else yp).
    assert (q = yp `min` 128) as Hq.
    { unfold q, NET_PREFIX_MAX. destruct (Z.ltb_spec 128 yp); lia. }
    destruct (netprefix_loop_spec 16 x y 0 (q - 1) x y) as (r & Hr & Hc);
      auto; [congruence|lia..|].
    exists r. split; [done|]. rewrite Hc, Lx, <- Hq.
    by replace (8 * Z.of_nat 16 - (q - 1 + 1)) with (128 - q) by lia.
Qed.

(** ** IPv4 addresses *)

Lemma netaddr4_val in4 ip :
  length in4 = 16%nat -> netaddr4 in4 ip = Some (take 12 net_in64 ++ le_bytes 4 ip).
Proof.
  intros Hl. do 17 (destruct in4 as [|? in4]; try done). unfold netaddr4.
  change (peak_le64dec net_in64 0) with (Some 0).
  change (peak_le64dec net_in64 8) with (Some 0xffff0000). simpl.
  by rewrite le32enc_spec.
Qed.

Lemma netaddr6_val in6 m ip r : length in6 = 16%nat -> netaddr6 in6 m ip = Some r -> rd_n m ip 16 = Some r.
Proof.
  intros Hl. unfold netaddr6. destruct (rd_n m ip 16) as [bs|] eqn:E; [|done]. apply rd_n_length in E. cbn [mbind option_bind].
  pose proof (wr_n_list in6 0 bs ltac:(lia)) as Hw. change (Z.of_nat 0) with 0 in Hw. rewrite Hw, drop_ge, app_nil_r by lia. done.
Qed.

Lemma netcmp4_zero x : length x = 16%nat -> netcmp4 x = 0 <-> take 12 x = take 12 net_in64.
Proof.
  intros Hl. unfold netcmp4. apply memcmp_eq. by rewrite !length_take, Hl.
Qed.

(** The leading 96 bits are the leading 12 bytes. *)
Lemma be_val_take_12 x :
  netaddr_ok x -> be_val x / 2 ^ 32 = be_val (take 12 x).
Proof.
  intros [Hl Hb]. rewrite <- (take_drop 12 x) at 1. rewrite be_val_app.
  assert (length (drop 12 x) = 4%nat) as Hd by (by rewrite length_drop, Hl).
  assert (bytes (drop 12 x)) as Bd by (by apply Forall_drop).
  pose proof (be_val_fits _ Bd) as [F0 F1]. rewrite Hd in *.
  change (8 * Z.of_nat 4) with 32 in *. rewrite (Z.mul_comm (2 ^ 32)), Z.div_add by lia.
  rewrite Z.div_small by lia. lia.
Qed.

Lemma net_in64_ok : netaddr_ok net_in64.
Proof. split; [done|]. repeat constructor; simpl; lia. Qed.

(** ** Properties *)

(** [netprefix] compares addresses by their leading [min yp 128] bits, read as
    a big-endian number: it returns (no access outside the 16 bytes), and the sign
    of its result is the order of the two prefixes, 0 exactly when they agree. *)
Theorem netprefix_compares x y yp :
  netaddr_ok x -> netaddr_ok y -> 0 <= yp ->
  exists r, netprefix x y yp = Some r /\
    (r ?= 0) = (be_val x / 2 ^ (128 - yp `min` 128) ?= be_val y / 2 ^ (128 - yp `min` 128)).
Proof. apply netprefix_spec. Qed.

Lemma netprefix_compares_witness :
  exists r, netprefix net_in64 (take 15 net_in64 ++ [1]) 200 = Some r /\ (r ?= 0) = Lt.
Proof.
  assert (netaddr_ok (take 15 net_in64 ++ [1])) as H
    by (split; [done|]; repeat constructor; simpl; lia).
  destruct (netprefix_compares net_in64 (take 15 net_in64 ++ [1]) 200 net_in64_ok H)
    as (r & Hr & Hc); [lia|].
  exists r. split; [exact Hr|]. etransitivity; [exact Hc|reflexivity].
Defined.

(** IPv4 addresses: [netaddr4] stores the mapped prefix and the four bytes of
    the address, [netto4] gives those bytes back, and the tests agree: [netcmp4]
    is 0, [netcmp6] is 1, and the family [netprint] chooses is [AF_INET] exactly
    for the addresses with [netcmp4] 0. *)
Theorem netaddr4_classifies in4 ip x :
  length in4 = 16%nat -> netaddr_ok x ->
  (exists a, netaddr4 in4 ip = Some a /\ netaddr_ok a /\ netto4 a = le_bytes 4 ip /\
     netcmp4 a = 0 /\ netcmp6 a = 1 /\ netprint_family a = Some AF_INET) /\
  (netprint_family x = Some (if netcmp4 x =? 0 then AF_INET else AF_INET6)).
Proof.
  intros Hl Hx.
  assert (forall x, netaddr_ok x ->
    netprint_family x = Some (if netcmp4 x =? 0 then AF_INET else AF_INET6)) as Hfam.
  { clear. intros x Hx. unfold netprint_family.
    destruct (netprefix_spec x net_in64 96) as (r & -> & Hr); [done|apply net_in64_ok|lia|].
    simpl. f_equal. cbv zeta in Hr. change (128 - 96 `min` 128) with 32 in Hr.
    rewrite be_val_take_12, be_val_take_12 in Hr by (done || apply net_in64_ok).
    destruct Hx as [Lx Bx]. unfold netcmp4. change (16 - 4)%nat with 12%nat.
    rewrite memcmp_be_val, <- Hr by (rewrite ?length_take, ?Lx; done ||
      apply Forall_take; done || apply net_in64_ok).
    destruct (Z.compare_spec r 0), (Z.eqb_spec r 0); done || lia. }
  split; [|by apply Hfam].
  exists (take 12 net_in64 ++ le_bytes 4 ip).
  assert (netaddr_ok (take 12 net_in64 ++ le_bytes 4 ip)) as Hok.
  { split; [by rewrite length_app, le_bytes_length|]. apply Forall_app. split;
      [apply Forall_take, net_in64_ok|apply le_bytes_bytes]. }
  assert (netcmp4 (take 12 net_in64 ++ le_bytes 4 ip) = 0) as H0 by done.
  split_and!; [by apply netaddr4_val|done|done|done|unfold netcmp6; by rewrite H0|].
  by rewrite Hfam, H0.
Qed.

Lemma netaddr4_classifies_witness :
  exists a, netaddr4 net_in64 0x0100007F = Some a /\ netto4 a = [127; 0; 0; 1] /\
    netprint_family a = Some AF_INET.
Proof.
  destruct (netaddr4_classifies net_in64 0x0100007F net_in64 eq_refl net_in64_ok)
    as [(a & H1 & _ & H2 & _ & _ & H3) _].
  exists a. split; [exact H1|]. split; [|exact H3].
  etransitivity; [exact H2|reflexivity].
Defined.
