(* ===== verification/Hash.v ===== *)
(** * Non-cryptographic hashes

    Models [include/peak_hash.h]: FNV-1a, the rolling hash (a cyclic polynomial
    over a fixed table) and Jenkins' one-at-a-time.  Arithmetic is on [uint32_t]:
    additions, products and left shifts wrap; a shift by 32 or more is undefined
    and gives [None]. *)

From S2P Require Import Prelude.

(** ** FNV-1a *)

Definition FNV_OFFSET_32 : Z := 2166136261.
Definition FNV_PRIME_32 : Z := 16777619.

Definition fnv_step (h b : Z) : Z := u32 (FNV_PRIME_32 * (h .^ b)).

(** A hash loop: [step] on each of [len] bytes from [i] on. *)
Fixpoint hash_loop (step : Z -> Z -> Z) (buf : list Z) (i : Z) (len : nat) (h : Z) : option Z :=
  match len with
  | O => Some h
  | S len => b ← rd buf i; hash_loop step buf (i + 1) len (step h b)
  end.

Definition _hash_fnv32 (buf : list Z) (p len : Z) : option Z :=
  hash_loop fnv_step buf p (Z.to_nat len) FNV_OFFSET_32.

Definition hash_fnv32 (buf : list Z) (p len : Z) : option Z := _hash_fnv32 buf p len.

(** ** Rolling hash *)

Definition _ROLL_BITS : Z := 32.

(** [_ROLL_SHIFTN] shifts by [y] and by [32 - y]: both must be below 32. *)
Definition _ROLL_SHIFTN (x y : Z) : option Z :=
  if (y <? _ROLL_BITS) && (0 <? y)
  then Some (u32 (x ≪ y) .| (x ≫ (_ROLL_BITS - y)))
  else None.

Definition _ROLL_SHIFT (x : Z) : Z := u32 (x ≪ 1) .| (x ≫ (_ROLL_BITS - 1)).

Definition hash_roll_values : list Z :=
  [
   0xC3113E7F; 0x4C353C5F; 0x7423810B; 0x258D264E; 0xDAD39DED; 0x75D0B694;
   0x98CE1216; 0x93334482; 0xC5C48EA5; 0xF57E0E8B; 0x5D7F3723; 0x396B1B24;
   0xA8883D9F; 0xB2A74A00; 0xF8E171AE; 0x3F01FBAB; 0x5C1840CB; 0xDDD833C4;
   0x8D8CCA34; 0x32EF223A; 0x1A05B871; 0x9A9B6BFC; 0x50406A0C; 0xE7E1FC04;
   0x5E07D7F6; 0x80B83660; 0x20892A62; 0xB2C6FEA6; 0x6CEC7CAA; 0x182F764B;
   0x3B0353E7; 0x57FC2520; 0x4B6812D4; 0xACB654E4; 0x23C75C04; 0xB1DCD731;
   0xE3AF0733; 0xF2366D39; 0xC729671B; 0xFF3BE6F2; 0xABA37E34; 0x3CDAFA38;
   0xAAD18D03; 0xA8D35345; 0x08E9A92C; 0xF9324059; 0x42D821BE; 0x1BC152DD;
   0x5588811C; 0x874A1F9A; 0x6E83E9CD; 0xDA6F3AF8; 0x965D4670; 0xA7A565C0;
   0x68D8A9AF; 0xFC8FD8FD; 0x8FF99FF9; 0x4C9B42AE; 0x2D066A8D; 0x4D1802F7;
   0x557032B2; 0x12BCF371; 0xDC29D5AE; 0x72EA361F; 0xE2835B0B; 0xDFC58966;
   0x13B0F34D; 0x3FA02BCD; 0xBF282E3D; 0x7DC877F5; 0xF4848A32; 0x861E35F5;
   0x7FFA0D7F; 0x515F2E4E; 0x6B235D5C; 0x55F46E24; 0x35AD2C99; 0x072654A8;
   0x05163F0F; 0x9317B11A; 0xAED1FC10; 0x989444F0; 0xDB3E1814; 0x446C0CF1;
   0x660BF511; 0x2F227D3A; 0xFDBA0539; 0xC649E621; 0x5204D7CE; 0x5FA386D0;
   0xE5F22005; 0x97B6C8A1; 0x4AB69EC2; 0x5C7CA70D; 0x39A48EC6; 0x7BACF378;
   0x8D0ED3D1; 0xE39DE582; 0xC5FBE2AB; 0x37E3D2D0; 0x06F44724; 0x73144144;
   0xBA57E905; 0xB05B4307; 0xAEED8D97; 0xA68CCAC4; 0xE30DA57E; 0xED0F194B;
   0x8C2B9B7A; 0x814575D5; 0x79588493; 0x81D3712A; 0x3FA892F2; 0x80F0BB94;
   0x44EAF51A; 0x4E05F1D4; 0xFC69F858; 0x775E8D60; 0x22B20DD7; 0x170A87EA;
   0x1077DE52; 0x3D5EC9FB; 0x0B6EB1E5; 0xF2F9CCAF; 0xA76C7DEB; 0xD8C2D873;
   0xF438C592; 0x6239FEEC; 0x26D3D2A9; 0x30F6FADF; 0x4B2984CC; 0x6257F3DA;
   0x0E0583E2; 0x143E5E61; 0xBB2732BF; 0x9653217A; 0x027A84EA; 0x95C9AE8B;
   0x89B8B82B; 0x9F286485; 0x29F622FE; 0x52A3196B; 0x8392D95F; 0x33A79167;
   0xF5DEE92A; 0x6E397DB9; 0x11931C01; 0x8DD2CD3B; 0xF9E6003D; 0xAB955AF4;
   0xD38725F9; 0xDCF6F8AE; 0x7667A958; 0xE67AD995; 0xB7CF979A; 0xD88EBE5B;
   0x5BA889F0; 0x078BDD90; 0x447238F9; 0x3135F672; 0x187B95A8; 0x0B7D5751;
   0xACD59D2A; 0x9C5D1929; 0x579E5022; 0xEA90499B; 0x59901800; 0x82237DB5;
   0x7A375509; 0xACA9A22A; 0xEC96E649; 0x69339DB0; 0x081D0D9B; 0xD72FB8B9;
   0xA4184653; 0xC057321D; 0xED19CAB9; 0xB48F1E3E; 0xB9DAC51E; 0xDAED2FC7;
   0x7598CBBD; 0x208DF346; 0x044BE6EC; 0x1C63E6EB; 0xA15F64C1; 0xE024A061;
   0x68309584; 0x0758A68D; 0xF274E9AE; 0x0ABEA0CC; 0xED4FB267; 0x63D6EC46;
   0x9F28E026; 0xF0694A17; 0x9D6E9115; 0xC4600FAD; 0x5B121E99; 0xD6B4A13B;
   0xF5364B8A; 0x8514B254; 0x0182F8DD; 0xDB09F90B; 0x78C70B32; 0xD8EC3B02;
   0x8CD7084D; 0xA4439838; 0x72F35A3D; 0x200B48A5; 0xE2351444; 0xA5552F5F;
   0xD8C1E746; 0x0FE5EF3C; 0xB6A47063; 0x61F4E68B; 0x08FED99B; 0x7E461445;
   0x43CB8380; 0x28BA03C8; 0x21A7A2E2; 0x43437ED6; 0x2A9E6670; 0x89B4A106;
   0xC6C2F4EE; 0x9C4063CC; 0x2FA0DF6C; 0xB54DC409; 0xCF01538F; 0x616431D7;
   0x02CB0E4D; 0x44FFF425; 0xAAD5188E; 0x0742E9BC; 0xFFF41353; 0x130F0A15;
   0x787BDC10; 0x4A327B72; 0x702989F7; 0x5F704798; 0x8156A1BB; 0x2BCA3E74;
   0x1911A8C4; 0x5E1F27D3; 0x07949DC7; 0xF24C2056; 0xB4299EE6; 0x9C7045D9;
   0xA8BF6307; 0x7454AAD2; 0x256425E5; 0xD87DEF67; 0xCFE95452; 0xE7548DF7;
   0xA84956C7; 0xD8402C60; 0xCFBD0373; 0x6B6CDAFE].

Record roll_head := RollHead { rhh_first : Z; rhh_next : Z; rhh_hash : Z }.

Definition ROLL_HASH (head : roll_head) : Z := rhh_hash head.

Definition ROLL_INIT (buf : Z) : roll_head := RollHead buf buf 0.

Definition ROLL_NEXT (m : list Z) (head : roll_head) : option roll_head :=
  b ← rd m (rhh_next head);
  v ← rd hash_roll_values b;
  Some (RollHead (rhh_first head) (rhh_next head + 1) (_ROLL_SHIFT (rhh_hash head) .^ v)).

Fixpoint ROLL_NEXTN (m : list Z) (head : roll_head) (len : nat) : option roll_head :=
  match len with
  | O => Some head
  | S len => head ← ROLL_NEXT m head; ROLL_NEXTN m head len
  end.

Definition ROLL_SHIFT (m : list Z) (head : roll_head) : option roll_head :=
  let len := (rhh_next head - rhh_first head) .& (_ROLL_BITS - 1) in
  b ← rd m (rhh_first head);
  val ← rd hash_roll_values b;
  r ← _ROLL_SHIFTN val len;
  b' ← rd m (rhh_next head);
  val' ← rd hash_roll_values b';
  Some (RollHead (rhh_first head + 1) (rhh_next head + 1)
          (_ROLL_SHIFT (rhh_hash head) .^ r .^ val')).

Fixpoint ROLL_SHIFTN (m : list Z) (head : roll_head) (len : nat) : option roll_head :=
  match len with
  | O => Some head
  | S len => head ← ROLL_SHIFT m head; ROLL_SHIFTN m head len
  end.

Definition hash_roll (m : list Z) (buf len : Z) : option Z :=
  head ← ROLL_NEXTN m (ROLL_INIT buf) (Z.to_nat len);
  Some (ROLL_HASH head).

(** ** One-at-a-time *)

Definition JOAAT_SALT : Z := 0x5E1F27D3.

Definition joaat_step (hash b : Z) : Z :=
  let hash := u32 (hash + b) in
  let hash := u32 (hash + u32 (hash ≪ 10)) in
  hash .^ (hash ≫ 6).

Definition joaat_final (hash : Z) : Z :=
  let hash := u32 (hash + u32 (hash ≪ 3)) in
  let hash := hash .^ (hash ≫ 11) in
  u32 (hash + u32 (hash ≪ 15)).

Definition hash_joaat (m : list Z) (p len : Z) : option Z :=
  joaat_final <$> hash_loop joaat_step m p (Z.to_nat len) JOAAT_SALT.

(** ** Hash steps that lose nothing *)

(** What a byte-wise hash promises: a step is injective in the state and in the
    byte, so a difference, once there, survives every later step. *)
Class StepHash (step : Z -> Z -> Z) : Prop := {
  step_fits h b : fits 32 h -> fits 8 b -> fits 32 (step h b);
  step_state h h' b : fits 32 h -> fits 32 h' -> fits 8 b -> step h b = step h' b -> h = h';
  step_byte h b b' : fits 32 h -> fits 8 b -> fits 8 b' -> step h b = step h b' -> b = b'
}.

Lemma hash_loop_foldl step m i n h bs :
  rd_n m i n = Some bs -> hash_loop step m i n h = Some (foldl step h bs).
Proof.
  revert i h bs. induction n as [|n IH]; intros i h bs; simpl; [by intros [= <-]|].
  destruct (rd m i) as [b|]; simpl; [|done].
  destruct (rd_n m (i + 1) n) as [bs'|] eqn:E; simpl; [|done].
  intros [= <-]. by rewrite (IH _ _ _ E).
Qed.

Section step_hash.
Context {step : Z -> Z -> Z} {SH : StepHash step}.

Lemma foldl_step_fits h l : fits 32 h -> bytes l -> fits 32 (foldl step h l).
Proof.
  intros Hh Hl. revert h Hh. induction Hl as [|b l Hb _ IH]; intros h Hh; simpl; [done|].
  by apply IH, step_fits.
Qed.

Lemma foldl_step_state h h' l :
  fits 32 h -> fits 32 h' -> bytes l -> foldl step h l = foldl step h' l -> h = h'.
Proof.
  intros Hh Hh' Hl. revert h h' Hh Hh'.
  induction Hl as [|b l Hb _ IH]; intros h h' Hh Hh' E; simpl in *; [done|].
  eapply step_state; [done..|]. apply IH; eauto using step_fits.
Qed.

(** Two inputs that differ in one byte are told apart. *)
Lemma foldl_step_detects h l r a b :
  fits 32 h -> bytes (l ++ a :: r) -> bytes (l ++ b :: r) -> a <> b ->
  foldl step h (l ++ a :: r) <> foldl step h (l ++ b :: r).
Proof.
  intros Hh [Hl [Ha Hr]%Forall_cons]%Forall_app [_ [Hb _]%Forall_cons]%Forall_app Hab E.
  rewrite !foldl_app in E. simpl in E. pose proof (foldl_step_fits h l Hh Hl) as Hf.
  apply Hab. eapply step_byte; [exact Hf|done..|].
  eapply foldl_step_state; eauto using step_fits.
Qed.
End step_hash.

(** ** Arithmetic of [uint32_t] permutations *)

(** Equalities between exclusive ors, bit by bit. *)
Ltac xor_bits :=
  apply Z.bits_inj'; intros ? _; rewrite !Z.lxor_spec;
  repeat match goal with |- context [Z.testbit ?x ?i] => destruct (Z.testbit x i) end; done.

Lemma u32_mul_inj k k' x y :
  u32 (k * k') = 1 -> fits 32 x -> fits 32 y -> u32 (k * x) = u32 (k * y) -> x = y.
Proof.
  intros Hk Hx Hy E. rewrite <- (wrap_small 32 x Hx), <- (wrap_small 32 y Hy).
  assert (forall z, u32 z = u32 (k' * u32 (k * z))) as Hz.
  { intros z. unfold wrap. rewrite Zmult_mod_idemp_r.
    replace (k' * (k * z)) with (k * k' * z) by lia.
    rewrite <- Zmult_mod_idemp_l. change ((k * k') mod 2 ^ 32) with (u32 (k * k')).
    by rewrite Hk, Z.mul_1_l. }
  by rewrite (Hz x), E, <- Hz.
Qed.

Lemma u32_shl_add h k : 0 <= k -> u32 (h + u32 (h ≪ k)) = u32 ((1 + 2 ^ k) * h).
Proof.
  intros Hk. rewrite wrap_add_r, Z.shiftl_mul_pow2 by lia. f_equal. lia.
Qed.

Lemma xorshift_inj k x y :
  0 < k -> 0 <= x -> 0 <= y -> x .^ (x ≫ k) = y .^ (y ≫ k) -> x = y.
Proof.
  intros Hk Hx Hy E. apply Z.lxor_eq.
  assert (0 <= x .^ y) as Hd by (apply Z.lxor_nonneg; lia).
  assert (x .^ y = (x .^ y) ≫ k) as F.
  { rewrite Z.shiftr_lxor. apply Z.lxor_eq.
    replace (x .^ y .^ ((x ≫ k) .^ (y ≫ k))) with ((x .^ (x ≫ k)) .^ (y .^ (y ≫ k)))
      by xor_bits.
    by rewrite E, Z.lxor_nilpotent. }
  rewrite Z.shiftr_div_pow2 in F by lia.
  assert (2 <= 2 ^ k).
  { change 2 with (2 ^ 1) at 1. apply Z.pow_le_mono_r; lia. }
  destruct (Z.eq_dec (x .^ y) 0) as [|Hne]; [done|].
  assert ((x .^ y) / 2 ^ k < x .^ y) by (apply Z.div_lt; lia). lia.
Qed.

Lemma lxor_cancel_r x y z : x .^ z = y .^ z -> x = y.
Proof.
  intros E. apply Z.lxor_eq. replace (x .^ y) with ((x .^ z) .^ (y .^ z)) by xor_bits.
  by rewrite E, Z.lxor_nilpotent.
Qed.

Lemma lxor_cancel_l x y z : z .^ x = z .^ y -> x = y.
Proof. rewrite !(Z.lxor_comm z). apply lxor_cancel_r. Qed.

Lemma byte_fits_32 b : fits 8 b -> fits 32 b.
Proof. by apply fits_mono. Qed.

#[export] Hint Resolve byte_fits_32 : peak.

#[export] Instance fnv_step_hash : StepHash fnv_step.
Proof.
  split.
  - intros h b _ _. by apply wrap_bound.
  - intros h h' b Hh Hh' Hb E. apply (u32_mul_inj _ 899433627) in E; auto with peak.
    by apply lxor_cancel_r in E.
  - intros h b b' Hh Hb Hb' E. apply (u32_mul_inj _ 899433627) in E; auto with peak.
    by apply lxor_cancel_l in E.
Qed.

(** Adding a byte and multiplying by 1025, then a xorshift. *)
Lemma joaat_step_eq h b :
  joaat_step h b = let x := u32 (1025 * u32 (h + b)) in x .^ (x ≫ 6).
Proof. unfold joaat_step. by rewrite u32_shl_add by lia. Qed.

Lemma joaat_step_inj h h' b b' :
  joaat_step h b = joaat_step h' b' -> u32 (h + b) = u32 (h' + b').
Proof.
  rewrite !joaat_step_eq. simpl. intros E.
  apply xorshift_inj in E; [|lia|apply wrap_bound; lia..].
  apply (u32_mul_inj _ 3222273025) in E; auto with peak.
Qed.

Lemma u32_add_cancel_l h b b' :
  fits 32 b -> fits 32 b' -> u32 (h + b) = u32 (h + b') -> b = b'.
Proof.
  intros Hb Hb' E. rewrite <- (wrap_small 32 b Hb), <- (wrap_small 32 b' Hb').
  replace b with (h + b - h) by lia. replace b' with (h + b' - h) by lia.
  by rewrite <- wrap_sub_l, E, wrap_sub_l.
Qed.

#[export] Instance joaat_step_hash : StepHash joaat_step.
Proof.
  split.
  - intros h b _ _. rewrite joaat_step_eq. simpl.
    apply lxor_fits; auto with peak.
  - intros h h' b Hh Hh' Hb E. apply joaat_step_inj in E.
    rewrite !(Z.add_comm _ b) in E. by apply u32_add_cancel_l in E.
  - intros h b b' Hh Hb Hb' E. apply joaat_step_inj in E.
    apply u32_add_cancel_l in E; auto with peak.
Qed.

Lemma joaat_final_inj x y : joaat_final x = joaat_final y -> u32 x = u32 y.
Proof.
  unfold joaat_final. rewrite !u32_shl_add by lia. intros E.
  assert (forall z, fits 32 (u32 ((1 + 2 ^ 3) * z) .^ (u32 ((1 + 2 ^ 3) * z) ≫ 11))) as Hf.
  { intros z. auto with peak. }
  apply (u32_mul_inj _ 1073709057) in E; [|done..].
  apply xorshift_inj in E; [|lia|apply wrap_bound; lia..].
  rewrite <- (wrap_mul_r 32 _ x), <- (wrap_mul_r 32 _ y) in E.
  apply (u32_mul_inj _ 954437177) in E; auto with peak.
Qed.

(** ** Rotations *)

(** Thirty-two bits determine a [uint32_t]. *)
Lemma u32_bits_eq x y :
  fits 32 x -> fits 32 y -> (forall i, 0 <= i < 32 -> Z.testbit x i = Z.testbit y i) -> x = y.
Proof.
  intros Hx Hy H. rewrite <- (wrap_small 32 x Hx), <- (wrap_small 32 y Hy).
  apply Z.bits_inj'. intros i Hi. unfold wrap. destruct (decide (i < 32)).
  - rewrite !Z.mod_pow2_bits_low by lia. auto.
  - by rewrite !Z.mod_pow2_bits_high by lia.
Qed.

Lemma u32_high_bits x i : fits 32 x -> 32 <= i -> Z.testbit x i = false.
Proof.
  intros Hx Hi. rewrite <- (wrap_small 32 x Hx). apply Z.mod_pow2_bits_high. lia.
Qed.

Lemma lor_fits k a b : 0 <= k -> fits k a -> fits k b -> fits k (a .| b).
Proof.
  intros Hk Ha Hb. rewrite <- (wrap_small k a Ha), <- (wrap_small k b Hb).
  replace (wrap k a .| wrap k b) with (wrap k (a .| b)); [by apply wrap_bound|].
  unfold wrap. apply Z.bits_inj'. intros i Hi. rewrite Z.lor_spec.
  destruct (decide (i < k)).
  - by rewrite !Z.mod_pow2_bits_low, Z.lor_spec by lia.
  - by rewrite !Z.mod_pow2_bits_high by lia.
Qed.

(** The or of the two shifts is a rotation. *)
Lemma shifts_rotate x k i :
  fits 32 x -> 0 < k < 32 -> 0 <= i < 32 ->
  Z.testbit (u32 (x ≪ k) .| (x ≫ (32 - k))) i = Z.testbit x ((i - k) mod 32).
Proof.
  intros Hx Hk Hi. rewrite Z.lor_spec. unfold wrap.
  rewrite Z.mod_pow2_bits_low, Z.shiftl_spec, Z.shiftr_spec by lia.
  destruct (decide (i < k)).
  - rewrite Z.testbit_neg_r by lia. simpl. f_equal.
    replace (i - k) with (i + (32 - k) + (-1) * 32) by lia.
    rewrite Z.mod_add by lia. symmetry. apply Z.mod_small. lia.
  - rewrite (u32_high_bits x (i + (32 - k))) by (done || lia).
    rewrite orb_false_r. f_equal. symmetry. apply Z.mod_small. lia.
Qed.

Lemma roll_shift_fits x : fits 32 x -> fits 32 (_ROLL_SHIFT x).
Proof. intros Hx. unfold _ROLL_SHIFT, _ROLL_BITS. apply lor_fits; auto with peak. Qed.

(** [rot n x]: [n] single rotations. *)
Definition rot (n : nat) (x : Z) : Z := Nat.iter n _ROLL_SHIFT x.

Lemma rot_fits n x : fits 32 x -> fits 32 (rot n x).
Proof. intros Hx. induction n; simpl; [done|]. by apply roll_shift_fits. Qed.

Lemma rot_bits n x i :
  fits 32 x -> 0 <= i < 32 ->
  Z.testbit (rot n x) i = Z.testbit x ((i - Z.of_nat n) mod 32).
Proof.
  intros Hx. revert i. induction n as [|n IH]; intros i Hi.
  - simpl. f_equal. rewrite Z.sub_0_r. symmetry. by apply Z.mod_small.
  - change (rot (S n) x) with (_ROLL_SHIFT (rot n x)). unfold _ROLL_SHIFT.
    change (_ROLL_BITS - 1) with (32 - 1).
    rewrite shifts_rotate by (done || lia || by apply rot_fits).
    rewrite IH by (apply Z.mod_pos_bound; lia). f_equal.
    rewrite Zminus_mod_idemp_l. f_equal. lia.
Qed.

Lemma rot_lxor n x y : fits 32 x -> fits 32 y -> rot n (x .^ y) = rot n x .^ rot n y.
Proof.
  intros Hx Hy. apply u32_bits_eq.
  - by apply rot_fits, lxor_fits.
  - by apply lxor_fits; [|apply rot_fits..].
  - intros i Hi. rewrite Z.lxor_spec, !rot_bits, Z.lxor_spec; auto with peak.
Qed.

(** The macro's rotation by [n] modulo 32 is [n] single ones, unless it is by 0,
    which the macro cannot do. *)
Lemma roll_shiftn_rot x n :
  fits 32 x -> 0 <= n ->
  _ROLL_SHIFTN x (n .& (_ROLL_BITS - 1)) =
    if n mod 32 =? 0 then None else Some (rot (Z.to_nat n) x).
Proof.
  intros Hx Hn. change (_ROLL_BITS - 1) with 31.
  rewrite (land_low 5 n 31) by done. change (2 ^ 5) with 32.
  unfold _ROLL_SHIFTN, _ROLL_BITS. pose proof (Z.mod_pos_bound n 32).
  destruct (Z.ltb_spec (n mod 32) 32); [|lia].
  destruct (Z.ltb_spec 0 (n mod 32)), (Z.eqb_spec (n mod 32) 0); simpl; try lia; [|done].
  f_equal. apply u32_bits_eq.
  - apply lor_fits; auto with peak.
  - by apply rot_fits.
  - intros i Hi. rewrite shifts_rotate, rot_bits by (done || lia). f_equal.
    rewrite Z2Nat.id by lia. apply Zminus_mod_idemp_r.
Qed.

(** ** The rolling hash of a window *)

Definition roll_value (b : Z) : Z := default 0 (rd hash_roll_values b).

Definition roll_step (h b : Z) : Z := _ROLL_SHIFT h .^ roll_value b.

(** Specification: the hash of a byte string. *)
Definition roll_spec (bs : list Z) : Z := foldl roll_step 0 bs.

Lemma roll_values_fit : Forall (fits 32) hash_roll_values.
Proof. apply (bool_decide_unpack _). vm_compute. done. Qed.

Lemma rd_roll_value b : fits 8 b -> rd hash_roll_values b = Some (roll_value b).
Proof.
  intros Hb. unfold roll_value. destruct (rd_in hash_roll_values b) as [v ->]; [|done].
  exact Hb.
Qed.

Lemma roll_value_fits b : fits 8 b -> fits 32 (roll_value b).
Proof.
  intros Hb. pose proof (rd_roll_value b Hb) as H. unfold rd in H.
  destruct (0 <=? b); [|done]. eapply Forall_lookup_1; [apply roll_values_fit|done].
Qed.

#[export] Hint Resolve roll_shift_fits rot_fits roll_value_fits lor_fits : peak.

(** The table has no repeated value, so a step loses nothing either. *)
Lemma roll_values_nodup : NoDup hash_roll_values.
Proof. apply (bool_decide_unpack _). vm_compute. done. Qed.

#[export] Instance roll_step_hash : StepHash roll_step.
Proof.
  split; unfold roll_step.
  - intros h b Hh Hb. auto with peak.
  - intros h h' b Hh Hh' Hb E%lxor_cancel_r. apply u32_bits_eq; [done..|]. intros i Hi.
    pose proof (f_equal (fun z => Z.testbit z ((i + 1) mod 32)) E) as Ei. simpl in Ei.
    change (_ROLL_SHIFT h) with (rot 1 h) in Ei. change (_ROLL_SHIFT h') with (rot 1 h') in Ei.
    rewrite !rot_bits in Ei by (done || apply Z.mod_pos_bound; lia).
    rewrite Zminus_mod_idemp_l in Ei. change (Z.of_nat 1) with 1 in Ei.
    replace (i + 1 - 1) with i in Ei by lia. by rewrite Z.mod_small in Ei by lia.
  - intros h b b' Hh Hb Hb' E%lxor_cancel_l.
    pose proof (rd_roll_value b Hb) as R. pose proof (rd_roll_value b' Hb') as R'.
    rewrite E in R. unfold rd, fits in *. destruct (Z.leb_spec 0 b), (Z.leb_spec 0 b'); try lia.
    pose proof (NoDup_lookup _ _ _ _ roll_values_nodup R R'). lia.
Qed.

Lemma roll_step_0 b : roll_step 0 b = roll_value b.
Proof. done. Qed.

(** A state is rotated past the bytes that follow it. *)
Lemma foldl_roll_step h bs :
  fits 32 h -> bytes bs -> foldl roll_step h bs = rot (length bs) h .^ roll_spec bs.
Proof.
  intros Hh Hbs. unfold roll_spec. revert h Hh. induction bs as [|b bs IH] using rev_ind;
    intros h Hh; simpl; [by rewrite Z.lxor_0_r|].
  apply Forall_app in Hbs as [Hbs [Hb _]%Forall_cons].
  assert (fits 32 (foldl roll_step 0 bs)) by (by apply foldl_step_fits).
  rewrite !foldl_app, length_app, Nat.add_1_r. simpl. rewrite IH by done.
  unfold roll_step at 1 3.
  change (_ROLL_SHIFT (rot (length bs) h .^ foldl roll_step 0 bs))
    with (rot 1 (rot (length bs) h .^ foldl roll_step 0 bs)).
  rewrite rot_lxor by auto with peak. apply Z.lxor_assoc.
Qed.

(** One step of the window: the first byte leaves, [b] enters. *)
Lemma roll_spec_shift a bs b :
  fits 8 a -> bytes bs -> fits 8 b ->
  roll_spec (bs ++ [b]) =
    _ROLL_SHIFT (roll_spec (a :: bs)) .^ rot (S (length bs)) (roll_value a) .^ roll_value b.
Proof.
  intros Ha Hbs Hb. unfold roll_spec at 2. simpl. rewrite roll_step_0.
  assert (fits 32 (roll_spec bs)) by (by apply foldl_step_fits).
  rewrite foldl_roll_step by auto with peak.
  change (_ROLL_SHIFT (rot (length bs) (roll_value a) .^ roll_spec bs))
    with (rot 1 (rot (length bs) (roll_value a) .^ roll_spec bs)).
  rewrite rot_lxor by auto with peak. unfold roll_spec at 1. rewrite foldl_app. simpl.
  unfold roll_step at 1. change (foldl roll_step 0 bs) with (roll_spec bs).
  simpl rot. unfold rot at 1. simpl. fold (rot (length bs) (roll_value a)).
  set (u := _ROLL_SHIFT (rot _ _)). set (v := _ROLL_SHIFT (roll_spec bs)).
  rewrite (Z.lxor_comm u v), (Z.lxor_assoc v u u), Z.lxor_nilpotent, Z.lxor_0_r. done.
Qed.

Lemma roll_nextn_spec m head n bs :
  bytes m -> rd_n m (rhh_next head) n = Some bs ->
  ROLL_NEXTN m head n =
    Some (RollHead (rhh_first head) (rhh_next head + Z.of_nat n)
            (foldl roll_step (rhh_hash head) bs)).
Proof.
  intros Hm. revert head bs. induction n as [|n IH]; intros head bs; simpl.
  - intros [= <-]. rewrite Z.add_0_r. by destruct head.
  - unfold ROLL_NEXT. destruct (rd m (rhh_next head)) as [b|] eqn:Eb; simpl; [|done].
    destruct (rd_n m (rhh_next head + 1) n) as [bs'|] eqn:E; simpl; [|done].
    intros [= <-]. rewrite rd_roll_value by (by eapply rd_byte). simpl.
    erewrite IH by exact E. simpl. f_equal. f_equal. lia.
Qed.

Lemma hash_roll_spec m p n bs :
  bytes m -> rd_n m p n = Some bs -> hash_roll m p (Z.of_nat n) = Some (roll_spec bs).
Proof.
  intros Hm H. unfold hash_roll. rewrite Nat2Z.id.
  by rewrite (roll_nextn_spec m (ROLL_INIT p) n bs).
Qed.

Lemma rd_n_snoc m i n bs b :
  rd_n m i n = Some bs -> rd m (i + Z.of_nat n) = Some b -> rd_n m i (S n) = Some (bs ++ [b]).
Proof.
  intros H Hb. rewrite <- Nat.add_1_r. rewrite rd_n_app, H. simpl. by rewrite Hb.
Qed.

(** The state of a window [first, first + n) that holds its hash. *)
Definition roll_at (m : list Z) (first : Z) (n : nat) (head : roll_head) : Prop :=
  rhh_first head = first /\ rhh_next head = first + Z.of_nat n /\
  exists bs, rd_n m first n = Some bs /\ rhh_hash head = roll_spec bs.

Lemma roll_shift_at m first n head :
  bytes m -> Z.of_nat n mod 32 <> 0 -> 0 <= first -> first + Z.of_nat n < msize m ->
  roll_at m first n head ->
  exists head', ROLL_SHIFT m head = Some head' /\ roll_at m (first + 1) n head'.
Proof.
  intros Hm Hn Hf Hlen (E1 & E2 & bs & Hbs & Eh).
  destruct n as [|n]; [done|]. simpl in Hbs.
  destruct (rd m first) as [a|] eqn:Ea; simpl in Hbs; [|done].
  destruct (rd_n m (first + 1) n) as [bs'|] eqn:Er; simpl in Hbs; [|done].
  injection Hbs as <-. unfold ROLL_SHIFT. rewrite E1, E2, Ea, Eh. simpl.
  pose proof (rd_byte _ _ _ Hm Ea) as Fa. rewrite rd_roll_value by done. simpl.
  replace (first + Z.of_nat (S n) - first) with (Z.of_nat (S n)) by lia.
  rewrite roll_shiftn_rot by (auto with peak || lia).
  destruct (Z.eqb_spec (Z.of_nat (S n) mod 32) 0); [done|]. simpl.
  destruct (rd_in m (first + Z.of_nat (S n))) as [b Eb]; [lia|].
  rewrite Eb. simpl.
  pose proof (rd_byte _ _ _ Hm Eb) as Fb. rewrite rd_roll_value by done. simpl.
  eexists. split; [done|]. split_and!; simpl; [done|lia|].
  exists (bs' ++ [b]). split.
  - apply rd_n_snoc; [done|]. rewrite <- Eb. f_equal. lia.
  - rewrite (roll_spec_shift a) by (done || by eapply rd_n_bytes).
    by rewrite Nat2Z.id, (rd_n_length _ _ _ _ Er).
Qed.

Lemma roll_shiftn_at m first n k head :
  bytes m -> Z.of_nat n mod 32 <> 0 -> 0 <= first ->
  first + Z.of_nat n + Z.of_nat k <= msize m -> roll_at m first n head ->
  exists head', ROLL_SHIFTN m head k = Some head' /\ roll_at m (first + Z.of_nat k) n head'.
Proof.
  intros Hm Hn. revert first head. induction k as [|k IH]; intros first head Hf Hlen Hat; simpl.
  - exists head. by rewrite Z.add_0_r.
  - destruct (roll_shift_at m first n head) as (h1 & -> & Hat1); [done..|lia|done|]. simpl.
    destruct (IH (first + 1) h1) as (h2 & -> & Hat2); [lia..|done|].
    exists h2. split; [done|]. by replace (first + Z.of_nat (S k)) with (first + 1 + Z.of_nat k) by lia.
Qed.

(** A window whose size is a multiple of 32 cannot be shifted: the macro's
    second shift count is 32. *)
Lemma roll_shift_stuck m head :
  0 <= rhh_next head - rhh_first head -> (rhh_next head - rhh_first head) mod 32 = 0 ->
  ROLL_SHIFT m head = None.
Proof.
  intros Hle H0. unfold ROLL_SHIFT. destruct (rd m (rhh_first head)); simpl; [|done].
  destruct (rd hash_roll_values z); simpl; [|done].
  change (_ROLL_BITS - 1) with 31. rewrite (land_low 5 _ 31) by done.
  change (2 ^ 5) with 32. by rewrite H0.
Qed.

(** ** Properties *)

(** C36.  The rolling hash rolls: after [ROLL_INIT], [n] times [ROLL_NEXT] and [k] times
    [ROLL_SHIFT], the state is the hash ([hash_roll]) of the window of [n] bytes at
    offset [k], with no access out of the buffer, for every window size that is not
    a multiple of 32; for a non-empty one that is, the first [ROLL_SHIFT] is
    undefined. *)
Theorem roll_window m p (n k : nat) :
  bytes m -> 0 <= p -> p + Z.of_nat n + Z.of_nat k <= msize m ->
  exists h0, ROLL_NEXTN m (ROLL_INIT p) n = Some h0 /\
    if Z.of_nat n mod 32 =? 0
    then ROLL_SHIFTN m h0 (S k) = None
    else exists h, ROLL_SHIFTN m h0 k = Some h /\
           hash_roll m (p + Z.of_nat k) (Z.of_nat n) = Some (ROLL_HASH h).
Proof.
  intros Hm Hp Hlen. destruct (rd_n_is_Some m p n) as (bs & Hbs & Hl); [lia..|].
  eexists. split; [by apply (roll_nextn_spec m (ROLL_INIT p) n bs)|]. simpl.
  destruct (Z.eqb_spec (Z.of_nat n mod 32) 0) as [H0|H0].
  - rewrite roll_shift_stuck; [done|simpl; lia|]. simpl.
    by replace (p + Z.of_nat n - p) with (Z.of_nat n) by lia.
  - destruct (roll_shiftn_at m p n k (RollHead p (p + Z.of_nat n) (roll_spec bs)))
      as (h & Hh & _ & _ & bs' & Hbs' & E); [done..|by split_and!; [..|exists bs]|].
    exists h. split; [exact Hh|]. unfold ROLL_HASH. rewrite E. by apply hash_roll_spec.
Qed.

Lemma roll_window_witness :
  exists h0, ROLL_NEXTN [1; 2; 3; 4; 5; 6] (ROLL_INIT 0) 3 = Some h0 /\
    exists h, ROLL_SHIFTN [1; 2; 3; 4; 5; 6] h0 3 = Some h /\
      hash_roll [1; 2; 3; 4; 5; 6] 3 3 = Some (ROLL_HASH h).
Proof.
  apply (roll_window [1; 2; 3; 4; 5; 6] 0 3 3);
    [apply (bool_decide_unpack _); vm_compute; exact I|vm_compute; discriminate..].
Defined.

(** No hash of peak_hash.h misses a changed byte: two buffers of the same size
    that differ in one byte of the hashed range have different FNV-1a,
    one-at-a-time and rolling hashes, all three of which read only the range. *)
Theorem hashes_detect_byte l r a b :
  bytes (l ++ a :: r) -> bytes (l ++ b :: r) -> a <> b ->
  let m := l ++ a :: r in let m' := l ++ b :: r in let len := msize m in
  forall hash, hash = hash_fnv32 \/ hash = hash_joaat \/ hash = hash_roll ->
  exists h h', hash m 0 len = Some h /\ hash m' 0 len = Some h' /\ h <> h'.
Proof.
  intros Hm Hm' Hab m m' len hash Hh. change (bytes m) in Hm. change (bytes m') in Hm'.
  assert (forall x, rd_n x 0 (length x) = Some x) as Hall.
  { intros x. apply rd_n_eq; [done|]. intros k Hk. unfold rd.
    destruct (Z.leb_spec 0 (0 + Z.of_nat k)); [|lia]. f_equal. lia. }
  assert (length m' = length m) as Hlen by (unfold m, m'; by rewrite !length_app).
  pose proof (Hall m) as R. pose proof (Hall m') as R'. rewrite Hlen in R'.
  destruct Hh as [->|[->| ->]].
  - unfold hash_fnv32, _hash_fnv32, len, msize. rewrite Nat2Z.id.
    rewrite (hash_loop_foldl _ _ _ _ _ _ R), (hash_loop_foldl _ _ _ _ _ _ R').
    do 2 eexists. split_and!; [done..|]. by apply foldl_step_detects.
  - unfold hash_joaat, len, msize. rewrite Nat2Z.id.
    rewrite (hash_loop_foldl _ _ _ _ _ _ R), (hash_loop_foldl _ _ _ _ _ _ R'). simpl.
    do 2 eexists. split_and!; [done..|]. intros E%joaat_final_inj.
    rewrite !wrap_small in E by (apply foldl_step_fits; done).
    by apply foldl_step_detects in E.
  - unfold len, msize. rewrite (hash_roll_spec _ _ _ _ Hm R), (hash_roll_spec _ _ _ _ Hm' R').
    do 2 eexists. split_and!; [done..|]. by apply foldl_step_detects.
Qed.

Lemma hashes_detect_byte_witness :
  exists h h', hash_fnv32 [104; 105] 0 2 = Some h /\ hash_fnv32 [104; 106] 0 2 = Some h' /\ h <> h'.
Proof.
  apply (hashes_detect_byte [104] [] 105 106) with (hash := hash_fnv32);
    [apply (bool_decide_unpack _); vm_compute; exact I..|discriminate|left; reflexivity].
Defined.
