(* ===== verification/Counters.v ===== *)
(** * Audit counters

    Models [lib/peak_audit.c]: every thread counts events in its own
    [audit_thread], and [peak_audit_sync] merges a thread's counters into a shared
    [export] with one atomic addition per field, wiping the field afterwards.  The
    operations are functions on the thread's fields; the system of several threads
    is a step relation in which the additions and wipes of a sync interleave with
    everything the other threads do. *)

From stdpp Require Import relations.
From S2P Require Import Prelude.

Open Scope Z_scope.

Definition AUDIT_PACKET_DROP_LINK : Z := 0.
Definition AUDIT_PACKET_DROP_IPV4 : Z := 1.
Definition AUDIT_PACKET_DROP_IPV6 : Z := 2.
Definition AUDIT_PACKET_DROP_ICMP : Z := 3.
Definition AUDIT_PACKET_DROP_TCP : Z := 4.
Definition AUDIT_PACKET_DROP_UDP : Z := 5.
Definition AUDIT_TRACK_ADDED : Z := 6.
Definition AUDIT_TRACK_RECYCLED : Z := 7.
Definition AUDIT_TRACK_FAILED : Z := 8.
Definition AUDIT_MAX : Z := 9.

(** [struct peak_audit]: the fields, a [uint64_t] each. *)
Abbreviation peak_audit := (list Z).

Definition audit_ok (a : peak_audit) : Prop := msize a = AUDIT_MAX /\ Forall (fits 64) a.

Definition audit_names : list string :=
  ["packet.drop.link"; "packet.drop.ipv4"; "packet.drop.ipv6"; "packet.drop.icmp";
   "packet.drop.tcp"; "packet.drop.udp"; "track.added"; "track.recycled"; "track.failed"]%string.

(** ** Operations: [field] is an unsigned int, [audit_thread] the caller's fields *)

Definition peak_audit_name (field : Z) : option string :=
  if field <? AUDIT_MAX then audit_names !! Z.to_nat field else None.

Definition peak_audit_set (audit_thread : peak_audit) (field value : Z) : peak_audit :=
  if field <? AUDIT_MAX then <[Z.to_nat field := value]> audit_thread else audit_thread.

Definition peak_audit_get (audit_thread : peak_audit) (field : Z) : Z :=
  if field <? AUDIT_MAX then audit_thread !!! Z.to_nat field else 0.

Definition peak_audit_add (audit_thread : peak_audit) (field value : Z) : peak_audit :=
  if field <? AUDIT_MAX
  then <[Z.to_nat field := u64 (audit_thread !!! Z.to_nat field + value)]> audit_thread
  else audit_thread.

Definition peak_audit_inc (audit_thread : peak_audit) (field : Z) : peak_audit :=
  if field <? AUDIT_MAX
  then <[Z.to_nat field := u64 (audit_thread !!! Z.to_nat field + 1)]> audit_thread
  else audit_thread.

(** One field of a sync: the atomic addition, then the wipe. *)
Definition sync_add (export audit_thread : peak_audit) (i : nat) : peak_audit :=
  <[i := u64 (export !!! i + audit_thread !!! i)]> export.

Definition sync_wipe (audit_thread : peak_audit) (i : nat) : peak_audit :=
  <[i := 0]> audit_thread.

(** The loop of a sync from field [i] on, with [n] fields to go. *)
Fixpoint sync_loop (export audit_thread : peak_audit) (i n : nat) : peak_audit * peak_audit :=
  match n with
  | O => (export, audit_thread)
  | S n => sync_loop (sync_add export audit_thread i) (sync_wipe audit_thread i) (S i) n
  end.

Definition peak_audit_sync (export audit_thread : peak_audit) : peak_audit * peak_audit :=
  sync_loop export audit_thread 0 (Z.to_nat AUDIT_MAX).

(** ** Threads *)

(** Where a thread is: outside a sync, or in its loop before the addition or the
    wipe of a field. *)
Inductive pc :=
  | Idle
  | AtAdd (i : nat)
  | AtWipe (i : nat).

#[export] Instance pc_dec : EqDecision pc.
Proof. solve_decision. Defined.

Record thread := Thread { local : peak_audit; at_ : pc }.

(** The shared [export], the threads and, as a history variable, what was counted. *)
Record system := System { export : peak_audit; threads : list thread; counted : nat -> Z }.

Definition next_pc (i : nat) : pc :=
  if (S i <? Z.to_nat AUDIT_MAX)%nat then AtAdd (S i) else Idle.

(** [peak_audit_add] of an in-range field counts [value]. *)
Definition count (c : nat -> Z) (field value : Z) : nat -> Z :=
  fun f => if decide (field < AUDIT_MAX /\ Z.to_nat field = f) then c f + value else c f.

Inductive step : system -> system -> Prop :=
  | step_add e ts c t l field value :
      ts !! t = Some (Thread l Idle) -> fits 32 field -> fits 64 value ->
      step (System e ts c)
        (System e (<[t := Thread (peak_audit_add l field value) Idle]> ts) (count c field value))
  | step_inc e ts c t l field :
      ts !! t = Some (Thread l Idle) -> fits 32 field ->
      step (System e ts c)
        (System e (<[t := Thread (peak_audit_inc l field) Idle]> ts) (count c field 1))
  | step_sync e ts c t l :
      ts !! t = Some (Thread l Idle) ->
      step (System e ts c) (System e (<[t := Thread l (AtAdd 0)]> ts) c)
  | step_sync_add e ts c t l i :
      ts !! t = Some (Thread l (AtAdd i)) ->
      step (System e ts c) (System (sync_add e l i) (<[t := Thread l (AtWipe i)]> ts) c)
  | step_sync_wipe e ts c t l i :
      ts !! t = Some (Thread l (AtWipe i)) ->
      step (System e ts c) (System e (<[t := Thread (sync_wipe l i) (next_pc i)]> ts) c).

Definition zeros : peak_audit := replicate (Z.to_nat AUDIT_MAX) 0.

(** Static storage starts at zero. *)
Definition init (n : nat) : system :=
  System zeros (replicate n (Thread zeros Idle)) (fun _ => 0).

(** ** Conservation *)

(** What a thread still owes the export for field [f]. *)
Definition owed (f : nat) (th : thread) : Z :=
  match at_ th with
  | AtWipe i => if decide (i = f) then 0 else local th !!! f
  | _ => local th !!! f
  end.

Definition owed_all (ts : list thread) (f : nat) : Z :=
  foldr (fun th acc => owed f th + acc) 0 ts.

Definition pc_ok (p : pc) : Prop :=
  match p with Idle => True | AtAdd i | AtWipe i => (i < Z.to_nat AUDIT_MAX)%nat end.

Definition thread_ok (th : thread) : Prop := audit_ok (local th) /\ pc_ok (at_ th).

Record system_ok (s : system) : Prop := {
  export_ok : audit_ok (export s);
  threads_ok : Forall thread_ok (threads s);
  conserved f : (f < Z.to_nat AUDIT_MAX)%nat ->
    u64 (export s !!! f + owed_all (threads s) f) = u64 (counted s f)
}.

Lemma owed_insert ts t th th' f :
  ts !! t = Some th ->
  owed_all (<[t := th']> ts) f = owed_all ts f - owed f th + owed f th'.
Proof.
  revert t. induction ts as [|x ts IH]; intros [|t]; simpl; try done.
  - intros [= ->]. lia.
  - intros H. rewrite IH by done. lia.
Qed.

Lemma audit_insert_ok a i v : audit_ok a -> fits 64 v -> audit_ok (<[i := v]> a).
Proof.
  intros [Hl Ha] Hv. split; [unfold msize in *; by rewrite length_insert|by apply Forall_insert].
Qed.

Lemma audit_length a : audit_ok a -> length a = Z.to_nat AUDIT_MAX.
Proof. intros [H _]. unfold msize in H. lia. Qed.

Lemma audit_lookup_insert a i v f :
  audit_ok a -> (f < Z.to_nat AUDIT_MAX)%nat ->
  <[i := v]> a !!! f = if decide (i = f) then v else a !!! f.
Proof.
  intros Ha%audit_length Hf. case_decide; subst.
  - apply list_lookup_total_insert_eq. lia.
  - by apply list_lookup_total_insert_ne.
Qed.

Lemma audit_add_ok a field v : audit_ok a -> audit_ok (peak_audit_add a field v).
Proof.
  intros Ha. unfold peak_audit_add. case_match; [|done].
  apply audit_insert_ok; auto with peak.
Qed.

Lemma audit_inc_add a field : peak_audit_inc a field = peak_audit_add a field 1.
Proof. done. Qed.

(** A local addition owes what it counts. *)
Lemma audit_add_lookup a field v f :
  audit_ok a -> 0 <= field -> (f < Z.to_nat AUDIT_MAX)%nat ->
  exists q, peak_audit_add a field v !!! f - a !!! f =
            count (fun _ => 0) field v f + q * 2 ^ 64.
Proof.
  intros Ha Hfield Hf. unfold peak_audit_add, count.
  destruct (Z.ltb_spec field AUDIT_MAX) as [Hlt|Hlt].
  - rewrite audit_lookup_insert by done. destruct (decide (Z.to_nat field = f)) as [->|Hne].
    + rewrite decide_True by lia. unfold wrap.
      exists (- ((a !!! f + v) / 2 ^ 64)). rewrite Z.mod_eq by lia. lia.
    + rewrite decide_False by (intros [_ ?]; done). exists 0. lia.
  - rewrite decide_False by lia. exists 0. lia.
Qed.

Lemma u64_congr x y q : x = y + q * 2 ^ 64 -> u64 x = u64 y.
Proof. intros ->. unfold wrap. by rewrite Z.mod_add by lia. Qed.

Lemma count_add c field v f : count c field v f = c f + count (fun _ => 0) field v f.
Proof. unfold count. case_decide; lia. Qed.

Lemma step_add_preserves e ts c t l field v :
  system_ok (System e ts c) -> ts !! t = Some (Thread l Idle) -> 0 <= field ->
  system_ok (System e (<[t := Thread (peak_audit_add l field v) Idle]> ts) (count c field v)).
Proof.
  intros [He Hts Hc] Ht Hf. simpl in *.
  assert (thread_ok (Thread l Idle)) as [Hl _] by (by eapply Forall_lookup_1).
  split; simpl; [done| |].
  - apply Forall_insert; [done|]. split; [by apply audit_add_ok|done].
  - intros f Hlt. rewrite (owed_insert _ _ _ _ _ Ht), count_add, <- (wrap_add_l 64 (c f)), <- Hc, wrap_add_l by done.
    destruct (audit_add_lookup l field v f) as [q Hq]; [done..|].
    apply (u64_congr _ _ q). unfold owed. simpl in *. lia.
Qed.

Lemma next_pc_ok i : pc_ok (next_pc i).
Proof. unfold next_pc. destruct (Nat.ltb_spec (S i) (Z.to_nat AUDIT_MAX)); done. Qed.

Lemma owed_next_pc f l i : owed f (Thread l (next_pc i)) = l !!! f.
Proof. unfold owed, next_pc. by destruct (S i <? _)%nat. Qed.

Lemma step_preserves s s' : step s s' -> system_ok s -> system_ok s'.
Proof.
  intros Hs Hok. destruct Hs as [e ts c t l field v Ht Hf Hv|e ts c t l field Ht Hf|
    e ts c t l Ht|e ts c t l i Ht|e ts c t l i Ht].
  - apply step_add_preserves; [done..|apply Hf].
  - rewrite audit_inc_add. apply step_add_preserves; [done..|apply Hf].
  - destruct Hok as [He Hts Hc]; simpl in *.
    assert (thread_ok (Thread l Idle)) as [Hl _] by (by eapply Forall_lookup_1).
    split; simpl; [done|apply Forall_insert; [done|split; simpl; [done|unfold AUDIT_MAX; lia]]|].
    intros f Hlt. rewrite (owed_insert _ _ _ _ _ Ht), <- Hc by done. f_equal.
    unfold owed. simpl. lia.
  - destruct Hok as [He Hts Hc]; simpl in *.
    assert (thread_ok (Thread l (AtAdd i))) as [Hl Hi] by (by eapply Forall_lookup_1).
    split; simpl; [apply audit_insert_ok; auto with peak|by apply Forall_insert|].
    intros f Hlt. rewrite (owed_insert _ _ _ _ _ Ht), <- Hc by done.
    unfold sync_add. rewrite audit_lookup_insert by done. unfold owed. simpl.
    case_decide; subst; [|f_equal; lia]. rewrite wrap_add_l. f_equal. lia.
  - destruct Hok as [He Hts Hc]; simpl in *.
    assert (thread_ok (Thread l (AtWipe i))) as [Hl Hi] by (by eapply Forall_lookup_1).
    split; simpl; [done|apply Forall_insert; [done|]|].
    + split; [apply audit_insert_ok; [done|unfold fits; lia]|apply next_pc_ok].
    + intros f Hlt. rewrite (owed_insert _ _ _ _ _ Ht), <- Hc, owed_next_pc by done.
      unfold sync_wipe. rewrite audit_lookup_insert by done. f_equal. unfold owed. simpl.
      case_decide; lia.
Qed.

Lemma zeros_ok : audit_ok zeros.
Proof. split; [done|]. apply (bool_decide_unpack _). by vm_compute. Qed.

Lemma zeros_lookup f : (f < Z.to_nat AUDIT_MAX)%nat -> zeros !!! f = 0.
Proof. by apply lookup_total_replicate_2. Qed.

Lemma init_ok n : system_ok (init n).
Proof.
  split; simpl.
  - apply zeros_ok.
  - apply Forall_replicate. split; [apply zeros_ok|done].
  - intros f Hf. rewrite zeros_lookup by done.
    assert (owed_all (replicate n (Thread zeros Idle)) f = 0) as ->; [|done].
    induction n as [|n IH]; simpl; [done|]. rewrite IH. unfold owed. simpl.
    by rewrite zeros_lookup.
Qed.

Lemma reachable_ok n s : rtc step (init n) s -> system_ok s.
Proof.
  intros H. pose proof (init_ok n) as Hi. revert Hi.
  induction H as [|x y z Hxy _ IH]; intros Hx; [done|]. by eapply IH, step_preserves.
Qed.

(** ** An uninterrupted sync *)

Lemma sync_loop_steps n i e l ts c t :
  (i + S n = Z.to_nat AUDIT_MAX)%nat -> ts !! t = Some (Thread l (AtAdd i)) ->
  rtc step (System e ts c)
    (System (sync_loop e l i (S n)).1 (<[t := Thread (sync_loop e l i (S n)).2 Idle]> ts) c).
Proof.
  revert i e l ts. induction n as [|n IH]; intros i e l ts Hi Ht.
  all: assert (t < length ts)%nat as Hlt by (by eapply lookup_lt_Some).
  all: eapply rtc_l; [by apply step_sync_add|].
  all: eapply rtc_l; [apply step_sync_wipe; by apply list_lookup_insert_eq|].
  all: rewrite list_insert_insert_eq; unfold next_pc.
  - destruct (Nat.ltb_spec (S i) (Z.to_nat AUDIT_MAX)); [lia|]. apply rtc_refl.
  - destruct (Nat.ltb_spec (S i) (Z.to_nat AUDIT_MAX)); [|lia].
    rewrite <- (list_insert_insert_eq ts t (Thread (sync_loop e l i (S (S n))).2 Idle)
                  (Thread (sync_wipe l i) (AtAdd (S i)))).
    apply IH; [lia|]. by apply list_lookup_insert_eq.
Qed.

Lemma sync_loop_spec n i e l :
  audit_ok e -> audit_ok l -> (i + n = Z.to_nat AUDIT_MAX)%nat ->
  let r := sync_loop e l i n in
  audit_ok r.1 /\ audit_ok r.2 /\
  forall f, (f < Z.to_nat AUDIT_MAX)%nat ->
    r.1 !!! f = (if decide (f < i)%nat then e !!! f else u64 (e !!! f + l !!! f)) /\
    r.2 !!! f = (if decide (f < i)%nat then l !!! f else 0).
Proof.
  revert i e l. induction n as [|n IH]; intros i e l He Hl Hi; simpl.
  - split_and!; [done..|]. intros f Hf. by rewrite !decide_True by lia.
  - destruct (IH (S i) (sync_add e l i) (sync_wipe l i)) as (He' & Hl' & Hf).
    + apply audit_insert_ok; auto with peak.
    + apply audit_insert_ok; [done|unfold fits; lia].
    + lia.
    + split_and!; [done..|]. intros f Hlt. destruct (Hf f Hlt) as [-> ->].
      unfold sync_add, sync_wipe. rewrite !audit_lookup_insert by done.
      repeat case_decide; subst; done || lia.
Qed.

(** ** Properties *)

(** C9.  No count is lost or exported twice: in every state that any interleaving of
    counting and syncing threads can reach, the export plus what the threads still
    owe is the number of events counted, modulo 2^64, for every field; once every
    thread's fields are zero the export alone is the count. *)
Theorem audit_conserves n s f :
  rtc step (init n) s -> (f < Z.to_nat AUDIT_MAX)%nat ->
  u64 (export s !!! f + owed_all (threads s) f) = u64 (counted s f) /\
  (Forall (fun th => local th !!! f = 0) (threads s) -> export s !!! f = u64 (counted s f)).
Proof.
  intros H Hf. apply reachable_ok in H. destruct H as [He Hts Hc].
  split; [by apply Hc|]. intros Hz. rewrite <- Hc by done.
  assert (owed_all (threads s) f = 0) as ->.
  { clear Hts Hc. induction Hz as [|th ts H0 _ IH]; simpl; [done|]. rewrite IH.
    unfold owed. rewrite H0. by destruct (at_ th); try case_decide. }
  rewrite Z.add_0_r. symmetry. apply wrap_small. destruct He as [Hl He].
  apply Forall_lookup_total_1; [done|]. unfold msize in Hl. lia.
Qed.

Lemma audit_conserves_witness :
  let s := System zeros [Thread (peak_audit_inc zeros 3) Idle] (count (fun _ => 0) 3 1) in
  rtc step (init 1) s /\ u64 (export s !!! 3%nat + owed_all (threads s) 3) = 1.
Proof.
  assert (rtc step (init 1)
    (System zeros [Thread (peak_audit_inc zeros 3) Idle] (count (fun _ => 0) 3 1))) as H.
  { apply rtc_once. apply (step_inc zeros [Thread zeros Idle] (fun _ => 0) 0 zeros 3); [reflexivity|vm_compute; split; congruence]. }
  split; [exact H|].
  etransitivity; [apply (audit_conserves 1 _ 3 H); vm_compute; lia|reflexivity].
Defined.

(** [peak_audit_sync] moves the thread's counters: every field of the export
    grows by the thread's (modulo 2^64) and the thread's are zero afterwards; and
    the interleaved system refines to it: a thread that syncs without
    interruption takes the system from the state before the call to the state
    after it. *)
Theorem audit_sync_moves e l ts c t :
  audit_ok e -> audit_ok l -> ts !! t = Some (Thread l Idle) ->
  let r := peak_audit_sync e l in
  (forall f, (f < Z.to_nat AUDIT_MAX)%nat ->
     r.1 !!! f = u64 (e !!! f + l !!! f) /\ r.2 !!! f = 0) /\
  rtc step (System e ts c) (System r.1 (<[t := Thread r.2 Idle]> ts) c).
Proof.
  intros He Hl Ht r. split.
  - intros f Hf. destruct (sync_loop_spec (Z.to_nat AUDIT_MAX) 0 e l He Hl eq_refl) as (_ & _ & H).
    destruct (H f Hf) as [H1 H2]. rewrite decide_False in H1, H2 by lia. done.
  - eapply rtc_l; [by apply step_sync|].
    rewrite <- (list_insert_insert_eq ts t (Thread r.2 Idle) (Thread l (AtAdd 0))).
    apply (sync_loop_steps 8 0 e l); [done|].
    apply list_lookup_insert_eq. by eapply lookup_lt_Some.
Qed.

Lemma audit_sync_moves_witness :
  (peak_audit_sync (peak_audit_inc zeros 8) (peak_audit_add zeros 8 41)).1 !!! 8%nat = 42.
Proof.
  destruct (audit_sync_moves (peak_audit_inc zeros 8) (peak_audit_add zeros 8 41)
    [Thread (peak_audit_add zeros 8 41) Idle] (fun _ => 0) 0
    (audit_add_ok _ 8 1 zeros_ok) (audit_add_ok _ 8 41 zeros_ok) eq_refl) as [H _].
  destruct (H 8%nat) as [E _]; [vm_compute; lia|].
  etransitivity; [exact E|reflexivity].
Defined.

(** The counters' interface: a value set is the value got, an addition adds
    modulo 2^64 to its field and to no other, a field out of range is ignored by
    every writer and reads as 0, and [peak_audit_name] gives every counter a name of
    its own and NULL to anything else. *)
Theorem audit_fields a field g v :
  audit_ok a -> 0 <= field -> 0 <= g ->
  peak_audit_get (peak_audit_set a field v) g =
    (if decide (field = g /\ g < AUDIT_MAX) then v else peak_audit_get a g) /\
  peak_audit_get (peak_audit_add a field v) g =
    (if decide (field = g /\ g < AUDIT_MAX) then u64 (peak_audit_get a g + v)
     else peak_audit_get a g) /\
  (AUDIT_MAX <= field ->
     peak_audit_set a field v = a /\ peak_audit_add a field v = a /\
     peak_audit_inc a field = a /\ peak_audit_get a field = 0) /\
  (is_Some (peak_audit_name field) <-> field < AUDIT_MAX) /\
  (forall n, peak_audit_name field = Some n -> peak_audit_name g = Some n -> field = g).
Proof.
  intros Ha Hfield Hg.
  assert (forall x, AUDIT_MAX <= field -> (if field <? AUDIT_MAX then x else a) = a) as Hout
    by (intros x; destruct (Z.ltb_spec field AUDIT_MAX); [lia|done]).
  split_and!.
  - unfold peak_audit_get, peak_audit_set.
    destruct (Z.ltb_spec g AUDIT_MAX), (Z.ltb_spec field AUDIT_MAX);
      [rewrite audit_lookup_insert by (done || lia)|..];
      repeat case_decide; try done; lia.
  - unfold peak_audit_get, peak_audit_add.
    destruct (Z.ltb_spec g AUDIT_MAX), (Z.ltb_spec field AUDIT_MAX);
      [rewrite audit_lookup_insert by (done || lia)|..];
      repeat case_decide; try done; try lia.
    by assert (field = g) as -> by lia.
  - intros Ho. split_and!; [by apply Hout..|].
    unfold peak_audit_get. by destruct (Z.ltb_spec field AUDIT_MAX); [lia|].
  - unfold peak_audit_name. destruct (Z.ltb_spec field AUDIT_MAX).
    + rewrite lookup_lt_is_Some. change (length audit_names) with (Z.to_nat AUDIT_MAX). lia.
    + split; [by intros []|lia].
  - intros n. unfold peak_audit_name. destruct (field <? AUDIT_MAX), (g <? AUDIT_MAX); try done.
    assert (NoDup audit_names) as Hn by (apply (bool_decide_unpack _); by vm_compute).
    intros H1 H2. pose proof (NoDup_lookup _ _ _ _ Hn H1 H2). lia.
Qed.

Lemma audit_fields_witness :
  peak_audit_get (peak_audit_add zeros 6 (2 ^ 64 - 1)) 6 = 2 ^ 64 - 1 /\
  peak_audit_get (peak_audit_set zeros 9 5) 9 = 0.
Proof.
  split.
  - destruct (audit_fields zeros 6 6 (2 ^ 64 - 1) zeros_ok) as (_ & E & _); [lia..|].
    etransitivity; [exact E|reflexivity].
  - destruct (audit_fields zeros 9 9 5 zeros_ok) as (E & _); [lia..|].
    etransitivity; [exact E|reflexivity].
Defined.
