(* ===== verification/Barrier.v ===== *)
(** * Barriers

    Models the barrier of [include/peak_sys.h]: threads join it and leave it, wait until all
    have arrived, whereupon the last one is told their number, runs alone, and wakes the
    others.  Every function holds the mutex all the time but for the wait on the condition
    variable, so that a function is one step of its thread, and a second one where a thread
    that was woken takes the mutex again.

    The initialisation and the destruction of the pthread objects are left out. *)

From stdpp Require Import relations.
From S2P Require Import Prelude.

(** The mutex and the condition variable are in the step relation. *)
Record barrier_t := { threads : Z; count : Z }.

Definition barrier_init : barrier_t := {| threads := u32 (0 - 1); count := 0 |}.
Definition barrier_exit (barrier : barrier_t) : barrier_t := {| threads := 0; count := 0 |}.

(** The result, or [None] for a thread that waits for the condition and returns 0 then. *)
Definition barrier_wait (barrier : barrier_t) : barrier_t * option Z :=
  if count barrier <? threads barrier then ({| threads := threads barrier; count := u32 (count barrier + 1) |}, None)
  else (barrier, Some (s32 (threads barrier + 1))).

(** Whether the condition is broadcast; the result is 0. *)
Definition barrier_wake (barrier : barrier_t) : barrier_t * bool :=
  if count barrier =? threads barrier then ({| threads := threads barrier; count := 0 |}, true) else (barrier, false).

Definition barrier_join (barrier : barrier_t) : barrier_t * Z :=
  if count barrier =? 0 then ({| threads := u32 (threads barrier + 1); count := count barrier |}, 0) else (barrier, 1).

Definition barrier_leave (barrier : barrier_t) : barrier_t * Z :=
  if count barrier =? 0 then ({| threads := u32 (threads barrier - 1); count := count barrier |}, 0) else (barrier, 1).

(** ** Threads *)

(** Outside; between two calls; in [pthread_cond_wait]; woken, without the mutex; the last
    one of so many, before it calls [barrier_wake].  [p] is how often the barrier was passed
    up to then. *)
Inductive thread := Out | Running (p : Z) | Waiting (p : Z) | Woken (p : Z) | Alone (k p : Z).

(** The rounds of the barrier, of which a thread that joins has missed the past ones. *)
Record system := System { barrier : barrier_t; rounds : Z; ts : list thread }.

Definition wake (t : thread) : thread := match t with Waiting p => Woken p | t => t end.

Inductive step : system -> system -> Prop :=
  | step_wait b r l i p b' : l !! i = Some (Running p) -> barrier_wait b = (b', None) ->
      step (System b r l) (System b' r (<[i := Waiting p]> l))
  | step_last b r l i p b' k : l !! i = Some (Running p) -> barrier_wait b = (b', Some k) ->
      step (System b r l) (System b' r (<[i := Alone k p]> l))
  | step_wake b r l i k p b' : l !! i = Some (Alone k p) -> barrier_wake b = (b', true) ->
      step (System b r l) (System b' (r + 1) (<[i := Running (p + 1)]> (wake <$> l)))
  | step_nowake b r l i k p b' : l !! i = Some (Alone k p) -> barrier_wake b = (b', false) ->
      step (System b r l) (System b' r (<[i := Running (p + 1)]> l))
  | step_return b r l i p : l !! i = Some (Woken p) -> step (System b r l) (System b r (<[i := Running (p + 1)]> l))
  | step_join b r l i b' : l !! i = Some Out -> barrier_join b = (b', 0) ->
      step (System b r l) (System b' r (<[i := Running r]> l))
  | step_leave b r l i p b' : l !! i = Some (Running p) -> barrier_leave b = (b', 0) ->
      step (System b r l) (System b' r (<[i := Out]> l))
  | step_refused b r l i p b' : l !! i = Some Out \/ l !! i = Some (Running p) -> barrier_join b = (b', 1) \/ barrier_leave b = (b', 1) ->
      step (System b r l) (System b' r l).

(** A wake-up that nobody caused, which POSIX allows. *)
Inductive spurious : system -> system -> Prop :=
  | spurious_wakeup b r l i p : l !! i = Some (Waiting p) -> spurious (System b r l) (System b r (<[i := Woken p]> l)).

Definition start (n : nat) : system := System barrier_init 0 (replicate n Out).

(** ** Counting threads *)

Definition total (f : thread -> Z) (l : list thread) : Z := foldr (fun t s => f t + s) 0 l.

Definition joined (t : thread) : Z := match t with Out => 0 | _ => 1 end.
Definition waiting (t : thread) : Z := match t with Waiting _ => 1 | _ => 0 end.

Lemma total_insert f l i t t' : l !! i = Some t -> total f (<[i := t']> l) = total f l - f t + f t'.
Proof.
  revert i. induction l as [|a l IH]; intros [|i] H; simpl in *; try done; simplify_eq; [lia|]. rewrite (IH i H). lia.
Qed.

Lemma total_wake_joined l : total joined (wake <$> l) = total joined l.
Proof. unfold total in *. induction l as [|[] l IH]; cbn -[Z.add] in *; lia. Qed.

Lemma total_wake_waiting l : total waiting (wake <$> l) = 0.
Proof. unfold total in *. induction l as [|[] l IH]; cbn -[Z.add] in *; lia. Qed.

Lemma total_bound f l : (forall t, 0 <= f t <= 1) -> 0 <= total f l <= Z.of_nat (length l).
Proof. intros Hf. induction l as [|t l IH]; cbn [total foldr length]; [lia|]. fold (total f l). specialize (Hf t). lia. Qed.

(** Threads that neither wait nor are outside. *)
Definition busy (t : thread) : Z := joined t - waiting t.

Lemma total_busy l : total busy l = total joined l - total waiting l.
Proof. unfold total, busy in *. induction l as [|[] l IH]; cbn -[Z.add Z.sub] in *; lia. Qed.

Lemma busy_bound t : 0 <= busy t <= 1.
Proof. by destruct t. Qed.

Lemma total_elem l i t : l !! i = Some t -> busy t <= total busy l.
Proof.
  revert i. induction l as [|a l IH]; intros [|i] H; simpl in *; try done; simplify_eq.
  - pose proof (total_bound busy l busy_bound). unfold total in *. lia.
  - specialize (IH i H). pose proof (busy_bound a). lia.
Qed.

(** Where one thread is busy all others wait. *)
Lemma others_wait l i t j t' : total busy l = 1 -> l !! i = Some t -> busy t = 1 -> j <> i -> l !! j = Some t' -> busy t' = 0.
Proof.
  intros Ht Hi Hb Hne Hj. pose proof (total_insert busy l i t Out Hi) as H. change (busy Out) with 0 in H.
  pose proof (total_elem (<[i := Out]> l) j t') as He. rewrite list_lookup_insert_ne in He by done. specialize (He Hj).
  pose proof (busy_bound t'). lia.
Qed.

(** ** What holds in every state *)

Lemma waiting_bound t : 0 <= waiting t <= 1.
Proof. by destruct t. Qed.
Lemma joined_bound t : 0 <= joined t <= 1.
Proof. by destruct t. Qed.

(** The counters of the barrier are those of its threads. *)
Definition counts_ok (n : nat) (b : barrier_t) (l : list thread) : Prop :=
  length l = n /\ Z.of_nat n < 2 ^ 31 /\ count b = total waiting l /\ threads b = u32 (total joined l - 1) /\
  count b <= Z.max 0 (total joined l - 1).

Lemma start_counts n : Z.of_nat n < 2 ^ 31 -> counts_ok n barrier_init (replicate n Out).
Proof.
  intros Hn. assert (forall f, f Out = 0 -> total f (replicate n Out) = 0) as H0.
  { intros f Hf. induction n as [|n IH]; cbn [replicate total foldr]; [done|]. fold (total f (replicate n Out)). rewrite IH by lia. lia. }
  unfold counts_ok. rewrite !H0 by done. split_and!; try done. apply length_replicate.
Qed.

(** The number of threads is right where there is one. *)
Lemma threads_joined n b l i t :
  counts_ok n b l -> l !! i = Some t -> joined t = 1 ->
  threads b = total joined l - 1 /\ 1 <= total joined l < 2 ^ 31 /\ 0 <= count b /\ count b = total joined l - total busy l.
Proof.
  intros (Hl & Hn & Hc & Ht & _) Hi Hj. pose proof (total_bound joined l joined_bound) as H1. pose proof (total_bound waiting l waiting_bound) as H2.
  pose proof (total_insert joined l i t Out Hi) as H3. pose proof (total_bound joined (<[i := Out]> l) joined_bound) as H4. rewrite Hj in H3. change (joined Out) with 0 in H3.
  rewrite wrap_small in Ht by (unfold fits; lia). rewrite total_busy. lia.
Qed.

Lemma counts_update n b l i t t' b' :
  counts_ok n b l -> l !! i = Some t ->
  count b' = count b - waiting t + waiting t' -> threads b' = u32 (total joined l - joined t + joined t' - 1) ->
  count b' <= Z.max 0 (total joined l - joined t + joined t' - 1) -> counts_ok n b' (<[i := t']> l).
Proof.
  intros (Hl & Hn & Hc & Ht & H0) Hi Hc' Ht' H0'. unfold counts_ok. rewrite length_insert, !(total_insert _ _ _ _ _ Hi), <- Hc.
  by split_and!.
Qed.

Lemma counts_step n s s' : counts_ok n (barrier s) (ts s) -> step s s' -> counts_ok n (barrier s') (ts s').
Proof.
  intros Hok Hs. destruct Hs as [b r l i p b' Hi E|b r l i p b' k Hi E|b r l i k p b' Hi E|b r l i k p b' Hi E|b r l i p Hi|b r l i b' Hi E|b r l i p b' Hi E|b r l i p b' Hi E];
    cbn [barrier ts] in *; pose proof Hok as (Hl & Hn & Hcw & Htw & H0);
    try destruct (threads_joined n b l i _ Hok Hi eq_refl) as (Ht & Hj & Hc0 & Hc);
    try (pose proof (total_elem l i _ Hi) as Hb; change (busy _) with 1 in Hb).
  - unfold barrier_wait in E. destruct (Z.ltb_spec (count b) (threads b)); [|done]. injection E as <-.
    eapply counts_update; [done|done|..]; cbn [count threads waiting joined]; rewrite wrap_small by (unfold fits; lia); lia.
  - unfold barrier_wait in E. destruct (Z.ltb_spec (count b) (threads b)); [done|]. injection E as <- <-.
    eapply counts_update; [done|done|..]; cbn [waiting joined]; [lia|rewrite wrap_small by (unfold fits; lia); lia|lia].
  - unfold barrier_wake in E. destruct (count b =? threads b); [|done]. injection E as <-.
    assert ((wake <$> l) !! i = Some (Alone k p)) as Hi' by (by rewrite list_lookup_fmap, Hi).
    unfold counts_ok. cbn [count threads]. rewrite length_insert, length_fmap, !(total_insert _ _ _ _ _ Hi'), total_wake_waiting, total_wake_joined.
    cbn [waiting joined]. split_and!; [done|done|done|rewrite Htw; f_equal; lia|lia].
  - unfold barrier_wake in E. destruct (count b =? threads b); [done|]. injection E as <-.
    eapply counts_update; [done|done|..]; cbn [waiting joined]; [lia|by rewrite Z.sub_add|by rewrite Z.sub_add].
  - eapply counts_update; [done|done|..]; cbn [waiting joined]; [lia|by rewrite Z.sub_add|by rewrite Z.sub_add].
  - unfold barrier_join in E. destruct (Z.eqb_spec (count b) 0) as [Hz|]; [|done]. injection E as <-.
    eapply counts_update; [done|done|..]; cbn [count threads waiting joined]; [lia| |lia]. rewrite Htw, wrap_add_l. f_equal. lia.
  - unfold barrier_leave in E. destruct (Z.eqb_spec (count b) 0) as [Hz|]; [|done]. injection E as <-.
    eapply counts_update; [done|done|..]; cbn [count threads waiting joined]; [lia| |lia]. rewrite Ht. f_equal. lia.
  - assert (b' = b) as -> by (unfold barrier_join, barrier_leave in E; destruct (count b =? 0); destruct E as [E|E]; congruence). done.
Qed.

(** Where all is counted, somebody who joined can go on. *)
Lemma somebody_busy n b l i t : counts_ok n b l -> l !! i = Some t -> t <> Out -> exists j u, l !! j = Some u /\ busy u = 1.
Proof.
  intros Hok Hi Hout. destruct (threads_joined n b l i _ Hok Hi) as (Ht & Hj & Hc0 & Hc); [by destruct t|].
  destruct Hok as (_ & _ & _ & _ & Hle). assert (0 < total busy l) as Hpos by lia. clear -Hpos.
  induction l as [|u l IH]; [done|]. destruct (decide (busy u = 1)) as [Hu|Hu]; [by exists 0%nat, u|].
  pose proof (busy_bound u). destruct IH as (j & u' & Hj & Hb); [unfold total in *; cbn [foldr] in Hpos; lia|]. by exists (S j), u'.
Qed.

(** The last thread to arrive is the only one that does not wait, and is told how many
    there are. *)
Lemma last_alone n b l i p b' k :
  counts_ok n b l -> l !! i = Some (Running p) -> barrier_wait b = (b', Some k) ->
  b' = b /\ k = threads b + 1 /\ count b = threads b /\ total busy l = 1.
Proof.
  intros Hok Hi. destruct (threads_joined n b l i _ Hok Hi eq_refl) as (Ht & Hj & Hc0 & Hc). pose proof (total_elem l i _ Hi) as Hb. change (busy (Running p)) with 1 in Hb.
  unfold barrier_wait. destruct (Z.ltb_spec (count b) (threads b)) as [|Hge]; [done|]. intros [= <- <-]. split_and!; [done| |lia|lia].
  unfold swrap. rewrite wrap_small by (unfold fits; lia). destruct (Z.ltb_spec (threads b + 1) (2 ^ (32 - 1))); lia.
Qed.

(** *** Whoever joins, and whenever *)

(** A thread that was told that others wait was told how many there are. *)
Definition alone_first (b : barrier_t) (t : thread) : Prop :=
  match t with Alone k _ => 1 <= k /\ (1 < k -> k = threads b + 1 /\ count b = threads b) | _ => True end.

Definition is_alone (t : thread) : Z := match t with Alone _ _ => 1 | _ => 0 end.

Definition loose_ok (n : nat) (s : system) : Prop :=
  counts_ok n (barrier s) (ts s) /\ Forall (alone_first (barrier s)) (ts s) /\ total is_alone (ts s) <= 1.

Lemma is_alone_bound t : 0 <= is_alone t <= 1.
Proof. by destruct t. Qed.

Lemma is_alone_busy l : total is_alone l <= total busy l.
Proof. unfold total, busy. induction l as [|[] l IH]; cbn -[Z.add Z.sub] in *; lia. Qed.

Lemma total_wake_alone l : total is_alone (wake <$> l) = total is_alone l.
Proof. unfold total in *. induction l as [|[] l IH]; cbn -[Z.add] in *; lia. Qed.

(** There is one [Alone] at most. *)
Lemma one_alone l i j k p k' p' :
  total is_alone l <= 1 -> l !! i = Some (Alone k p) -> l !! j = Some (Alone k' p') -> i = j.
Proof.
  intros Ht Hi Hj. destruct (decide (i = j)) as [|Hne]; [done|]. exfalso.
  pose proof (total_insert is_alone l i _ Out Hi) as H1. assert (<[i := Out]> l !! j = Some (Alone k' p')) as Hj' by (by rewrite list_lookup_insert_ne).
  pose proof (total_insert is_alone _ j _ Out Hj') as H2. pose proof (total_bound is_alone (<[j := Out]> (<[i := Out]> l)) is_alone_bound) as H3.
  cbn [is_alone] in *. lia.
Qed.

Lemma loose_update b b' l i t t' :
  Forall (alone_first b) l -> total is_alone l <= 1 -> l !! i = Some t -> is_alone t' = 0 ->
  (forall k p, 1 < k -> Alone k p ∈ l -> k = threads b + 1 -> count b = threads b -> t <> Alone k p -> threads b' = threads b /\ count b' = count b) ->
  Forall (alone_first b') (<[i := t']> l) /\ total is_alone (<[i := t']> l) <= 1.
Proof.
  intros Ha Ht Hi Ht' Hb. rewrite (total_insert _ _ _ _ _ Hi), Ht'. pose proof (is_alone_bound t). split; [|lia].
  apply Forall_lookup. intros j u Hj. destruct (decide (j = i)) as [->|Hne].
  - rewrite list_lookup_insert_eq in Hj by (by eapply lookup_lt_Some). injection Hj as <-. by destruct t'.
  - rewrite list_lookup_insert_ne in Hj by done. pose proof (proj1 (Forall_lookup _ _) Ha _ _ Hj) as Hu. destruct u as [| | | |k p]; try done.
    destruct Hu as [H1 H2]. split; [done|]. intros Hk. destruct (H2 Hk) as [E1 E2].
    destruct (Hb k p Hk) as [-> ->]; [by eapply list_elem_of_lookup_2|done|done| |done].
    intros ->. by rewrite (one_alone l i j k p k p Ht Hi Hj) in Hne.
Qed.

Lemma loose_step n s s' : loose_ok n s -> step s s' -> loose_ok n s'.
Proof.
  intros (Hok & Ha & Ht) Hs. split; [by eapply counts_step|].
  destruct Hs as [b r l i p b' Hi E|b r l i p b' k Hi E|b r l i k p b' Hi E|b r l i k p b' Hi E|b r l i p Hi|b r l i b' Hi E|b r l i p b' Hi E|b r l i p b' Hi E];
    cbn [barrier ts] in *.
  - eapply loose_update; [done|done|done|done|]. intros k q Hk _ E1 E2 _. unfold barrier_wait in E. rewrite E2, Z.ltb_irrefl in E. done.
  - destruct (last_alone n b l i p b' k Hok Hi E) as (-> & -> & E1 & E2). destruct (threads_joined n b l i _ Hok Hi eq_refl) as (E3 & Hj & _).
    pose proof (is_alone_busy (<[i := Out]> l)) as H1. rewrite !(total_insert _ _ _ _ _ Hi) in H1. rewrite (total_insert _ _ _ _ _ Hi).
    change (busy Out) with 0 in H1. change (busy (Running p)) with 1 in H1. cbn [is_alone] in H1 |- *. split; [|lia]. apply Forall_insert; [done|]. cbn [alone_first]. split; [lia|done].
  - unfold barrier_wake in E. destruct (count b =? threads b); [|done]. injection E as <-.
    assert ((wake <$> l) !! i = Some (Alone k p)) as Hi' by (by rewrite list_lookup_fmap, Hi).
    pose proof (total_wake_alone l) as Hw. rewrite (total_insert _ _ _ _ _ Hi'). cbn [is_alone]. split; [|lia].
    apply Forall_lookup. intros j u Hj. destruct (decide (j = i)) as [->|Hne].
    + rewrite list_lookup_insert_eq in Hj by (by eapply lookup_lt_Some). by injection Hj as <-.
    + rewrite list_lookup_insert_ne in Hj by done. destruct u as [| | | |k' p']; try done. exfalso. apply Hne.
      apply (one_alone (wake <$> l) j i k' p' k p); [lia|done|done].
  - eapply loose_update; [done|done|done|done|]. intros k' q Hk _ E1 E2 _. unfold barrier_wake in E. rewrite E2, Z.eqb_refl in E. done.
  - by eapply loose_update.
  - eapply loose_update; [done|done|done|done|]. intros k q Hk _ E1 E2 _. unfold barrier_join in E. destruct (Z.eqb_spec (count b) 0); [lia|done].
  - eapply loose_update; [done|done|done|done|]. intros k q Hk _ E1 E2 _. unfold barrier_leave in E. destruct (Z.eqb_spec (count b) 0); [lia|done].
  - assert (b' = b) as -> by (unfold barrier_join, barrier_leave in E; destruct (count b =? 0); destruct E as [E|E]; congruence). done.
Qed.

Lemma loose_reachable n s : Z.of_nat n < 2 ^ 31 -> rtc step (start n) s -> loose_ok n s.
Proof.
  intros Hn. apply (rtc_ind_r (loose_ok n)); [|intros x y _ Hs Hx; by eapply loose_step].
  split; [by apply start_counts|]. split; [by apply Forall_replicate|]. cbn [ts start]. induction n as [|n IH]; cbn; [lia|apply IH; lia].
Qed.

(** *** Where nobody joins next to a thread that is alone *)

(** The only thread of the barrier runs alone. *)
Definition nobody_alone (l : list thread) : Prop := forall p, Alone 1 p ∉ l.

(** A step of the threads that is no join meanwhile; the functions do not see to that. *)
Definition orderly (s s' : system) : Prop :=
  step s s' /\ (nobody_alone (ts s) \/ total joined (ts s') <= total joined (ts s)).

(** The passes of a thread and the rounds. *)
Definition in_step (r : Z) (t : thread) : Prop :=
  match t with Out => True | Running p | Waiting p | Alone _ p => p = r | Woken p => p = r - 1 end.

(** A thread that runs alone was told how many there are, and all the others wait. *)
Definition alone_ok (b : barrier_t) (t : thread) : Prop :=
  match t with Alone k _ => k = threads b + 1 /\ count b = threads b | _ => True end.

Definition system_ok (n : nat) (s : system) : Prop :=
  counts_ok n (barrier s) (ts s) /\ Forall (in_step (rounds s)) (ts s) /\ Forall (alone_ok (barrier s)) (ts s).

Lemma update_ok b b' r l i t t' :
  Forall (in_step r) l -> Forall (alone_ok b) l -> l !! i = Some t -> in_step r t' -> alone_ok b' t' ->
  (forall j u, j <> i -> l !! j = Some u -> alone_ok b' u) ->
  Forall (in_step r) (<[i := t']> l) /\ Forall (alone_ok b') (<[i := t']> l).
Proof.
  intros Hs Ha Hi Hs' Ha' Hall. split; [by apply Forall_insert|]. apply Forall_lookup. intros j u Hj.
  destruct (decide (j = i)) as [->|Hne]; [|rewrite list_lookup_insert_ne in Hj by done; by apply (Hall j u)].
  rewrite list_lookup_insert_eq in Hj by (by eapply lookup_lt_Some). by injection Hj as <-.
Qed.

Lemma wake_ok n b r l i k p :
  system_ok n (System b r l) -> l !! i = Some (Alone k p) ->
  barrier_wake b = ({| threads := threads b; count := 0 |}, true) /\
  let l' := <[i := Running (p + 1)]> (wake <$> l) in
  Forall (in_step (r + 1)) l' /\ Forall (alone_ok {| threads := threads b; count := 0 |}) l'.
Proof.
  intros (Hok & Hs & Ha) Hi. cbn [barrier ts rounds] in *. destruct (threads_joined n b l i _ Hok Hi eq_refl) as (Ht & Hj & Hc0 & Hc).
  rewrite Forall_lookup in Hs, Ha. pose proof (Hs _ _ Hi) as Hp. cbn [in_step] in Hp. destruct (Ha _ _ Hi) as [Hk Heq]. unfold barrier_wake. rewrite Heq, Z.eqb_refl. split; [done|].
  assert (total busy l = 1) as Hone by lia.
  assert (forall j u, (<[i := Running (p + 1)]> (wake <$> l)) !! j = Some u -> u = Running (r + 1) \/ u = Out \/ u = Woken r) as Hall.
  { intros j u Hju. destruct (decide (j = i)) as [->|Hne].
    - rewrite list_lookup_insert_eq in Hju by (rewrite length_fmap; by eapply lookup_lt_Some). injection Hju as <-. left. by rewrite Hp.
    - rewrite list_lookup_insert_ne, list_lookup_fmap in Hju by done. destruct (l !! j) as [t|] eqn:Ej; [|done]. injection Hju as <-.
      pose proof (others_wait l i _ j t Hone Hi eq_refl Hne Ej) as Hb. pose proof (Hs _ _ Ej) as Hst. destruct t; try done; [by right; left|]. cbn in Hst. right; right. by rewrite Hst. }
  cbv zeta. split; apply Forall_lookup; intros j u Hu; destruct (Hall j u Hu) as [->|[->| ->]]; cbn; try done; lia.
Qed.

Lemma barrier_step_ok n s s' : system_ok n s -> orderly s s' -> system_ok n s'.
Proof.
  intros Hsys [Hs Hord]. pose proof Hsys as (Hok & Hst & Ha). split; [by eapply counts_step|].
  destruct Hs as [b r l i p b' Hi E|b r l i p b' k Hi E|b r l i k p b' Hi E|b r l i k p b' Hi E|b r l i p Hi|b r l i b' Hi E|b r l i p b' Hi E|b r l i p b' Hi E];
    cbn [barrier ts rounds] in *; try destruct (wake_ok n b r l i k p Hsys Hi) as [Ew Hw];
    try (pose proof (proj1 (Forall_lookup _ _) Hst _ _ Hi) as Hp; cbn [in_step] in Hp).
  - eapply update_ok; [done|done|done|done|done|]. intros j u _ Hu. pose proof (proj1 (Forall_lookup _ _) Ha _ _ Hu) as Hu'. destruct u; try done.
    exfalso. destruct Hu' as [_ E2]. unfold barrier_wait in E. rewrite E2, Z.ltb_irrefl in E. done.
  - destruct (last_alone n b l i p b' k Hok Hi E) as (-> & -> & E1 & _).
    eapply update_ok; [done|done|done|done|done|]. intros j u _ Hu. exact (proj1 (Forall_lookup _ _) Ha _ _ Hu).
  - rewrite Ew in E. by injection E as <-.
  - rewrite Ew in E. by injection E.
  - eapply update_ok; [done|done|done|cbn; lia|done|]. intros j u _ Hu. exact (proj1 (Forall_lookup _ _) Ha _ _ Hu).
  - unfold barrier_join in E. destruct (Z.eqb_spec (count b) 0) as [Hc|]; [|done]. injection E as <-.
    destruct Hord as [Hno|Hle]; [|rewrite (total_insert _ _ _ _ _ Hi) in Hle; cbn [joined] in Hle; lia].
    eapply update_ok; [done|done|done|done|done|]. intros j u _ Hu. pose proof (proj1 (Forall_lookup _ _) Ha _ _ Hu) as Hu'.
    destruct u as [| | | |k p]; try done. exfalso. apply (Hno p). cbn in Hu'. assert (k = 1) as <- by lia. by eapply list_elem_of_lookup_2.
  - destruct (threads_joined n b l i _ Hok Hi eq_refl) as (Ht & Hj & Hc0 & Hcb).
    unfold barrier_leave in E. destruct (Z.eqb_spec (count b) 0) as [Hc|]; [|done]. injection E as <-.
    eapply update_ok; [done|done|done|done|done|]. intros j u Hne Hu. pose proof (proj1 (Forall_lookup _ _) Ha _ _ Hu) as Hu'.
    destruct u as [| | | |k q]; try done. exfalso. cbn in Hu'. by pose proof (others_wait l i _ j _ ltac:(lia) Hi eq_refl Hne Hu).
  - assert (b' = b) as -> by (unfold barrier_join, barrier_leave in E; destruct (count b =? 0); destruct E as [E|E]; congruence). done.
Qed.

Lemma orderly_reachable n s : Z.of_nat n < 2 ^ 31 -> rtc orderly (start n) s -> system_ok n s.
Proof.
  intros Hn. apply (rtc_ind_r (system_ok n)); [|intros x y _ Hs Hx; by eapply barrier_step_ok].
  split; [by apply start_counts|]. split; by apply Forall_replicate.
Qed.

(** How often a thread has passed. *)
Definition passes (t : thread) : option Z := match t with Out => None | Running p | Waiting p | Woken p | Alone _ p => Some p end.

(** C11.  Without spurious wake-ups, in every state that threads reach by waiting, waking,
    joining and leaving, whenever they like: no two threads are told that they are the last
    one; where one is told that it is the last of [k], two or more, that many have joined and
    all others wait; and of the threads that joined one can always go on.

    A thread that is told that it is the only one is not protected: another one can join
    before it calls [barrier_wake] ([late_join]).  In the states that are reached without
    such joins the last one of any number is alone and has passed the barrier as often as
    those that wait, and no two threads that joined are more than a round apart. *)
Theorem barrier_excludes n s :
  Z.of_nat n < 2 ^ 31 -> rtc step (start n) s ->
  (forall i j k p k' p', ts s !! i = Some (Alone k p) -> ts s !! j = Some (Alone k' p') -> i = j) /\
  (forall i k p, ts s !! i = Some (Alone k p) -> 1 <= k /\ (2 <= k -> k = total joined (ts s) /\
     forall j t, j <> i -> ts s !! j = Some t -> t = Out \/ exists q, t = Waiting q)) /\
  (forall i t, ts s !! i = Some t -> t <> Out -> exists j u, ts s !! j = Some u /\ busy u = 1) /\
  (rtc orderly (start n) s ->
     (forall i k p, ts s !! i = Some (Alone k p) -> k = total joined (ts s) /\
        forall j t, j <> i -> ts s !! j = Some t -> t = Out \/ t = Waiting p) /\
     (forall i j t u p q, ts s !! i = Some t -> ts s !! j = Some u -> passes t = Some p -> passes u = Some q -> p - 1 <= q <= p + 1)).
Proof.
  intros Hn Hr. destruct (loose_reachable n s Hn Hr) as (Hok & Hf & H1). split_and!.
  - intros i j k p k' p' Hi Hj. by apply (one_alone (ts s) i j k p k' p').
  - intros i k p Hi. destruct (threads_joined n _ _ i _ Hok Hi eq_refl) as (Ht & Hj & Hc0 & Hc).
    destruct (proj1 (Forall_lookup _ _) Hf _ _ Hi) as [Hk Ha]. split; [done|]. intros Hk2. destruct (Ha ltac:(lia)) as [E1 E2]. split; [lia|].
    intros j t Hne Hjt. pose proof (others_wait (ts s) i _ j t ltac:(lia) Hi eq_refl Hne Hjt) as Hb. destruct t; try done; [by left|right; by eexists].
  - intros i t. by apply (somebody_busy n _ _ i t Hok).
  - intros Hor. destruct (orderly_reachable n s Hn Hor) as (_ & Hst & Ha). rewrite Forall_lookup in Hst, Ha. split.
    + intros i k p Hi. destruct (threads_joined n _ _ i _ Hok Hi eq_refl) as (Ht & Hj & Hc0 & Hc). destruct (Ha _ _ Hi) as [Hk Heq]. split; [lia|].
      intros j t Hne Hjt. pose proof (others_wait (ts s) i _ j t ltac:(lia) Hi eq_refl Hne Hjt) as Hb. pose proof (Hst _ _ Hi) as H2. pose proof (Hst _ _ Hjt) as H3.
      destruct t; try done; [by left|]. cbn in H2, H3. right. by rewrite H2, H3.
    + intros i j t u p q Hi Hj Hp Hq. pose proof (Hst _ _ Hi) as H2. pose proof (Hst _ _ Hj) as H3. destruct t, u; cbn in *; simplify_eq; lia.
Qed.

(** A thread joins next to one that was told that it is alone; when that one goes on, it has
    passed a barrier that wakes nobody. *)
Example late_join :
  exists s, rtc step (start 2) s /\ ts s = [Alone 1 0; Running 0] /\
    exists s', rtc step s s' /\ ts s' = [Running 1; Running 0] /\ rounds s' = 0.
Proof.
  exists (System {| threads := 1; count := 0 |} 0 [Alone 1 0; Running 0]). split_and!; [|done|].
  - eapply rtc_l; [by apply (step_join _ _ [Out; Out] 0)|].
    eapply rtc_l; [by apply (step_last _ _ [Running 0; Out] 0)|]. by eapply rtc_once, (step_join _ _ [Alone 1 0; Out] 1).
  - exists (System {| threads := 1; count := 0 |} 0 [Running 1; Running 0]). split_and!; [|done|done].
    by eapply rtc_once, (step_nowake _ _ [Alone 1 0; Running 0] 0 1 0).
Qed.

(** With one spurious wake-up a thread is told that it runs alone while another one runs. *)
Example spurious_breaks :
  exists s1 s2 s3, rtc step (start 2) s1 /\ spurious s1 s2 /\ rtc step s2 s3 /\ ts s3 = [Running 1; Alone 2 0].
Proof.
  exists (System {| threads := 1; count := 1 |} 0 [Waiting 0; Running 0]), (System {| threads := 1; count := 1 |} 0 [Woken 0; Running 0]),
    (System {| threads := 1; count := 1 |} 0 [Running 1; Alone 2 0]). split_and!; [|by apply (spurious_wakeup _ _ [Waiting 0; Running 0] 0)| |done].
  - eapply rtc_l; [by apply (step_join _ _ [Out; Out] 0)|].
    eapply rtc_l; [by apply (step_join _ _ [Running 0; Out] 1)|].
    by eapply rtc_once, (step_wait _ _ [Running 0; Running 0] 0).
  - eapply rtc_l; [by apply (step_return _ _ [Woken 0; Running 0] 0)|]. by eapply rtc_once, (step_last _ _ [Running 1; Running 0] 1).
Qed.

(** Three threads: two wait and the last one is alone. *)
Definition w_alone : system := System {| threads := 2; count := 2 |} 0 [Waiting 0; Waiting 0; Alone 3 0].

Lemma w_alone_reached : rtc orderly (start 3) w_alone.
Proof.
  eapply rtc_l; [split; [by apply (step_join _ _ [Out; Out; Out] 0)|left; intros p Hp; set_solver]|].
  eapply rtc_l; [split; [by apply (step_join _ _ [Running 0; Out; Out] 1)|left; intros p Hp; set_solver]|].
  eapply rtc_l; [split; [by apply (step_join _ _ [Running 0; Running 0; Out] 2)|left; intros p Hp; set_solver]|].
  eapply rtc_l; [split; [by apply (step_wait _ _ [Running 0; Running 0; Running 0] 0 0)|by right]|].
  eapply rtc_l; [split; [by apply (step_wait _ _ [Waiting 0; Running 0; Running 0] 1 0)|by right]|].
  eapply rtc_once; split; [by apply (step_last _ _ [Waiting 0; Waiting 0; Running 0] 2)|by right].
Qed.

Lemma orderly_steps s s' : rtc orderly s s' -> rtc step s s'.
Proof. induction 1 as [|x y z [H _] _ IH]; [constructor|by eapply rtc_l]. Qed.

Lemma barrier_excludes_witness :
  rtc step (start 3) w_alone /\ 3 = total joined (ts w_alone) /\
  forall j t, j <> 2%nat -> ts w_alone !! j = Some t -> t = Out \/ t = Waiting 0.
Proof.
  pose proof (orderly_steps _ _ w_alone_reached) as Hr. split; [exact Hr|].
  destruct (barrier_excludes 3 w_alone) as (_ & _ & _ & H); [reflexivity|exact Hr|].
  destruct (H w_alone_reached) as [H1 _]. destruct (H1 2%nat 3 0) as [E H2]; [reflexivity|]. split; [exact E|exact H2].
Defined.
