(* ===== verification/Token.v ===== *)
(** * Token buckets

    Models [include/peak_token.h]: a balance of tokens that is credited by the time
    that passed, and the reference counter beside it.  A signed overflow is undefined. *)

From S2P Require Import Prelude.

(** The result of an operation on [int64_t]. *)
Definition ll (x : Z) : option Z := if (- 2 ^ 63 <=? x) && (x <? 2 ^ 63) then Some x else None.

Record peak_token := {
  have : Z;
  max : Z;
  ts_ms : Z;
  lock : bool;
  ref : Z;
}.

Definition set_have (v : Z) (s : peak_token) : peak_token :=
  {| have := v; max := max s; ts_ms := ts_ms s; lock := lock s; ref := ref s |}.
Definition set_ts_ms (v : Z) (s : peak_token) : peak_token :=
  {| have := have s; max := max s; ts_ms := v; lock := lock s; ref := ref s |}.
Definition set_lock (v : bool) (s : peak_token) : peak_token :=
  {| have := have s; max := max s; ts_ms := ts_ms s; lock := v; ref := ref s |}.
Definition set_ref (v : Z) (s : peak_token) : peak_token :=
  {| have := have s; max := max s; ts_ms := ts_ms s; lock := lock s; ref := v |}.
Arguments set_have v s /.
Arguments set_ts_ms v s /.
Arguments set_lock v s /.
Arguments set_ref v s /.

(** [if (credit > 0)] *)
Definition token_refill (self : peak_token) (credit ts : Z) : option peak_token :=
  if 0 <? credit then
    earned ← ll (credit * max self);
    have ← ll (have self + Z.quot earned 1000);
    let self := self<|set_ts_ms ts|><|set_have have|> in
    Some (if max self <? have then self<|set_have (max self)|> else self)
  else Some self.

Definition _peak_token_credit (self : peak_token) (want ts : Z) : option (peak_token * Z) :=
  credit ← ll (ts - ts_ms self);
  if max self =? 0 then Some (self, 1) else
  self ← token_refill self credit ts;
  if (0 <? want) && (have self <=? 0) then Some (self, 0) else
  have ← ll (have self - want);
  Some (self<|set_have have|>, 1).

(** [None] while somebody holds the lock. *)
Definition peak_token_credit (self : peak_token) (want ts : Z) : option (peak_token * Z) :=
  if lock self then None else
  '(self, ret) ← _peak_token_credit (self<|set_lock true|>) want ts;
  Some (self<|set_lock false|>, ret).

Definition peak_token_inc (self : peak_token) : peak_token * Z :=
  let self := self<|set_ref (u32 (ref self + 1))|> in (self, ref self).
Definition peak_token_dec (self : peak_token) : peak_token * Z :=
  let self := self<|set_ref (u32 (ref self - 1))|> in (self, ref self).

(** [self] is whatever the memory holds. *)
Definition _peak_token_init (self : peak_token) (max : Z) : peak_token :=
  {| have := max; max := max; ts_ms := 0; lock := lock self; ref := ref self |}.
Definition peak_token_init (self : peak_token) (max : Z) : peak_token :=
  _peak_token_init (self<|set_lock false|>) max.

(** ** Rates *)

(** Requests in the order of their times, none of them a reimbursement. *)
Definition request : Type := Z * Z.

(** What a bucket grants of a sequence of requests. *)
Fixpoint granted (self : peak_token) (rs : list request) : option (peak_token * Z) :=
  match rs with
  | [] => Some (self, 0)
  | (want, ts) :: rs =>
      '(self, ret) ← peak_token_credit self want ts;
      '(self, sum) ← granted self rs;
      Some (self, (if ret =? 0 then 0 else want) + sum)
  end.

(** Times from [t] on that do not run backwards up to [last], and wants up to [most]. *)
Inductive requests_ok (most : Z) : Z -> list request -> Z -> Prop :=
  | ok_nil t : requests_ok most t [] t
  | ok_cons t want ts rs last :
      t <= ts -> 0 <= want <= most -> requests_ok most ts rs last ->
      requests_ok most t ((want, ts) :: rs) last.

(** A bucket that is in use, for requests of up to [most]. *)
Record token_ok (most : Z) (self : peak_token) : Prop := {
  tk_lock : lock self = false;
  tk_max : 0 < max self < 2 ^ 62;
  tk_most : 0 <= most < 2 ^ 62;
  tk_have : - most < have self <= max self;
  tk_ts : 0 <= ts_ms self < 2 ^ 62;
}.

Lemma ll_some x : - 2 ^ 63 <= x < 2 ^ 63 -> ll x = Some x.
Proof. intros Hx. unfold ll. destruct (Z.leb_spec (- 2 ^ 63) x), (Z.ltb_spec x (2 ^ 63)); try lia. done. Qed.

(** What is earned up to [ts], before the maximum. *)
Definition earned (self : peak_token) (ts : Z) : Z := (ts - ts_ms self) * max self / 1000.

Lemma earned_bounds most self ts :
  token_ok most self -> ts_ms self <= ts -> 0 <= earned self ts /\ 1000 * earned self ts <= (ts - ts_ms self) * max self.
Proof.
  intros [] Hts. unfold earned. split; [apply Z.div_pos; [nia|lia]|]. apply Z.mul_div_le. lia.
Qed.

(** A request: the balance is topped up and charged, or the request refused because there
    is nothing left. *)
Lemma token_credit_spec most self want ts :
  token_ok most self -> ts_ms self <= ts < 2 ^ 62 -> 0 <= want <= most -> (ts - ts_ms self) * max self < 2 ^ 62 ->
  exists self' ret, peak_token_credit self want ts = Some (self', ret) /\ token_ok most self' /\
    ts_ms self' = ts /\ max self' = max self /\
    let balance := Z.min (max self) (have self + earned self ts) in
    (ret = 0 /\ 0 < want /\ balance <= 0 /\ have self' = balance \/
     ret = 1 /\ (0 < balance \/ want = 0) /\ have self' = balance - want).
Proof.
  intros Hok Hts Hw Hb. pose proof (earned_bounds most self ts Hok ltac:(lia)) as [He0 He1]. destruct Hok.
  unfold peak_token_credit, _peak_token_credit. rewrite tk_lock0. set (s0 := self<|set_lock true|>).
  change (ts_ms s0) with (ts_ms self). change (max s0) with (max self).
  rewrite ll_some by lia. cbn [mbind option_bind]. destruct (Z.eqb_spec (max self) 0); [lia|].
  assert (exists s1, token_refill s0 (ts - ts_ms self) ts = Some s1 /\ ts_ms s1 = ts /\
    max s1 = max self /\ have s1 = Z.min (max self) (have self + earned self ts))
    as (s1 & -> & Ht1 & Hm1 & Hh1).
  { unfold token_refill. change (max s0) with (max self). change (have s0) with (have self). destruct (Z.ltb_spec 0 (ts - ts_ms self)).
    - rewrite ll_some by nia. cbn [mbind option_bind]. rewrite Z.quot_div_nonneg by nia. fold (earned self ts).
      rewrite ll_some by lia. cbn [mbind option_bind]. cbv zeta. change (max (set_have _ _)) with (max self).
      destruct (Z.ltb_spec (max self) (have self + earned self ts)); 
        (eexists; split; [reflexivity|]); (split; [done|split; [done|]]); cbn [have set_have set_ts_ms]; lia.
    - eexists. split; [done|]. assert (ts = ts_ms self) as -> by lia. unfold earned. rewrite Z.sub_diag, Z.mul_0_l, Zdiv_0_l.
      split; [done|split; [done|]]. change (have s0) with (have self). lia. }
  cbn [mbind option_bind]. destruct ((0 <? want) && (have s1 <=? 0)) eqn:E.
  - apply andb_true_iff in E as [E1%Z.ltb_lt E2%Z.leb_le]. eexists _, _. split; [done|]. cbn.
    split_and!; [split; cbn; [done|lia..]|done|done|]. left. split_and!; [done|lia..].
  - apply andb_false_iff in E. rewrite Z.ltb_ge, Z.leb_gt in E. rewrite ll_some by lia. cbn [mbind option_bind].
    eexists _, _. split; [done|]. cbn. split_and!; [split; cbn; [done|lia..]|done|done|]. right. split_and!; [done|lia..].
Qed.

(** ** Properties *)

(** A token bucket keeps its rate, as long as its products fit in 62 bits: of any
    sequence of requests with times that do not run backwards it grants less than its
    balance, what the time earns at [max] tokens per second, and one request.  It refuses
    a request only if the balance topped up by the time since the last one is used up,
    so that a client that waits for that long is served.  Credit below one token is lost:
    if requests follow each other that fast, the balance is never topped up. *)
Theorem token_rate most self rs last :
  token_ok most self -> requests_ok most (ts_ms self) rs last -> last < 2 ^ 62 ->
  (last - ts_ms self) * max self < 2 ^ 62 ->
  (exists self' sum, granted self rs = Some (self', sum) /\ token_ok most self' /\
     ts_ms self' = last /\ sum < have self + (last - ts_ms self) * max self / 1000 + most) /\
  (forall want ts, ts_ms self <= ts <= last -> 0 <= want <= most ->
     exists self' ret, peak_token_credit self want ts = Some (self', ret) /\
       (ret = 0 <-> 0 < want /\ have self + earned self ts <= 0) /\
       ((ts - ts_ms self) * max self < 1000 -> have self' = have self - (if ret =? 0 then 0 else want))).
Proof.
  intros Hok Hrs Hlast Hb. split.
  - assert (exists self' sum, granted self rs = Some (self', sum) /\ token_ok most self' /\ ts_ms self' = last /\
      sum + have self' <= have self + (last - ts_ms self) * max self / 1000) as (self' & sum & E & Hok' & Ht & Hsum).
    2: { exists self', sum. split_and!; [done..|]. destruct Hok'. lia. }
    remember (ts_ms self) as t eqn:Et. revert self Hok Hb Et.
    induction Hrs as [t|t want ts rs last Hts Hw Hrs IH]; intros self Hok Hb ->; cbn [granted].
    + exists self, 0. split_and!; [done..|]. rewrite Z.sub_diag, Z.mul_0_l, Zdiv_0_l. lia.
    + assert (ts <= last) as Hle by (clear -Hrs; induction Hrs; lia). pose proof (tk_max _ _ Hok).
      destruct (token_credit_spec most self want ts Hok) as (s & ret & -> & Hok' & Ht & Hm & Hr); [lia|done|nia|].
      cbn [mbind option_bind]. pose proof (earned_bounds most self ts Hok Hts) as [_ He].
      destruct (IH Hlast s Hok') as (s' & sum & -> & Hok2 & Ht2 & Hsum); [rewrite Hm; nia|done|].
      cbn [mbind option_bind]. eexists s', _. split_and!; [done..|]. rewrite Hm in Hsum.
      assert (earned self ts + (last - ts) * max self / 1000 <= (last - ts_ms self) * max self / 1000) as Hadd.
      { unfold earned. apply Z.div_le_lower_bound; [lia|]. pose proof (Z.mul_div_le ((last - ts) * max self) 1000).
        fold (earned self ts). nia. }
      cbv zeta in Hr. destruct (Z.eqb_spec ret 0); lia.
  - intros want ts Hts Hw. pose proof (tk_max _ _ Hok). 
    destruct (token_credit_spec most self want ts Hok ltac:(lia) Hw ltac:(nia)) as (s & ret & E & Hok' & Ht & Hm & Hr).
    exists s, ret. split; [done|]. pose proof (earned_bounds most self ts Hok ltac:(lia)) as [He0 He1].
    destruct Hok. cbv zeta in Hr. split; [lia|]. intros Hsmall. assert (earned self ts = 0) as He by lia. rewrite He in Hr.
    destruct (Z.eqb_spec ret 0); lia.
Qed.

(** 1000 tokens per second; the last request comes after 600 ms. *)
Definition sample_bucket : peak_token := peak_token_init {| have := 0; max := 0; ts_ms := 0; lock := false; ref := 0 |} 1000.

Lemma token_rate_witness :
  exists self' sum, granted sample_bucket [(800, 0); (700, 0); (900, 100); (300, 600)] = Some (self', sum) /\
    sum = 1800 /\ sum < 1000 + 600 * 1000 / 1000 + 900.
Proof.
  assert (token_ok 900 sample_bucket) as Hok by (split; cbn; [reflexivity|lia..]).
  assert (requests_ok 900 0 [(800, 0); (700, 0); (900, 100); (300, 600)] 600) as Hrs by (repeat (constructor; [lia..|]); constructor).
  destruct (token_rate 900 sample_bucket _ 600 Hok Hrs ltac:(reflexivity) ltac:(reflexivity)) as [(s & sum & E & _ & _ & H) _].
  exists s, sum. split; [exact E|]. split; [|exact H]. vm_compute in E. injection E as _ <-. reflexivity.
Defined.
