(* ===== verification/Clock.v ===== *)
(** * Time slices

    Models [include/peak_timeslice.h]: a clock that is set once per slice of time and
    has, beside the time of the day, counters of seconds, milliseconds and microseconds
    that never run backwards.  [localtime_r] and [gmtime_r] of the C library are
    arguments.  Times are integers without a bound: the products of the macros fit in
    [long long] for seconds up to [2^43]. *)

From S2P Require Import Prelude.

Record peak_timeval := {
  tv_sec : Z;
  tv_usec : Z;
}.

Section clock.
Context {tm : Type} (tm_zero : tm) (localtime_r gmtime_r : Z -> tm).

Record timeslice_t := {
  tv : peak_timeval;
  mono_usec_off : Z;
  mono_msec_off : Z;
  mono_sec_off : Z;
  mono_usec : Z;
  mono_msec : Z;
  mono_sec : Z;
  local : tm;
  gmt : tm;
  time : Z;
}.

(** The new [(prev)] and [(off)]. *)
Definition _TIMESLICE_RECALIBRATE (now prev off : Z) : Z * Z :=
  let off := if now - off <? prev then now - prev else off in
  (now - off, off).

(** The time in milliseconds and in microseconds. *)
Definition timeval_msec (timeval : peak_timeval) : Z := tv_sec timeval * 1000 + Z.quot (tv_usec timeval) 1000.
Definition timeval_usec (timeval : peak_timeval) : Z := tv_sec timeval * 1000 * 1000 + tv_usec timeval.

Definition TIMESLICE_ADVANCE (clock : timeslice_t) (timeval : peak_timeval) : timeslice_t :=
  let '(time, local, gmt) :=
    if negb (tv_sec timeval =? time clock)
    then (tv_sec timeval, localtime_r (tv_sec timeval), gmtime_r (tv_sec timeval))
    else (time clock, local clock, gmt clock) in
  let '(sec, sec_off) := _TIMESLICE_RECALIBRATE (tv_sec timeval) (mono_sec clock) (mono_sec_off clock) in
  let '(msec, msec_off) := _TIMESLICE_RECALIBRATE (timeval_msec timeval) (mono_msec clock) (mono_msec_off clock) in
  let '(usec, usec_off) := _TIMESLICE_RECALIBRATE (timeval_usec timeval) (mono_usec clock) (mono_usec_off clock) in
  {| tv := timeval; mono_usec_off := usec_off; mono_msec_off := msec_off; mono_sec_off := sec_off;
     mono_usec := usec; mono_msec := msec; mono_sec := sec; local := local; gmt := gmt; time := time |}.

Definition TIMESLICE_CALIBRATE (clock : timeslice_t) (timeval : peak_timeval) : timeslice_t :=
  {| tv := tv clock; mono_usec_off := timeval_usec timeval; mono_msec_off := timeval_msec timeval;
     mono_sec_off := tv_sec timeval; mono_usec := mono_usec clock; mono_msec := mono_msec clock;
     mono_sec := mono_sec clock; local := local clock; gmt := gmt clock; time := time clock |}.

Definition TIMESLICE_INIT : timeslice_t :=
  {| tv := {| tv_sec := 0; tv_usec := 0 |}; mono_usec_off := 0; mono_msec_off := 0; mono_sec_off := 0;
     mono_usec := 0; mono_msec := 0; mono_sec := 0; local := tm_zero; gmt := tm_zero; time := 0 |}.

(** ** The life of a clock *)

Inductive clock_step : timeslice_t -> timeslice_t -> Prop :=
  | step_advance c t : clock_step c (TIMESLICE_ADVANCE c t)
  | step_calibrate c t : clock_step c (TIMESLICE_CALIBRATE c t).

(** The counters of [c'] are not behind those of [c]. *)
Definition not_before (c c' : timeslice_t) : Prop :=
  mono_sec c <= mono_sec c' /\ mono_msec c <= mono_msec c' /\ mono_usec c <= mono_usec c'.

#[export] Instance not_before_preorder : PreOrder not_before.
Proof. split; [intros c|intros x y z]; unfold not_before; lia. Qed.

(** The times of the day belong together. *)
Definition day_ok (c : timeslice_t) : Prop :=
  time c = 0 /\ local c = tm_zero /\ gmt c = tm_zero \/ local c = localtime_r (time c) /\ gmt c = gmtime_r (time c).

Lemma recalibrate_spec now prev off :
  let '(prev', off') := _TIMESLICE_RECALIBRATE now prev off in
  prev' = Z.max prev (now - off) /\ prev' = now - off'.
Proof. unfold _TIMESLICE_RECALIBRATE. destruct (Z.ltb_spec (now - off) prev); lia. Qed.

Lemma advance_spec c t :
  let c' := TIMESLICE_ADVANCE c t in
  tv c' = t /\ time c' = tv_sec t /\
  mono_sec c' = Z.max (mono_sec c) (tv_sec t - mono_sec_off c) /\ mono_sec c' = tv_sec t - mono_sec_off c' /\
  mono_msec c' = Z.max (mono_msec c) (timeval_msec t - mono_msec_off c) /\ mono_msec c' = timeval_msec t - mono_msec_off c' /\
  mono_usec c' = Z.max (mono_usec c) (timeval_usec t - mono_usec_off c) /\ mono_usec c' = timeval_usec t - mono_usec_off c' /\
  (day_ok c -> day_ok c').
Proof.
  unfold TIMESLICE_ADVANCE. pose proof (recalibrate_spec (tv_sec t) (mono_sec c) (mono_sec_off c)) as H1.
  pose proof (recalibrate_spec (timeval_msec t) (mono_msec c) (mono_msec_off c)) as H2.
  pose proof (recalibrate_spec (timeval_usec t) (mono_usec c) (mono_usec_off c)) as H3.
  destruct (_TIMESLICE_RECALIBRATE (tv_sec t) _ _), (_TIMESLICE_RECALIBRATE (timeval_msec t) _ _),
    (_TIMESLICE_RECALIBRATE (timeval_usec t) _ _).
  destruct (Z.eqb_spec (tv_sec t) (time c)) as [E|E]; cbn [negb]; cbv zeta; simpl; (split_and!; try easy).
  intros _. by right.
Qed.

(** ** Properties *)

(** Through any slices of time and calibrations, with times that jump as they like, the
    monotonic counters never run backwards, and the time of the day is the last one set,
    with its broken-down forms (unless that is second 0 of a new clock).  While the time
    does not run backwards the counters advance exactly as it does, and a clock
    calibrated when it was new starts at 0. *)
Theorem clock_monotonic c c' :
  rtc clock_step c c' ->
  not_before c c' /\ (day_ok c -> day_ok c') /\
  (forall t u, timeval_usec t <= timeval_usec u -> timeval_msec t <= timeval_msec u -> tv_sec t <= tv_sec u ->
     let c1 := TIMESLICE_ADVANCE c' t in let c2 := TIMESLICE_ADVANCE c1 u in
     mono_usec c2 - mono_usec c1 = timeval_usec u - timeval_usec t /\
     mono_msec c2 - mono_msec c1 = timeval_msec u - timeval_msec t /\
     mono_sec c2 - mono_sec c1 = tv_sec u - tv_sec t /\ time c2 = tv_sec u) /\
  (forall t, let c0 := TIMESLICE_ADVANCE (TIMESLICE_CALIBRATE TIMESLICE_INIT t) t in
     mono_usec c0 = 0 /\ mono_msec c0 = 0 /\ mono_sec c0 = 0).
Proof.
  intros Hsteps. split_and!.
  - induction Hsteps as [c|x y z [c t|c t] _ IH]; [done|..]; etransitivity; [|exact IH| |exact IH].
    + pose proof (advance_spec c t) as H. cbv zeta in H. unfold not_before. lia.
    + unfold not_before. simpl. lia.
  - induction Hsteps as [c|x y z [c t|c t] _ IH]; [done|..]; intros Hd; apply IH; [|done].
    by apply (advance_spec c t).
  - intros t u H1 H2 H3 c1 c2. pose proof (advance_spec c' t) as Ht. pose proof (advance_spec c1 u) as Hu.
    cbv zeta in Ht, Hu. fold c1 in Ht. fold c2 in Hu. lia.
  - intros t. pose proof (advance_spec (TIMESLICE_CALIBRATE TIMESLICE_INIT t) t) as H. cbv zeta in *. simpl in H. lia.
Qed.

End clock.

(** A clock calibrated at 1000.5 seconds; then the time jumps back. *)
Definition sample_clock : timeslice_t :=
  let t := {| tv_sec := 1000; tv_usec := 500000 |} in
  TIMESLICE_ADVANCE (fun z => z) (fun z => z) (TIMESLICE_CALIBRATE (TIMESLICE_INIT 0) t) {| tv_sec := 1002; tv_usec := 0 |}.

Lemma clock_monotonic_witness :
  not_before (tm := Z) sample_clock (TIMESLICE_ADVANCE (fun z => z) (fun z => z) sample_clock {| tv_sec := 5; tv_usec := 0 |}) /\
  mono_usec sample_clock = 1500000.
Proof.
  split; [|reflexivity].
  apply (clock_monotonic (tm := Z) 0 (fun z => z) (fun z => z) sample_clock _
    (rtc_once _ _ (step_advance (fun z => z) (fun z => z) sample_clock {| tv_sec := 5; tv_usec := 0 |}))).
Defined.
