(* ===== verification/Output.v ===== *)
(** * Output

    Models [include/peak_output.h]: messages to the standard streams, the priority that a bug
    message needs to be printed, panics, and raising the priority.  A message is the text
    that vfprintf(3) makes of its format and arguments; the priorities are those of
    syslog(3), the frames of the stack those of backtrace(3).  Programs raise the priority from
    several threads: [step] interleaves the two atomic operations of [output_bump]. *)

From stdpp Require Import relations pretty.
From S2P Require Import Prelude.
Open Scope Z_scope.

(** ** Messages *)

Definition LOG_EMERG : Z := 0.
Definition LOG_ALERT : Z := 1.
Definition LOG_CRIT : Z := 2.
Definition LOG_ERR : Z := 3.
Definition LOG_WARNING : Z := 4.
Definition LOG_NOTICE : Z := 5.
Definition LOG_INFO : Z := 6.
Definition LOG_DEBUG : Z := 7.

(** The end of a line. *)
Definition nl : string := String (Ascii.ascii_of_nat 10) EmptyString.

Inductive stream := stdout | stderr.

(** What has been written, the priority, and whether the program was aborted. *)
Record output := { written : list (stream * string); _peak_bug_priority : Z; aborted : bool }.

Definition set_priority (v : Z) (o : output) : output := {| written := written o; _peak_bug_priority := v; aborted := aborted o |}.

(** abort(3). *)
Definition abort (o : output) : output := {| written := written o; _peak_bug_priority := _peak_bug_priority o; aborted := true |}.

Definition _peak_print (s : stream) (message : string) (o : output) : output :=
  {| written := written o ++ [(s, message)]; _peak_bug_priority := _peak_bug_priority o; aborted := aborted o |}.

Definition __peak_bug (x : Z) (y : string) (o : output) : output := _peak_print stderr y o.

Definition _peak_bug (x : Z) (y : string) (o : output) : output :=
  if x <=? _peak_bug_priority o then __peak_bug x y o else o.

(** The priority is ignored. *)
Definition _peak_log (x : Z) (y : string) (o : output) : output := _peak_print stdout y o.
Definition _peak_out (x : string) (o : output) : output := _peak_print stdout x o.
Definition _peak_err (x : string) (o : output) : output := _peak_print stderr x o.

Definition BACKTRACE_NORMAL : nat := 1.
Definition BACKTRACE_SIGNAL : nat := 3.
Definition BACKTRACE_MAX : nat := 128.

(** [stack] has the frames from the innermost one, [skip] of which are left out; the descriptor
    2 is that of [stderr]. *)
Definition _peak_backtrace (stack : list string) (skip : nat) (o : output) : output :=
  let o := _peak_bug LOG_EMERG ("====== stack trace begin ======" +:+ nl) o in
  let o := foldl (fun o frame => _peak_print stderr (frame +:+ nl)%string o) o (drop skip (take BACKTRACE_MAX stack)) in
  _peak_bug LOG_EMERG ("======= stack trace end =======" +:+ nl) o.

(** The place is in front of the message. *)
Definition WHERE_HACK (file line : string) : string := (file +:+ ":" +:+ line +:+ ": ")%string.

Section place.
Variables (file line : string) (stack : list string).

Definition panic (msg : string) (o : output) : output :=
  let o := _peak_bug LOG_EMERG (WHERE_HACK file line +:+ msg)%string o in
  let o := _peak_backtrace stack BACKTRACE_NORMAL o in
  abort o.

Definition alert (msg : string) : output -> output := _peak_bug LOG_ALERT (WHERE_HACK file line +:+ msg)%string.
Definition critical (msg : string) : output -> output := _peak_bug LOG_CRIT (WHERE_HACK file line +:+ msg)%string.
Definition error (msg : string) : output -> output := _peak_bug LOG_ERR (WHERE_HACK file line +:+ msg)%string.
Definition warning (msg : string) : output -> output := _peak_bug LOG_WARNING (WHERE_HACK file line +:+ msg)%string.
Definition notice (msg : string) : output -> output := _peak_bug LOG_NOTICE (WHERE_HACK file line +:+ msg)%string.
Definition info (msg : string) : output -> output := _peak_bug LOG_INFO (WHERE_HACK file line +:+ msg)%string.
Definition debug (msg : string) : output -> output := _peak_bug LOG_DEBUG (WHERE_HACK file line +:+ msg)%string.

(** The branch [output_bump] takes for the priority it reads. *)
Inductive branch := Raise | Keep | Impossible.

Definition bump_branch (priority : Z) : branch :=
  if existsb (Z.eqb priority) [LOG_EMERG; LOG_ALERT; LOG_CRIT; LOG_ERR; LOG_WARNING; LOG_NOTICE; LOG_INFO] then Raise
  else if priority =? LOG_DEBUG then Keep
  else Impossible.

Definition impossible (priority : Z) : string := ("impossible priority: " +:+ pretty priority +:+ nl)%string.

Definition output_bump (o : output) : output :=
  match bump_branch (_peak_bug_priority o) with
  | Raise => set_priority (s32 (_peak_bug_priority o + 1)) o
  | Keep => o
  | Impossible => panic (impossible (_peak_bug_priority o)) o
  end.

Definition output_init : output := {| written := []; _peak_bug_priority := LOG_EMERG; aborted := false |}.
Definition output_bug : output -> output := output_bump.

Lemma bump_raise p : LOG_EMERG <= p <= LOG_INFO -> bump_branch p = Raise.
Proof.
  unfold LOG_EMERG, LOG_INFO. intros Hp. assert (p = 0 \/ p = 1 \/ p = 2 \/ p = 3 \/ p = 4 \/ p = 5 \/ p = 6) as H by lia.
  by destruct_or!; subst.
Qed.

Lemma bump_impossible p : p < LOG_EMERG \/ LOG_DEBUG < p -> bump_branch p = Impossible.
Proof.
  unfold LOG_EMERG, LOG_DEBUG. intros Hp. unfold bump_branch. simpl.
  repeat match goal with |- context [p =? ?k] => destruct (Z.eqb_spec p k); [exfalso; unfold LOG_EMERG, LOG_ALERT, LOG_CRIT, LOG_ERR, LOG_WARNING, LOG_NOTICE, LOG_INFO, LOG_DEBUG in *; lia|] end.
  done.
Qed.

Lemma bump_branch_cases p :
  bump_branch p = Raise /\ LOG_EMERG <= p <= LOG_INFO \/ bump_branch p = Keep /\ p = LOG_DEBUG \/
  bump_branch p = Impossible /\ (p < LOG_EMERG \/ LOG_DEBUG < p).
Proof.
  unfold LOG_EMERG, LOG_INFO, LOG_DEBUG. destruct (decide (0 <= p <= 6)); [left; split; [by apply bump_raise|done]|right].
  destruct (decide (p = 7)) as [->|]; [by left|right]. split; [apply bump_impossible; unfold LOG_EMERG, LOG_DEBUG; lia|lia].
Qed.

(** What a message leaves. *)
Lemma peak_bug_written x y o :
  written (_peak_bug x y o) = written o ++ (if x <=? _peak_bug_priority o then [(stderr, y)] else []) /\
  _peak_bug_priority (_peak_bug x y o) = _peak_bug_priority o /\ aborted (_peak_bug x y o) = aborted o.
Proof. unfold _peak_bug. destruct (_ <=? _); simpl; [done|by rewrite app_nil_r]. Qed.

(** In one thread: after [k] times [output_bug] the messages up to level [k] are printed, the
    last level being the end; nothing is printed or aborted meanwhile. *)
Theorem output_levels k :
  let o := Nat.iter k output_bug output_init in
  written o = [] /\ aborted o = false /\ _peak_bug_priority o = Z.min (Z.of_nat k) LOG_DEBUG /\
  forall x msg, written (_peak_bug x msg o) = if x <=? Z.min (Z.of_nat k) LOG_DEBUG then [(stderr, msg)] else [].
Proof.
  cbv zeta. assert (written (Nat.iter k output_bug output_init) = [] /\ aborted (Nat.iter k output_bug output_init) = false /\
    _peak_bug_priority (Nat.iter k output_bug output_init) = Z.min (Z.of_nat k) LOG_DEBUG) as (H1 & H2 & H3).
  { induction k as [|k IH]; [done|]. change (Nat.iter (S k) output_bug output_init) with (output_bump (Nat.iter k output_bug output_init)).
    destruct IH as (IH1 & IH2 & IH3). unfold output_bump. rewrite IH3. unfold LOG_DEBUG in *.
    destruct (decide (Z.of_nat k <= 6)).
    - rewrite bump_raise by (unfold LOG_EMERG, LOG_INFO; lia). cbn [written aborted _peak_bug_priority set_priority].
      split_and!; [done..|]. rewrite swrap_small by (unfold fits; lia). lia.
    - replace (Z.min (Z.of_nat k) 7) with 7 by lia. change (bump_branch 7) with Keep. split_and!; [done..|lia]. }
  split_and!; [done..|]. intros x msg. destruct (peak_bug_written x msg (Nat.iter k output_bug output_init)) as (-> & _ & _). by rewrite H1, H3.
Qed.

(** A panic prints where it is and the stack, and aborts. *)
Theorem panic_prints msg o :
  LOG_EMERG <= _peak_bug_priority o ->
  aborted (panic msg o) = true /\ _peak_bug_priority (panic msg o) = _peak_bug_priority o /\
  written (panic msg o) = written o ++ (pair stderr <$> [WHERE_HACK file line +:+ msg; "====== stack trace begin ======" +:+ nl]%string ++
    ((fun frame => frame +:+ nl)%string <$> drop 1 (take BACKTRACE_MAX stack)) ++ ["======= stack trace end =======" +:+ nl]%string).
Proof.
  intros Hp. unfold panic, _peak_backtrace, BACKTRACE_NORMAL. set (m := (WHERE_HACK file line +:+ msg)%string).
  assert (forall l o, written (foldl (fun o frame => _peak_print stderr (frame +:+ nl)%string o) o l) = written o ++ (pair stderr <$> ((fun frame => frame +:+ nl)%string <$> l)) /\
    _peak_bug_priority (foldl (fun o frame => _peak_print stderr (frame +:+ nl)%string o) o l) = _peak_bug_priority o) as Hl.
  { clear. intros l. induction l as [|f l IH]; intros o; [by rewrite app_nil_r|]. cbn [foldl]. destruct (IH (_peak_print stderr (f +:+ nl)%string o)) as [-> ->].
    split; [|done]. cbn [written _peak_print fmap list_fmap]. by rewrite <- app_assoc. }
  assert (forall y o, LOG_EMERG <= _peak_bug_priority o -> _peak_bug LOG_EMERG y o = _peak_print stderr y o) as Hb.
  { intros y o' Ho. unfold _peak_bug. by rewrite (proj2 (Z.leb_le _ _)). }
  rewrite (Hb m o) by done. rewrite (Hb _ (_peak_print stderr m o)) by done.
  set (o1 := _peak_print stderr _ _). destruct (Hl (drop 1 (take BACKTRACE_MAX stack)) o1) as [E1 E2]. rewrite Hb by (by rewrite E2).
  split_and!; [done|by cbn [abort _peak_print _peak_bug_priority]; rewrite E2|]. cbn [abort written _peak_print]. rewrite E1. cbn [written _peak_print o1].
  rewrite !fmap_app. cbn [fmap list_fmap]. by rewrite <- !app_assoc.
Qed.

(** ** Several threads *)

(** A thread in [output_bump] is between reading the priority and adding to it. *)
Inductive thread := Idle | Raising.

Record system := System { shared : output; threads : list thread }.

Inductive step : system -> system -> Prop :=
  | step_read o ts i : ts !! i = Some Idle -> aborted o = false -> bump_branch (_peak_bug_priority o) = Raise ->
      step (System o ts) (System o (<[i := Raising]> ts))
  | step_keep o ts i : ts !! i = Some Idle -> aborted o = false -> bump_branch (_peak_bug_priority o) = Keep ->
      step (System o ts) (System o ts)
  | step_impossible o ts i : ts !! i = Some Idle -> aborted o = false -> bump_branch (_peak_bug_priority o) = Impossible ->
      step (System o ts) (System (panic (impossible (_peak_bug_priority o)) o) ts)
  | step_raise o ts i : ts !! i = Some Raising -> aborted o = false ->
      step (System o ts) (System (set_priority (s32 (_peak_bug_priority o + 1)) o) (<[i := Idle]> ts)).

Definition init (n : nat) : system := System output_init (replicate n Idle).

Definition weight (t : thread) : Z := match t with Raising => 1 | Idle => 0 end.
Definition raising (ts : list thread) : Z := foldr (fun t k => weight t + k) 0 ts.

Lemma raising_bound ts : 0 <= raising ts <= Z.of_nat (length ts).
Proof. induction ts as [|[] ts IH]; simpl; lia. Qed.

Lemma raising_insert ts i t t' :
  ts !! i = Some t -> raising (<[i := t']> ts) = raising ts - weight t + weight t'.
Proof.
  revert i. induction ts as [|a ts IH]; intros [|i] H; [done|done| |].
  - injection H as ->. cbn. lia.
  - specialize (IH i H). change (weight a + raising (<[i := t']> ts) = weight a + raising ts - weight t + weight t'). lia.
Qed.

(** Whoever is about to raise the priority saw a level below the last. *)
Record system_ok (n : nat) (s : system) : Prop := {
  ok_threads : length (threads s) = n;
  ok_low : LOG_EMERG <= _peak_bug_priority (shared s);
  ok_high : _peak_bug_priority (shared s) + raising (threads s) <= LOG_INFO + Z.of_nat n;
  ok_alone : n = 1%nat -> aborted (shared s) = false;
}.

Lemma bump_init_ok n : system_ok n (init n).
Proof.
  constructor; simpl; [by rewrite length_replicate|done| |done].
  assert (raising (replicate n Idle) = 0) as -> by (induction n; simpl; lia). unfold LOG_EMERG, LOG_INFO. lia.
Qed.

Lemma bump_step_ok n s s' : fits 30 (Z.of_nat n) -> system_ok n s -> step s s' -> system_ok n s'.
Proof.
  intros Hn [Ht Hl Hh Ha] Hs. unfold fits in Hn. unfold LOG_EMERG, LOG_INFO in *.
  destruct Hs as [o ts i Hi Hab Hb|o ts i Hi Hab Hb|o ts i Hi Hab Hb|o ts i Hi Hab]; simpl in *.
  - destruct (bump_branch_cases (_peak_bug_priority o)) as [[_ Hp]|[[? _]|[? _]]]; [|congruence..]. unfold LOG_EMERG, LOG_INFO in Hp.
    pose proof (raising_bound (<[i := Raising]> ts)) as Hr. rewrite length_insert, Ht in Hr. pose proof (raising_insert ts i Idle Raising Hi) as E. cbn in E.
    constructor; simpl; [by rewrite length_insert|unfold LOG_EMERG; lia|unfold LOG_INFO; lia|done].
  - by constructor.
  - destruct (bump_branch_cases (_peak_bug_priority o)) as [[? _]|[[? _]|[_ Hp]]]; [congruence..|].
    destruct (panic_prints (impossible (_peak_bug_priority o)) o) as (_ & E & _); [done|]. pose proof (raising_bound ts) as Hr.
    constructor; cbn [shared threads]; [done|by rewrite E|by rewrite E|]. intros ->. exfalso. unfold LOG_EMERG, LOG_DEBUG in Hp. lia.
  - pose proof (raising_insert ts i Raising Idle Hi) as E. cbn in E. pose proof (raising_bound (<[i := Idle]> ts)) as Hr.
    assert (s32 (_peak_bug_priority o + 1) = _peak_bug_priority o + 1) as Es by (apply swrap_small; [lia|]; unfold fits; lia).
    constructor; simpl; [by rewrite length_insert|rewrite Es; unfold LOG_EMERG; lia|rewrite Es; unfold LOG_INFO; lia|done].
Qed.

(** One thread raises the priority, seen by itself. *)
Lemma raise_alone ts i o :
  ts !! i = Some Idle -> aborted o = false -> LOG_EMERG <= _peak_bug_priority o <= LOG_INFO ->
  rtc step (System o ts) (System (set_priority (_peak_bug_priority o + 1) o) ts).
Proof.
  intros Hi Ha Hp. eapply rtc_l; [by apply (step_read o ts i); [..|apply bump_raise]|]. eapply rtc_l.
  { apply (step_raise o (<[i := Raising]> ts) i); [|done]. apply list_lookup_insert_eq. by eapply lookup_lt_Some. }
  rewrite list_insert_insert_eq, list_insert_id by done. rewrite swrap_small by (unfold fits, LOG_EMERG, LOG_INFO in *; lia). done.
Qed.

Lemma raise_to_info n k : (0 < n)%nat -> (k <= 6)%nat -> rtc step (init n) (System (set_priority (Z.of_nat k) output_init) (replicate n Idle)).
Proof.
  intros Hn. induction k as [|k IH]; intros Hk; [done|]. etransitivity; [apply IH; lia|].
  replace (set_priority (Z.of_nat (S k)) output_init) with
    (set_priority (_peak_bug_priority (set_priority (Z.of_nat k) output_init) + 1) (set_priority (Z.of_nat k) output_init))
    by (unfold set_priority; simpl; f_equal; lia).
  apply (raise_alone _ 0); [by destruct n; [lia|]|done|simpl; unfold LOG_EMERG, LOG_INFO; lia].
Qed.

(** Two threads that both see the last level but one raise the priority past the last. *)
Lemma two_race n : (2 <= n)%nat -> exists s, rtc step (init n) s /\ aborted (shared s) = true.
Proof.
  intros Hn. destruct n as [|[|n]]; [lia..|]. set (o := set_priority 6 output_init).
  exists (System (panic (impossible 8) (set_priority 8 o)) (replicate (S (S n)) Idle)). split; [|reflexivity].
  etransitivity; [apply (raise_to_info (S (S n)) 6); lia|]. change (Z.of_nat 6) with 6. fold o. cbn [replicate].
  eapply rtc_l; [by apply (step_read o _ 0)|]. cbn [list_insert insert]. eapply rtc_l; [by apply (step_read o _ 1)|]. cbn [list_insert insert].
  eapply rtc_l; [by apply (step_raise o _ 0)|]. cbn [list_insert insert]. eapply rtc_l; [by apply (step_raise _ _ 1)|]. cbn [list_insert insert].
  eapply rtc_l; [by apply (step_impossible _ _ 0)|]. reflexivity.
Qed.

(** C32.  However threads interleave in [output_bump], the priority stays between the first level
    and as many past [LOG_INFO] as there are threads; the program is never aborted there if
    one thread raises the priority, and may be if there are two: both read [LOG_INFO], both
    add to it, and the next call finds an impossible priority. *)
Theorem bump_bounds n :
  fits 30 (Z.of_nat n) ->
  (forall s, rtc step (init n) s -> LOG_EMERG <= _peak_bug_priority (shared s) <= LOG_INFO + Z.of_nat n) /\
  ((n <= 1)%nat <-> forall s, rtc step (init n) s -> aborted (shared s) = false).
Proof.
  intros Hn. assert (forall s, rtc step (init n) s -> system_ok n s) as Hok.
  { intros s. apply (rtc_ind_r (fun s => system_ok n s)); [apply bump_init_ok|]. intros x y _ Hxy Hx. by eapply bump_step_ok. }
  split.
  - intros s Hs. destruct (Hok s Hs) as [_ Hl Hh _]. pose proof (raising_bound (threads s)). lia.
  - split; [intros H1 s Hs|intros H].
    + destruct (Hok s Hs) as [Ht _ _ Ha]. destruct (decide (n = 1%nat)); [by apply Ha|]. assert (n = 0%nat) as -> by lia.
      destruct (rtc_inv _ _ Hs) as [<-|(y & Hy & _)]; [done|]. inversion Hy; done.
    + destruct (decide (n <= 1)%nat); [done|]. destruct (two_race n) as (s & Hs & Hab); [lia|]. by rewrite (H s Hs) in Hab.
Qed.

End place.

Lemma bump_bounds_witness :
  ~ forall s, rtc (step "peek.c" "1" []) (init 2) s -> aborted (shared s) = false.
Proof.
  intros H. destruct (bump_bounds "peek.c" "1" [] 2) as [_ Hn]; [by split|]. apply Hn in H. lia.
Defined.
