(* ===== verification/Queue.v ===== *)
(** * Queues

    Models the macros of [include/sys/queue.h] that libpeak uses, singly-linked lists and
    tail queues, on the pointers they write ([Rings] has the others): the links are members of the elements, an
    element is its address, and a store maps the addresses of the elements, linked or not,
    to their links.  The macros refine operations on lists, which is what the models of
    their users ([Prealloc], [Track]) work with.  Following a pointer to something that is
    not an element is undefined. *)

From S2P Require Import Prelude.

(** The first of a list, or what comes after it. *)
Definition hd_or (l : list Z) (nxt : option Z) : option Z := match l with [] => nxt | b :: _ => Some b end.

(** Stores that differ at most at the elements of [l]. *)
Definition frame {A} (l : list Z) (m m' : gmap Z A) : Prop := forall a, a ∉ l -> m' !! a = m !! a.

Lemma frame_refl {A} l (m : gmap Z A) : frame l m m.
Proof. done. Qed.

Lemma frame_trans {A} l l' (m m' m'' : gmap Z A) : frame l m m' -> frame l' m' m'' -> frame (l ++ l') m m''.
Proof. intros H H' a Ha. apply not_elem_of_app in Ha as [Ha Ha']. by rewrite H', H. Qed.

Lemma frame_sub {A} l l' (m m' : gmap Z A) : frame l m m' -> l ⊆ l' -> frame l' m m'.
Proof. intros H Hl a Ha. apply H. intros Hal. by apply Ha, Hl. Qed.

Lemma frame_insert {A} l (m m' : gmap Z A) a v : frame l m m' -> a ∈ l -> frame l m (<[a := v]> m').
Proof. intros H Ha b Hb. rewrite lookup_insert_ne by (by intros ->). by apply H. Qed.

(** [r] in the place of [y]. *)
Definition subst_at (y : Z) (r l : list Z) : list Z := l ≫= fun a => if decide (a = y) then r else [a].

Lemma subst_at_notin y r l : y ∉ l -> subst_at y r l = l.
Proof.
  induction l as [|a l IH]; intros Hy; [done|].
  apply not_elem_of_cons in Hy as [Ha Hl]. unfold subst_at. cbn [mbind list_bind].
  rewrite decide_False by done. cbn [app]. f_equal. by apply IH.
Qed.

Lemma subst_at_split y r l1 l2 : NoDup (l1 ++ y :: l2) -> subst_at y r (l1 ++ y :: l2) = l1 ++ r ++ l2.
Proof.
  intros (_ & Hd & [Hy _]%NoDup_cons)%NoDup_app. unfold subst_at. rewrite bind_app. cbn [mbind list_bind].
  rewrite decide_True by done. fold (subst_at y r l1) (subst_at y r l2).
  rewrite !subst_at_notin; [done|done|]. intros H. apply (Hd y H). left.
Qed.

Lemma subst_at_sub y r l : subst_at y r l ⊆ r ++ l.
Proof.
  intros x (a & Hx & Ha)%list_elem_of_bind. apply elem_of_app. case_decide; [by left|]. right. set_solver.
Qed.

(** ** Singly-linked lists *)

Module Slist.

(** The [sle_next] of the elements. *)
Abbreviation links := (gmap Z (option Z)).

(** [struct { struct type *slh_first; }] *)
Abbreviation slist := (option Z).

(** A write to the link of an element. *)
Definition set_next (a : Z) (next : option Z) (m : links) : option links :=
  _ ← m !! a; Some (<[a := next]> m).

Definition SLIST_INIT : slist := None.
Definition SLIST_FIRST (head : slist) : option Z := head.
Definition SLIST_EMPTY (head : slist) : bool := match SLIST_FIRST head with None => true | Some _ => false end.
Definition SLIST_NEXT (m : links) (elm : Z) : option (option Z) := m !! elm.

Definition SLIST_INSERT_AFTER (m : links) (slistelm elm : Z) : option links :=
  next ← m !! slistelm;
  m ← set_next elm next m;
  set_next slistelm (Some elm) m.

Definition SLIST_INSERT_HEAD (head : slist) (m : links) (elm : Z) : option (slist * links) :=
  m ← set_next elm head m;
  Some (Some elm, m).

Definition SLIST_REMOVE_AFTER (m : links) (elm : Z) : option links :=
  next ← m !! elm;
  next ← next;
  after ← m !! next;
  set_next elm after m.

Definition SLIST_REMOVE_HEAD (head : slist) (m : links) : option slist :=
  first ← head;
  m !! first.

(** [while (curelm->field.sle_next != (elm))] *)
Fixpoint remove_loop (fuel : nat) (m : links) (curelm elm : Z) : option Z :=
  next ← m !! curelm;
  if decide (next = Some elm) then Some curelm else
  match fuel with
  | O => None
  | S fuel => curelm ← next; remove_loop fuel m curelm elm
  end.

Definition SLIST_REMOVE (fuel : nat) (head : slist) (m : links) (elm : Z) : option (slist * links) :=
  if decide (head = Some elm) then head ← SLIST_REMOVE_HEAD head m; Some (head, m) else
  curelm ← head;
  curelm ← remove_loop fuel m curelm elm;
  m ← SLIST_REMOVE_AFTER m curelm;
  Some (head, m).

(** The elements [SLIST_FOREACH] visits from [var] on. *)
Fixpoint SLIST_FOREACH (fuel : nat) (m : links) (var : option Z) : option (list Z) :=
  match var, fuel with
  | None, _ => Some []
  | Some _, O => None
  | Some a, S fuel => next ← SLIST_NEXT m a; l ← SLIST_FOREACH fuel m next; Some (a :: l)
  end.

(** [SLIST_FOREACH_SAFE]: the link is read before the body runs. *)
Fixpoint SLIST_FOREACH_SAFE (fuel : nat) (body : Z -> slist * links -> option (slist * links)) (var : option Z) (s : slist * links) : option (slist * links) :=
  match var, fuel with
  | None, _ => Some s
  | Some _, O => None
  | Some a, S fuel => tvar ← SLIST_NEXT s.2 a; s ← body a s; SLIST_FOREACH_SAFE fuel body tvar s
  end.

(** A list whose last element links to [nxt]. *)
Fixpoint chain (m : links) (l : list Z) (nxt : option Z) : Prop :=
  match l with
  | [] => True
  | a :: l => m !! a = Some (hd_or l nxt) /\ chain m l nxt
  end.

(** The list with this head. *)
Definition is_slist (head : slist) (m : links) (l : list Z) : Prop :=
  head = hd_error l /\ chain m l None /\ NoDup l.

Lemma chain_cons m a l nxt : chain m (a :: l) nxt <-> m !! a = Some (hd_or l nxt) /\ chain m l nxt.
Proof. done. Qed.

Lemma chain_app m l r nxt : chain m (l ++ r) nxt <-> chain m l (hd_or r nxt) /\ chain m r nxt.
Proof.
  induction l as [|a l IH]; [simpl; tauto|]. rewrite <- app_comm_cons, !chain_cons, IH.
  assert (hd_or (l ++ r) nxt = hd_or l (hd_or r nxt)) as -> by (by destruct l). tauto.
Qed.

(** Only the links of its elements matter. *)
Lemma chain_frame m a v l nxt : a ∉ l -> chain m l nxt -> chain (<[a := v]> m) l nxt.
Proof.
  induction l as [|b l IH]; intros Ha; [done|]. apply not_elem_of_cons in Ha as [Hab Ha].
  rewrite !chain_cons, lookup_insert_ne by done. intros [Hb Hl]. split; [done|by apply IH].
Qed.

Lemma remove_loop_spec m l x r fuel y :
  chain m (l ++ y :: x :: r) None -> NoDup (l ++ y :: x :: r) -> (length l <= fuel)%nat ->
  exists c, hd_error (l ++ [y]) = Some c /\ remove_loop fuel m c x = Some y.
Proof.
  revert fuel. induction l as [|a l IH]; intros fuel Hc HN Hf.
  - exists y. split; [done|]. simpl in Hc. destruct Hc as [Hy _]. destruct fuel; simpl; rewrite Hy; simpl; by rewrite decide_True.
  - exists a. split; [done|]. destruct fuel as [|fuel]; [simpl in Hf; lia|].
    rewrite <- app_comm_cons in Hc. apply chain_cons in Hc as [Ha Hc]. apply NoDup_cons in HN as [_ HN].
    destruct (IH fuel Hc HN ltac:(simpl in Hf; lia)) as (c & Ec & E). cbn [remove_loop]. rewrite Ha. cbn [mbind option_bind].
    assert (hd_or (l ++ y :: x :: r) None = Some c) as -> by (by destruct l). rewrite decide_False; [done|]. intros [= ->].
    destruct l as [|b l]; injection Ec as ->; simpl in HN; apply NoDup_cons in HN as [HN _]; set_solver.
Qed.

Lemma slist_insert_head head m l x :
  is_slist head m l -> is_Some (m !! x) -> x ∉ l ->
  exists m', SLIST_INSERT_HEAD head m x = Some (Some x, m') /\ is_slist (Some x) m' (x :: l) /\ frame (x :: l) m m'.
Proof.
  intros (-> & Hc & HN) [v Hx] Hni. unfold SLIST_INSERT_HEAD, set_next. rewrite Hx. cbn [mbind option_bind].
  eexists. split; [done|]. split; [|by apply frame_insert; [|left]]. split; [done|]. split; [|by constructor].
  apply chain_cons. split; [by rewrite lookup_insert_eq; destruct l|]. by apply chain_frame.
Qed.

Lemma slist_insert_after head m l1 y l2 x :
  is_slist head m (l1 ++ y :: l2) -> is_Some (m !! x) -> x ∉ l1 ++ y :: l2 ->
  exists m', SLIST_INSERT_AFTER m y x = Some m' /\ is_slist head m' (l1 ++ y :: x :: l2) /\ frame (x :: l1 ++ y :: l2) m m'.
Proof.
  intros (-> & Hc & HN) [v Hx] Hni. apply chain_app in Hc as [H1 [Hy H2]%chain_cons].
  apply NoDup_app in HN as (HN1 & Hd & [Hy2 HN2]%NoDup_cons). assert (x <> y) as Hxy by set_solver.
  assert (y ∉ l1) as Hy1 by (intros H; apply (Hd y H); left).
  unfold SLIST_INSERT_AFTER, set_next. rewrite Hy. cbn [mbind option_bind]. rewrite Hx. cbn [mbind option_bind].
  rewrite lookup_insert_ne, Hy by done. cbn [mbind option_bind]. eexists. split; [done|]. split.
  - split; [by destruct l1|]. split.
    + apply chain_app. split; [do 2 (apply chain_frame; [set_solver|]); done|].
      apply chain_cons. split; [by rewrite lookup_insert_eq|]. apply chain_cons.
      split; [by rewrite lookup_insert_ne, lookup_insert_eq|]. do 2 (apply chain_frame; [set_solver|]). done.
    + apply NoDup_app. split; [done|]. split; [set_solver|]. repeat (constructor; [set_solver|]). done.
  - apply frame_insert; [apply frame_insert; [done|left]|set_solver].
Qed.

Lemma slist_remove_after head m l1 y x l2 :
  is_slist head m (l1 ++ y :: x :: l2) ->
  exists m', SLIST_REMOVE_AFTER m y = Some m' /\ is_slist head m' (l1 ++ y :: l2) /\ frame (l1 ++ y :: l2) m m'.
Proof.
  intros (-> & Hc & HN). apply chain_app in Hc as [H1 [Hy [Hx H2]%chain_cons]%chain_cons].
  apply NoDup_app in HN as (HN1 & Hd & [Hy2 [Hx2 HN2]%NoDup_cons]%NoDup_cons).
  unfold SLIST_REMOVE_AFTER, set_next. rewrite Hy. cbn [mbind option_bind hd_or]. rewrite Hx. cbn [mbind option_bind].
  eexists. split; [done|]. split; [|apply frame_insert; [done|set_solver]].
  split; [by destruct l1|]. split.
  - apply chain_app. split; [apply chain_frame; [set_solver|done]|]. apply chain_cons.
    split; [by rewrite lookup_insert_eq|]. apply chain_frame; [set_solver|done].
  - apply NoDup_app. split; [done|]. split; [set_solver|]. constructor; [set_solver|done].
Qed.

Lemma slist_remove_head head m x l : is_slist head m (x :: l) -> exists head', SLIST_REMOVE_HEAD head m = Some head' /\ is_slist head' m l.
Proof.
  intros (-> & [Hx Hc]%chain_cons & [_ HN]%NoDup_cons). unfold SLIST_REMOVE_HEAD. simpl. rewrite Hx. eexists.
  split; [done|]. by split; [destruct l|].
Qed.

Lemma slist_remove head m l1 x l2 fuel :
  is_slist head m (l1 ++ x :: l2) -> (length l1 <= fuel)%nat ->
  exists head' m', SLIST_REMOVE fuel head m x = Some (head', m') /\ is_slist head' m' (l1 ++ l2) /\ frame (l1 ++ l2) m m'.
Proof.
  intros H Hf. unfold SLIST_REMOVE. pose proof H as (Hh & Hc & HN). destruct l1 as [|a l1'] using rev_ind; [|clear IHl1'].
  - rewrite decide_True by (by rewrite Hh). destruct (slist_remove_head head m x l2 H) as (head' & -> & H'). by exists head', m.
  - rewrite <- !app_assoc in *. cbn [app] in *. rewrite length_app in Hf. simpl in Hf.
    destruct (remove_loop_spec m l1' x l2 fuel a Hc HN ltac:(lia)) as (c & Ec & E).
    assert (head = Some c) as -> by (rewrite Hh, <- Ec; by destruct l1').
    rewrite decide_False.
    + cbn [mbind option_bind]. rewrite E. cbn [mbind option_bind]. destruct (slist_remove_after _ m l1' a x l2 H) as (m' & -> & H' & Hfr).
      cbn [mbind option_bind]. by exists (Some c), m'.
    + intros [= ->]. destruct l1' as [|b l1']; injection Ec as ->; simpl in HN; apply NoDup_cons in HN as [HN _]; set_solver.
Qed.

Lemma slist_foreach m l : chain m l None -> SLIST_FOREACH (length l) m (hd_error l) = Some l.
Proof.
  induction l as [|a l IH]; [done|]. intros [Ha Hc]%chain_cons. cbn [hd_error length SLIST_FOREACH]. unfold SLIST_NEXT. rewrite Ha.
  cbn [mbind option_bind]. replace (hd_or l None) with (hd_error l) by (by destruct l). by rewrite IH.
Qed.

(** Elements are removed while the list is iterated. *)
Lemma slist_drain head m l :
  is_slist head m l ->
  exists m', SLIST_FOREACH_SAFE (length l) (fun _ s => head ← SLIST_REMOVE_HEAD s.1 s.2; Some (head, s.2)) (hd_error l) (head, m) = Some (None, m').
Proof.
  revert head. induction l as [|a l IH]; intros head H; [destruct H as (-> & _); by exists m|]. cbn [hd_error length SLIST_FOREACH_SAFE fst snd].
  pose proof H as (_ & [Ha _]%chain_cons & _). unfold SLIST_NEXT. rewrite Ha. cbn [mbind option_bind].
  destruct (slist_remove_head _ _ _ _ H) as (head' & -> & H'). cbn [mbind option_bind].
  replace (hd_or l None) with (hd_error l) by (by destruct l). by apply IH.
Qed.

Lemma slist_member head m l a : is_slist head m l -> a ∈ l -> is_Some (m !! a).
Proof. intros (_ & Hc & _) (l1 & l2 & ->)%list_elem_of_split. apply chain_app in Hc as [_ [Ha _]]. by eexists. Qed.

(** The operations on a list, and the list they make of it. *)
Inductive op := InsertHead (elm : Z) | InsertAfter (slistelm elm : Z) | RemoveAfter (elm : Z) | RemoveHead | Remove (elm : Z).

Definition run (fuel : nat) (o : op) (s : slist * links) : option (slist * links) :=
  let '(head, m) := s in
  match o with
  | InsertHead elm => SLIST_INSERT_HEAD head m elm
  | InsertAfter slistelm elm => m ← SLIST_INSERT_AFTER m slistelm elm; Some (head, m)
  | RemoveAfter elm => m ← SLIST_REMOVE_AFTER m elm; Some (head, m)
  | RemoveHead => head ← SLIST_REMOVE_HEAD head m; Some (head, m)
  | Remove elm => SLIST_REMOVE fuel head m elm
  end.

Fixpoint runs (fuel : nat) (ops : list op) (s : slist * links) : option (slist * links) :=
  match ops with [] => Some s | o :: ops => s ← run fuel o s; runs fuel ops s end.

Fixpoint drop_after (y : Z) (l : list Z) : option (list Z) :=
  match l with
  | [] => None
  | a :: l => if decide (a = y) then match l with [] => None | _ :: l => Some (a :: l) end else cons a <$> drop_after y l
  end.

Definition spec (o : op) (l : list Z) : option (list Z) :=
  match o with
  | InsertHead elm => if decide (elm ∉ l) then Some (elm :: l) else None
  | InsertAfter y elm => if decide (y ∈ l /\ elm ∉ l) then Some (subst_at y [y; elm] l) else None
  | RemoveAfter elm => drop_after elm l
  | RemoveHead => match l with [] => None | _ :: l => Some l end
  | Remove elm => if decide (elm ∈ l) then Some (subst_at elm [] l) else None
  end.

Fixpoint specs (ops : list op) (l : list Z) : option (list Z) :=
  match ops with [] => Some l | o :: ops => l ← spec o l; specs ops l end.

(** The elements an operation links. *)
Definition fresh (o : op) : list Z :=
  match o with InsertHead elm | InsertAfter _ elm => [elm] | _ => [] end.

Lemma drop_after_split y l l' : drop_after y l = Some l' -> exists l1 x l2, l = l1 ++ y :: x :: l2 /\ l' = l1 ++ y :: l2.
Proof.
  revert l'. induction l as [|a l IH]; intros l' H; [done|]. simpl in H. destruct (decide (a = y)) as [->|Hne].
  - destruct l as [|x l]; [done|]. injection H as <-. by exists [], x, l.
  - apply fmap_Some in H as (l0 & (l1 & x & l2 & -> & ->)%IH & ->). by exists (a :: l1), x, l2.
Qed.

Lemma slist_run_spec fuel o head m l l' :
  is_slist head m l -> spec o l = Some l' -> Forall (fun x => is_Some (m !! x)) (fresh o) -> (length l <= fuel)%nat ->
  exists head' m', run fuel o (head, m) = Some (head', m') /\ is_slist head' m' l' /\ frame l' m m'.
Proof.
  intros H Hs Hx Hf. pose proof H as (_ & _ & HN). destruct o; cbn [spec run fresh] in *; repeat case_decide; try done.
  - injection Hs as <-. apply Forall_cons in Hx as [Hx _]. eexists. by apply slist_insert_head.
  - injection Hs as <-. destruct_and!. apply Forall_cons in Hx as [Hx _].
    match goal with Hy : slistelm ∈ l |- _ => apply list_elem_of_split in Hy as (l1 & l2 & ->) end. rewrite subst_at_split by done.
    destruct (slist_insert_after head m l1 slistelm l2 elm) as (m' & -> & H' & Hfr); [done..|]. eexists head, m'.
    split; [done|]. split; [done|]. eapply frame_sub; [done|set_solver].
  - apply drop_after_split in Hs as (l1 & x & l2 & -> & ->).
    destruct (slist_remove_after head m l1 elm x l2 H) as (m' & -> & H' & Hfr). by exists head, m'.
  - destruct l as [|a l]; [done|]. injection Hs as <-. destruct (slist_remove_head head m a l H) as (head' & -> & H'). by exists head', m.
  - injection Hs as <-. match goal with Hy : elm ∈ l |- _ => apply list_elem_of_split in Hy as (l1 & l2 & ->) end.
    rewrite subst_at_split by done. apply slist_remove; [done|]. rewrite length_app in Hf. lia.
Qed.

Lemma spec_length o l l' : spec o l = Some l' -> NoDup l -> (length l' <= length l + length (fresh o))%nat.
Proof.
  intros Hs HN. destruct o; cbn [spec fresh] in *; repeat case_decide; try done.
  - injection Hs as <-. simpl. lia.
  - injection Hs as <-. destruct_and!. match goal with Hy : slistelm ∈ l |- _ => apply list_elem_of_split in Hy as (l1 & l2 & ->) end.
    rewrite subst_at_split, !length_app by done. simpl. lia.
  - apply drop_after_split in Hs as (l1 & x & l2 & -> & ->). rewrite !length_app. simpl. lia.
  - destruct l; [done|]. injection Hs as <-. simpl. lia.
  - injection Hs as <-. match goal with Hy : elm ∈ l |- _ => apply list_elem_of_split in Hy as (l1 & l2 & ->) end.
    rewrite subst_at_split, !length_app by done. simpl. lia.
Qed.

Lemma slist_spec_sub o l l' D : spec o l = Some l' -> l ⊆ D /\ fresh o ⊆ D -> l' ⊆ D.
Proof.
  intros Hs [Hl Hx]. destruct o; cbn [spec fresh] in *; repeat case_decide; try done.
  - injection Hs as <-. set_solver.
  - injection Hs as <-. destruct_and!. intros a Ha%subst_at_sub. set_solver.
  - apply drop_after_split in Hs as (l1 & x & l2 & -> & ->). set_solver.
  - destruct l; [done|]. injection Hs as <-. set_solver.
  - injection Hs as <-. intros a Ha%subst_at_sub. set_solver.
Qed.

(** Singly-linked lists refine lists: operations that are defined on the list, on linked
    elements for positions and unlinked ones for insertions, follow no wild pointer, make
    the list they should and touch no other link than those of their own elements;
    iterating visits the list in order. *)
Theorem slist_refines D fuel ops head m l l' :
  is_slist head m l -> Forall (fun x => is_Some (m !! x)) D -> l ⊆ D -> (ops ≫= fresh) ⊆ D ->
  (length l + length (ops ≫= fresh) <= fuel)%nat -> specs ops l = Some l' ->
  exists head' m', runs fuel ops (head, m) = Some (head', m') /\ is_slist head' m' l' /\ frame D m m' /\
    SLIST_FIRST head' = hd_error l' /\ SLIST_EMPTY head' = bool_decide (l' = []) /\
    SLIST_FOREACH (length l') m' (SLIST_FIRST head') = Some l' /\
    (forall l1 y l2, l' = l1 ++ y :: l2 -> SLIST_NEXT m' y = Some (hd_error l2)).
Proof.
  revert head m l. induction ops as [|o ops IH]; intros head m l H HD Hl Hx Hf Hs.
  - injection Hs as <-. exists head, m. pose proof H as (-> & Hc & _). split_and!; [done..|by destruct l|by apply slist_foreach|].
    intros l1 y l2 ->. apply chain_app in Hc as [_ [Hy _]]. unfold SLIST_NEXT. rewrite Hy. by destruct l2.
  - cbn [specs] in Hs. apply bind_Some in Hs as (l1 & Ho & Hs). cbn [mbind list_bind] in Hx, Hf. rewrite length_app in Hf.
    pose proof (spec_length _ _ _ Ho ltac:(apply H)) as Hlen.
    destruct (slist_run_spec fuel o head m l l1) as (head1 & m1 & E & H1 & Hfr); [done|done| |lia|].
    { rewrite Forall_forall in HD |- *. intros x Hin. apply HD, Hx. apply elem_of_app. by left. }
    cbn [runs]. rewrite E. cbn [mbind option_bind].
    assert (l1 ⊆ D) as Hl1 by (eapply (slist_spec_sub o l); [done|]; set_solver).
    destruct (IH head1 m1 l1) as (head2 & m2 & -> & H2 & Hfr2 & Hobs); [done| |done|set_solver|lia|done|].
    { rewrite Forall_forall in HD |- *. intros x Hin. destruct (decide (x ∈ l1)); [by eapply slist_member|]. rewrite Hfr by done. by apply HD. }
    exists head2, m2. split; [done|]. split; [done|]. split; [|done].
    intros a Ha. rewrite Hfr2 by done. apply Hfr. intros Hin. by apply Ha, Hl1.
Qed.

Lemma slist_refines_witness :
  exists head m, runs 4 [InsertHead 1; InsertAfter 1 2; InsertHead 3; Remove 1; RemoveAfter 3] (SLIST_INIT, {[1 := None; 2 := None; 3 := None]}) = Some (head, m) /\
    is_slist head m [3].
Proof.
  destruct (slist_refines [1; 2; 3] 4 [InsertHead 1; InsertAfter 1 2; InsertHead 3; Remove 1; RemoveAfter 3] None {[1 := None; 2 := None; 3 := None]} [] [3])
    as (head & m & E & H & _); [by split; [|split; [|constructor]]|by apply (bool_decide_unpack _); vm_compute|set_solver|simpl; set_solver|simpl; lia|done|].
  exists head, m. by split.
Defined.

End Slist.

(** ** Tail queues *)

Module Tailq.

(** The address of a pointer to an element: [&(head)->tqh_first] or [&(elm)->field.tqe_next]. *)
Inductive slot := Head | NextOf (a : Z).

Record entry := { tqe_next : option Z; tqe_prev : slot }.
Record tailq := { tqh_first : option Z; tqh_last : slot }.
Abbreviation links := (gmap Z entry).

Definition set_first (v : option Z) (h : tailq) : tailq := {| tqh_first := v; tqh_last := tqh_last h |}.
Definition set_last (v : slot) (h : tailq) : tailq := {| tqh_first := tqh_first h; tqh_last := v |}.

(** Writes to the members of an element. *)
Definition set_next (a : Z) (v : option Z) (m : links) : option links :=
  e ← m !! a; Some (<[a := {| tqe_next := v; tqe_prev := tqe_prev e |}]> m).
Definition set_prev (a : Z) (v : slot) (m : links) : option links :=
  e ← m !! a; Some (<[a := {| tqe_next := tqe_next e; tqe_prev := v |}]> m).

(** [*p], and [*p = v]. *)
Definition load (h : tailq) (m : links) (p : slot) : option (option Z) :=
  match p with Head => Some (tqh_first h) | NextOf a => e ← m !! a; Some (tqe_next e) end.
Definition store (h : tailq) (m : links) (p : slot) (v : option Z) : option (tailq * links) :=
  match p with Head => Some (set_first v h, m) | NextOf a => m ← set_next a v m; Some (h, m) end.

(** [((struct headname * )p)->tqh_last]: the member behind the pointer at [p]. *)
Definition behind (h : tailq) (m : links) (p : slot) : option slot :=
  match p with Head => Some (tqh_last h) | NextOf a => e ← m !! a; Some (tqe_prev e) end.

Definition TAILQ_INIT : tailq := {| tqh_first := None; tqh_last := Head |}.
Definition TAILQ_FIRST (h : tailq) : option Z := tqh_first h.
Definition TAILQ_NEXT (m : links) (elm : Z) : option (option Z) := e ← m !! elm; Some (tqe_next e).
Definition TAILQ_LAST (h : tailq) (m : links) : option (option Z) := p ← behind h m (tqh_last h); load h m p.
Definition TAILQ_PREV (h : tailq) (m : links) (elm : Z) : option (option Z) :=
  e ← m !! elm; p ← behind h m (tqe_prev e); load h m p.
Definition TAILQ_EMPTY (h : tailq) : bool := match TAILQ_FIRST h with None => true | Some _ => false end.

(** The element behind [elm] gets to know its new predecessor, or the head its new end. *)
Definition link_back (h : tailq) (m : links) (next : option Z) (p : slot) : option (tailq * links) :=
  match next with
  | Some n => m ← set_prev n p m; Some (h, m)
  | None => Some (set_last p h, m)
  end.

Definition TAILQ_INSERT_HEAD (h : tailq) (m : links) (elm : Z) : option (tailq * links) :=
  m ← set_next elm (tqh_first h) m;
  '(h, m) ← link_back h m (tqh_first h) (NextOf elm);
  let h := set_first (Some elm) h in
  m ← set_prev elm Head m;
  Some (h, m).

Definition TAILQ_INSERT_TAIL (h : tailq) (m : links) (elm : Z) : option (tailq * links) :=
  m ← set_next elm None m;
  m ← set_prev elm (tqh_last h) m;
  '(h, m) ← store h m (tqh_last h) (Some elm);
  Some (set_last (NextOf elm) h, m).

Definition TAILQ_INSERT_AFTER (h : tailq) (m : links) (listelm elm : Z) : option (tailq * links) :=
  next ← TAILQ_NEXT m listelm;
  m ← set_next elm next m;
  '(h, m) ← link_back h m next (NextOf elm);
  m ← set_next listelm (Some elm) m;
  m ← set_prev elm (NextOf listelm) m;
  Some (h, m).

Definition TAILQ_INSERT_BEFORE (h : tailq) (m : links) (listelm elm : Z) : option (tailq * links) :=
  e ← m !! listelm;
  m ← set_prev elm (tqe_prev e) m;
  m ← set_next elm (Some listelm) m;
  e ← m !! listelm;
  '(h, m) ← store h m (tqe_prev e) (Some elm);
  m ← set_prev listelm (NextOf elm) m;
  Some (h, m).

Definition TAILQ_REMOVE (h : tailq) (m : links) (elm : Z) : option (tailq * links) :=
  e ← m !! elm;
  '(h, m) ← link_back h m (tqe_next e) (tqe_prev e);
  e ← m !! elm;
  store h m (tqe_prev e) (tqe_next e).

Definition TAILQ_REPLACE (h : tailq) (m : links) (elm elm2 : Z) : option (tailq * links) :=
  next ← TAILQ_NEXT m elm;
  m ← set_next elm2 next m;
  '(h, m) ← link_back h m next (NextOf elm2);
  e ← m !! elm;
  m ← set_prev elm2 (tqe_prev e) m;
  store h m (tqe_prev e) (Some elm2).

(** The elements [TAILQ_FOREACH] and [TAILQ_FOREACH_REVERSE] visit from [var] on. *)
Fixpoint TAILQ_FOREACH (fuel : nat) (m : links) (var : option Z) : option (list Z) :=
  match var, fuel with
  | None, _ => Some []
  | Some _, O => None
  | Some a, S fuel => next ← TAILQ_NEXT m a; l ← TAILQ_FOREACH fuel m next; Some (a :: l)
  end.
Fixpoint TAILQ_FOREACH_REVERSE (fuel : nat) (h : tailq) (m : links) (var : option Z) : option (list Z) :=
  match var, fuel with
  | None, _ => Some []
  | Some _, O => None
  | Some a, S fuel => prev ← TAILQ_PREV h m a; l ← TAILQ_FOREACH_REVERSE fuel h m prev; Some (a :: l)
  end.

(** [TAILQ_FOREACH_SAFE] and [TAILQ_FOREACH_REVERSE_SAFE]: the neighbour is read before the body
    runs. *)
Fixpoint TAILQ_FOREACH_SAFE (fuel : nat) (body : Z -> tailq * links -> option (tailq * links)) (var : option Z) (s : tailq * links) : option (tailq * links) :=
  match var, fuel with
  | None, _ => Some s
  | Some _, O => None
  | Some a, S fuel => tvar ← TAILQ_NEXT s.2 a; s ← body a s; TAILQ_FOREACH_SAFE fuel body tvar s
  end.
Fixpoint TAILQ_FOREACH_REVERSE_SAFE (fuel : nat) (body : Z -> tailq * links -> option (tailq * links)) (var : option Z) (s : tailq * links) : option (tailq * links) :=
  match var, fuel with
  | None, _ => Some s
  | Some _, O => None
  | Some a, S fuel => tvar ← TAILQ_PREV s.1 s.2 a; s ← body a s; TAILQ_FOREACH_REVERSE_SAFE fuel body tvar s
  end.

(** *** Queues as lists *)

(** The slot behind the elements [l] that are linked from [p]. *)
Fixpoint end_of (p : slot) (l : list Z) : slot :=
  match l with [] => p | a :: l => end_of (NextOf a) l end.

(** Elements linked from [p]; the last one links to [nxt]. *)
Fixpoint seg (m : links) (p : slot) (l : list Z) (nxt : option Z) : Prop :=
  match l with
  | [] => True
  | a :: l => m !! a = Some {| tqe_next := hd_or l nxt; tqe_prev := p |} /\ seg m (NextOf a) l nxt
  end.

Record is_tailq (h : tailq) (m : links) (l : list Z) : Prop := {
  tq_first : tqh_first h = hd_error l;
  tq_last : tqh_last h = end_of Head l;
  tq_seg : seg m Head l None;
  tq_NoDup : NoDup l;
}.

Lemma end_of_app p l r : end_of p (l ++ r) = end_of (end_of p l) r.
Proof. revert p. induction l as [|a l IH]; intros p; simpl; [done|apply IH]. Qed.

Lemma hd_or_app l r nxt : hd_or (l ++ r) nxt = hd_or l (hd_or r nxt).
Proof. by destruct l. Qed.

Lemma seg_app m p l r nxt : seg m p (l ++ r) nxt <-> seg m p l (hd_or r nxt) /\ seg m (end_of p l) r nxt.
Proof.
  revert p. induction l as [|a l IH]; intros p; simpl; [tauto|]. rewrite IH, hd_or_app. tauto.
Qed.

Lemma seg_frame m a e p l nxt : a ∉ l -> seg m p l nxt -> seg (<[a := e]> m) p l nxt.
Proof.
  revert p. induction l as [|b l IH]; intros p Ha; simpl; [done|]. apply not_elem_of_cons in Ha as [Hab Ha].
  rewrite lookup_insert_ne by done. intros [Hb Hl]. split; [done|by apply IH].
Qed.

(** The end of a list is its start or in it. *)
Lemma end_of_in p l : end_of p l = p /\ l = [] \/ exists l' a, l = l' ++ [a] /\ end_of p l = NextOf a.
Proof.
  destruct l as [|a l' _] using rev_ind; [by left|]. right. exists l', a. by rewrite end_of_app.
Qed.

(** The end of the front part points to what follows. *)
Lemma load_behind h m l r : tqh_first h = hd_error (l ++ r) -> seg m Head (l ++ r) None -> load h m (end_of Head l) = Some (hd_or r None).
Proof.
  intros Hf Hs. destruct (end_of_in Head l) as [[-> ->]|(l' & a & -> & ->)]; simpl.
  - rewrite Hf. by destruct r.
  - rewrite <- app_assoc in Hs. apply seg_app in Hs as [_ [Ha _]]. by rewrite Ha.
Qed.

(** A write through the end of the front part. *)
Lemma store_behind h m l r v :
  tqh_first h = hd_error (l ++ r) -> seg m Head l (hd_or r None) -> NoDup l ->
  exists h' m', store h m (end_of Head l) v = Some (h', m') /\ tqh_first h' = hd_or l v /\ tqh_last h' = tqh_last h /\
    seg m' Head l v /\ frame l m m'.
Proof.
  intros Hf Hs HN. destruct (end_of_in Head l) as [[-> ->]|(l' & a & -> & ->)]; cbn [store].
  - exists (set_first v h), m. done.
  - apply seg_app in Hs as [Hs [Ha _]]. unfold set_next. rewrite Ha. cbn [mbind option_bind]. eexists h, _.
    apply NoDup_app in HN as (HN & Hd & _). assert (a ∉ l') as Hal by (intros H; apply (Hd a H); left).
    split_and!; [done|rewrite Hf; by destruct l'|done| |apply frame_insert; [done|set_solver]].
    apply seg_app. split; [by apply seg_frame|]. simpl. by rewrite lookup_insert_eq.
Qed.

(** Linking back to a new end. *)
Lemma link_back_spec h m p r q :
  seg m p r None -> NoDup r -> tqh_last h = end_of p r ->
  exists h' m', link_back h m (hd_or r None) q = Some (h', m') /\ tqh_first h' = tqh_first h /\ tqh_last h' = end_of q r /\
    seg m' q r None /\ frame r m m'.
Proof.
  intros Hs HN Hl. destruct r as [|b r]; simpl.
  - exists (set_last q h), m. done.
  - destruct Hs as [Hb Hs]. unfold set_prev. rewrite Hb. cbn [mbind option_bind tqe_next]. eexists h, _.
    apply NoDup_cons in HN as [HN _]. split_and!; [done|done|done|by rewrite lookup_insert_eq|by apply seg_frame|].
    apply frame_insert; [done|left].
Qed.

Lemma seg_same m m' f p l nxt : frame f m m' -> l ## f -> seg m p l nxt -> seg m' p l nxt.
Proof.
  intros Hfr. revert p. induction l as [|a l IH]; intros p Hd; [done|]. intros [Ha Hl].
  split; [rewrite Hfr; [done|set_solver]|apply IH; [set_solver|done]].
Qed.

(** The parts of a queue around a position. *)
Lemma tailq_split h m l r :
  is_tailq h m (l ++ r) <->
  tqh_first h = hd_or l (hd_or r None) /\ tqh_last h = end_of (end_of Head l) r /\
  seg m Head l (hd_or r None) /\ seg m (end_of Head l) r None /\ NoDup (l ++ r).
Proof.
  assert (hd_error (l ++ r) = hd_or l (hd_or r None)) as E by (destruct l; [by destruct r|done]).
  split.
  - intros [Hf Hl Hs HN]. rewrite E in Hf. rewrite end_of_app in Hl. by apply seg_app in Hs as [? ?].
  - intros (Hf & Hl & H1 & H2 & HN). constructor; [by rewrite E|by rewrite end_of_app|by apply seg_app|done].
Qed.

Lemma first_split h m l r : is_tailq h m (l ++ r) -> tqh_first h = hd_error (l ++ r).
Proof. by intros []. Qed.

(** What the members of an element hold. *)
Lemma tailq_entry h m l y r : is_tailq h m (l ++ y :: r) -> m !! y = Some {| tqe_next := hd_or r None; tqe_prev := end_of Head l |}.
Proof. intros (_ & _ & _ & [Hy _] & _)%tailq_split. done. Qed.

Lemma set_next_eq a v m e : m !! a = Some e -> set_next a v m = Some (<[a := {| tqe_next := v; tqe_prev := tqe_prev e |}]> m).
Proof. intros H. unfold set_next. by rewrite H. Qed.

Lemma set_prev_eq a v m e : m !! a = Some e -> set_prev a v m = Some (<[a := {| tqe_next := tqe_next e; tqe_prev := v |}]> m).
Proof. intros H. unfold set_prev. by rewrite H. Qed.

Lemma tailq_insert_tail h m l x :
  is_tailq h m l -> is_Some (m !! x) -> x ∉ l ->
  exists h' m', TAILQ_INSERT_TAIL h m x = Some (h', m') /\ is_tailq h' m' (l ++ [x]) /\ frame (x :: l) m m'.
Proof.
  intros [Hf Hl Hs HN] [e Hx] Hni. unfold TAILQ_INSERT_TAIL. rewrite (set_next_eq x None m e Hx). cbn [mbind option_bind].
  erewrite set_prev_eq by apply lookup_insert_eq. cbn [mbind option_bind tqe_next]. rewrite Hl.
  set (m2 := <[x := _]> _).
  assert (frame [x] m m2) as Hfr by (repeat (apply frame_insert; [|left]); done).
  destruct (store_behind h m2 l [] (Some x)) as (h' & m' & -> & Hf' & Hl' & Hs' & Hfr').
  - by rewrite app_nil_r.
  - eapply seg_same; [done|set_solver|done].
  - done.
  - cbn [mbind option_bind]. eexists _, m'. split; [done|]. split; [|apply (frame_trans [x] l _ m2); done].
    apply tailq_split. split; [done|]. split; [done|]. split; [done|]. split.
    + split; [|done]. rewrite Hfr' by done. unfold m2. by rewrite lookup_insert_eq.
    + apply NoDup_app. split; [done|]. split; [set_solver|apply NoDup_singleton].
Qed.

Lemma tailq_insert_head h m l x :
  is_tailq h m l -> is_Some (m !! x) -> x ∉ l ->
  exists h' m', TAILQ_INSERT_HEAD h m x = Some (h', m') /\ is_tailq h' m' (x :: l) /\ frame (x :: l) m m'.
Proof.
  intros [Hf Hl Hs HN] [e Hx] Hni. unfold TAILQ_INSERT_HEAD. rewrite (set_next_eq _ _ m e Hx). cbn [mbind option_bind].
  set (m1 := <[x := _]> _). assert (frame [x] m m1) as Hfr by (apply frame_insert; [done|left]).
  assert (tqh_first h = hd_or l None) as Hf0 by (rewrite Hf; by destruct l). rewrite Hf0.
  destruct (link_back_spec h m1 Head l (NextOf x)) as (h' & m' & -> & Hf' & Hl' & Hs' & Hfr'); [|done|done|].
  { eapply seg_same; [done|set_solver|done]. }
  cbn [mbind option_bind].
  assert (m' !! x = Some {| tqe_next := hd_or l None; tqe_prev := tqe_prev e |}) as Hx'.
  { rewrite Hfr' by done. unfold m1. by rewrite lookup_insert_eq, Hf0. }
  rewrite (set_prev_eq _ _ _ _ Hx'). cbn [mbind option_bind tqe_next]. eexists _, _. split; [done|]. split.
  - constructor; [done|done| |by constructor]. split; [by rewrite lookup_insert_eq|by apply seg_frame].
  - apply frame_insert; [|left]. apply (frame_trans [x] l _ m1); done.
Qed.

Lemma tailq_insert_after h m l1 y l2 x :
  is_tailq h m (l1 ++ y :: l2) -> is_Some (m !! x) -> x ∉ l1 ++ y :: l2 ->
  exists h' m', TAILQ_INSERT_AFTER h m y x = Some (h', m') /\ is_tailq h' m' (l1 ++ y :: x :: l2) /\ frame (x :: l1 ++ y :: l2) m m'.
Proof.
  intros H [e Hx] Hni. apply tailq_split in H as (Hf & Hl & Hs & [Hy Hs2] & HN).
  apply NoDup_app in HN as (HN1 & Hd & [Hy2 HN2]%NoDup_cons). assert (x <> y) as Hxy by set_solver.
  unfold TAILQ_INSERT_AFTER, TAILQ_NEXT. rewrite Hy. cbn [mbind option_bind tqe_next]. rewrite (set_next_eq _ _ m e Hx). cbn [mbind option_bind].
  set (m1 := <[x := _]> _). assert (frame [x] m m1) as Hfr by (apply frame_insert; [done|left]).
  destruct (link_back_spec h m1 (NextOf y) l2 (NextOf x)) as (h' & m' & -> & Hf' & Hl' & Hs' & Hfr'); [|done|done|].
  { eapply seg_same; [done|set_solver|done]. }
  cbn [mbind option_bind].
  assert (m' !! y = Some {| tqe_next := hd_or l2 None; tqe_prev := end_of Head l1 |}) as Hy'.
  { by rewrite Hfr', Hfr by set_solver. }
  rewrite (set_next_eq _ _ _ _ Hy'). cbn [mbind option_bind tqe_prev].
  assert (<[y := {| tqe_next := Some x; tqe_prev := end_of Head l1 |}]> m' !! x = Some {| tqe_next := hd_or l2 None; tqe_prev := tqe_prev e |}) as Hx'.
  { rewrite lookup_insert_ne, Hfr' by set_solver. unfold m1. by rewrite lookup_insert_eq. }
  rewrite (set_prev_eq _ _ _ _ Hx'). cbn [mbind option_bind tqe_next]. set (m2 := <[x := _]> _).
  assert (frame (x :: y :: l2) m m2) as Hfr2.
  { do 2 (apply frame_insert; [|set_solver]). eapply frame_sub; [eapply frame_trans; done|set_solver]. }
  eexists h', m2. split; [done|]. split; [|eapply frame_sub; [done|set_solver]].
  apply tailq_split. split; [rewrite Hf'; by rewrite Hf|]. split; [done|]. split; [|split].
  - eapply seg_same; [done|set_solver|done].
  - split; [|split].
    + unfold m2. by rewrite lookup_insert_ne, lookup_insert_eq by done.
    + unfold m2. by rewrite lookup_insert_eq.
    + unfold m2. do 2 (apply seg_frame; [set_solver|]). done.
  - apply NoDup_app. split; [done|]. split; [set_solver|]. repeat (constructor; [set_solver|]). done.
Qed.

Lemma tailq_insert_before h m l1 y l2 x :
  is_tailq h m (l1 ++ y :: l2) -> is_Some (m !! x) -> x ∉ l1 ++ y :: l2 ->
  exists h' m', TAILQ_INSERT_BEFORE h m y x = Some (h', m') /\ is_tailq h' m' (l1 ++ x :: y :: l2) /\ frame (x :: l1 ++ y :: l2) m m'.
Proof.
  intros H [e Hx] Hni. pose proof (first_split _ _ _ _ H) as Hf0. apply tailq_split in H as (Hf & Hl & Hs & [Hy Hs2] & HN).
  apply NoDup_app in HN as (HN1 & Hd & [Hy2 HN2]%NoDup_cons). assert (x <> y) as Hxy by set_solver.
  assert (y ∉ l1) as Hy1 by (intros Hin; apply (Hd y Hin); left).
  unfold TAILQ_INSERT_BEFORE. rewrite Hy. cbn [mbind option_bind tqe_prev]. rewrite (set_prev_eq _ _ m e Hx). cbn [mbind option_bind].
  erewrite set_next_eq by apply lookup_insert_eq. cbn [mbind option_bind tqe_prev]. set (m1 := <[x := _]> (<[x := _]> m)).
  assert (frame [x] m m1) as Hfr by (repeat (apply frame_insert; [|left]); done).
  assert (m1 !! y = Some {| tqe_next := hd_or l2 None; tqe_prev := end_of Head l1 |}) as Hy' by (by rewrite Hfr by set_solver).
  rewrite Hy'. cbn [mbind option_bind tqe_prev].
  destruct (store_behind h m1 l1 (y :: l2) (Some x)) as (h' & m' & -> & Hf' & Hl' & Hs' & Hfr'); [done| |done|].
  { eapply seg_same; [done|set_solver|done]. }
  cbn [mbind option_bind].
  assert (m' !! y = Some {| tqe_next := hd_or l2 None; tqe_prev := end_of Head l1 |}) as Hy'' by (by rewrite Hfr').
  rewrite (set_prev_eq _ _ _ _ Hy''). cbn [mbind option_bind tqe_next]. set (m2 := <[y := _]> _).
  assert (frame (y :: x :: l1) m m2) as Hfr2.
  { apply frame_insert; [|left]. eapply frame_sub; [eapply frame_trans; done|set_solver]. }
  eexists h', m2. split; [done|]. split; [|eapply frame_sub; [done|set_solver]].
  apply tailq_split. split; [done|]. split; [by rewrite Hl', Hl|]. split; [|split].
  - by apply seg_frame.
  - split; [|split].
    + unfold m2. rewrite lookup_insert_ne, Hfr' by (done || set_solver). unfold m1. by rewrite lookup_insert_eq.
    + unfold m2. by rewrite lookup_insert_eq.
    + eapply seg_same; [exact Hfr2|set_solver|done].
  - apply NoDup_app. split; [done|]. split; [set_solver|]. repeat (constructor; [set_solver|]). done.
Qed.

Lemma tailq_remove h m l1 x l2 :
  is_tailq h m (l1 ++ x :: l2) ->
  exists h' m', TAILQ_REMOVE h m x = Some (h', m') /\ is_tailq h' m' (l1 ++ l2) /\ frame (l1 ++ l2) m m'.
Proof.
  intros H. pose proof (first_split _ _ _ _ H) as Hf0. apply tailq_split in H as (Hf & Hl & Hs & [Hx Hs2] & HN).
  apply NoDup_app in HN as (HN1 & Hd & [Hx2 HN2]%NoDup_cons).
  assert (x ∉ l1) as Hx1 by (intros Hin; apply (Hd x Hin); left).
  unfold TAILQ_REMOVE. rewrite Hx. cbn [mbind option_bind tqe_prev tqe_next].
  destruct (link_back_spec h m (NextOf x) l2 (end_of Head l1)) as (h1 & m1 & -> & Hf1 & Hl1 & Hs1 & Hfr1); [done|done|done|].
  cbn [mbind option_bind]. rewrite Hfr1, Hx by done. cbn [mbind option_bind tqe_prev tqe_next].
  destruct (store_behind h1 m1 l1 (x :: l2) (hd_or l2 None)) as (h' & m' & -> & Hf' & Hl' & Hs' & Hfr'); [by rewrite Hf1| |done|].
  { eapply seg_same; [done|set_solver|done]. }
  eexists h', m'. split; [done|]. split; [|eapply frame_sub; [eapply frame_trans; done|set_solver]].
  apply tailq_split. split; [done|]. split; [by rewrite Hl'|]. split; [done|]. split.
  - eapply seg_same; [done|set_solver|done].
  - apply NoDup_app. split; [done|]. split; [set_solver|done].
Qed.

Lemma tailq_replace h m l1 x l2 x2 :
  is_tailq h m (l1 ++ x :: l2) -> is_Some (m !! x2) -> x2 ∉ l1 ++ x :: l2 ->
  exists h' m', TAILQ_REPLACE h m x x2 = Some (h', m') /\ is_tailq h' m' (l1 ++ x2 :: l2) /\ frame (x2 :: l1 ++ l2) m m'.
Proof.
  intros H [e Hx2] Hni. pose proof (first_split _ _ _ _ H) as Hf0. apply tailq_split in H as (Hf & Hl & Hs & [Hx Hs2] & HN).
  apply NoDup_app in HN as (HN1 & Hd & [Hxl HN2]%NoDup_cons).
  unfold TAILQ_REPLACE, TAILQ_NEXT. rewrite Hx. cbn [mbind option_bind tqe_prev tqe_next].
  rewrite (set_next_eq _ _ m e Hx2). cbn [mbind option_bind]. set (m1 := <[x2 := _]> _).
  assert (frame [x2] m m1) as Hfr by (apply frame_insert; [done|left]).
  destruct (link_back_spec h m1 (NextOf x) l2 (NextOf x2)) as (h2 & m2 & -> & Hf2 & Hl2 & Hs2' & Hfr2); [|done|done|].
  { eapply seg_same; [done|set_solver|done]. }
  cbn [mbind option_bind]. rewrite Hfr2, Hfr, Hx by set_solver. cbn [mbind option_bind tqe_prev].
  assert (m2 !! x2 = Some {| tqe_next := hd_or l2 None; tqe_prev := tqe_prev e |}) as Hx2'.
  { rewrite Hfr2 by set_solver. unfold m1. by rewrite lookup_insert_eq. }
  rewrite (set_prev_eq _ _ _ _ Hx2'). cbn [mbind option_bind tqe_next]. set (m3 := <[x2 := _]> _).
  assert (frame (x2 :: l2) m m3) as Hfr3 by (apply frame_insert; [eapply (frame_trans [x2] l2); done|left]).
  destruct (store_behind h2 m3 l1 (x :: l2) (Some x2)) as (h' & m' & -> & Hf' & Hl' & Hs' & Hfr'); [by rewrite Hf2| |done|].
  { eapply seg_same; [done|set_solver|done]. }
  eexists h', m'. split; [done|]. split; [|eapply frame_sub; [eapply frame_trans; done|set_solver]].
  apply tailq_split. split; [done|]. split; [by rewrite Hl'|]. split; [done|]. split.
  - split; [rewrite Hfr' by set_solver; unfold m3; by rewrite lookup_insert_eq|].
    eapply seg_same; [done|set_solver|]. apply seg_frame; [set_solver|done].
  - apply NoDup_app. split; [done|]. split; [set_solver|]. constructor; [set_solver|done].
Qed.

(** The element in front of the slot [end_of Head l]. *)
Lemma behind_end h m l r :
  is_tailq h m (l ++ r) -> (p ← behind h m (end_of Head l); load h m p) = Some (last l).
Proof.
  intros H. destruct (end_of_in Head l) as [[-> ->]|(l' & a & -> & ->)]; cbn [behind mbind option_bind].
  - destruct H as [Hf Hl Hs HN]. rewrite Hl. by apply (load_behind h m r []); rewrite app_nil_r.
  - rewrite <- app_assoc in H. rewrite (tailq_entry _ _ _ _ _ H). cbn [mbind option_bind tqe_prev].
    rewrite (load_behind h m l' ([a] ++ r)); [by rewrite last_snoc|by apply first_split in H|apply H].
Qed.

Lemma tailq_last h m l : is_tailq h m l -> TAILQ_LAST h m = Some (last l).
Proof. intros H. unfold TAILQ_LAST. rewrite (tq_last _ _ _ H). apply (behind_end h m l []). by rewrite app_nil_r. Qed.

Lemma tailq_prev h m l y r : is_tailq h m (l ++ y :: r) -> TAILQ_PREV h m y = Some (last l).
Proof.
  intros H. unfold TAILQ_PREV. rewrite (tailq_entry _ _ _ _ _ H). cbn [mbind option_bind tqe_prev]. by apply (behind_end h m l (y :: r)).
Qed.

Lemma tailq_next h m l y r : is_tailq h m (l ++ y :: r) -> TAILQ_NEXT m y = Some (hd_error r).
Proof. intros H. unfold TAILQ_NEXT. rewrite (tailq_entry _ _ _ _ _ H). simpl. by destruct r. Qed.

Lemma tailq_foreach h m l r : is_tailq h m (l ++ r) -> TAILQ_FOREACH (length r) m (hd_error r) = Some r.
Proof.
  revert l. induction r as [|a r IH]; intros l H; [done|]. cbn [hd_error length TAILQ_FOREACH].
  rewrite (tailq_next _ _ _ _ _ H). cbn [mbind option_bind]. rewrite (IH (l ++ [a])); [done|]. by rewrite <- app_assoc.
Qed.

Lemma tailq_foreach_reverse h m l r : is_tailq h m (l ++ r) -> TAILQ_FOREACH_REVERSE (length l) h m (last l) = Some (reverse l).
Proof.
  revert r. induction l as [|a l IH] using rev_ind; intros r H; [done|]. rewrite last_snoc, length_app, Nat.add_comm. cbn [length Nat.add TAILQ_FOREACH_REVERSE].
  rewrite <- app_assoc in H. rewrite (tailq_prev _ _ _ _ _ H). cbn [mbind option_bind]. rewrite (IH _ H). cbn [mbind option_bind].
  by rewrite reverse_app.
Qed.

(** Elements are removed while the queue is iterated, in either direction. *)
Lemma tailq_drain h m l :
  is_tailq h m l ->
  exists h' m', TAILQ_FOREACH_SAFE (length l) (fun a s => TAILQ_REMOVE s.1 s.2 a) (hd_error l) (h, m) = Some (h', m') /\ is_tailq h' m' [].
Proof.
  revert h m. induction l as [|a l IH]; intros h m H; [by exists h, m|]. cbn [hd_error length TAILQ_FOREACH_SAFE fst snd].
  rewrite (tailq_next h m [] a l H). cbn [mbind option_bind].
  destruct (tailq_remove h m [] a l H) as (h' & m' & -> & H' & _). cbn [mbind option_bind]. by apply IH.
Qed.

Lemma tailq_drain_reverse h m l :
  is_tailq h m l ->
  exists h' m', TAILQ_FOREACH_REVERSE_SAFE (length l) (fun a s => TAILQ_REMOVE s.1 s.2 a) (last l) (h, m) = Some (h', m') /\ is_tailq h' m' [].
Proof.
  revert h m. induction l as [|a l IH] using rev_ind; intros h m H; [by exists h, m|].
  rewrite last_snoc, length_app, Nat.add_comm. cbn [length Nat.add TAILQ_FOREACH_REVERSE_SAFE fst snd].
  rewrite (tailq_prev h m l a [] H). cbn [mbind option_bind].
  destruct (tailq_remove h m l a [] H) as (h' & m' & -> & H' & _). cbn [mbind option_bind]. apply IH. by rewrite app_nil_r in H'.
Qed.

Lemma tailq_member h m l a : is_tailq h m l -> a ∈ l -> is_Some (m !! a).
Proof. intros H (l1 & l2 & ->)%list_elem_of_split. rewrite (tailq_entry _ _ _ _ _ H). by eexists. Qed.

(** The operations on a queue, and the list they make of it. *)
Inductive op :=
  | InsertHead (elm : Z) | InsertTail (elm : Z) | InsertAfter (listelm elm : Z) | InsertBefore (listelm elm : Z)
  | Remove (elm : Z) | Replace (elm elm2 : Z).

Definition run (o : op) (s : tailq * links) : option (tailq * links) :=
  let '(h, m) := s in
  match o with
  | InsertHead elm => TAILQ_INSERT_HEAD h m elm
  | InsertTail elm => TAILQ_INSERT_TAIL h m elm
  | InsertAfter listelm elm => TAILQ_INSERT_AFTER h m listelm elm
  | InsertBefore listelm elm => TAILQ_INSERT_BEFORE h m listelm elm
  | Remove elm => TAILQ_REMOVE h m elm
  | Replace elm elm2 => TAILQ_REPLACE h m elm elm2
  end.

Fixpoint runs (ops : list op) (s : tailq * links) : option (tailq * links) :=
  match ops with [] => Some s | o :: ops => s ← run o s; runs ops s end.

Definition spec (o : op) (l : list Z) : option (list Z) :=
  match o with
  | InsertHead elm => if decide (elm ∉ l) then Some (elm :: l) else None
  | InsertTail elm => if decide (elm ∉ l) then Some (l ++ [elm]) else None
  | InsertAfter y elm => if decide (y ∈ l /\ elm ∉ l) then Some (subst_at y [y; elm] l) else None
  | InsertBefore y elm => if decide (y ∈ l /\ elm ∉ l) then Some (subst_at y [elm; y] l) else None
  | Remove elm => if decide (elm ∈ l) then Some (subst_at elm [] l) else None
  | Replace elm elm2 => if decide (elm ∈ l /\ elm2 ∉ l) then Some (subst_at elm [elm2] l) else None
  end.

Fixpoint specs (ops : list op) (l : list Z) : option (list Z) :=
  match ops with [] => Some l | o :: ops => l ← spec o l; specs ops l end.

(** The elements an operation links. *)
Definition fresh (o : op) : list Z :=
  match o with
  | InsertHead elm | InsertTail elm | InsertAfter _ elm | InsertBefore _ elm | Replace _ elm => [elm]
  | Remove _ => []
  end.

Lemma tailq_spec_sub o l l' D : spec o l = Some l' -> l ⊆ D -> fresh o ⊆ D -> l' ⊆ D.
Proof.
  intros Hs Hl Hx. destruct o; cbn [spec fresh] in *; case_decide; try done; injection Hs as <-; destruct_and?;
    intros a Ha; try apply subst_at_sub in Ha; set_solver.
Qed.

Lemma tailq_run_spec o h m l l' :
  is_tailq h m l -> spec o l = Some l' -> Forall (fun x => is_Some (m !! x)) (fresh o) ->
  exists h' m', run o (h, m) = Some (h', m') /\ is_tailq h' m' l' /\ frame l' m m'.
Proof.
  intros H Hs Hx. pose proof (tq_NoDup _ _ _ H) as HN.
  destruct o; cbn [spec run fresh] in *; case_decide; try done; injection Hs as <-; destruct_and?; try apply Forall_cons in Hx as [Hx _];
    try match goal with Hy : _ ∈ l |- _ => apply list_elem_of_split in Hy as (l1 & l2 & ->); rewrite subst_at_split by done end.
  - by apply tailq_insert_head.
  - destruct (tailq_insert_tail h m l elm) as (h' & m' & -> & H' & Hfr); [done..|]. exists h', m'.
    split; [done|]. split; [done|]. eapply frame_sub; [done|set_solver].
  - destruct (tailq_insert_after h m l1 listelm l2 elm) as (h' & m' & -> & H' & Hfr); [done..|]. exists h', m'.
    split; [done|]. split; [done|]. eapply frame_sub; [done|set_solver].
  - destruct (tailq_insert_before h m l1 listelm l2 elm) as (h' & m' & -> & H' & Hfr); [done..|]. exists h', m'.
    split; [done|]. split; [done|]. eapply frame_sub; [done|set_solver].
  - by apply tailq_remove.
  - destruct (tailq_replace h m l1 elm l2 elm2) as (h' & m' & -> & H' & Hfr); [done..|]. exists h', m'.
    split; [done|]. split; [done|]. eapply frame_sub; [done|set_solver].
Qed.

Lemma init_tailq m : is_tailq TAILQ_INIT m [].
Proof. constructor; [done..|constructor]. Qed.

(** C33.  Tail queues refine lists: operations that are defined on the list, with linked
    elements for positions and unlinked ones to insert, follow no wild pointer, make the
    list they should and touch no other links than those of their own elements; both
    directions of iteration, the ends and the neighbours are those of the list. *)
Theorem tailq_refines D ops h m l l' :
  is_tailq h m l -> Forall (fun x => is_Some (m !! x)) D -> l ⊆ D -> (ops ≫= fresh) ⊆ D -> specs ops l = Some l' ->
  exists h' m', runs ops (h, m) = Some (h', m') /\ is_tailq h' m' l' /\ frame D m m' /\
    TAILQ_FIRST h' = hd_error l' /\ TAILQ_LAST h' m' = Some (last l') /\ TAILQ_EMPTY h' = bool_decide (l' = []) /\
    TAILQ_FOREACH (length l') m' (TAILQ_FIRST h') = Some l' /\
    (z ← TAILQ_LAST h' m'; TAILQ_FOREACH_REVERSE (length l') h' m' z) = Some (reverse l') /\
    (forall l1 y l2, l' = l1 ++ y :: l2 -> TAILQ_NEXT m' y = Some (hd_error l2) /\ TAILQ_PREV h' m' y = Some (last l1)).
Proof.
  revert h m l. induction ops as [|o ops IH]; intros h m l H HD Hl Hx Hs.
  - injection Hs as <-. exists h, m. pose proof (tq_first _ _ _ H) as Hf. unfold TAILQ_EMPTY, TAILQ_FIRST. rewrite Hf, (tailq_last _ _ _ H).
    split_and!; [done..|by destruct l|by apply (tailq_foreach h m [] l)|cbn [mbind option_bind]|].
    + apply (tailq_foreach_reverse h m l []). by rewrite app_nil_r.
    + intros l1 y l2 ->. split; [by eapply tailq_next|by eapply tailq_prev].
  - cbn [specs] in Hs. apply bind_Some in Hs as (l1 & Ho & Hs). cbn [mbind list_bind] in Hx.
    destruct (tailq_run_spec o h m l l1) as (h1 & m1 & E & H1 & Hfr); [done|done| |].
    { rewrite Forall_forall in HD |- *. intros x Hin. apply HD, Hx. apply elem_of_app. by left. }
    cbn [runs]. rewrite E. cbn [mbind option_bind].
    assert (l1 ⊆ D) as Hl1 by (eapply (tailq_spec_sub o l); [done|done|set_solver]).
    destruct (IH h1 m1 l1) as (h2 & m2 & -> & H2 & Hfr2 & Hobs); [done| |done|set_solver|done|].
    { rewrite Forall_forall in HD |- *. intros x Hin. destruct (decide (x ∈ l1)); [by eapply tailq_member|]. rewrite Hfr by done. by apply HD. }
    exists h2, m2. split; [done|]. split; [done|]. split; [|done].
    intros a Ha. rewrite Hfr2 by done. apply Hfr. intros Hin. by apply Ha, Hl1.
Qed.

Lemma tailq_refines_witness :
  let m := list_to_map ((fun a => (a, {| tqe_next := None; tqe_prev := Head |})) <$> [1; 2; 3; 4; 5]) in
  exists h m', runs [InsertTail 1; InsertTail 2; InsertHead 3; InsertBefore 1 4; Remove 2; Replace 3 5; InsertAfter 1 2] (TAILQ_INIT, m) = Some (h, m') /\
    is_tailq h m' [5; 4; 1; 2].
Proof.
  intros m. destruct (tailq_refines [1; 2; 3; 4; 5] [InsertTail 1; InsertTail 2; InsertHead 3; InsertBefore 1 4; Remove 2; Replace 3 5; InsertAfter 1 2] TAILQ_INIT m [] [5; 4; 1; 2])
    as (h & m' & E & H & _); [apply init_tailq|by apply (bool_decide_unpack _); vm_compute|set_solver|simpl; set_solver|done|].
  exists h, m'. by split.
Defined.

End Tailq.
