(* ===== verification/Rings.v ===== *)
(** * The other queues

    Models the families of [include/sys/queue.h] that libpeak does not use: doubly-linked
    lists ([LIST]), simple queues ([SIMPLEQ]), simple queues whose pointers are hidden
    ([XSIMPLEQ]) and circular queues ([CIRCLEQ]); [Queue] has the other two.

    What they share is a ring: from the head over the elements and back to the mark for
    the end, a successor is stored everywhere, and a predecessor where the family has one.
    A family is an instance of the class [Family]: its state, how its pointers are read and
    written, and its macros.  The theorems are proved once, against the class. *)

From S2P Require Import Prelude Queue.
Open Scope Z_scope.

(** ** Rings *)

(** A pointer to an element, or the mark for the end: NULL or the head.  It also says where
    such a pointer is stored: in the head or in an element. *)
Inductive ptr := End | Elm (a : Z).

#[export] Instance ptr_eq_dec : EqDecision ptr.
Proof. solve_decision. Defined.

#[export] Instance Elm_inj : Inj (=) (=) Elm.
Proof. by intros ?? [=]. Qed.

(** The operations of all families, and the lists they make. *)
Inductive op :=
  | InsertHead (elm : Z) | InsertTail (elm : Z) | InsertAfter (listelm elm : Z) | InsertBefore (listelm elm : Z)
  | RemoveHead | RemoveAfter (elm : Z) | Remove (elm : Z) | Replace (elm elm2 : Z).

Definition spec (o : op) (l : list Z) : option (list Z) :=
  match o with
  | InsertHead elm => if decide (elm ∉ l) then Some (elm :: l) else None
  | InsertTail elm => if decide (elm ∉ l) then Some (l ++ [elm]) else None
  | InsertAfter y elm => if decide (y ∈ l /\ elm ∉ l) then Some (subst_at y [y; elm] l) else None
  | InsertBefore y elm => if decide (y ∈ l /\ elm ∉ l) then Some (subst_at y [elm; y] l) else None
  | RemoveHead => match l with [] => None | _ :: l => Some l end
  | RemoveAfter elm => Slist.drop_after elm l
  | Remove elm => if decide (elm ∈ l) then Some (subst_at elm [] l) else None
  | Replace elm elm2 => if decide (elm ∈ l /\ elm2 ∉ l) then Some (subst_at elm [elm2] l) else None
  end.

Fixpoint specs (ops : list op) (l : list Z) : option (list Z) :=
  match ops with [] => Some l | o :: ops => l ← spec o l; specs ops l end.

(** The elements an operation links. *)
Definition fresh (o : op) : list Z :=
  match o with
  | InsertHead elm | InsertTail elm | InsertAfter _ elm | InsertBefore _ elm | Replace _ elm => [elm]
  | RemoveHead | RemoveAfter _ | Remove _ => []
  end.

(** Successors and predecessors that a state stores, and writing them.  [kept] says where the
    family stores predecessors, [wf] what its addresses must be. *)
Class Cells (S : Type) := {
  nxt : S -> ptr -> option ptr;
  prv : S -> ptr -> option ptr;
  kept : ptr -> bool;
  wf : S -> Prop;
  set_nxt : ptr -> ptr -> S -> option S;
  set_prv : ptr -> ptr -> S -> option S;
}.

Class CellsLaws (S : Type) {C : Cells S} : Prop := {
  nxt_end s : is_Some (nxt s End);
  kept_prv s p : kept p = true -> is_Some (nxt s p) -> is_Some (prv s p);
  set_nxt_law s p v : wf s -> is_Some (nxt s p) -> is_Some (nxt s v) -> exists s', set_nxt p v s = Some s' /\ wf s' /\
    (forall n, nxt s' n = if decide (n = p) then Some v else nxt s n) /\ (forall n, prv s' n = prv s n);
  set_prv_law s p v : wf s -> kept p = true -> is_Some (nxt s p) -> is_Some (nxt s v) -> exists s', set_prv p v s = Some s' /\ wf s' /\
    (forall n, nxt s' n = nxt s n) /\ (forall n, prv s' n = if decide (n = p) then Some v else prv s n);
}.

(** [FOREACH]: the elements from [var] on, [next] being [NEXT] or [PREV]. *)
Fixpoint FOREACH (fuel : nat) (next : ptr -> option ptr) (var : ptr) : option (list Z) :=
  match var, fuel with
  | End, _ => Some []
  | Elm _, O => None
  | Elm a, S fuel => var ← next (Elm a); l ← FOREACH fuel next var; Some (a :: l)
  end.

(** [FOREACH_SAFE]: the successor is read before the body runs. *)
Fixpoint FOREACH_SAFE {S} (fuel : nat) (next : S -> ptr -> option ptr) (body : Z -> S -> option S) (var : ptr) (s : S) : option S :=
  match var, fuel with
  | End, _ => Some s
  | Elm _, O => None
  | Elm a, Datatypes.S fuel => tvar ← next s (Elm a); s ← body a s; FOREACH_SAFE fuel next body tvar s
  end.

Section rings.
Context {S : Type} {C : Cells S} {L : CellsLaws S}.
Implicit Types (s : S) (p q : ptr) (l : list Z).

Definition linked s p q : Prop := nxt s p = Some q /\ (kept q = true -> prv s q = Some p).

(** The links from [p] over [l] to [q]. *)
Fixpoint path s p l q : Prop :=
  match l with [] => linked s p q | a :: l => linked s p (Elm a) /\ path s (Elm a) l q end.

Definition ring s l : Prop := path s End l End /\ NoDup l.

(** The last of [p] and [l], and the first of [l] and [q]. *)
Definition before p l : ptr := default p (Elm <$> last l).
Definition after l q : ptr := match l with [] => q | a :: _ => Elm a end.

(** The links inside of [p] and [l], and of [l] and [q]. *)
Fixpoint front s p l : Prop :=
  match l with [] => True | a :: l => linked s p (Elm a) /\ front s (Elm a) l end.
Definition back s l q : Prop := match l with [] => True | a :: l => path s (Elm a) l q end.

Lemma before_cons p a l : before p (a :: l) = before (Elm a) l.
Proof. unfold before. rewrite last_cons. by destruct (last l). Qed.

Lemma before_snoc p l a : before p (l ++ [a]) = Elm a.
Proof. unfold before. by rewrite last_snoc. Qed.

Lemma before_in a l : before (Elm a) l ∈ Elm <$> a :: l.
Proof.
  apply list_elem_of_fmap. unfold before. destruct (last l) as [b|] eqn:E; [|exists a; split; [done|left]].
  exists b. split; [done|]. right. apply last_Some in E as [l' ->]. set_solver.
Qed.

Lemma path_cut s p l1 l2 q :
  path s p (l1 ++ l2) q <-> front s p l1 /\ linked s (before p l1) (after l2 q) /\ back s l2 q.
Proof.
  revert p. induction l1 as [|a l1 IH]; intros p; [|cbn [app path front]; rewrite IH, before_cons; tauto].
  destruct l2; simpl; tauto.
Qed.

Lemma back_app s a l1 l2 q : back s (a :: l1 ++ l2) q -> back s l2 q.
Proof. cbn [back]. rewrite path_cut. tauto. Qed.

(** A ring around a part of it. *)
Lemma ring_around s l1 old l2 :
  ring s (l1 ++ old ++ l2) -> front s End l1 /\ back s l2 End /\ path s (before End l1) old (after l2 End).
Proof.
  intros [H _]. apply path_cut in H as (H1 & H2 & H3). destruct old as [|a old]; [done|]. cbn [app back after] in *.
  apply path_cut in H3 as (H3 & H4 & H5). split_and!; [done..|]. rewrite <- (app_nil_r old). cbn [path]. split; [done|].
  apply path_cut. done.
Qed.

Lemma before_notin l l2 : NoDup (l ++ l2) -> forall a, a ∈ l2 -> before End l <> Elm a.
Proof.
  intros HN a Ha. unfold before. destruct (last l) as [b|] eqn:E; [|done]. apply last_Some in E as [l' ->]. intros [= ->].
  apply NoDup_app in HN as (_ & Hd & _). apply (Hd a); set_solver.
Qed.

Lemma after_notin l1 l : NoDup (l1 ++ l) -> forall a, a ∈ l1 -> after l End <> Elm a.
Proof.
  intros HN a Ha. destruct l as [|b l]; [done|]. intros [= ->]. apply NoDup_app in HN as (_ & Hd & _). apply (Hd a); set_solver.
Qed.

(** The insides depend on their own links only. *)
Lemma front_frame s s' p l :
  NoDup l -> p ∉ Elm <$> l ->
  (forall n, n ∈ p :: (Elm <$> l) -> n <> before p l -> nxt s' n = nxt s n) -> (forall a, a ∈ l -> prv s' (Elm a) = prv s (Elm a)) ->
  front s p l -> front s' p l.
Proof.
  revert p. induction l as [|a l IH]; intros p HN Hp Hn Hv; [done|]. rewrite before_cons in Hn. intros [[H1 H2] Hf].
  apply NoDup_cons in HN as [Ha HN]. split.
  - split; [|by rewrite Hv by left]. rewrite Hn; [done|left|]. intros ->. apply Hp, before_in.
  - apply IH; [done|by intros (? & [= <-] & ?)%list_elem_of_fmap|..|done]; [intros n Hin; apply Hn; by right|intros b Hb; apply Hv; by right].
Qed.

Lemma path_frame s s' p l q :
  (forall n, n ∈ p :: (Elm <$> l) -> nxt s' n = nxt s n) -> (forall n, n ∈ (Elm <$> l) ++ [q] -> prv s' n = prv s n) ->
  path s p l q -> path s' p l q.
Proof.
  revert p. induction l as [|a l IH]; intros p Hn Hv; simpl.
  - intros [H1 H2]. split; [rewrite Hn by left; done|rewrite Hv by left; done].
  - intros [[H1 H2] Hp]. split; [split; [rewrite Hn by left; done|rewrite Hv by left; done]|].
    apply IH; [intros n Hin; apply Hn; by right|intros n Hin; apply Hv; by right|done].
Qed.

(** A part of a ring is exchanged for another one: only the links on its edges change. *)
Lemma ring_splice s s' l1 old new l2 :
  ring s (l1 ++ old ++ l2) -> NoDup (l1 ++ new ++ l2) ->
  (forall n, n <> before End l1 -> n ∉ Elm <$> new -> nxt s' n = nxt s n) ->
  (forall n, n <> after l2 End -> n ∉ Elm <$> new -> prv s' n = prv s n) ->
  path s' (before End l1) new (after l2 End) -> ring s' (l1 ++ new ++ l2).
Proof.
  intros H HN Hn Hv Hp. pose proof H as [_ HNo]. apply ring_around in H as (Hf & Hb & _). split; [|done].
  pose proof HN as (HN1 & Hd & (HNn & Hd2 & HN2)%NoDup_app)%NoDup_app.
  assert (NoDup (l1 ++ l2)) as HN12 by (apply NoDup_app; split_and!; [done|set_solver|done]).
  assert (front s' End l1) as Hf'.
  { eapply front_frame; [done|by intros (? & ? & ?)%list_elem_of_fmap| | |exact Hf].
    - intros n Hin Hne. apply Hn; [done|]. intros (x & -> & Hx)%list_elem_of_fmap.
      apply elem_of_cons in Hin as [?|(? & [= <-] & ?)%list_elem_of_fmap]; [done|]. apply (Hd x); set_solver.
    - intros a Ha. apply Hv; [intros E; by apply (after_notin l1 l2 HN12 a)|]. intros (x & [= <-] & Hx)%list_elem_of_fmap. apply (Hd a); set_solver. }
  assert (back s' l2 End) as Hb'.
  { destruct l2 as [|b l2]; [done|]. cbn [back after] in *. eapply path_frame; [| |exact Hb].
    - intros n Hin. assert (exists c, n = Elm c /\ c ∈ b :: l2) as (c & -> & Hc).
      { apply elem_of_cons in Hin as [->|(c & -> & Hc)%list_elem_of_fmap]; eexists; (split; [done|]); [left|by right]. }
      apply Hn; [intros E; by apply (before_notin l1 _ HN12 c)|]. intros (x & [= <-] & Hx)%list_elem_of_fmap. by apply (Hd2 c).
    - apply NoDup_cons in HN2 as [Hb2 _]. intros n [(c & -> & Hc)%list_elem_of_fmap| ->%list_elem_of_singleton]%elem_of_app.
      + apply Hv; [by intros [= ->]|]. intros (x & [= <-] & Hx)%list_elem_of_fmap. apply (Hd2 c); [done|by right].
      + apply Hv; [done|]. by intros (x & ? & ?)%list_elem_of_fmap. }
  destruct new as [|x new]; [by apply path_cut|]. apply path_cut. cbn [app after back]. destruct Hp as [Hx Hp]. split_and!; [done..|].
  rewrite <- (app_nil_r new) in Hp. apply path_cut in Hp as (Hp1 & Hp2 & _). by apply path_cut.
Qed.

Lemma ring_cut s l1 l2 : ring s (l1 ++ l2) -> linked s (before End l1) (after l2 End).
Proof. intros [H _]. apply path_cut in H. tauto. Qed.

Lemma ring_member s l a : ring s l -> a ∈ l -> is_Some (nxt s (Elm a)).
Proof.
  intros H (l1 & l2 & ->)%list_elem_of_split. rewrite (cons_middle a), app_assoc in H. apply ring_cut in H as [H _].
  rewrite before_snoc in H. by eexists.
Qed.

Lemma ring_before s l1 l2 : ring s (l1 ++ l2) -> is_Some (nxt s (before End l1)).
Proof. intros [-> _]%ring_cut. by eexists. Qed.

Lemma ring_after s l1 l2 : ring s (l1 ++ l2) -> is_Some (nxt s (after l2 End)).
Proof. intros H. destruct l2 as [|a l2]; [apply nxt_end|]. apply (ring_member s (l1 ++ a :: l2)); [done|]. apply elem_of_app. right. left. Qed.

(** Both ends of a ring. *)
Lemma ring_ends s l :
  ring s l ->
  l = [] /\ nxt s End = Some End /\ (kept End = true -> prv s End = Some End) \/
  exists a b, after l End = Elm a /\ before End l = Elm b /\ nxt s End = Some (Elm a) /\ (kept End = true -> prv s End = Some (Elm b)).
Proof.
  intros H. pose proof (ring_cut s [] l H) as [Hn _]. rewrite <- (app_nil_r l) in H. pose proof (ring_cut s l [] H) as [_ Hp].
  destruct l as [|a l]; [by left|right]. destruct (before End (a :: l)) as [|b] eqn:E; [|by exists a, b]. pose proof (before_in a l) as Hin.
  rewrite <- (before_cons End), E in Hin. by apply list_elem_of_fmap in Hin as (? & ? & _).
Qed.

(** ** Operations as exchanges *)

(** Where an operation takes [old] out and puts its fresh elements. *)
Inductive splices : op -> list Z -> list Z -> list Z -> Prop :=
  | splices_head x l : splices (InsertHead x) [] [] l
  | splices_tail x l : splices (InsertTail x) l [] []
  | splices_after y x l1 l2 : splices (InsertAfter y x) (l1 ++ [y]) [] l2
  | splices_before y x l1 l2 : splices (InsertBefore y x) l1 [] (y :: l2)
  | splices_remove_head a l : splices RemoveHead [] [a] l
  | splices_remove_after y a l1 l2 : splices (RemoveAfter y) (l1 ++ [y]) [a] l2
  | splices_remove x l1 l2 : splices (Remove x) l1 [x] l2
  | splices_replace x x2 l1 l2 : splices (Replace x x2) l1 [x] l2.

Lemma spec_splices o l l' :
  spec o l = Some l' -> NoDup l ->
  exists l1 old l2, splices o l1 old l2 /\ l = l1 ++ old ++ l2 /\ l' = l1 ++ fresh o ++ l2 /\ (forall x, x ∈ fresh o -> x ∉ l).
Proof.
  intros Hs HN. destruct o; cbn [spec fresh] in *; repeat case_decide; try done; destruct_and?;
    try (destruct l as [|a l]; [done|]); try injection Hs as <-; try match goal with H : _ ∈ l |- _ => apply list_elem_of_split in H as (l1 & l2 & ->); rewrite subst_at_split by done end.
  - exists [], [], l. split_and!; [constructor|done..|set_solver].
  - exists l, [], []. split_and!; [constructor|by rewrite app_nil_r|done|set_solver].
  - exists (l1 ++ [listelm]), [], l2. split_and!; [constructor|by rewrite <- app_assoc|by rewrite <- app_assoc|set_solver].
  - exists l1, [], (listelm :: l2). split_and!; [constructor|done..|set_solver].
  - exists [], [a], l. split_and!; [constructor|done..|set_solver].
  - apply Slist.drop_after_split in Hs as (l1 & x & l2 & -> & ->). exists (l1 ++ [elm]), [x], l2.
    split_and!; [constructor|by rewrite <- app_assoc|by rewrite <- app_assoc|set_solver].
  - exists l1, [elm], l2. split_and!; [constructor|done..|set_solver].
  - exists l1, [elm], l2. split_and!; [constructor|done..|set_solver].
Qed.

(** What an operation must leave. *)
Definition spliced s s' l1 new l2 : Prop :=
  wf s' /\ (forall n, n <> before End l1 -> n ∉ Elm <$> new -> nxt s' n = nxt s n) /\
  (forall n, n <> after l2 End -> n ∉ Elm <$> new -> prv s' n = prv s n) /\ path s' (before End l1) new (after l2 End).

(** States that differ at the head and the elements of [D] at most. *)
Definition same_but (D : list Z) s s' : Prop := forall a, a ∉ D -> nxt s' (Elm a) = nxt s (Elm a) /\ prv s' (Elm a) = prv s (Elm a).

Lemma spliced_ring s s' l1 old new l2 :
  ring s (l1 ++ old ++ l2) -> NoDup (l1 ++ new ++ l2) -> spliced s s' l1 new l2 ->
  wf s' /\ ring s' (l1 ++ new ++ l2) /\ same_but (l1 ++ new ++ l2) s s'.
Proof.
  intros H HN (Hw & Hn & Hv & Hp). split; [done|]. split; [by eapply ring_splice|]. intros a Ha. rewrite !not_elem_of_app in Ha. destruct_and!.
  assert (Elm a ∉ Elm <$> new) by (by intros (? & [= <-] & ?)%list_elem_of_fmap).
  split; [apply Hn; [|done]|apply Hv; [|done]]; intros E.
  - destruct l1 as [|b l1]; [done|]. rewrite before_cons in E. pose proof (before_in b l1) as Hin. rewrite <- E in Hin.
    by apply list_elem_of_fmap in Hin as (? & [= <-] & ?).
  - destruct l2 as [|b l2]; [done|]. injection E as ->. set_solver.
Qed.

(** ** Executing macros *)

(** A pointer that is followed is not the end. *)
Definition follow s p : option ptr := match p with End => None | Elm _ => nxt s p end.
Definition set_prev p v s : option S := match p with End => None | Elm _ => set_prv p v s end.

Definition set_next p v s : option S := match p with End => None | Elm _ => set_nxt p v s end.

Lemma follow_elm s p : p <> End -> follow s p = nxt s p.
Proof. by destruct p. Qed.

Lemma set_prev_elm p v s : p <> End -> set_prev p v s = set_prv p v s.
Proof. by destruct p. Qed.

(** Around a new element. *)
Lemma insert_facts s l1 l2 x :
  ring s (l1 ++ [] ++ l2) -> x ∉ l1 ++ [] ++ l2 ->
  linked s (before End l1) (after l2 End) /\ before End l1 <> Elm x /\ after l2 End <> Elm x /\ is_Some (nxt s (after l2 End)).
Proof.
  cbn [app]. intros H Hx. pose proof H as [_ HN]. assert (NoDup (l1 ++ x :: l2)) as HN'.
  { apply NoDup_app in HN as (HN1 & Hd & HN2). apply NoDup_app. split_and!; [done|set_solver|]. constructor; [set_solver|done]. }
  split_and!; [by apply ring_cut|apply (before_notin l1 _ HN'); left| |by eapply ring_after].
  rewrite (cons_middle x), app_assoc in HN'. apply (after_notin _ _ HN'). apply elem_of_app. right. left.
Qed.

(** Around an element of a ring. *)
Lemma element_facts s l1 l2 x :
  ring s (l1 ++ [x] ++ l2) ->
  linked s (before End l1) (Elm x) /\ linked s (Elm x) (after l2 End) /\ before End l1 <> Elm x /\ after l2 End <> Elm x /\ is_Some (nxt s (after l2 End)).
Proof.
  cbn [app]. intros H. pose proof H as [_ HN]. pose proof (ring_cut _ _ _ H) as H1. pose proof H as H'. rewrite (cons_middle x), app_assoc in H'.
  pose proof (ring_cut _ _ _ H') as H2. rewrite before_snoc in H2. split_and!; [done..|apply (before_notin l1 _ HN); left| |by eapply ring_after].
  rewrite (cons_middle x), app_assoc in HN. apply (after_notin _ _ HN). apply elem_of_app. right. left.
Qed.

(** Another element than those of the ring. *)
Lemma apart_facts l1 y l2 x : x ∉ l1 ++ [y] ++ l2 -> before End l1 <> Elm x /\ after l2 End <> Elm x /\ Elm y <> Elm x.
Proof.
  intros Hx. split_and!; [| |intros [= ->]; set_solver].
  - unfold before. destruct (last l1) as [b|] eqn:E; [|done]. apply last_Some in E as [l ->]. intros [= ->]. set_solver.
  - destruct l2 as [|b l2]; [done|]. intros [= ->]. set_solver.
Qed.

Lemma spliced_one s s' l1 l2 x :
  wf s' -> (forall n, n <> before End l1 -> n <> Elm x -> nxt s' n = nxt s n) -> (forall n, n <> after l2 End -> n <> Elm x -> prv s' n = prv s n) ->
  linked s' (before End l1) (Elm x) -> linked s' (Elm x) (after l2 End) -> spliced s s' l1 [x] l2.
Proof.
  intros Hw Hn Hv H1 H2. split_and!; [done| | |done]; intros n Hne Hx; [apply Hn|apply Hv]; try done; intros ->; apply Hx; left.
Qed.

Lemma spliced_none s s' l1 l2 :
  wf s' -> (forall n, n <> before End l1 -> nxt s' n = nxt s n) -> (forall n, n <> after l2 End -> prv s' n = prv s n) ->
  linked s' (before End l1) (after l2 End) -> spliced s s' l1 [] l2.
Proof. intros Hw Hn Hv H. split_and!; auto. Qed.

(** ** Families *)

Class Family := { has : op -> bool; run : op -> S -> option S }.

Class FamilyLaws {F : Family} : Prop :=
  run_law o l1 old l2 s : has o = true -> splices o l1 old l2 -> wf s -> ring s (l1 ++ old ++ l2) ->
    (forall x, x ∈ fresh o -> x ∉ l1 ++ old ++ l2 /\ is_Some (nxt s (Elm x))) ->
    exists s', run o s = Some s' /\ spliced s s' l1 (fresh o) l2.

Context {F : Family} {FL : FamilyLaws}.

Fixpoint runs (ops : list op) s : option S :=
  match ops with [] => Some s | o :: ops => s ← run o s; runs ops s end.

Lemma run_spec o s l l' :
  has o = true -> wf s -> ring s l -> spec o l = Some l' -> (forall x, x ∈ fresh o -> is_Some (nxt s (Elm x))) ->
  exists s', run o s = Some s' /\ wf s' /\ ring s' l' /\ same_but l' s s'.
Proof.
  intros Hh Hw H Hs Hx. pose proof H as [_ HN]. destruct (spec_splices _ _ _ Hs HN) as (l1 & old & l2 & Hp & -> & -> & Hni).
  destruct (run_law o l1 old l2 s Hh Hp Hw H) as (s' & E & Hsp); [auto|]. exists s'. split; [done|].
  eapply spliced_ring; [done| |done]. apply NoDup_app in HN as (HN1 & Hd & (HNo & Hd2 & HN2)%NoDup_app).
  assert (NoDup (fresh o)) by (destruct o; repeat constructor; set_solver).
  apply NoDup_app. split_and!; [done|set_solver|]. apply NoDup_app. split_and!; [done|set_solver|done].
Qed.

Lemma foreach_nxt s l1 l2 : ring s (l1 ++ l2) -> FOREACH (length l2) (nxt s) (after l2 End) = Some l2.
Proof.
  revert l1. induction l2 as [|a l2 IH]; intros l1 H; [done|]. cbn [after length FOREACH].
  rewrite (cons_middle a), app_assoc in H. pose proof (ring_cut _ _ _ H) as [E _]. rewrite before_snoc in E. rewrite E. cbn [mbind option_bind].
  by rewrite (IH _ H).
Qed.

Lemma foreach_prv s l1 l2 : (forall p, kept p = true) -> ring s (l1 ++ l2) -> FOREACH (length l1) (prv s) (before End l1) = Some (reverse l1).
Proof.
  intros Hk. revert l2. induction l1 as [|a l1 IH] using rev_ind; intros l2 H; [done|]. rewrite before_snoc, length_app, Nat.add_comm. cbn [Nat.add length FOREACH].
  rewrite <- app_assoc in H. pose proof (ring_cut _ _ _ H) as [_ E]. cbn [app after] in E. rewrite (E (Hk _)). cbn [mbind option_bind].
  rewrite (IH _ H). cbn [mbind option_bind]. by rewrite reverse_app.
Qed.

(** Emptying a queue while it is iterated. *)
Lemma foreach_safe_drop (drop : Z -> op) s l :
  (forall a l, a ∉ l -> spec (drop a) (a :: l) = Some l) -> (forall a, has (drop a) = true) -> (forall a, fresh (drop a) = []) -> wf s -> ring s l ->
  exists s', FOREACH_SAFE (length l) nxt (fun a => run (drop a)) (after l End) s = Some s' /\ ring s' [].
Proof.
  intros Hd Hh Hf. revert s. induction l as [|a l IH]; intros s Hw H; [by exists s|]. cbn [length after FOREACH_SAFE].
  pose proof (ring_cut s [a] l H) as [E _]. change (before End [a]) with (Elm a) in E. rewrite E. cbn [mbind option_bind].
  destruct (run_spec (drop a) s (a :: l) l) as (s' & -> & Hw' & H' & _); [done..|apply Hd; by destruct H as [_ [? _]%NoDup_cons]|by rewrite Hf; intros x ?%elem_of_nil|].
  cbn [mbind option_bind]. by apply IH.
Qed.

(** What a user of a family sees of its queue. *)
Definition shows s l : Prop :=
  nxt s End = Some (after l End) /\ (kept End = true -> prv s End = Some (before End l)) /\
  (forall l1 y l2, l = l1 ++ y :: l2 -> nxt s (Elm y) = Some (after l2 End) /\ (kept (Elm y) = true -> prv s (Elm y) = Some (before End l1))) /\
  FOREACH (length l) (nxt s) (after l End) = Some l /\
  ((forall p, kept p = true) -> FOREACH (length l) (prv s) (before End l) = Some (reverse l)).

Lemma ring_shows s l : ring s l -> shows s l.
Proof.
  intros H. split; [apply (ring_cut s [] l H)|]. split; [intros Hk; rewrite <- (app_nil_r l) in H; by apply (ring_cut s l [] H)|].
  split; [|split; [by apply (foreach_nxt s [])|intros Hk; apply (foreach_prv s l []); [done|by rewrite app_nil_r]]].
  intros l1 y l2 ->. pose proof (ring_cut _ _ _ H) as [_ Hp]. rewrite (cons_middle y), app_assoc in H. pose proof (ring_cut _ _ _ H) as [Hn _].
  rewrite before_snoc in Hn. done.
Qed.

(** Operations that are defined on the list, on linked elements for positions and unlinked ones
    to insert, are defined on the queue. *)
Lemma runs_refine D ops s l l' :
  wf s -> ring s l -> (forall x, x ∈ D -> is_Some (nxt s (Elm x))) -> l ⊆ D -> (ops ≫= fresh) ⊆ D -> Forall (fun o => has o = true) ops ->
  specs ops l = Some l' ->
  exists s', runs ops s = Some s' /\ wf s' /\ ring s' l' /\ same_but D s s'.
Proof.
  revert s l. induction ops as [|o ops IH]; intros s l Hw H HD Hl Hx Hh Hs.
  - injection Hs as <-. by exists s.
  - cbn [specs] in Hs. apply bind_Some in Hs as (l1 & Ho & Hs). cbn [mbind list_bind] in Hx. apply Forall_cons in Hh as [Ho1 Hh].
    destruct (run_spec o s l l1) as (s1 & E & Hw1 & H1 & Hsm); [done..|intros x Hin; apply HD; set_solver|].
    assert (l1 ⊆ D) as Hl1.
    { destruct (spec_splices _ _ _ Ho (proj2 H)) as (a & old & b & _ & -> & -> & _). set_solver. }
    cbn [runs]. rewrite E. cbn [mbind option_bind].
    destruct (IH s1 l1) as (s2 & -> & Hw2 & H2 & Hsm2); [done|done| |done|set_solver|done|done|].
    { intros x Hin. destruct (decide (x ∈ l1)); [by apply (ring_member s1 l1)|]. destruct (Hsm x) as [-> _]; [done|auto]. }
    exists s2. split_and!; [done..|]. intros a Ha. destruct (Hsm2 a Ha) as [-> ->]. apply Hsm. set_solver.
Qed.

(** From an empty queue, with one way of emptying it again. *)
Lemma family_refines D ops s l (drop : Z -> op) :
  wf s -> nxt s End = Some End -> (kept End = true -> prv s End = Some End) ->
  (forall x, x ∈ D -> is_Some (nxt s (Elm x))) -> (ops ≫= fresh) ⊆ D -> Forall (fun o => has o = true) ops -> specs ops [] = Some l ->
  (forall a l, a ∉ l -> spec (drop a) (a :: l) = Some l) -> (forall a, has (drop a) = true) -> (forall a, fresh (drop a) = []) ->
  exists s', runs ops s = Some s' /\ ring s' l /\ same_but D s s' /\ shows s' l /\
    exists s2, FOREACH_SAFE (length l) nxt (fun a => run (drop a)) (after l End) s' = Some s2 /\ ring s2 [].
Proof.
  intros Hw Hn Hp HD Hx Hh Hs H1 H2 H3. destruct (runs_refine D ops s [] l) as (s' & E & Hw' & H & Hsm); [done|split; [done|constructor]|done|set_solver|done..|].
  exists s'. split_and!; [done..|by apply ring_shows|by apply foreach_safe_drop].
Qed.

Lemma spec_remove a l : a ∉ l -> spec (Remove a) (a :: l) = Some l.
Proof. intros Ha. cbn [spec]. rewrite decide_True by left. f_equal. unfold subst_at. cbn [mbind list_bind]. rewrite decide_True by done. by apply subst_at_notin. Qed.

Lemma after_end l : bool_decide (after l End = End) = bool_decide (l = []).
Proof. by destruct l. Qed.

End rings.

Arguments Family S : clear implicits.
Arguments FamilyLaws S {C F} : rename.

(** Solve a question about the cells of a state that was written to. *)
Ltac solve_cells :=
  intros; unfold linked in *; destruct_and?;
  repeat match goal with
  | H : forall n, nxt ?s n = _ |- context [nxt ?s _] => rewrite H
  | H : forall n, prv ?s n = _ |- context [prv ?s _] => rewrite H
  end; repeat case_decide; try done; try congruence; eauto.

(** Execute the next read. *)
Ltac read :=
  progress (repeat (match goal with
  | H : forall n, nxt ?s n = _ |- context [mbind _ (nxt ?s ?p)] => rewrite (H p)
  | H : forall n, prv ?s n = _ |- context [mbind _ (prv ?s ?p)] => rewrite (H p)
  end; repeat first [rewrite decide_True by congruence|rewrite decide_False by congruence]);
  try match goal with
  | H : nxt ?s ?p = Some _ |- context [mbind _ (nxt ?s ?p)] => rewrite H
  | H : prv ?s ?p = Some _ |- context [mbind _ (prv ?s ?p)] => rewrite H
  end); cbn [mbind option_bind].

(** Take a branch that is known, or follow an element. *)
Ltac branch := first [rewrite decide_True by congruence|rewrite decide_False by congruence|progress cbn [follow set_prev set_next]]; cbn [mbind option_bind].

(** Execute the next write. *)
Ltac write :=
  let s' := fresh "s" in let Hw := fresh "Hw" in let Hn := fresh "Hn" in let Hv := fresh "Hv" in
  match goal with
  | |- context [set_nxt ?p ?v ?s] => destruct (set_nxt_law s p v) as (s' & -> & Hw & Hn & Hv); [done|solve_cells|solve_cells|]
  | |- context [set_prv ?p ?v ?s] => destruct (set_prv_law s p v) as (s' & -> & Hw & Hn & Hv); [done|done|solve_cells|solve_cells|]
  end; cbn [mbind option_bind].

(** What is known around the place of an operation. *)
Ltac around Hp H Hx :=
  destruct Hp; try done; cbn [fresh run] in *;
  try (let Hni := fresh "Hni" in let Hsx := fresh "Hsx" in destruct (Hx _ ltac:(left)) as [Hni Hsx]);
  let HB := fresh "HB" in let HBv := fresh "HBv" in let HA := fresh "HA" in let HAv := fresh "HAv" in
  let HBx := fresh "HBx" in let HAx := fresh "HAx" in let HAs := fresh "HAs" in let EA := fresh "EA" in
  match type of H with
  | ring _ (_ ++ [] ++ _) => match goal with Hni : _ ∉ _ |- _ => destruct (insert_facts _ _ _ _ H Hni) as ([HB HBv] & HBx & HAx & HA) end
  | _ => destruct (element_facts _ _ _ _ H) as ([HB HBv] & [HA HAv] & HBx & HAx & HAs);
      try match goal with Hni : _ ∉ _ |- _ => destruct (apart_facts _ _ _ _ Hni) as (? & ? & ?) end
  end;
  rewrite ?before_snoc in *; try change (before End []) with End in *;
  match goal with
  | |- context [spliced _ _ _ _ (?y :: ?l)] => change (after (y :: l) End) with (Elm y) in *
  | |- context [spliced _ _ _ _ []] => change (after [] End) with End in *
  | |- context [spliced _ _ _ _ ?l2] => destruct (after l2 End) eqn:EA
  end;
  try specialize (HBv eq_refl); try specialize (HAv eq_refl).

(** Nothing is left to execute. *)
Ltac finish :=
  eexists; split; [done|]; first [apply spliced_one|apply spliced_none]; rewrite ?before_snoc; try change (before End []) with End;
  try change (after [] End) with End; try match goal with |- context [after (?y :: ?l) End] => change (after (y :: l) End) with (Elm y) end;
  repeat match goal with E : after _ _ = _ |- _ => rewrite ?E; clear E | E : before _ _ = _ |- _ => rewrite ?E; clear E end; solve [solve_cells].

(** ** Doubly-linked lists *)

Module Dlist.

(** [le_prev] is the address of the pointer in front: of the one of the head ([End]) or of an
    element. *)
Record list_entry := { le_next : ptr; le_prev : ptr }.
Record list_state := { lh_first : ptr; elms : gmap Z list_entry }.

Definition list_nxt (s : list_state) (p : ptr) : option ptr :=
  match p with End => Some (lh_first s) | Elm a => le_next <$> elms s !! a end.
Definition list_prv (s : list_state) (p : ptr) : option ptr :=
  match p with End => None | Elm a => le_prev <$> elms s !! a end.
Definition list_set_nxt (p v : ptr) (s : list_state) : option list_state :=
  match p with
  | End => Some {| lh_first := v; elms := elms s |}
  | Elm a => e ← elms s !! a; Some {| lh_first := lh_first s; elms := <[a := {| le_next := v; le_prev := le_prev e |}]> (elms s) |}
  end.
Definition list_set_prv (p v : ptr) (s : list_state) : option list_state :=
  match p with
  | End => None
  | Elm a => e ← elms s !! a; Some {| lh_first := lh_first s; elms := <[a := {| le_next := le_next e; le_prev := v |}]> (elms s) |}
  end.

#[export] Instance cells : Cells list_state := {
  nxt := list_nxt; prv := list_prv; kept p := negb (bool_decide (p = End)); wf _ := True; set_nxt := list_set_nxt; set_prv := list_set_prv
}.

#[export] Instance cells_laws : CellsLaws list_state.
Proof.
  constructor.
  - intros s. by eexists.
  - intros s [|a]; [done|]. intros _ [e He]. cbn in *. destruct (elms s !! a); [by eexists|done].
  - intros s [|a] v _ [e He] _; [eexists; split; [done|]; split; [done|]; split; intros [|b]; try done; by rewrite decide_False|].
    cbn in *. destruct (elms s !! a) as [e'|] eqn:Ea; [|done]. eexists. split; [done|]. split; [done|].
    split; intros [|b]; cbn; try done; destruct (decide (b = a)) as [->|Hne].
    + by rewrite lookup_insert_eq, decide_True.
    + by rewrite lookup_insert_ne, decide_False by congruence.
    + by rewrite lookup_insert_eq, Ea.
    + by rewrite lookup_insert_ne by congruence.
  - intros s [|a] v _ Hk [e He] _; [done|].
    cbn in *. destruct (elms s !! a) as [e'|] eqn:Ea; [|done]. eexists. split; [done|]. split; [done|].
    split; intros [|b]; cbn; try done; destruct (decide (b = a)) as [->|Hne].
    + by rewrite lookup_insert_eq, Ea.
    + by rewrite lookup_insert_ne by congruence.
    + by rewrite lookup_insert_eq, decide_True.
    + by rewrite lookup_insert_ne, decide_False by congruence.
Qed.

Definition LIST_INIT (s : list_state) : list_state := {| lh_first := End; elms := elms s |}.
Definition LIST_FIRST (s : list_state) : ptr := lh_first s.
Definition LIST_EMPTY (s : list_state) : bool := bool_decide (LIST_FIRST s = End).
Definition LIST_NEXT (s : list_state) (elm : Z) : option ptr := nxt s (Elm elm).

(** The element behind, if there is one, gets to know the pointer in front of it. *)
Definition list_link_back (next p : ptr) (s : list_state) : option list_state :=
  if decide (next = End) then Some s else set_prev next p s.

Definition LIST_INSERT_AFTER (s : list_state) (listelm elm : Z) : option list_state :=
  next ← LIST_NEXT s listelm;
  s ← set_nxt (Elm elm) next s;
  s ← list_link_back next (Elm elm) s;
  s ← set_nxt (Elm listelm) (Elm elm) s;
  set_prv (Elm elm) (Elm listelm) s.

Definition LIST_INSERT_BEFORE (s : list_state) (listelm elm : Z) : option list_state :=
  prev ← prv s (Elm listelm);
  s ← set_prv (Elm elm) prev s;
  s ← set_nxt (Elm elm) (Elm listelm) s;
  prev ← prv s (Elm listelm);
  s ← set_nxt prev (Elm elm) s;
  set_prv (Elm listelm) (Elm elm) s.

Definition LIST_INSERT_HEAD (s : list_state) (elm : Z) : option list_state :=
  first ← nxt s End;
  s ← set_nxt (Elm elm) first s;
  s ← list_link_back first (Elm elm) s;
  s ← set_nxt End (Elm elm) s;
  set_prv (Elm elm) End s.

Definition LIST_REMOVE (s : list_state) (elm : Z) : option list_state :=
  next ← LIST_NEXT s elm;
  prev ← prv s (Elm elm);
  s ← list_link_back next prev s;
  prev ← prv s (Elm elm);
  next ← LIST_NEXT s elm;
  set_nxt prev next s.

Definition LIST_REPLACE (s : list_state) (elm elm2 : Z) : option list_state :=
  next ← LIST_NEXT s elm;
  s ← set_nxt (Elm elm2) next s;
  s ← list_link_back next (Elm elm2) s;
  prev ← prv s (Elm elm);
  s ← set_prv (Elm elm2) prev s;
  set_nxt prev (Elm elm2) s.

Definition LIST_FOREACH (fuel : nat) (s : list_state) : option (list Z) := FOREACH fuel (nxt s) (LIST_FIRST s).
Definition LIST_FOREACH_SAFE (fuel : nat) (body : Z -> list_state -> option list_state) (s : list_state) : option list_state :=
  FOREACH_SAFE fuel nxt body (LIST_FIRST s) s.

#[export] Instance family : Family list_state := {
  has o := match o with InsertHead _ | InsertAfter _ _ | InsertBefore _ _ | Remove _ | Replace _ _ => true | _ => false end;
  run o s := match o with
    | InsertHead elm => LIST_INSERT_HEAD s elm
    | InsertAfter listelm elm => LIST_INSERT_AFTER s listelm elm
    | InsertBefore listelm elm => LIST_INSERT_BEFORE s listelm elm
    | Remove elm => LIST_REMOVE s elm
    | Replace elm elm2 => LIST_REPLACE s elm elm2
    | _ => None
    end
}.

Lemma list_back_law s next p :
  is_Some (nxt s next) -> is_Some (nxt s p) ->
  exists s', list_link_back next p s = Some s' /\ (forall n, nxt s' n = nxt s n) /\
    (forall n, prv s' n = if decide (n = next) then if decide (n = End) then prv s n else Some p else prv s n).
Proof.
  intros Hne Hp. unfold list_link_back. destruct (decide (next = End)) as [->|Hnx].
  - exists s. split_and!; [done..|]. intros n. by repeat case_decide.
  - rewrite set_prev_elm by done. destruct (set_prv_law s next p) as (s' & E & _ & Hn & Hv); [done| |done..|].
    { cbn. by rewrite bool_decide_false. }
    exists s'. split_and!; [done..|]. intros n. rewrite Hv. repeat case_decide; congruence.
Qed.

(** Execute [list_link_back]. *)
Ltac back :=
  let s' := fresh "s" in let Hn := fresh "Hn" in let Hv := fresh "Hv" in
  match goal with |- context [list_link_back ?q ?p ?s] =>
    destruct (list_back_law s q p) as (s' & -> & Hn & Hv); [solve_cells|solve_cells|] end; cbn [mbind option_bind].

#[export] Instance family_laws : FamilyLaws list_state.
Proof.
  intros o l1 old l2 s Hh Hp Hw H Hx. around Hp H Hx.
  all: cbn [run family]; unfold LIST_INSERT_HEAD, LIST_INSERT_AFTER, LIST_INSERT_BEFORE, LIST_REMOVE, LIST_REPLACE, LIST_NEXT.
  all: repeat first [read|write|back]; finish.
Qed.

(** Doubly-linked lists refine lists: any history of operations on an empty one that is
    defined on lists, with linked elements for positions and unlinked ones to insert, follows
    no wild pointer, makes the list it should and touches the links of its elements only; what
    is iterated is the list, and removing the elements on the way leaves it empty. *)
Theorem list_refines D ops (s : list_state) l :
  (forall x, x ∈ D -> is_Some (elms s !! x)) -> (ops ≫= fresh) ⊆ D -> Forall (fun o => has o = true) ops -> specs ops [] = Some l ->
  exists s', runs ops (LIST_INIT s) = Some s' /\ ring s' l /\ same_but D s s' /\
    LIST_EMPTY s' = bool_decide (l = []) /\ LIST_FOREACH (length l) s' = Some l /\
    (forall l1 y l2, l = l1 ++ y :: l2 -> LIST_NEXT s' y = Some (after l2 End)) /\
    exists s2, LIST_FOREACH_SAFE (length l) (flip LIST_REMOVE) s' = Some s2 /\ LIST_EMPTY s2 = true.
Proof.
  intros HD Hx Hh Hs.
  destruct (family_refines D ops (LIST_INIT s) l Remove) as (s' & E & H & Hsm & (Hf & _ & Hn & Hfe & _) & s2 & E2 & H2);
    [done|done|done|intros x Hin; cbn; by apply fmap_is_Some, HD|done|done|done|apply spec_remove|done|done|].
  exists s'. injection Hf as Hf. unfold LIST_EMPTY, LIST_FOREACH, LIST_FOREACH_SAFE, LIST_FIRST. rewrite Hf, after_end.
  split_and!; [done..|intros l1 y l2 El; by apply (Hn l1)|].
  exists s2. split; [done|]. pose proof (ring_cut s2 [] [] H2) as [E0 _]. injection E0 as E0. by rewrite E0.
Qed.

(** Five elements, unlinked. *)
Definition sample : list_state := {| lh_first := End; elms := gset_to_gmap {| le_next := End; le_prev := End |} (list_to_set [1; 2; 3; 4; 5]) |}.

Lemma list_refines_witness :
  exists s', runs [InsertHead 1; InsertAfter 1 2; InsertBefore 1 3; Remove 1; Replace 3 4] (LIST_INIT sample) = Some s' /\ LIST_FOREACH 2 s' = Some [4; 2].
Proof.
  destruct (list_refines [1; 2; 3; 4; 5] [InsertHead 1; InsertAfter 1 2; InsertBefore 1 3; Remove 1; Replace 3 4] sample [4; 2]) as (s' & E & _ & _ & _ & Hf & _);
    [by apply Forall_forall, (bool_decide_unpack _); vm_compute|set_solver|repeat constructor|reflexivity|]. exists s'. split; [exact E|exact Hf].
Defined.

End Dlist.

(** ** Simple queues *)

Module Simpleq.

(** The macros, on the cells of any state that keeps a predecessor of the end only: the
    address of the last pointer. *)
Section macros.
Context {S : Type} {C : Cells S}.

Definition SIMPLEQ_INSERT_HEAD (s : S) (elm : Z) : option S :=
  first ← nxt s End;
  s ← set_nxt (Elm elm) first s;
  s ← (if decide (first = End) then set_prv End (Elm elm) s else Some s);
  set_nxt End (Elm elm) s.

Definition SIMPLEQ_INSERT_TAIL (s : S) (elm : Z) : option S :=
  s ← set_nxt (Elm elm) End s;
  last ← prv s End;
  s ← set_nxt last (Elm elm) s;
  set_prv End (Elm elm) s.

Definition SIMPLEQ_INSERT_AFTER (s : S) (listelm elm : Z) : option S :=
  next ← nxt s (Elm listelm);
  s ← set_nxt (Elm elm) next s;
  s ← (if decide (next = End) then set_prv End (Elm elm) s else Some s);
  set_nxt (Elm listelm) (Elm elm) s.

Definition SIMPLEQ_REMOVE_HEAD (s : S) : option S :=
  first ← nxt s End;
  next ← follow s first;
  s ← set_nxt End next s;
  if decide (next = End) then set_prv End End s else Some s.

Definition SIMPLEQ_REMOVE_AFTER (s : S) (elm : Z) : option S :=
  next ← nxt s (Elm elm);
  next ← follow s next;
  s ← set_nxt (Elm elm) next s;
  if decide (next = End) then set_prv End (Elm elm) s else Some s.

Definition SIMPLEQ_FOREACH (fuel : nat) (s : S) : option (list Z) := first ← nxt s End; FOREACH fuel (nxt s) first.
Definition SIMPLEQ_FOREACH_SAFE (fuel : nat) (body : Z -> S -> option S) (s : S) : option S :=
  first ← nxt s End; FOREACH_SAFE fuel nxt body first s.

Definition has_simpleq (o : op) : bool :=
  match o with InsertHead _ | InsertTail _ | InsertAfter _ _ | RemoveHead | RemoveAfter _ => true | _ => false end.

Definition run_simpleq (o : op) (s : S) : option S :=
  match o with
  | InsertHead elm => SIMPLEQ_INSERT_HEAD s elm
  | InsertTail elm => SIMPLEQ_INSERT_TAIL s elm
  | InsertAfter listelm elm => SIMPLEQ_INSERT_AFTER s listelm elm
  | RemoveHead => SIMPLEQ_REMOVE_HEAD s
  | RemoveAfter elm => SIMPLEQ_REMOVE_AFTER s elm
  | _ => None
  end.

Context {L : CellsLaws S} (Hkept : forall p, kept p = bool_decide (p = End)).

Lemma set_last_law s v : wf s -> is_Some (nxt s v) -> exists s', set_prv End v s = Some s' /\ wf s' /\
  (forall n, nxt s' n = nxt s n) /\ (forall n, prv s' n = if decide (n = End) then Some v else prv s n).
Proof. intros Hw Hv. apply set_prv_law; [done|by rewrite Hkept|apply nxt_end|done]. Qed.

(** Execute a write to the last pointer. *)
Ltac write_last :=
  let s' := fresh "s" in let Hw := fresh "Hw" in let Hn := fresh "Hn" in let Hv := fresh "Hv" in
  match goal with |- context [set_prv End ?v ?s] => destruct (set_last_law s v) as (s' & -> & Hw & Hn & Hv); [done|solve_cells|] end; cbn [mbind option_bind].

Lemma simpleq_law o l1 old l2 s :
  has_simpleq o = true -> splices o l1 old l2 -> wf s -> ring s (l1 ++ old ++ l2) ->
  (forall x, x ∈ fresh o -> x ∉ l1 ++ old ++ l2 /\ is_Some (nxt s (Elm x))) ->
  exists s', run_simpleq o s = Some s' /\ spliced s s' l1 (fresh o) l2.
Proof.
  assert (kept End = true) as Hk by (by rewrite Hkept). intros Hh Hp Hw H Hx. around Hp H Hx.
  all: try specialize (HBv Hk); try specialize (HAv Hk).
  all: cbn [run_simpleq]; unfold SIMPLEQ_INSERT_HEAD, SIMPLEQ_INSERT_TAIL, SIMPLEQ_INSERT_AFTER, SIMPLEQ_REMOVE_HEAD, SIMPLEQ_REMOVE_AFTER.
  all: repeat first [branch|read|write|write_last].
  all: eexists; (split; [done|]); first [apply spliced_one|apply spliced_none]; rewrite ?before_snoc, ?EA; unfold linked; rewrite ?Hkept; solve_cells.
Qed.

End macros.

(** [sqh_last] is the address of the last pointer: of the one of the head or of an element. *)
Record simpleq_state := { sqh_first : ptr; sqh_last : ptr; elms : gmap Z ptr }.

Definition simpleq_nxt (s : simpleq_state) (p : ptr) : option ptr :=
  match p with End => Some (sqh_first s) | Elm a => elms s !! a end.
Definition simpleq_prv (s : simpleq_state) (p : ptr) : option ptr :=
  match p with End => Some (sqh_last s) | Elm _ => None end.
Definition simpleq_set_nxt (p v : ptr) (s : simpleq_state) : option simpleq_state :=
  match p with
  | End => Some {| sqh_first := v; sqh_last := sqh_last s; elms := elms s |}
  | Elm a => _ ← elms s !! a; Some {| sqh_first := sqh_first s; sqh_last := sqh_last s; elms := <[a := v]> (elms s) |}
  end.
Definition simpleq_set_prv (p v : ptr) (s : simpleq_state) : option simpleq_state :=
  match p with End => Some {| sqh_first := sqh_first s; sqh_last := v; elms := elms s |} | Elm _ => None end.

#[export] Instance cells : Cells simpleq_state := {
  nxt := simpleq_nxt; prv := simpleq_prv; kept p := bool_decide (p = End); wf _ := True; set_nxt := simpleq_set_nxt; set_prv := simpleq_set_prv
}.

#[export] Instance cells_laws : CellsLaws simpleq_state.
Proof.
  constructor.
  - intros s. by eexists.
  - intros s [|a]; [by eexists|]. cbn. by rewrite bool_decide_false.
  - intros s [|a] v _ [e He] _; [eexists; split; [done|]; split; [done|]; split; intros [|b]; try done; by rewrite decide_False|].
    cbn in *. rewrite He. eexists. split; [done|]. split; [done|]. split; intros [|b]; cbn; try done.
    destruct (decide (b = a)) as [->|Hne]; [by rewrite lookup_insert_eq, decide_True|by rewrite lookup_insert_ne, decide_False by congruence].
  - intros s [|a] v _ Hk _ _; [|cbn in Hk; by rewrite bool_decide_false in Hk].
    eexists. split; [done|]. split; [done|]. split; intros [|b]; try done; by rewrite decide_False.
Qed.

Definition SIMPLEQ_INIT (s : simpleq_state) : simpleq_state := {| sqh_first := End; sqh_last := End; elms := elms s |}.
Definition SIMPLEQ_FIRST (s : simpleq_state) : ptr := sqh_first s.
Definition SIMPLEQ_EMPTY (s : simpleq_state) : bool := bool_decide (SIMPLEQ_FIRST s = End).
Definition SIMPLEQ_NEXT (s : simpleq_state) (elm : Z) : option ptr := nxt s (Elm elm).

#[export] Instance family : Family simpleq_state := { has := has_simpleq; run := run_simpleq }.

#[export] Instance family_laws : FamilyLaws simpleq_state.
Proof. intros o l1 old l2 s. by apply simpleq_law. Qed.

(** Simple queues refine lists, in the same way. *)
Theorem simpleq_refines D ops (s : simpleq_state) l :
  (forall x, x ∈ D -> is_Some (elms s !! x)) -> (ops ≫= fresh) ⊆ D -> Forall (fun o => has o = true) ops -> specs ops [] = Some l ->
  exists s', runs ops (SIMPLEQ_INIT s) = Some s' /\ ring s' l /\ same_but D s s' /\
    SIMPLEQ_EMPTY s' = bool_decide (l = []) /\ SIMPLEQ_FOREACH (length l) s' = Some l /\
    (forall l1 y l2, l = l1 ++ y :: l2 -> SIMPLEQ_NEXT s' y = Some (after l2 End)) /\
    exists s2, SIMPLEQ_FOREACH_SAFE (length l) (fun _ => SIMPLEQ_REMOVE_HEAD) s' = Some s2 /\ SIMPLEQ_EMPTY s2 = true.
Proof.
  intros HD Hx Hh Hs.
  destruct (family_refines D ops (SIMPLEQ_INIT s) l (fun _ => RemoveHead)) as (s' & E & H & Hsm & (Hf & _ & Hn & Hfe & _) & s2 & E2 & H2);
    [done|done|done|done|done|done|done|done|done|done|].
  exists s'. unfold SIMPLEQ_FOREACH, SIMPLEQ_FOREACH_SAFE. rewrite Hf. injection Hf as Hf. unfold SIMPLEQ_EMPTY, SIMPLEQ_FIRST. rewrite Hf, after_end.
  split_and!; [done..|intros l1 y l2 El; by apply (Hn l1)|].
  exists s2. split; [done|]. pose proof (ring_cut s2 [] [] H2) as [E0 _]. injection E0 as E0. by rewrite E0.
Qed.

(** Five elements, unlinked. *)
Definition sample : simpleq_state := {| sqh_first := End; sqh_last := End; elms := gset_to_gmap End (list_to_set [1; 2; 3; 4; 5]) |}.

Lemma simpleq_refines_witness :
  exists s', runs [InsertTail 1; InsertHead 2; InsertAfter 1 3; RemoveAfter 2; InsertTail 4; RemoveHead] (SIMPLEQ_INIT sample) = Some s' /\
    SIMPLEQ_FOREACH 2 s' = Some [3; 4].
Proof.
  destruct (simpleq_refines [1; 2; 3; 4] [InsertTail 1; InsertHead 2; InsertAfter 1 3; RemoveAfter 2; InsertTail 4; RemoveHead] sample [3; 4])
    as (s' & E & _ & _ & _ & Hf & _);
    [by apply Forall_forall, (bool_decide_unpack _); vm_compute|set_solver|repeat constructor|reflexivity|]. exists s'. split; [exact E|exact Hf].
Defined.

End Simpleq.

(** ** Simple queues with hidden pointers *)

Module Xsimpleq.

(** The exclusive or of two words is a word. *)
Definition XSIMPLEQ_XOR (cookie ptr : Z) : Z := Z.lxor cookie ptr.

Record xsimpleq_state := { sqx_first : Z; sqx_last : Z; sqx_cookie : Z; elms : gmap Z Z }.

Definition xor (s : xsimpleq_state) (z : Z) : Z := XSIMPLEQ_XOR (sqx_cookie s) z.

Definition set_first (v : Z) (s : xsimpleq_state) : xsimpleq_state := {| sqx_first := v; sqx_last := sqx_last s; sqx_cookie := sqx_cookie s; elms := elms s |}.
Definition set_last (v : Z) (s : xsimpleq_state) : xsimpleq_state := {| sqx_first := sqx_first s; sqx_last := v; sqx_cookie := sqx_cookie s; elms := elms s |}.

(** The link of the element at an address. *)
Definition link (s : xsimpleq_state) (elm : Z) : option Z := elms s !! elm.
Definition set_link (elm v : Z) (s : xsimpleq_state) : option xsimpleq_state :=
  _ ← link s elm; Some {| sqx_first := sqx_first s; sqx_last := sqx_last s; sqx_cookie := sqx_cookie s; elms := <[elm := v]> (elms s) |}.

Section addresses.
(** The address of the head, whose first member is [sqx_first], and the offset of the link in
    an element. *)
Variables head field : Z.

(** [*p = v]. *)
Definition store (p v : Z) (s : xsimpleq_state) : option xsimpleq_state :=
  if decide (p = head) then Some (set_first v s) else set_link (p - field) v s.

Definition XSIMPLEQ_INIT (sqx_cookie : Z) (s : xsimpleq_state) : xsimpleq_state :=
  {| sqx_first := XSIMPLEQ_XOR sqx_cookie 0; sqx_last := XSIMPLEQ_XOR sqx_cookie head; sqx_cookie := sqx_cookie; elms := elms s |}.

Definition XSIMPLEQ_FIRST (s : xsimpleq_state) : Z := xor s (sqx_first s).
Definition XSIMPLEQ_EMPTY (s : xsimpleq_state) : bool := XSIMPLEQ_FIRST s =? 0.
Definition XSIMPLEQ_NEXT (s : xsimpleq_state) (elm : Z) : option Z := xor s <$> link s elm.

Definition XSIMPLEQ_INSERT_HEAD (s : xsimpleq_state) (elm : Z) : option xsimpleq_state :=
  s ← set_link elm (sqx_first s) s;
  let s := if sqx_first s =? xor s 0 then set_last (xor s (elm + field)) s else s in
  Some (set_first (xor s elm) s).

Definition XSIMPLEQ_INSERT_TAIL (s : xsimpleq_state) (elm : Z) : option xsimpleq_state :=
  s ← set_link elm (xor s 0) s;
  s ← store (xor s (sqx_last s)) (xor s elm) s;
  Some (set_last (xor s (elm + field)) s).

Definition XSIMPLEQ_INSERT_AFTER (s : xsimpleq_state) (listelm elm : Z) : option xsimpleq_state :=
  next ← link s listelm;
  s ← set_link elm next s;
  let s := if next =? xor s 0 then set_last (xor s (elm + field)) s else s in
  set_link listelm (xor s elm) s.

Definition XSIMPLEQ_REMOVE_HEAD (s : xsimpleq_state) : option xsimpleq_state :=
  next ← link s (XSIMPLEQ_FIRST s);
  let s := set_first next s in
  Some (if next =? xor s 0 then set_last (xor s head) s else s).

Definition XSIMPLEQ_REMOVE_AFTER (s : xsimpleq_state) (elm : Z) : option xsimpleq_state :=
  next ← XSIMPLEQ_NEXT s elm;
  next ← link s next;
  s ← set_link elm next s;
  Some (if next =? xor s 0 then set_last (xor s (elm + field)) s else s).

(** [NULL] or an element, and the address of a pointer. *)
Definition to_ptr (z : Z) : ptr := if z =? 0 then End else Elm z.
Definition of_ptr (p : ptr) : Z := match p with End => 0 | Elm a => a end.
Definition to_slot (z : Z) : ptr := if z =? head then End else Elm (z - field).
Definition of_slot (p : ptr) : Z := match p with End => head | Elm a => a + field end.

Definition xsimpleq_nxt (s : xsimpleq_state) (p : ptr) : option ptr :=
  match p with End => Some (to_ptr (XSIMPLEQ_FIRST s)) | Elm a => to_ptr <$> XSIMPLEQ_NEXT s a end.
Definition xsimpleq_prv (s : xsimpleq_state) (p : ptr) : option ptr :=
  match p with End => Some (to_slot (xor s (sqx_last s))) | Elm _ => None end.
Definition xsimpleq_set_nxt (p v : ptr) (s : xsimpleq_state) : option xsimpleq_state :=
  match p with End => Some (set_first (xor s (of_ptr v)) s) | Elm a => set_link a (xor s (of_ptr v)) s end.
Definition xsimpleq_set_prv (p v : ptr) (s : xsimpleq_state) : option xsimpleq_state :=
  match p with End => Some (set_last (xor s (of_slot v)) s) | Elm _ => None end.

(** No element is at NULL, none has its link where the head is. *)
Definition placed (s : xsimpleq_state) : Prop := forall a, is_Some (elms s !! a) -> a <> 0 /\ a + field <> head.

Instance cells : Cells xsimpleq_state := {
  nxt := xsimpleq_nxt; prv := xsimpleq_prv; kept p := bool_decide (p = End); wf := placed; set_nxt := xsimpleq_set_nxt; set_prv := xsimpleq_set_prv
}.

Lemma xor_xor s z : xor s (xor s z) = z.
Proof. unfold xor, XSIMPLEQ_XOR. by rewrite <- Z.lxor_assoc, Z.lxor_nilpotent, Z.lxor_0_l. Qed.

Lemma xor_null s z : (z =? xor s 0) = (xor s z =? 0).
Proof.
  apply eq_true_iff_eq. rewrite !Z.eqb_eq. split; [intros ->; apply xor_xor|]. intros E. by rewrite <- E, xor_xor.
Qed.

Lemma of_to_ptr z : of_ptr (to_ptr z) = z.
Proof. unfold to_ptr. by destruct (Z.eqb_spec z 0). Qed.

Lemma to_ptr_end z : bool_decide (to_ptr z = End) = (z =? 0).
Proof. unfold to_ptr. by destruct (Z.eqb_spec z 0). Qed.

(** Pointers of the queue survive the hiding. *)
Lemma to_of_ptr s v : placed s -> is_Some (xsimpleq_nxt s v) -> to_ptr (of_ptr v) = v.
Proof.
  intros Hw Hv. destruct v as [|a]; [done|]. unfold to_ptr. cbn [of_ptr]. rewrite (proj2 (Z.eqb_neq a 0)); [done|].
  apply (Hw a). cbn in Hv. unfold XSIMPLEQ_NEXT, link in Hv. by apply fmap_is_Some, fmap_is_Some in Hv.
Qed.

Lemma to_of_slot s v : placed s -> is_Some (xsimpleq_nxt s v) -> to_slot (of_slot v) = v.
Proof.
  intros Hw Hv. destruct v as [|a]; unfold to_slot; cbn [of_slot]; [by rewrite Z.eqb_refl|]. rewrite (proj2 (Z.eqb_neq _ head)); [f_equal; lia|].
  apply (Hw a). cbn in Hv. unfold XSIMPLEQ_NEXT, link in Hv. by apply fmap_is_Some, fmap_is_Some in Hv.
Qed.

Instance cells_laws : CellsLaws xsimpleq_state.
Proof.
  constructor.
  - intros s. by eexists.
  - intros s [|a]; [by eexists|]. cbn. by rewrite bool_decide_false.
  - intros s p v Hw Hp Hv. pose proof (to_of_ptr s v Hw Hv) as Ev. destruct p as [|a].
    + eexists. split; [done|]. split; [done|]. split; intros [|b]; try done.
      change (Some (to_ptr (xor s (xor s (of_ptr v)))) = Some v). by rewrite xor_xor, Ev.
    + cbn in Hp. apply fmap_is_Some, fmap_is_Some in Hp as [e He]. cbn [set_nxt cells xsimpleq_set_nxt]. unfold set_link. rewrite He. eexists. split; [done|].
      split. { intros b [e' Hb]. cbn in Hb. destruct (decide (b = a)) as [->|Hne]; [apply Hw; by eexists|]. rewrite lookup_insert_ne in Hb by done. apply Hw. by eexists. }
      split; intros [|b]; try done. cbn [nxt xsimpleq_nxt cells]. unfold XSIMPLEQ_NEXT, link. cbn [elms].
      destruct (decide (b = a)) as [->|Hne]; [rewrite lookup_insert_eq, decide_True by done|by rewrite lookup_insert_ne, decide_False by congruence].
      change (Some (to_ptr (xor s (xor s (of_ptr v)))) = Some v). by rewrite xor_xor, Ev.
  - intros s [|a] v Hw Hk _ Hv; [|cbn in Hk; by rewrite bool_decide_false in Hk]. eexists. split; [done|]. split; [done|].
    split; intros [|b]; try done. change (Some (to_slot (xor s (xor s (of_slot v)))) = Some v). by rewrite xor_xor, (to_of_slot s v Hw Hv).
Qed.

(** *** The macros are those of simple queues, on the pointers that are hidden *)

Ltac unhide := cbn [nxt prv set_nxt set_prv cells xsimpleq_nxt xsimpleq_prv xsimpleq_set_nxt xsimpleq_set_prv follow fmap option_fmap option_map mbind option_bind of_ptr of_slot].

Lemma next_decode s z : XSIMPLEQ_FIRST (set_first z s) = xor s z.
Proof. done. Qed.

Lemma decide_end {B} z (x y : B) s : (if decide (to_ptr (xor s z) = End) then x else y) = if z =? xor s 0 then x else y.
Proof.
  rewrite xor_null, <- to_ptr_end. by destruct (decide _) as [E|E]; [rewrite bool_decide_true|rewrite bool_decide_false].
Qed.

Lemma xor_of_to s z : xor s (of_ptr (to_ptr (xor s z))) = z.
Proof. by rewrite of_to_ptr, xor_xor. Qed.

Lemma insert_head_simpleq s elm : XSIMPLEQ_INSERT_HEAD s elm = Simpleq.SIMPLEQ_INSERT_HEAD s elm.
Proof.
  unfold XSIMPLEQ_INSERT_HEAD, Simpleq.SIMPLEQ_INSERT_HEAD. unhide. unfold XSIMPLEQ_FIRST. rewrite xor_of_to. unfold set_link.
  destruct (link s elm) as [e|]; [|done]. cbn [mbind option_bind sqx_first]. change (xor {| sqx_first := _ |}) with (xor s). rewrite decide_end.
  by destruct (_ =? _).
Qed.

(** Writing to an address. *)
Lemma store_slot z v s : store z v s = match to_slot z with End => Some (set_first v s) | Elm a => set_link a v s end.
Proof.
  unfold store, to_slot. destruct (Z.eqb_spec z head); [by rewrite decide_True|by rewrite decide_False].
Qed.

Lemma insert_tail_simpleq s elm : XSIMPLEQ_INSERT_TAIL s elm = Simpleq.SIMPLEQ_INSERT_TAIL s elm.
Proof.
  unfold XSIMPLEQ_INSERT_TAIL, Simpleq.SIMPLEQ_INSERT_TAIL. unhide. unfold set_link. destruct (link s elm) as [e|]; [|done].
  cbn [mbind option_bind sqx_last]. rewrite store_slot. change (xor {| sqx_first := _ |}) with (xor s). destruct (to_slot _) as [|a]; [done|].
  cbn [xsimpleq_set_nxt]. unfold set_link. destruct (link _ a); done.
Qed.

Lemma insert_after_simpleq s listelm elm : XSIMPLEQ_INSERT_AFTER s listelm elm = Simpleq.SIMPLEQ_INSERT_AFTER s listelm elm.
Proof.
  unfold XSIMPLEQ_INSERT_AFTER, Simpleq.SIMPLEQ_INSERT_AFTER. unhide. unfold XSIMPLEQ_NEXT. destruct (link s listelm) as [z|]; [|done].
  unhide. rewrite xor_of_to. unfold set_link. destruct (link s elm) as [e|]; [|done]. cbn [mbind option_bind].
  change (xor {| sqx_first := _ |}) with (xor s). rewrite decide_end. by destruct (z =? xor s 0).
Qed.

Lemma remove_head_simpleq s : XSIMPLEQ_FIRST s <> 0 -> XSIMPLEQ_REMOVE_HEAD s = Simpleq.SIMPLEQ_REMOVE_HEAD s.
Proof.
  intros H0. unfold XSIMPLEQ_REMOVE_HEAD, Simpleq.SIMPLEQ_REMOVE_HEAD. unhide. unfold to_ptr at 1. rewrite (proj2 (Z.eqb_neq (XSIMPLEQ_FIRST s) 0)) by done. cbn [follow].
  unhide. unfold XSIMPLEQ_NEXT. destruct (link s (XSIMPLEQ_FIRST s)) as [z|]; [|done]. unhide. rewrite xor_of_to.
  change (xor (set_first z s)) with (xor s). rewrite decide_end. by destruct (z =? xor s 0).
Qed.

Lemma remove_after_simpleq s elm : XSIMPLEQ_NEXT s elm <> Some 0 -> XSIMPLEQ_REMOVE_AFTER s elm = Simpleq.SIMPLEQ_REMOVE_AFTER s elm.
Proof.
  intros H0. unfold XSIMPLEQ_REMOVE_AFTER, Simpleq.SIMPLEQ_REMOVE_AFTER. unhide. destruct (XSIMPLEQ_NEXT s elm) as [z|]; [|done].
  unhide. unfold to_ptr at 1. rewrite (proj2 (Z.eqb_neq z 0)) by congruence. cbn [follow]. unhide. unfold XSIMPLEQ_NEXT.
  destruct (link s z) as [z2|]; [|done]. unhide. rewrite xor_of_to. unfold set_link. destruct (link s elm); [|done]. cbn [mbind option_bind].
  change (xor {| sqx_first := _ |}) with (xor s). rewrite decide_end. by destruct (z2 =? xor s 0).
Qed.

Definition XSIMPLEQ_FOREACH (fuel : nat) (s : xsimpleq_state) : option (list Z) := FOREACH fuel (xsimpleq_nxt s) (to_ptr (XSIMPLEQ_FIRST s)).

Definition XSIMPLEQ_FOREACH_SAFE (fuel : nat) (body : Z -> xsimpleq_state -> option xsimpleq_state) (s : xsimpleq_state) : option xsimpleq_state :=
  FOREACH_SAFE fuel xsimpleq_nxt body (to_ptr (XSIMPLEQ_FIRST s)) s.

Definition run_xsimpleq (o : op) (s : xsimpleq_state) : option xsimpleq_state :=
  match o with
  | InsertHead elm => XSIMPLEQ_INSERT_HEAD s elm
  | InsertTail elm => XSIMPLEQ_INSERT_TAIL s elm
  | InsertAfter listelm elm => XSIMPLEQ_INSERT_AFTER s listelm elm
  | RemoveHead => XSIMPLEQ_REMOVE_HEAD s
  | RemoveAfter elm => XSIMPLEQ_REMOVE_AFTER s elm
  | _ => None
  end.

Instance family : Family xsimpleq_state := { has := Simpleq.has_simpleq; run := run_xsimpleq }.

Instance family_laws : FamilyLaws xsimpleq_state.
Proof.
  intros o l1 old l2 s Hh Hp Hw H Hx.
  destruct (Simpleq.simpleq_law (C := cells) (fun _ => eq_refl) o l1 old l2 s Hh Hp Hw H Hx) as (s' & E & Hs). exists s'. split; [|done]. rewrite <- E.
  destruct Hp; try done; cbn [run family run_xsimpleq Simpleq.run_simpleq].
  - apply insert_head_simpleq.
  - apply insert_tail_simpleq.
  - apply insert_after_simpleq.
  - apply remove_head_simpleq. intros E0. destruct (element_facts s [] l a H) as ([HB _] & _). cbn in HB. by rewrite E0 in HB.
  - apply remove_after_simpleq. intros E0. destruct (element_facts s (l1 ++ [y]) l2 a H) as ([HB _] & _). rewrite before_snoc in HB.
    cbn in HB. by rewrite E0 in HB.
Qed.

(** Simple queues with hidden pointers refine lists, whatever the cookie is, as long as the
    elements and the head are at different addresses and none is at NULL: the macros are
    those of simple queues on the pointers that are hidden. *)
Theorem xsimpleq_refines D ops cookie (s : xsimpleq_state) l :
  placed s -> (forall x, x ∈ D -> is_Some (elms s !! x)) -> (ops ≫= fresh) ⊆ D -> Forall (fun o => has o = true) ops -> specs ops [] = Some l ->
  exists s', runs ops (XSIMPLEQ_INIT cookie s) = Some s' /\ ring s' l /\
    XSIMPLEQ_EMPTY s' = bool_decide (l = []) /\ XSIMPLEQ_FOREACH (length l) s' = Some l /\
    (forall l1 y l2, l = l1 ++ y :: l2 -> XSIMPLEQ_NEXT s' y = Some (of_ptr (after l2 End))) /\
    exists s2, XSIMPLEQ_FOREACH_SAFE (length l) (fun _ => XSIMPLEQ_REMOVE_HEAD) s' = Some s2 /\ XSIMPLEQ_EMPTY s2 = true.
Proof.
  intros Hw HD Hx Hh Hs. set (s0 := XSIMPLEQ_INIT cookie s). assert (XSIMPLEQ_FIRST s0 = 0) as E0 by apply xor_xor.
  destruct (family_refines D ops s0 l (fun _ => RemoveHead)) as (s' & E & H & _ & (Hf & _ & Hn & Hfe & _) & s2 & E2 & H2);
    [done|cbn; by rewrite E0| |intros x Hin; apply fmap_is_Some, fmap_is_Some, HD, Hin|done|done|done|done|done|done|].
  { intros _. change (Some (to_slot (xor s0 (xor s0 head))) = Some End). rewrite xor_xor. unfold to_slot. by rewrite Z.eqb_refl. }
  exists s'. injection Hf as Hf. unfold XSIMPLEQ_EMPTY, XSIMPLEQ_FOREACH, XSIMPLEQ_FOREACH_SAFE. rewrite Hf, <- to_ptr_end, Hf, after_end.
  split_and!; [done..| |].
  - intros l1 y l2 El. destruct (Hn l1 y l2 El) as [Hy _]. cbn in Hy. destruct (XSIMPLEQ_NEXT s' y) as [z|]; [|done]. injection Hy as <-. by rewrite of_to_ptr.
  - exists s2. split; [done|]. pose proof (ring_cut s2 [] [] H2) as [E3 _]. injection E3 as E3. by rewrite <- to_ptr_end, E3.
Qed.

End addresses.

(** Four elements, whose links are at their addresses. *)
Definition sample : xsimpleq_state := {| sqx_first := 0; sqx_last := 0; sqx_cookie := 0; elms := gset_to_gmap 0 (list_to_set [16; 32; 48; 64]) |}.

Lemma xsimpleq_refines_witness :
  exists s', runs (F := family 8 0) [InsertTail 16; InsertHead 32; InsertAfter 16 48; RemoveAfter 32; InsertTail 64; RemoveHead]
      (XSIMPLEQ_INIT 8 12345 sample) = Some s' /\ XSIMPLEQ_FOREACH 2 s' = Some [48; 64].
Proof.
  destruct (xsimpleq_refines 8 0 [16; 32; 48; 64] [InsertTail 16; InsertHead 32; InsertAfter 16 48; RemoveAfter 32; InsertTail 64; RemoveHead] 12345 sample [48; 64])
    as (s' & E & _ & _ & Hf & _);
    [|by apply Forall_forall, (bool_decide_unpack _); vm_compute|set_solver|repeat constructor|reflexivity|exists s'; split; [exact E|exact Hf]].
  intros a [v [Hin%elem_of_list_to_set _]%lookup_gset_to_gmap_Some]. rewrite !elem_of_cons in Hin. destruct_or!; subst; try lia. by apply elem_of_nil in Hin.
Defined.

End Xsimpleq.

(** ** Circular queues *)

Module Circleq.

Record circleq_entry := { cqe_next : ptr; cqe_prev : ptr }.
Record circleq_state := { cqh_first : ptr; cqh_last : ptr; elms : gmap Z circleq_entry }.

Definition circleq_nxt (s : circleq_state) (p : ptr) : option ptr :=
  match p with End => Some (cqh_first s) | Elm a => cqe_next <$> elms s !! a end.
Definition circleq_prv (s : circleq_state) (p : ptr) : option ptr :=
  match p with End => Some (cqh_last s) | Elm a => cqe_prev <$> elms s !! a end.
Definition circleq_set_nxt (p v : ptr) (s : circleq_state) : option circleq_state :=
  match p with
  | End => Some {| cqh_first := v; cqh_last := cqh_last s; elms := elms s |}
  | Elm a => e ← elms s !! a; Some {| cqh_first := cqh_first s; cqh_last := cqh_last s; elms := <[a := {| cqe_next := v; cqe_prev := cqe_prev e |}]> (elms s) |}
  end.
Definition circleq_set_prv (p v : ptr) (s : circleq_state) : option circleq_state :=
  match p with
  | End => Some {| cqh_first := cqh_first s; cqh_last := v; elms := elms s |}
  | Elm a => e ← elms s !! a; Some {| cqh_first := cqh_first s; cqh_last := cqh_last s; elms := <[a := {| cqe_next := cqe_next e; cqe_prev := v |}]> (elms s) |}
  end.

#[export] Instance cells : Cells circleq_state := {
  nxt := circleq_nxt; prv := circleq_prv; kept _ := true; wf _ := True; set_nxt := circleq_set_nxt; set_prv := circleq_set_prv
}.

#[export] Instance cells_laws : CellsLaws circleq_state.
Proof.
  constructor.
  - intros s. by eexists.
  - intros s [|a] _ Ha; [by eexists|]. cbn in *. apply fmap_is_Some. by apply fmap_is_Some in Ha.
  - intros s [|a] v _ [e He] _; [eexists; split; [done|]; split; [done|]; split; intros [|b]; try done; by rewrite decide_False|].
    cbn in *. destruct (elms s !! a) as [e'|] eqn:Ea; [|done]. eexists. split; [done|]. split; [done|].
    split; intros [|b]; cbn; try done; destruct (decide (b = a)) as [->|Hne].
    + by rewrite lookup_insert_eq, decide_True.
    + by rewrite lookup_insert_ne, decide_False by congruence.
    + by rewrite lookup_insert_eq, Ea.
    + by rewrite lookup_insert_ne by congruence.
  - intros s [|a] v _ _ [e He] _; [eexists; split; [done|]; split; [done|]; split; intros [|b]; try done; by rewrite decide_False|].
    cbn in *. destruct (elms s !! a) as [e'|] eqn:Ea; [|done]. eexists. split; [done|]. split; [done|].
    split; intros [|b]; cbn; try done; destruct (decide (b = a)) as [->|Hne].
    + by rewrite lookup_insert_eq, Ea.
    + by rewrite lookup_insert_ne by congruence.
    + by rewrite lookup_insert_eq, decide_True.
    + by rewrite lookup_insert_ne, decide_False by congruence.
Qed.

Definition CIRCLEQ_INIT (s : circleq_state) : circleq_state := {| cqh_first := End; cqh_last := End; elms := elms s |}.
Definition CIRCLEQ_FIRST (s : circleq_state) : ptr := cqh_first s.
Definition CIRCLEQ_LAST (s : circleq_state) : ptr := cqh_last s.
Definition CIRCLEQ_EMPTY (s : circleq_state) : bool := bool_decide (CIRCLEQ_FIRST s = End).
Definition CIRCLEQ_NEXT (s : circleq_state) (elm : Z) : option ptr := nxt s (Elm elm).
Definition CIRCLEQ_PREV (s : circleq_state) (elm : Z) : option ptr := prv s (Elm elm).

(** [if (next == CIRCLEQ_END(head)) head->cqh_last = p; else next->prev = p], and its mirror image. *)
Definition circleq_link_back (next p : ptr) (s : circleq_state) : option circleq_state :=
  if decide (next = End) then set_prv End p s else set_prev next p s.
Definition circleq_link_forth (prev p : ptr) (s : circleq_state) : option circleq_state :=
  if decide (prev = End) then set_nxt End p s else set_next prev p s.

Definition CIRCLEQ_INSERT_AFTER (s : circleq_state) (listelm elm : Z) : option circleq_state :=
  next ← CIRCLEQ_NEXT s listelm;
  s ← set_nxt (Elm elm) next s;
  s ← set_prv (Elm elm) (Elm listelm) s;
  next ← CIRCLEQ_NEXT s listelm;
  s ← circleq_link_back next (Elm elm) s;
  set_nxt (Elm listelm) (Elm elm) s.

Definition CIRCLEQ_INSERT_BEFORE (s : circleq_state) (listelm elm : Z) : option circleq_state :=
  s ← set_nxt (Elm elm) (Elm listelm) s;
  prev ← CIRCLEQ_PREV s listelm;
  s ← set_prv (Elm elm) prev s;
  prev ← CIRCLEQ_PREV s listelm;
  s ← circleq_link_forth prev (Elm elm) s;
  set_prv (Elm listelm) (Elm elm) s.

Definition CIRCLEQ_INSERT_HEAD (s : circleq_state) (elm : Z) : option circleq_state :=
  first ← nxt s End;
  s ← set_nxt (Elm elm) first s;
  s ← set_prv (Elm elm) End s;
  last ← prv s End;
  first ← nxt s End;
  s ← (if decide (last = End) then set_prv End (Elm elm) s else set_prev first (Elm elm) s);
  set_nxt End (Elm elm) s.

Definition CIRCLEQ_INSERT_TAIL (s : circleq_state) (elm : Z) : option circleq_state :=
  s ← set_nxt (Elm elm) End s;
  last ← prv s End;
  s ← set_prv (Elm elm) last s;
  first ← nxt s End;
  last ← prv s End;
  s ← (if decide (first = End) then set_nxt End (Elm elm) s else set_next last (Elm elm) s);
  set_prv End (Elm elm) s.

Definition CIRCLEQ_REMOVE (s : circleq_state) (elm : Z) : option circleq_state :=
  next ← CIRCLEQ_NEXT s elm;
  prev ← CIRCLEQ_PREV s elm;
  s ← circleq_link_back next prev s;
  prev ← CIRCLEQ_PREV s elm;
  next ← CIRCLEQ_NEXT s elm;
  circleq_link_forth prev next s.

Definition CIRCLEQ_REPLACE (s : circleq_state) (elm elm2 : Z) : option circleq_state :=
  next ← CIRCLEQ_NEXT s elm;
  s ← set_nxt (Elm elm2) next s;
  s ← circleq_link_back next (Elm elm2) s;
  prev ← CIRCLEQ_PREV s elm;
  s ← set_prv (Elm elm2) prev s;
  circleq_link_forth prev (Elm elm2) s.

Definition CIRCLEQ_FOREACH (fuel : nat) (s : circleq_state) : option (list Z) := FOREACH fuel (nxt s) (CIRCLEQ_FIRST s).
Definition CIRCLEQ_FOREACH_REVERSE (fuel : nat) (s : circleq_state) : option (list Z) := FOREACH fuel (prv s) (CIRCLEQ_LAST s).
Definition CIRCLEQ_FOREACH_SAFE (fuel : nat) (body : Z -> circleq_state -> option circleq_state) (s : circleq_state) : option circleq_state :=
  FOREACH_SAFE fuel nxt body (CIRCLEQ_FIRST s) s.

#[export] Instance family : Family circleq_state := {
  has o := match o with RemoveHead | RemoveAfter _ => false | _ => true end;
  run o s := match o with
    | InsertHead elm => CIRCLEQ_INSERT_HEAD s elm
    | InsertTail elm => CIRCLEQ_INSERT_TAIL s elm
    | InsertAfter listelm elm => CIRCLEQ_INSERT_AFTER s listelm elm
    | InsertBefore listelm elm => CIRCLEQ_INSERT_BEFORE s listelm elm
    | Remove elm => CIRCLEQ_REMOVE s elm
    | Replace elm elm2 => CIRCLEQ_REPLACE s elm elm2
    | RemoveHead | RemoveAfter _ => None
    end
}.

Lemma circleq_back_eq next p s : circleq_link_back next p s = set_prv next p s.
Proof. unfold circleq_link_back. case_decide as E; [by rewrite E|by apply set_prev_elm]. Qed.

Lemma circleq_forth_eq prev p s : circleq_link_forth prev p s = set_nxt prev p s.
Proof. unfold circleq_link_forth. case_decide as E; [by rewrite E|by destruct prev]. Qed.

#[export] Instance family_laws : FamilyLaws circleq_state.
Proof.
  intros o l1 old l2 s Hh Hp Hw H Hx. around Hp H Hx.
  all: cbn [run family]; unfold CIRCLEQ_INSERT_HEAD, CIRCLEQ_INSERT_TAIL, CIRCLEQ_INSERT_AFTER, CIRCLEQ_INSERT_BEFORE, CIRCLEQ_REMOVE, CIRCLEQ_REPLACE, CIRCLEQ_NEXT, CIRCLEQ_PREV.
  1, 2: destruct (ring_ends s l H) as [(-> & HF & HL)|(a' & b & Ea & Eb & HF & HL)]; try done; specialize (HL eq_refl); try congruence.
  3: assert (ring s l) as H' by (by rewrite app_nil_r in H); destruct (ring_ends s l H') as [(-> & HF & HL)|(a & b & Ea & Eb & HF & HL)]; specialize (HL eq_refl);
    rewrite ?Eb in *; try change (before End []) with End in *.
  all: repeat first [progress rewrite ?circleq_back_eq, ?circleq_forth_eq|branch|read|write].
  all: finish.
Qed.

(** C34.  Circular queues refine lists: any history of operations on an empty one that is defined
    on lists, with linked elements for positions and unlinked ones to insert, follows no wild
    pointer, makes the list it should and touches the links of its elements only; both
    directions of iteration, the ends and the neighbours are those of the list, and removing
    the elements on the way leaves it empty. *)
Theorem circleq_refines D ops (s : circleq_state) l :
  (forall x, x ∈ D -> is_Some (elms s !! x)) -> (ops ≫= fresh) ⊆ D -> Forall (fun o => has o = true) ops -> specs ops [] = Some l ->
  exists s', runs ops (CIRCLEQ_INIT s) = Some s' /\ ring s' l /\ same_but D s s' /\ CIRCLEQ_EMPTY s' = bool_decide (l = []) /\
    CIRCLEQ_FOREACH (length l) s' = Some l /\ CIRCLEQ_FOREACH_REVERSE (length l) s' = Some (reverse l) /\
    (forall l1 y l2, l = l1 ++ y :: l2 -> CIRCLEQ_NEXT s' y = Some (after l2 End) /\ CIRCLEQ_PREV s' y = Some (before End l1)) /\
    exists s2, CIRCLEQ_FOREACH_SAFE (length l) (flip CIRCLEQ_REMOVE) s' = Some s2 /\ CIRCLEQ_EMPTY s2 = true.
Proof.
  intros HD Hx Hh Hs.
  destruct (family_refines D ops (CIRCLEQ_INIT s) l Remove) as (s' & E & H & Hsm & (Hf & Hl & Hn & Hfe & Hre) & s2 & E2 & H2);
    [done|done|done|intros x Hin; cbn; by apply fmap_is_Some, HD|done|done|done|apply spec_remove|done|done|].
  exists s'. injection Hf as Hf. injection (Hl eq_refl) as Hl'.
  unfold CIRCLEQ_EMPTY, CIRCLEQ_FOREACH, CIRCLEQ_FOREACH_REVERSE, CIRCLEQ_FOREACH_SAFE, CIRCLEQ_FIRST, CIRCLEQ_LAST. rewrite Hf, Hl', after_end.
  split_and!; [done|done|done|done|done|by apply Hre| |].
  - intros l1 y l2 El. destruct (Hn l1 y l2 El) as [H3 H4]. split; [done|by apply H4].
  - exists s2. split; [done|]. pose proof (ring_cut s2 [] [] H2) as [E0 _]. injection E0 as E0. by rewrite E0.
Qed.

(** Five elements, unlinked. *)
Definition sample : circleq_state :=
  {| cqh_first := End; cqh_last := End; elms := gset_to_gmap {| cqe_next := End; cqe_prev := End |} (list_to_set [1; 2; 3; 4; 5]) |}.

Lemma circleq_refines_witness :
  exists s', runs [InsertTail 1; InsertHead 2; InsertAfter 1 3; InsertBefore 2 4; Remove 2; Replace 4 5] (CIRCLEQ_INIT sample) = Some s' /\
    CIRCLEQ_FOREACH_REVERSE 3 s' = Some [3; 1; 5].
Proof.
  destruct (circleq_refines [1; 2; 3; 4; 5] [InsertTail 1; InsertHead 2; InsertAfter 1 3; InsertBefore 2 4; Remove 2; Replace 4 5] sample [5; 1; 3])
    as (s' & E & _ & _ & _ & _ & Hf & _);
    [by apply Forall_forall, (bool_decide_unpack _); vm_compute|set_solver|repeat constructor|reflexivity|]. exists s'. split; [exact E|exact Hf].
Defined.

End Circleq.
