(* ===== verification/Jar.v ===== *)
(** * Packet jars

    Models [lib/peak_jar.c] and [lib/peak_jar.h]: a ring buffer into which texts are
    packed behind each other, a new header in front of every thousand, and contexts that
    link their texts by tail queues through the buffer.  When the buffer is full the oldest
    header goes with all texts that follow it, and contexts notice when they are used the
    next time, by the serial numbers.

    The buffer is the store of the headers and texts in it, under their offsets.  Room that
    is handed out again takes whatever it overlaps with it, so that an access to a text
    that was overwritten is undefined.  The links are those of [Queue]. *)

From S2P Require Import Prelude Bytes Alloc Queue.
Import Tailq.

(** ** Data *)

Record peak_jar_head := { h_serial : Z; h_count : Z; h_write : Z }.
Record peak_jar_data := { prev_serial : Z; serial : Z; len : Z; buf : list Z }.

Definition sizeof_jar_head : Z := 32.
Definition sizeof_jar_data : Z := 32.
Definition JAR_HEAD_COUNT : Z := 1000.
Definition JAR_RETURN : Z := 0.
Definition JAR_DROP : Z := 1.
Definition JAR_KEEP : Z := 2.

(** [struct peak_jars] with the content of its buffer: the links and the other members of
    the headers and of the texts. *)
Record peak_jars := Jars {
  heads : tailq;
  first_serial : Z;
  last_serial : Z;
  write : Z;
  read : Z;
  size : Z;
  hlinks : links;
  hbody : gmap Z peak_jar_head;
  dlinks : links;
  dbody : gmap Z peak_jar_data;
}.

Record peak_jar := Jar { datas : tailq; c_first_serial : Z; c_last_serial : Z }.

Definition JAR_INIT (context : peak_jar) : peak_jar := Jar TAILQ_INIT (c_first_serial context) (c_last_serial context).
Definition with_datas (v : tailq) (c : peak_jar) : peak_jar := Jar v (c_first_serial c) (c_last_serial c).

Definition with_heads (h : tailq) (m : links) (s : peak_jars) : peak_jars :=
  Jars h (first_serial s) (last_serial s) (write s) (read s) (size s) m (hbody s) (dlinks s) (dbody s).
Definition with_first_serial (v : Z) (s : peak_jars) : peak_jars :=
  Jars (heads s) v (last_serial s) (write s) (read s) (size s) (hlinks s) (hbody s) (dlinks s) (dbody s).
Definition with_last_serial (v : Z) (s : peak_jars) : peak_jars :=
  Jars (heads s) (first_serial s) v (write s) (read s) (size s) (hlinks s) (hbody s) (dlinks s) (dbody s).
Definition with_write (v : Z) (s : peak_jars) : peak_jars :=
  Jars (heads s) (first_serial s) (last_serial s) v (read s) (size s) (hlinks s) (hbody s) (dlinks s) (dbody s).
Definition with_read (v : Z) (s : peak_jars) : peak_jars :=
  Jars (heads s) (first_serial s) (last_serial s) (write s) v (size s) (hlinks s) (hbody s) (dlinks s) (dbody s).
Definition with_hmem (l : links) (b : gmap Z peak_jar_head) (s : peak_jars) : peak_jars :=
  Jars (heads s) (first_serial s) (last_serial s) (write s) (read s) (size s) l b (dlinks s) (dbody s).
Definition with_dmem (l : links) (b : gmap Z peak_jar_data) (s : peak_jars) : peak_jars :=
  Jars (heads s) (first_serial s) (last_serial s) (write s) (read s) (size s) (hlinks s) (hbody s) l b.

(** The room of a text, and two regions without a common byte. *)
Definition data_room (len : Z) : Z := u64 (sizeof_jar_data + ALLOC_ALIGN len 8).
Definition disjoint_at (a n b k : Z) : bool := (a + n <=? b) || (b + k <=? a).

(** The [n] bytes at [p] are overwritten. *)
Definition overwrite (p n : Z) (s : peak_jars) : peak_jars :=
  let hb := filter (fun x => disjoint_at p n (fst x) sizeof_jar_head = true) (hbody s) in
  let db := filter (fun x => disjoint_at p n (fst x) (data_room (len (snd x))) = true) (dbody s) in
  with_dmem (filter (fun x => is_Some (db !! fst x)) (dlinks s)) db
    (with_hmem (filter (fun x => is_Some (hb !! fst x)) (hlinks s)) hb s).

(** ** The ring *)

(** The offset of the room, or NULL. *)
Definition peak_jar_write (self : peak_jars) (head_room : Z) : peak_jars * option Z :=
  let write := write self in
  let read := read self in
  let size := size self in
  let new_write := u64 (write + head_room) in
  let free := if read <=? write then size - write + read else read - write in
  let '(new_write, ret, free) := if size <=? new_write then (head_room, 0, read) else (new_write, write, free) in
  if free <=? head_room then (self, None) else (with_write new_write self, Some ret).

Definition peak_jar_read (self : peak_jars) : option peak_jars :=
  match TAILQ_FIRST (heads self) with
  | None => Some self
  | Some head =>
      '(h, m) ← TAILQ_REMOVE (heads self) (hlinks self) head;
      let self := with_heads h m self in
      b ← hbody self !! head;
      Some (with_first_serial (u32 (first_serial self + 1)) (with_read (h_write b) self))
  end.

(** ** Contexts *)

(** The loop over the texts behind [zap]: the queue and the last one that was moved. *)
Fixpoint repair_loop (fuel : nat) (first : Z) (db : gmap Z peak_jar_data) (h : tailq) (m : links) (zap : Z) : option (tailq * links * Z) :=
  match fuel with
  | O => None
  | S fuel =>
      next ← TAILQ_NEXT m zap;
      match next with
      | None => Some (h, m, zap)
      | Some next =>
          d ← db !! zap;
          if wrap32 (prev_serial d - first) then Some (h, m, zap) else
          '(h, m) ← TAILQ_INSERT_TAIL h m next;
          repair_loop fuel first db h m next
      end
  end.

Definition peak_jar_repair (self : peak_jars) (context : peak_jar) : option (peak_jars * peak_jar) :=
  match TAILQ_FIRST (datas context) with
  | None => Some (self, context)
  | Some data =>
      if TAILQ_EMPTY (heads self) then Some (self, with_datas TAILQ_INIT context)
      else if wrap32 (c_last_serial context - first_serial self) then Some (self, with_datas TAILQ_INIT context)
      else if wrap32 (c_first_serial context - first_serial self) then
        '(h, m, zap) ← repair_loop (S (base.size (dlinks self))) (first_serial self) (dbody self) TAILQ_INIT (dlinks self) data;
        d ← dbody self !! zap;
        Some (with_dmem m (dbody self) self, Jar h (serial d) (c_last_serial context))
      else Some (self, context)
  end.

(** *** Packing *)

Definition no_links : entry := {| tqe_next := None; tqe_prev := Head |}.

(** A new header at [p]. *)
Definition new_head (p : Z) (self : peak_jars) : option peak_jars :=
  let self := overwrite p sizeof_jar_head self in
  '(h, m) ← TAILQ_INSERT_TAIL (heads self) (<[p := no_links]> (hlinks self)) p;
  let self := with_heads h m self in
  let b := {| h_serial := last_serial self; h_count := 0; h_write := write self |} in
  Some (with_hmem (hlinks self) (<[p := b]> (hbody self)) (with_last_serial (u32 (last_serial self + 1)) self)).

(** The text [bs] in the room at [p], behind the header at [head]. *)
Definition new_data (p head : Z) (bs : list Z) (self : peak_jars) (context : peak_jar) : option (peak_jars * peak_jar) :=
  let n := Z.of_nat (length bs) in
  '(self, context) ← peak_jar_repair self context;
  let self := overwrite p (data_room n) self in
  b ← hbody self !! head;
  let d := {| prev_serial := 0; serial := h_serial b; len := n; buf := bs |} in
  let context := if TAILQ_EMPTY (datas context) then Jar (datas context) (serial d) (c_last_serial context) else context in
  '(h, m) ← TAILQ_INSERT_HEAD (datas context) (<[p := no_links]> (dlinks self)) p;
  let context := Jar h (c_first_serial context) (serial d) in
  next ← TAILQ_NEXT m p;
  d ← (match next with
    | None => Some d
    | Some next => d' ← dbody self !! next; Some {| prev_serial := serial d'; serial := serial d; len := len d; buf := buf d |}
    end);
  let self := with_dmem m (<[p := d]> (dbody self)) self in
  let b := {| h_serial := h_serial b; h_count := u32 (h_count b + 1); h_write := write self |} in
  Some (with_hmem (hlinks self) (<[head := b]> (hbody self)) self, context).

(** One round after the label: the header that takes the text, if there is one. *)
Definition pack_head (self : peak_jars) : option (peak_jars * option Z) :=
  head ← TAILQ_LAST (heads self) (hlinks self);
  full ← (match head with None => Some true | Some head => b ← hbody self !! head; Some (JAR_HEAD_COUNT <? h_count b) end);
  if (full : bool) then
    match peak_jar_write self sizeof_jar_head with
    | (self, None) => Some (self, None)
    | (self, Some p) => self ← new_head p self; Some (self, Some p)
    end
  else Some (self, head).

Definition pack_round (self : peak_jars) (context : peak_jar) (bs : list Z) : option (peak_jars + peak_jars * peak_jar)%type :=
  '(self, head) ← pack_head self;
  match head with
  | None => self ← peak_jar_read self; Some (inl self)
  | Some head =>
      match peak_jar_write self (data_room (Z.of_nat (length bs))) with
      | (self, None) => self ← peak_jar_read self; Some (inl self)
      | (self, Some p) => r ← new_data p head bs self context; Some (inr r)
      end
  end.

Fixpoint peak_jar_pack (fuel : nat) (self : peak_jars) (context : peak_jar) (bs : list Z) : Prelude.run (peak_jars * peak_jar) :=
  match fuel with
  | O => OutOfFuel
  | S fuel =>
      r ← try (pack_round self context bs);
      match r with
      | inr r => Done r
      | inl self => peak_jar_pack fuel self context bs
      end
  end.

(** *** Unpacking *)

Section callback.
Context {U : Type} (callback : U -> list Z -> U * Z).

(** The loops: the user's data, the queue. *)
Fixpoint fifo_loop (fuel : nat) (db : gmap Z peak_jar_data) (u : U) (h : tailq) (m : links) (data : option Z) : option (U * tailq * links) :=
  match data, fuel with
  | None, _ => Some (u, h, m)
  | Some _, O => None
  | Some data, S fuel =>
      temp ← TAILQ_PREV h m data;
      d ← db !! data;
      let '(u, action) := callback u (buf d) in
      if action =? JAR_RETURN then Some (u, h, m) else
      if action =? JAR_DROP then '(h, m) ← TAILQ_REMOVE h m data; fifo_loop fuel db u h m temp
      else fifo_loop fuel db u h m temp
  end.

Fixpoint lifo_loop (fuel : nat) (db : gmap Z peak_jar_data) (u : U) (h : tailq) (m : links) (data : option Z) : option (U * tailq * links) :=
  match data, fuel with
  | None, _ => Some (u, h, m)
  | Some _, O => None
  | Some data, S fuel =>
      temp ← TAILQ_NEXT m data;
      d ← db !! data;
      let '(u, action) := callback u (buf d) in
      if action =? JAR_RETURN then Some (u, h, m) else
      if action =? JAR_DROP then '(h, m) ← TAILQ_REMOVE h m data; lifo_loop fuel db u h m temp
      else lifo_loop fuel db u h m temp
  end.

(** The result says whether something is left. *)
Definition peak_jar_fifo (self : peak_jars) (context : peak_jar) (u : U) : option (peak_jars * peak_jar * U * bool) :=
  '(self, context) ← peak_jar_repair self context;
  last ← TAILQ_LAST (datas context) (dlinks self);
  '(u, h, m) ← fifo_loop (S (base.size (dlinks self))) (dbody self) u (datas context) (dlinks self) last;
  Some (with_dmem m (dbody self) self, with_datas h context, u, negb (TAILQ_EMPTY h)).

Definition peak_jar_lifo (self : peak_jars) (context : peak_jar) (u : U) : option (peak_jars * peak_jar * U * bool) :=
  '(self, context) ← peak_jar_repair self context;
  '(u, h, m) ← lifo_loop (S (base.size (dlinks self))) (dbody self) u (datas context) (dlinks self) (TAILQ_FIRST (datas context));
  Some (with_dmem m (dbody self) self, with_datas h context, u, negb (TAILQ_EMPTY h)).

End callback.

(** *** Beginning *)

(** Whether it succeeded; [mem] says whether there is memory for the buffer. *)
Definition peak_jar_init (size : Z) (mem : bool) : option peak_jars :=
  if negb (size .& 7 =? 0) || (size <? 128) then None
  else if mem then Some (Jars TAILQ_INIT 0 0 0 0 size ∅ ∅ ∅ ∅) else None.

(** ** The ring *)

Definition ring_ok (s : peak_jars) : Prop := 0 <= read s < size s /\ 0 <= write s < size s /\ 128 <= size s < 2 ^ 32.

(** The bytes that hold headers and texts that were not freed. *)
Definition live (s : peak_jars) (x : Z) : Prop :=
  if read s <=? write s then read s <= x < write s else read s <= x < size s \/ 0 <= x < write s.

(** The ring is nearly full with its free bytes just below its end. *)
Definition squeezed (s : peak_jars) (room : Z) : Prop := write s < read s /\ size s <= write s + room.

Lemma write_cases s room :
  ring_ok s -> 0 < room < 2 ^ 32 ->
  peak_jar_write s room =
    if size s <=? write s + room then (if read s <=? room then (s, None) else (with_write room s, Some 0))
    else if (if read s <=? write s then size s - write s + read s else read s - write s) <=? room then (s, None)
    else (with_write (write s + room) s, Some (write s)).
Proof.
  intros (Hr & Hw & Hs) Hroom. unfold peak_jar_write. rewrite wrap_small by (unfold fits; lia).
  destruct (Z.leb_spec (size s) (write s + room)); [done|]. by destruct (Z.leb_spec (read s) (write s)).
Qed.

(** Room that is handed out is inside the buffer and ends before it does, begins where
    the last one ended or at the front, and overlaps nothing that is live, unless the ring
    is squeezed: then the room at the front is handed out although the texts there are
    live, which are all those below [write] that it reaches.  No room means that the free
    bytes are too few behind [write] or, if it has to go to the front, there. *)
Theorem jar_write_room s room :
  ring_ok s -> 0 < room < 2 ^ 32 ->
  match peak_jar_write s room with
  | (s', Some p) =>
      s' = with_write (p + room) s /\ ring_ok s' /\ 0 <= p /\ p + room < size s /\ (p = write s \/ p = 0) /\
      (~ squeezed s room -> forall x, p <= x < p + room -> ~ live s x) /\
      (squeezed s room -> p = 0 /\ forall x, 0 <= x < Z.min room (write s) -> live s x)
  | (s', None) =>
      s' = s /\
      if size s <=? write s + room then read s <= room
      else if read s <=? write s then size s - write s + read s <= room else read s - write s <= room
  end.
Proof.
  intros Hok Hroom. rewrite write_cases by done. destruct Hok as (Hr & Hw & Hs). unfold ring_ok, live, squeezed.
  destruct (Z.leb_spec (size s) (write s + room)).
  - destruct (Z.leb_spec (read s) room); [done|]. cbn [read write size with_write]. rewrite !Z.add_0_l.
    destruct (Z.leb_spec (read s) (write s)); (repeat split); try done; try lia; intros; lia.
  - destruct (Z.leb_spec (read s) (write s)).
    + destruct (Z.leb_spec (size s - write s + read s) room); [done|]. cbn [read write size with_write]. (repeat split); try done; try lia; intros; lia.
    + destruct (Z.leb_spec (read s - write s) room); [done|]. cbn [read write size with_write]. (repeat split); try done; try lia; intros; lia.
Qed.

(** ** Queues in the buffer *)

Lemma tailq_ext h m m' l : (forall a, a ∈ l -> m' !! a = m !! a) -> is_tailq h m l -> is_tailq h m' l.
Proof.
  intros He [Hf Hl Hs HN]. split; [done|done| |done]. clear Hf Hl HN. revert Hs. generalize Head. induction l as [|a l IH]; intros p Hs; [done|].
  destruct Hs as [Ha Hs]. split; [rewrite He; [done|left]|]. apply IH; [|done]. intros b Hb. apply He. by right.
Qed.

(** The texts of a context, the newest one first. *)
Definition text_at (db : gmap Z peak_jar_data) (a : Z) (t : list Z) : Prop := exists d, db !! a = Some d /\ buf d = t.

Record contains (s : peak_jars) (c : peak_jar) (l : list Z) (ts : list (list Z)) : Prop := {
  co_tailq : is_tailq (datas c) (dlinks s) l;
  co_texts : Forall2 (text_at (dbody s)) l ts;
  co_valid : l <> [] -> TAILQ_EMPTY (heads s) = false /\ wrap32 (c_last_serial c - first_serial s) = false /\
    wrap32 (c_first_serial c - first_serial s) = false;
}.

(** Nothing is repaired where everything is valid. *)
Lemma repair_valid s c l ts : contains s c l ts -> peak_jar_repair s c = Some (s, c).
Proof.
  intros [Ht _ Hv]. unfold peak_jar_repair, TAILQ_FIRST. rewrite (tq_first _ _ _ Ht). destruct l as [|a l]; [done|].
  destruct Hv as (-> & -> & ->); done.
Qed.

Lemma queue_fits (m : links) h l : is_tailq h m l -> (length l <= base.size m)%nat.
Proof.
  intros H. rewrite <- (size_list_to_set (C := gset Z) l) by apply H. rewrite <- size_dom. apply subseteq_size. intros a Ha%elem_of_list_to_set.
  apply elem_of_dom. by apply (tailq_member h m l).
Qed.

Section visits.
Context {U : Type} (callback : U -> list Z -> U * Z).

(** What a callback sees and leaves of texts that are visited in order. *)
Fixpoint visit (u : U) (ts : list (list Z)) : U * list (list Z) :=
  match ts with
  | [] => (u, [])
  | t :: ts' =>
      let '(u, action) := callback u t in
      if action =? JAR_RETURN then (u, ts)
      else if action =? JAR_DROP then visit u ts'
      else let '(u, rest) := visit u ts' in (u, t :: rest)
  end.

Lemma lifo_loop_spec fuel db ts : forall l2 u h m l1,
  is_tailq h m (l1 ++ l2) -> Forall2 (text_at db) l2 ts -> (length l2 <= fuel)%nat ->
  exists h' m' l2', lifo_loop callback fuel db u h m (hd_error l2) = Some (fst (visit u ts), h', m') /\ is_tailq h' m' (l1 ++ l2') /\
    Forall2 (text_at db) l2' (snd (visit u ts)) /\ frame (l1 ++ l2) m m' /\ l2' ⊆ l2.
Proof.
  revert fuel. induction ts as [|t ts IH]; intros fuel l2 u h m l1 Ht HF Hfuel.
  { inversion HF; subst. exists h, m, []. destruct fuel; by split_and!. }
  inversion HF as [|a t' l2' ts' (d & Hd & Hb) HF']; subst. destruct fuel as [|fuel]; [simpl in Hfuel; lia|]. simpl in Hfuel.
  cbn [hd_error lifo_loop visit]. rewrite (tailq_next h m l1 a l2' Ht). cbn [mbind option_bind]. rewrite Hd. cbn [mbind option_bind].
  destruct (callback u (buf d)) as [u' action]. destruct (action =? JAR_RETURN).
  { exists h, m, (a :: l2'). split; [done|]. split_and!; [done|done|apply frame_refl|done]. }
  destruct (action =? JAR_DROP).
  - destruct (tailq_remove h m l1 a l2' Ht) as (h1 & m1 & -> & Ht1 & Hfr1). cbn [mbind option_bind].
    destruct (IH fuel l2' u' h1 m1 l1 Ht1 HF' ltac:(lia)) as (h' & m' & l' & -> & Ht' & HF2 & Hfr & Hsub). exists h', m', l'.
    split; [done|]. split; [done|]. split; [done|]. split; [|set_solver].
    eapply frame_sub; [apply (frame_trans _ _ _ _ _ Hfr1 Hfr)|]. set_solver.
  - replace (l1 ++ a :: l2') with ((l1 ++ [a]) ++ l2') in Ht by (by rewrite <- app_assoc).
    destruct (IH fuel l2' u' h m (l1 ++ [a]) Ht HF' ltac:(lia)) as (h' & m' & l' & -> & Ht' & HF2 & Hfr & Hsub). rewrite <- app_assoc in Ht', Hfr.
    exists h', m', (a :: l'). destruct (visit u' ts) as [u'' rest]. cbn [fst snd] in *. split; [done|]. split; [done|]. split; [|split; [done|set_solver]].
    constructor; [by exists d|done].
Qed.

(** The same backwards: [r] is what is still to be visited. *)
Lemma fifo_loop_spec fuel db ts : forall r u h m l2,
  is_tailq h m (reverse r ++ l2) -> Forall2 (text_at db) r ts -> (length r <= fuel)%nat ->
  exists h' m' r', fifo_loop callback fuel db u h m (hd_error r) = Some (fst (visit u ts), h', m') /\ is_tailq h' m' (reverse r' ++ l2) /\
    Forall2 (text_at db) r' (snd (visit u ts)) /\ frame (reverse r ++ l2) m m' /\ r' ⊆ r.
Proof.
  revert fuel. induction ts as [|t ts IH]; intros fuel r u h m l2 Ht HF Hfuel.
  { inversion HF; subst. exists h, m, []. destruct fuel; by split_and!. }
  inversion HF as [|a t' r' ts' (d & Hd & Hb) HF']; subst. destruct fuel as [|fuel]; [simpl in Hfuel; lia|]. simpl in Hfuel.
  rewrite reverse_cons, <- app_assoc in Ht. cbn [app] in Ht.
  cbn [hd_error fifo_loop visit]. rewrite (tailq_prev h m _ a l2 Ht). cbn [mbind option_bind]. rewrite Hd. cbn [mbind option_bind].
  assert (last (reverse r') = hd_error r') as -> by (by destruct r'; [|rewrite reverse_cons, last_snoc]).
  destruct (callback u (buf d)) as [u' action]. destruct (action =? JAR_RETURN).
  { exists h, m, (a :: r'). rewrite reverse_cons, <- app_assoc. split; [done|]. split_and!; [done|done|apply frame_refl|done]. }
  destruct (action =? JAR_DROP).
  - destruct (tailq_remove h m _ a l2 Ht) as (h1 & m1 & -> & Ht1 & Hfr1). cbn [mbind option_bind].
    destruct (IH fuel r' u' h1 m1 l2 Ht1 HF' ltac:(lia)) as (h' & m' & l' & -> & Ht' & HF2 & Hfr & Hsub). exists h', m', l'.
    split; [done|]. split; [done|]. split; [done|]. split; [|set_solver].
    eapply frame_sub; [apply (frame_trans _ _ _ _ _ Hfr1 Hfr)|]. rewrite reverse_cons. set_solver.
  - destruct (IH fuel r' u' h m (a :: l2) Ht HF' ltac:(lia)) as (h' & m' & l' & -> & Ht' & HF2 & Hfr & Hsub).
    exists h', m', (a :: l'). destruct (visit u' ts) as [u'' rest]. cbn [fst snd] in *. rewrite !reverse_cons, <- !app_assoc. split; [done|]. split; [done|].
    split; [|split; [done|set_solver]]. constructor; [by exists d|done].
Qed.

End visits.

(** A queue that lost some of its elements. *)
Lemma contains_less s c l ts h m l' ts' :
  contains s c l ts -> is_tailq h m l' -> Forall2 (text_at (dbody s)) l' ts' -> l' ⊆ l ->
  contains (with_dmem m (dbody s) s) (with_datas h c) l' ts'.
Proof.
  intros [_ _ Hv] Ht HF Hsub. split; [done|done|]. intros Hl. apply Hv. intros ->. apply Hl. destruct l'; [done|]. exfalso. by apply (not_elem_of_nil z), Hsub; left.
Qed.

Lemma empty_flag (h : tailq) (m : links) l db ts : is_tailq h m l -> Forall2 (text_at db) l ts -> TAILQ_EMPTY h = bool_decide (ts = []).
Proof. intros H HF. unfold TAILQ_EMPTY, TAILQ_FIRST. rewrite (tq_first _ _ _ H). by inversion HF. Qed.

Lemma lifo_spec {U} (callback : U -> list Z -> U * Z) s c l ts u :
  contains s c l ts ->
  exists m h l', peak_jar_lifo callback s c u = Some (with_dmem m (dbody s) s, with_datas h c, fst (visit callback u ts),
      negb (bool_decide (snd (visit callback u ts) = []))) /\
    contains (with_dmem m (dbody s) s) (with_datas h c) l' (snd (visit callback u ts)) /\ l' ⊆ l /\ frame l (dlinks s) m.
Proof.
  intros Hc. pose proof Hc as [Ht HF _]. unfold peak_jar_lifo. rewrite (repair_valid _ _ _ _ Hc). cbn [mbind option_bind].
  unfold TAILQ_FIRST. rewrite (tq_first _ _ _ Ht).
  destruct (lifo_loop_spec callback (S (base.size (dlinks s))) (dbody s) ts l u (datas c) (dlinks s) [] Ht HF) as (h & m & l' & -> & Ht' & HF' & Hfr & Hsub);
    [pose proof (queue_fits _ _ _ Ht); lia|].
  cbn [mbind option_bind]. rewrite (empty_flag _ _ _ _ _ Ht' HF'). exists m, h, l'. split; [done|]. split; [by apply (contains_less s c l ts)|done].
Qed.

Lemma reverse_sub {A} (l r : list A) : r ⊆ reverse l -> reverse r ⊆ l.
Proof. intros H a. rewrite elem_of_reverse. intros Ha%H. by rewrite elem_of_reverse in Ha. Qed.

Lemma fifo_spec {U} (callback : U -> list Z -> U * Z) s c l ts u :
  contains s c l ts ->
  exists m h l', peak_jar_fifo callback s c u = Some (with_dmem m (dbody s) s, with_datas h c, fst (visit callback u (reverse ts)),
      negb (bool_decide (snd (visit callback u (reverse ts)) = []))) /\
    contains (with_dmem m (dbody s) s) (with_datas h c) l' (reverse (snd (visit callback u (reverse ts)))) /\ l' ⊆ l /\ frame l (dlinks s) m.
Proof.
  intros Hc. pose proof Hc as [Ht HF _]. unfold peak_jar_fifo. rewrite (repair_valid _ _ _ _ Hc). cbn [mbind option_bind].
  rewrite (tailq_last _ _ _ Ht). cbn [mbind option_bind]. assert (last l = hd_error (reverse l)) as ->.
  { rewrite <- (reverse_involutive l) at 1. destruct (reverse l); [done|]. by rewrite reverse_cons, last_snoc. }
  destruct (fifo_loop_spec callback (S (base.size (dlinks s))) (dbody s) (reverse ts) (reverse l) u (datas c) (dlinks s) []) as (h & m & r' & -> & Ht' & HF' & Hfr & Hsub).
  - by rewrite reverse_involutive, app_nil_r.
  - by apply Forall2_reverse.
  - rewrite length_reverse. pose proof (queue_fits _ _ _ Ht). lia.
  - rewrite app_nil_r in *. rewrite reverse_involutive in Hfr. cbn [mbind option_bind]. assert (Forall2 (text_at (dbody s)) (reverse r') (reverse (snd (visit callback u (reverse ts))))) as HF2 by (by apply Forall2_reverse).
    rewrite (empty_flag _ _ _ _ _ Ht' HF2). exists m, h, (reverse r'). split; [|split; [apply (contains_less s c l ts); [done..|]|split; [|done]]].
    + do 3 f_equal. apply bool_decide_ext. destruct (snd _); [done|]. rewrite reverse_cons. split; [by intros [_ ?]%app_eq_nil|done].
    + by apply reverse_sub.
    + by apply reverse_sub.
Qed.

(** ** Packing while there is room *)

(** Nothing has been freed: [n] texts are in the buffer, with [room] bytes of room, behind the
    headers [hs]. *)
Record filling (s : peak_jars) (hs : list Z) (n : nat) (room : Z) : Prop := {
  fi_heads : is_tailq (heads s) (hlinks s) hs;
  fi_bodies : forall a, a ∈ hs -> is_Some (hbody s !! a);
  fi_last : match last hs with
    | None => n = O
    | Some a => exists b, hbody s !! a = Some b /\ 0 <= h_count b <= JAR_HEAD_COUNT + 1 /\ h_serial b = Z.of_nat (length hs) - 1 /\
        Z.of_nat n = (JAR_HEAD_COUNT + 1) * (Z.of_nat (length hs) - 1) + h_count b
    end;
  fi_first : first_serial s = 0;
  fi_serial : last_serial s = Z.of_nat (length hs);
  fi_read : read s = 0;
  fi_write : write s = sizeof_jar_head * Z.of_nat (length hs) + room;
  fi_room : 0 <= room;
  fi_size : 128 <= size s < 2 ^ 32 /\ write s < size s;
  fi_hregion : forall a b, hbody s !! a = Some b -> 0 <= a /\ a + sizeof_jar_head <= write s;
  fi_dregion : forall a d, dbody s !! a = Some d -> 0 <= a < write s /\ a + data_room (len d) <= write s;
}.

(** What is behind [write] is overwritten: nothing of what is there. *)
Lemma overwrite_behind s hs n room p k :
  filling s hs n room -> write s <= p ->
  hbody (overwrite p k s) = hbody s /\ dbody (overwrite p k s) = dbody s /\
  (forall a, is_Some (hbody s !! a) -> hlinks (overwrite p k s) !! a = hlinks s !! a) /\
  (forall a, is_Some (dbody s !! a) -> dlinks (overwrite p k s) !! a = dlinks s !! a).
Proof.
  intros Hf Hp. unfold overwrite. cbn [hbody dbody hlinks dlinks with_hmem with_dmem].
  assert (filter (fun x : Z * peak_jar_head => disjoint_at p k (fst x) sizeof_jar_head = true) (hbody s) = hbody s) as ->.
  { apply map_filter_id. intros a b Hb. unfold disjoint_at. apply orb_true_iff. right. apply Z.leb_le. cbn [fst]. pose proof (fi_hregion _ _ _ _ Hf a b Hb). lia. }
  assert (filter (fun x : Z * peak_jar_data => disjoint_at p k (fst x) (data_room (len (snd x))) = true) (dbody s) = dbody s) as ->.
  { apply map_filter_id. intros a b Hb. unfold disjoint_at. apply orb_true_iff. right. apply Z.leb_le. cbn [fst snd]. pose proof (fi_dregion _ _ _ _ Hf a b Hb). lia. }
  split; [done|]. split; [done|].
  split; intros a Ha; [destruct (hlinks s !! a) as [e|] eqn:E|destruct (dlinks s !! a) as [e|] eqn:E];
    solve [by apply map_lookup_filter_Some|apply map_lookup_filter_None; by left].
Qed.

Lemma data_room_bounds n : 0 <= n < 2 ^ 31 -> sizeof_jar_data <= data_room n < 2 ^ 32.
Proof.
  intros Hn. unfold data_room, ALLOC_ALIGN, sizeof_jar_data. rewrite wrap_add_r, wrap_small; [|unfold fits]; pose proof (Z.mod_pos_bound n 8 ltac:(lia));
    destruct (Z.eqb_spec (n mod 8) 0); cbn [negb]; lia.
Qed.

Lemma pack_write s hs n room k :
  filling s hs n room -> 0 < k < 2 ^ 32 -> write s + k < size s -> peak_jar_write s k = (with_write (write s + k) s, Some (write s)).
Proof.
  intros Hf Hk Hlt. pose proof (fi_size _ _ _ _ Hf). pose proof (fi_read _ _ _ _ Hf) as Hr. pose proof (fi_write _ _ _ _ Hf). pose proof (fi_room _ _ _ _ Hf).
  unfold sizeof_jar_head in *. rewrite write_cases by (unfold ring_ok; lia). destruct (Z.leb_spec (size s) (write s + k)); [lia|].
  destruct (Z.leb_spec (read s) (write s)); [|lia]. destruct (Z.leb_spec (size s - write s + read s) k); [lia|done].
Qed.

Lemma new_head_filling s hs n room :
  filling s hs n room -> write s + sizeof_jar_head < size s -> Z.of_nat n = (JAR_HEAD_COUNT + 1) * Z.of_nat (length hs) ->
  exists s', new_head (write s) (with_write (write s + sizeof_jar_head) s) = Some s' /\ filling s' (hs ++ [write s]) n room /\
    (exists b, hbody s' !! write s = Some b /\ h_count b = 0) /\ size s' = size s /\ dbody s' = dbody s /\
    (forall a, is_Some (dbody s !! a) -> dlinks s' !! a = dlinks s !! a) /\ TAILQ_EMPTY (heads s') = false.
Proof.
  intros Hf Hlt Hn. pose proof Hf as [H1 H2 H3 H4 H5 H6 H7 H8 H9 H10 H11]. pose proof (eq_refl : sizeof_jar_head = 32) as E32. unfold new_head.
  destruct (overwrite_behind s hs n room (write s) sizeof_jar_head Hf ltac:(lia)) as (O1 & O2 & O3 & O4).
  assert (write s ∉ hs) as Hni by (intros Hin; destruct (H2 _ Hin) as [b Hb]; specialize (H10 _ _ Hb); lia).
  set (s1 := overwrite (write s) sizeof_jar_head (with_write (write s + sizeof_jar_head) s)).
  change (hlinks s1) with (hlinks (overwrite (write s) sizeof_jar_head s)). change (heads s1) with (heads s).
  destruct (tailq_insert_tail (heads s) (<[write s := no_links]> (hlinks (overwrite (write s) sizeof_jar_head s))) hs (write s)) as (h & m & -> & Ht & Hfr).
  { apply (tailq_ext _ (hlinks s)); [|done]. intros a Ha. rewrite lookup_insert_ne by (by intros <-). by apply O3, H2. }
  { rewrite lookup_insert_eq. by eexists. }
  { done. }
  cbn [mbind option_bind]. eexists. split; [done|]. cbn [with_hmem with_last_serial with_heads heads first_serial last_serial write read size hlinks hbody dlinks dbody].
  change (hbody s1) with (hbody (overwrite (write s) sizeof_jar_head s)). change (dbody s1) with (dbody (overwrite (write s) sizeof_jar_head s)). change (dlinks s1) with (dlinks (overwrite (write s) sizeof_jar_head s)).
  rewrite O1, O2. change (last_serial s1) with (last_serial s). change (write s1) with (write s + sizeof_jar_head). change (size s1) with (size s).
  split; [|split; [|split; [done|split; [done|split; [exact O4|]]]]].
  - split; cbn [heads first_serial last_serial write read size hlinks hbody dlinks dbody with_hmem with_dmem with_last_serial with_heads with_write];
      change (write s1) with (write s + sizeof_jar_head); change (size s1) with (size s).
    + exact Ht.
    + intros a [Ha|Ha%list_elem_of_singleton]%elem_of_app; [|subst; rewrite lookup_insert_eq; by eexists].
      rewrite lookup_insert_ne by (by intros <-). by apply H2.
    + rewrite last_snoc. eexists. rewrite lookup_insert_eq. split; [done|]. cbn [h_count h_serial]. rewrite length_app. cbn [length]. unfold JAR_HEAD_COUNT in *. lia.
    + exact H4.
    + rewrite length_app, wrap_small by (unfold fits; lia). cbn [length]. lia.
    + exact H6.
    + rewrite length_app. cbn [length]. rewrite E32 in *. lia.
    + exact H8.
    + lia.
    + intros a b Hb. apply lookup_insert_Some in Hb as [[<- _]|[_ Hb]]; [lia|]. specialize (H10 _ _ Hb). lia.
    + intros a d Hd. change (dbody s1) with (dbody (overwrite (write s) sizeof_jar_head s)) in Hd. rewrite O2 in Hd. specialize (H11 _ _ Hd). lia.
  - eexists. rewrite lookup_insert_eq. by split.
  - unfold TAILQ_EMPTY, TAILQ_FIRST. rewrite (tq_first _ _ _ Ht). by destruct hs.
Qed.

(** The header that takes the next text. *)
Lemma pack_head_filling s hs n room :
  filling s hs n room -> write s + sizeof_jar_head < size s ->
  exists s' hs' p b, pack_head s = Some (s', Some p) /\ filling s' hs' n room /\ last hs' = Some p /\ hbody s' !! p = Some b /\
    0 <= h_count b <= JAR_HEAD_COUNT /\ Z.of_nat (length hs') = Z.of_nat n / (JAR_HEAD_COUNT + 1) + 1 /\ size s' = size s /\ dbody s' = dbody s /\
    (forall a, is_Some (dbody s !! a) -> dlinks s' !! a = dlinks s !! a).
Proof.
  intros Hf Hlt. pose proof Hf as [H1 H2 H3 H4 H5 H6 H7 H8 H9 H10 H11]. unfold pack_head. rewrite (tailq_last _ _ _ H1). cbn [mbind option_bind].
  assert (Z.of_nat n = (JAR_HEAD_COUNT + 1) * Z.of_nat (length hs) -> exists s' hs' p b,
    (match peak_jar_write s sizeof_jar_head with (self, None) => Some (self, None) | (self, Some p) => self ← new_head p self; Some (self, Some p) end) = Some (s', Some p) /\
    filling s' hs' n room /\ last hs' = Some p /\ hbody s' !! p = Some b /\
    0 <= h_count b <= JAR_HEAD_COUNT /\ Z.of_nat (length hs') = Z.of_nat n / (JAR_HEAD_COUNT + 1) + 1 /\ size s' = size s /\ dbody s' = dbody s /\
    (forall a, is_Some (dbody s !! a) -> dlinks s' !! a = dlinks s !! a)) as Hnew.
  { intros Hn. rewrite (pack_write s hs n room) by (done || unfold sizeof_jar_head; lia).
    destruct (new_head_filling s hs n room Hf Hlt Hn) as (s' & -> & Hf' & (b & Hb & Hc) & Hs' & Hd & Hl & _). cbn [mbind option_bind].
    exists s', (hs ++ [write s]), (write s), b. split; [done|]. rewrite last_snoc, Hc, length_app. unfold JAR_HEAD_COUNT in *. cbn [length].
    split_and!; try done. rewrite Hn, Z.mul_comm, Z.div_mul by lia. lia. }
  destruct (last hs) as [a|] eqn:El; cbn [mbind option_bind].
  - destruct H3 as (b & Hb & Hc & Hs & Hn). rewrite Hb. cbn [mbind option_bind]. unfold JAR_HEAD_COUNT in *. destruct (Z.ltb_spec 1000 (h_count b)) as [Hfull|Hnot].
    + apply Hnew. lia.
    + exists s, hs, a, b. split; [done|]. split_and!; try done; [lia|]. change (1000 + 1) with 1001 in *. rewrite Hn.
      replace (1001 * (Z.of_nat (length hs) - 1) + h_count b) with (h_count b + (Z.of_nat (length hs) - 1) * 1001) by lia.
      rewrite Z.div_add, Z.div_small by lia. lia.
  - apply last_None in El. rewrite El, H3 in *. by apply Hnew.
Qed.

Lemma contains_ext s s' c l ts :
  (forall a, a ∈ l -> dlinks s' !! a = dlinks s !! a /\ dbody s' !! a = dbody s !! a) ->
  (l <> [] -> TAILQ_EMPTY (heads s) = false -> TAILQ_EMPTY (heads s') = false) -> first_serial s' = first_serial s ->
  contains s c l ts -> contains s' c l ts.
Proof.
  intros He Hh Hf [Ht HF Hv]. split.
  - apply (tailq_ext _ (dlinks s)); [|done]. intros a Ha. by apply He.
  - clear Ht Hv Hh. induction HF as [|a t l ts (d & Hd & Hb) _ IH]; constructor.
    + exists d. split; [|done]. rewrite <- Hd. apply He. left.
    + apply IH. intros b Hin. apply He. by right.
  - intros Hl. destruct (Hv Hl) as (H0 & H1 & H2). rewrite Hf. split; [by apply Hh|done].
Qed.

Lemma last_count hs (s : peak_jars) n room p b :
  filling s hs n room -> last hs = Some p -> hbody s !! p = Some b -> h_serial b = Z.of_nat (length hs) - 1 /\ p ∈ hs.
Proof.
  intros Hf El Hb. pose proof (fi_last _ _ _ _ Hf) as H. rewrite El in H. destruct H as (b' & Hb' & _ & Hs & _).
  split; [by simplify_eq|]. apply last_Some in El as [l ->]. apply elem_of_app. right. left.
Qed.

(** What a text at [q], behind the header [b] at [p], changes. *)
Record added (s : peak_jars) (c : peak_jar) (hs l : list Z) (p : Z) (b : peak_jar_head) (bs : list Z) (s' : peak_jars) (c' : peak_jar) (d : peak_jar_data) : Prop := {
  ad_heads : heads s' = heads s /\ first_serial s' = first_serial s /\ last_serial s' = last_serial s /\ read s' = read s /\ size s' = size s;
  ad_hlinks : forall a, a ∈ hs -> hlinks s' !! a = hlinks s !! a;
  ad_write : write s' = write s + data_room (Z.of_nat (length bs));
  ad_hbody : exists w, hbody s' = <[p := {| h_serial := h_serial b; h_count := h_count b + 1; h_write := w |}]> (hbody s);
  ad_dbody : dbody s' = <[write s := d]> (dbody s);
  ad_data : len d = Z.of_nat (length bs) /\ buf d = bs;
  ad_tailq : is_tailq (datas c') (dlinks s') (write s :: l);
  ad_dlinks : forall a, a ∉ write s :: l -> is_Some (dbody s !! a) -> dlinks s' !! a = dlinks s !! a;
  ad_last : c_last_serial c' = h_serial b;
  ad_first : c_first_serial c' = match l with [] => h_serial b | _ => c_first_serial c end;
}.

Lemma write_fresh s hs n room : filling s hs n room -> dbody s !! write s = None.
Proof. intros Hf. destruct (dbody s !! write s) as [d|] eqn:E; [|done]. pose proof (fi_dregion _ _ _ _ Hf _ _ E). lia. Qed.

Lemma texts_in s c l ts a : contains s c l ts -> a ∈ l -> is_Some (dbody s !! a).
Proof.
  intros Hco [k Ha]%list_elem_of_lookup. destruct (Forall2_lookup_l _ _ _ _ _ (co_texts _ _ _ _ Hco) Ha) as (t & _ & d & Hd & _). by exists d.
Qed.

Lemma new_data_run s hs n room p b c l ts bs :
  let r := data_room (Z.of_nat (length bs)) in
  filling s hs n room -> hbody s !! p = Some b -> 0 <= h_count b <= JAR_HEAD_COUNT -> TAILQ_EMPTY (heads s) = false -> contains s c l ts ->
  exists s' c' d, new_data (write s) p bs (with_write (write s + r) s) c = Some (s', c') /\ added s c hs l p b bs s' c' d.
Proof.
  intros r Hf Hb Hc Hne Hco. set (q := write s). pose proof (eq_refl : JAR_HEAD_COUNT = 1000) as EJ.
  pose proof (overwrite_behind s hs n room q r Hf ltac:(done)) as (O1 & O2 & O3 & O4). pose proof (write_fresh _ _ _ _ Hf : dbody s !! q = None) as Hq.
  assert (q ∉ l) as Hql by (intros [d Hd]%(texts_in _ _ _ _ _ Hco); congruence).
  set (s1 := with_write (q + r) s). unfold new_data. fold r.
  assert (contains s1 c l ts) as Hco1 by (apply (contains_ext s); done). rewrite (repair_valid _ _ _ _ Hco1). cbn [mbind option_bind].
  set (s2 := overwrite q r s1). change (hbody s2) with (hbody (overwrite q r s)). change (dlinks s2) with (dlinks (overwrite q r s)). change (dbody s2) with (dbody (overwrite q r s)).
  rewrite O1, O2, Hb. cbn [mbind option_bind h_serial].
  set (c1 := if TAILQ_EMPTY (datas c) then Jar (datas c) _ (c_last_serial c) else c).
  assert (datas c1 = datas c) as -> by (unfold c1; by destruct (TAILQ_EMPTY (datas c))).
  destruct (tailq_insert_head (datas c) (<[q := no_links]> (dlinks (overwrite q r s))) l q) as (h & m & -> & Ht & Hfr); [|by rewrite lookup_insert_eq|done|].
  { apply (tailq_ext _ (dlinks s)); [|apply Hco]. intros a Ha. rewrite lookup_insert_ne by (by intros <-). by apply O4, (texts_in _ _ _ _ _ Hco). }
  cbn [mbind option_bind]. rewrite (tailq_next h m [] q l Ht). cbn [mbind option_bind].
  set (d0 := Build_peak_jar_data 0 (h_serial b) (Z.of_nat (length bs)) bs).
  assert (exists d, (match hd_error l with None => Some d0 | Some next => d' ← dbody s !! next;
      Some {| prev_serial := serial d'; serial := serial d0; len := len d0; buf := buf d0 |} end) = Some d /\ len d = Z.of_nat (length bs) /\ buf d = bs)
    as (d & -> & Hdl & Hdb).
  { destruct l as [|x l]; [by eexists|]. cbn [hd_error]. destruct (texts_in _ _ _ _ x Hco) as [d' ->]; [left|]. by eexists. }
  cbn [mbind option_bind]. eexists _, _, d. split; [done|].
  split; [done| |done| |done|done|exact Ht| |done|].
  - intros a Ha. by apply O3, (fi_bodies _ _ _ _ Hf).
  - exists (write s2). cbn [with_hmem with_dmem hbody h_serial h_count]. change (hbody s2) with (hbody (overwrite q r s)).
    by rewrite O1, wrap_small by (unfold fits; lia).
  - intros a [Ha Hal]%not_elem_of_cons Hs. cbn [with_hmem with_dmem dlinks]. rewrite Hfr by (by rewrite not_elem_of_cons). rewrite lookup_insert_ne by done. by apply O4.
  - cbn [c_first_serial]. unfold c1, TAILQ_EMPTY, TAILQ_FIRST. rewrite (tq_first _ _ _ (co_tailq _ _ _ _ Hco)). by destruct l.
Qed.

Lemma added_filling s hs n room c l p b bs s' c' d :
  filling s hs n room -> last hs = Some p -> hbody s !! p = Some b -> 0 <= h_count b <= JAR_HEAD_COUNT ->
  0 < data_room (Z.of_nat (length bs)) -> write s + data_room (Z.of_nat (length bs)) < size s ->
  added s c hs l p b bs s' c' d -> filling s' hs (S n) (room + data_room (Z.of_nat (length bs))).
Proof.
  intros [H1 H2 H3 H4 H5 H6 H7 H8 H9 H10 H11] El Hb Hc Hr Hlt [(A1 & A2 & A3 & A4 & A5) A6 A7 [w A8] A9 [A10 _] _ _ _ _].
  split; rewrite ?A1, ?A2, ?A3, ?A4, ?A5, ?A7, ?A8; try done; try lia.
  - by apply (tailq_ext _ (hlinks s)).
  - intros a Ha. apply lookup_insert_is_Some'. right. by apply H2.
  - rewrite El in *. destruct H3 as (b' & Hb' & _ & Hs & Hn). assert (b' = b) as -> by congruence.
    eexists. rewrite lookup_insert_eq. split; [done|]. cbn [h_count h_serial]. unfold JAR_HEAD_COUNT in *. lia.
  - intros a b' Hb'. apply lookup_insert_Some in Hb' as [[<- _]|[_ Hb']]; [specialize (H10 _ _ Hb)|specialize (H10 _ _ Hb')]; lia.
  - rewrite A9. intros a d' Hd'. apply lookup_insert_Some in Hd' as [[<- <-]|[_ Hd']]; [rewrite A10; unfold sizeof_jar_head in *; lia|specialize (H11 _ _ Hd'); lia].
Qed.

Lemma added_contains s hs n room c l ts p b bs s' c' d :
  filling s hs n room -> contains s c l ts -> TAILQ_EMPTY (heads s) = false -> 0 <= h_serial b < 2 ^ 31 ->
  added s c hs l p b bs s' c' d -> contains s' c' (write s :: l) (bs :: ts).
Proof.
  intros Hf Hco Hne Hser [(A1 & A2 & _) _ _ _ A9 [_ A11] A12 _ A14 A15]. split; [exact A12| |].
  - rewrite A9. constructor; [exists d; by rewrite lookup_insert_eq|]. eapply Forall2_impl; [apply Hco|]. intros a t (d' & Hd' & Ht').
    exists d'. split; [|done]. rewrite lookup_insert_ne; [done|]. intros <-. pose proof (write_fresh _ _ _ _ Hf). congruence.
  - intros _. rewrite A1, A2, A14, A15, (fi_first _ _ _ _ Hf).
    assert (wrap32 (h_serial b - 0) = false) as Hw.
    { unfold wrap32. rewrite wrap_small by (unfold fits; lia). change ((2 ^ 32 - 1) / 2) with 2147483647. apply Z.ltb_ge. lia. }
    split; [done|]. split; [done|]. destruct l as [|x l]; [done|]. destruct (co_valid _ _ _ _ Hco) as (_ & _ & Hv); [done|].
    by rewrite (fi_first _ _ _ _ Hf) in Hv.
Qed.

Lemma pack_filling s hs n room c l ts bs fuel :
  let r := data_room (Z.of_nat (length bs)) in
  filling s hs n room -> Z.of_nat (length bs) < 2 ^ 31 ->
  sizeof_jar_head * (Z.of_nat n / (JAR_HEAD_COUNT + 1) + 1) + room + r < size s -> contains s c l ts ->
  exists s' c' hs' q, peak_jar_pack (S fuel) s c bs = Done (s', c') /\ filling s' hs' (S n) (room + r) /\ contains s' c' (q :: l) (bs :: ts) /\
    size s' = size s /\ dbody s !! q = None /\ TAILQ_EMPTY (heads s') = false /\
    (forall a, a ∉ q :: l -> is_Some (dbody s !! a) -> dlinks s' !! a = dlinks s !! a /\ dbody s' !! a = dbody s !! a).
Proof.
  intros r Hf Hlen Hroom Hco. destruct (data_room_bounds (Z.of_nat (length bs))) as [Hr1 Hr2]; [lia|]. fold r in Hr1, Hr2.
  pose proof (eq_refl : sizeof_jar_head = 32) as E32. pose proof (eq_refl : sizeof_jar_data = 32) as E32'. pose proof (eq_refl : JAR_HEAD_COUNT = 1000) as EJ.
  assert (write s + sizeof_jar_head < size s) as Hw.
  { pose proof (fi_write _ _ _ _ Hf) as H7. rewrite H7, E32. rewrite E32 in Hroom. pose proof (fi_last _ _ _ _ Hf) as Hl.
    destruct (last hs) as [a|] eqn:El; [|apply last_None in El; rewrite El in *; cbn [length]; rewrite Hl in *; change (Z.of_nat 0 / (JAR_HEAD_COUNT + 1)) with 0 in *; lia].
    destruct Hl as (b & _ & Hc & _ & Hn). assert (Z.of_nat (length hs) <= Z.of_nat n / (JAR_HEAD_COUNT + 1) + 1); [|lia].
    rewrite Hn, EJ in *. rewrite (Z.mul_comm (1000 + 1)), Z.div_add_l by lia. pose proof (Z.div_pos (h_count b) (1000 + 1)). lia. }
  destruct (pack_head_filling s hs n room Hf Hw) as (s1 & hs1 & p & b & E1 & Hf1 & Hl1 & Hb1 & Hc1 & Hn1 & Hs1 & Hd1 & Hk1).
  pose proof (fi_write _ _ _ _ Hf1) as Hw1. pose proof (fi_size _ _ _ _ Hf1) as [Hz1 Hz2]. pose proof (fi_room _ _ _ _ Hf1) as Hro.
  assert (write s1 + r < size s1) as Hlt by (rewrite Hw1, Hn1, Hs1; lia).
  assert (contains s1 c l ts) as Hco1.
  { apply (contains_ext s); [| | |done].
    - intros a Ha. rewrite Hd1. split; [|done]. apply Hk1. apply list_elem_of_lookup in Ha as [k Ha].
      destruct (Forall2_lookup_l _ _ _ _ _ (co_texts _ _ _ _ Hco) Ha) as (t & _ & d & Hd & _). by exists d.
    - intros _ _. unfold TAILQ_EMPTY, TAILQ_FIRST. rewrite (tq_first _ _ _ (fi_heads _ _ _ _ Hf1)). by destruct hs1.
    - by rewrite (fi_first _ _ _ _ Hf1), (fi_first _ _ _ _ Hf). }
  destruct (last_count hs1 s1 n room p b Hf1 Hl1 Hb1) as [Hser Hp].
  assert (TAILQ_EMPTY (heads s1) = false) as Hne1 by (unfold TAILQ_EMPTY, TAILQ_FIRST; rewrite (tq_first _ _ _ (fi_heads _ _ _ _ Hf1)); by destruct hs1).
  destruct (new_data_run s1 hs1 n room p b c l ts bs Hf1 Hb1 Hc1 Hne1 Hco1) as (s' & c' & d & E & Had). fold r in E.
  exists s', c', hs1, (write s1). split.
  { cbn [peak_jar_pack]. unfold pack_round. rewrite E1. cbn [mbind option_bind]. fold r. rewrite (pack_write s1 hs1 n room r Hf1) by lia.
    by rewrite E. }
  split; [eapply added_filling; [done..|fold r; lia|done|done]|]. split.
  { eapply added_contains; [done|done|done| |done]. destruct hs1; [by apply not_elem_of_nil in Hp|cbn [length] in *; lia]. }
  destruct Had as [(A1 & _ & _ & _ & A5) _ _ _ A9 _ _ A13 _ _]. split; [congruence|]. rewrite A1, A9, Hd1 in *. split; [rewrite <- Hd1; by eapply write_fresh|]. split; [done|].
  intros a Ha Hin. split; [rewrite A13 by done; by apply Hk1|]. apply lookup_insert_ne. intros <-. apply Ha. left.
Qed.

(** ** Sessions *)

Section sessions.
Context {U : Type} (callback : U -> list Z -> U * Z).

(** A call for the context with a number. *)
Inductive call := Pack (i : nat) (bs : list Z) | Fifo (i : nat) | Lifo (i : nat).

Definition call_run (fuel : nat) (o : call) (s : peak_jars) (cs : list peak_jar) (u : U) : Prelude.run (peak_jars * list peak_jar * U * list bool) :=
  match o with
  | Pack i bs => c ← try (cs !! i); '(s, c) ← peak_jar_pack fuel s c bs; Done (s, <[i := c]> cs, u, [])
  | Fifo i => c ← try (cs !! i); '(s, c, u, b) ← try (peak_jar_fifo callback s c u); Done (s, <[i := c]> cs, u, [b])
  | Lifo i => c ← try (cs !! i); '(s, c, u, b) ← try (peak_jar_lifo callback s c u); Done (s, <[i := c]> cs, u, [b])
  end.

Fixpoint calls_run (fuel : nat) (os : list call) (s : peak_jars) (cs : list peak_jar) (u : U) : Prelude.run (U * list bool) :=
  match os with
  | [] => Done (u, [])
  | o :: os =>
      '(s, cs, u, bs) ← call_run fuel o s cs u;
      '(u, bs') ← calls_run fuel os s cs u;
      Done (u, bs ++ bs')
  end.

(** The same with a list of texts for every context, the newest one first. *)
Definition call_spec (o : call) (T : list (list (list Z))) (u : U) : option (list (list (list Z)) * U * list bool) :=
  match o with
  | Pack i bs => ts ← T !! i; Some (<[i := bs :: ts]> T, u, [])
  | Fifo i => ts ← T !! i; let '(u, rest) := visit callback u (reverse ts) in Some (<[i := reverse rest]> T, u, [negb (bool_decide (rest = []))])
  | Lifo i => ts ← T !! i; let '(u, rest) := visit callback u ts in Some (<[i := rest]> T, u, [negb (bool_decide (rest = []))])
  end.

Fixpoint calls_spec (os : list call) (T : list (list (list Z))) (u : U) : option (U * list bool) :=
  match os with
  | [] => Some (u, [])
  | o :: os => '(T, u, bs) ← call_spec o T u; '(u, bs') ← calls_spec os T u; Some (u, bs ++ bs')
  end.

(** The texts that are packed, and the bytes they take. *)
Definition packed (os : list call) : list (list Z) := omap (fun o => match o with Pack _ bs => Some bs | _ => None end) os.
Definition rooms (ts : list (list Z)) : Z := foldr (fun t r => data_room (Z.of_nat (length t)) + r) 0 ts.

Record session (s : peak_jars) (cs : list peak_jar) (T : list (list (list Z))) (L : list (list Z)) (hs : list Z) (n : nat) (room : Z) : Prop := {
  se_filling : filling s hs n room;
  se_length : length cs = length T /\ length L = length T;
  se_contains : forall i c, cs !! i = Some c -> exists l ts, L !! i = Some l /\ T !! i = Some ts /\ contains s c l ts;
  se_apart : forall i j l l', i <> j -> L !! i = Some l -> L !! j = Some l' -> l ## l';
}.

Lemma session_update s cs T L hs n room s' i c l ts c' l' ts' hs' n' room' :
  session s cs T L hs n room -> cs !! i = Some c -> L !! i = Some l -> T !! i = Some ts ->
  filling s' hs' n' room' -> contains s' c' l' ts' -> (forall a, a ∈ l' -> a ∈ l \/ dbody s !! a = None) ->
  (forall a, a ∉ l' ++ l -> is_Some (dbody s !! a) -> dlinks s' !! a = dlinks s !! a /\ dbody s' !! a = dbody s !! a) ->
  (TAILQ_EMPTY (heads s) = false -> TAILQ_EMPTY (heads s') = false) ->
  session s' (<[i := c']> cs) (<[i := ts']> T) (<[i := l']> L) hs' n' room'.
Proof.
  intros [Hf Hlen Hc Ha] Hci Hli Hti Hf' Hc' Hnew Hsame Hh.
  assert (forall j l2 a, j <> i -> L !! j = Some l2 -> a ∈ l2 -> (exists c2, cs !! j = Some c2) -> is_Some (dbody s !! a) /\ a ∉ l' ++ l) as Hother.
  { intros j l2 a Hj Hl2 Hin [c2 Hc2]. destruct (Hc j c2 Hc2) as (l2' & ts2 & E & _ & Hco). assert (l2' = l2) as -> by congruence.
    apply list_elem_of_lookup in Hin as [k Hk]. destruct (Forall2_lookup_l _ _ _ _ _ (co_texts _ _ _ _ Hco) Hk) as (t & _ & d & Hd & _).
    split; [by exists d|]. apply list_elem_of_lookup_2 in Hk. intros [Hin|Hin]%elem_of_app; [|by apply (Ha j i l2 l Hj Hl2 Hli a)].
    destruct (Hnew a Hin) as [Hl|Hn]; [by apply (Ha j i l2 l Hj Hl2 Hli a)|congruence]. }
  split; [done|by rewrite !length_insert| |].
  - intros j c2 Hj. destruct (decide (i = j)) as [<-|Hne].
    + rewrite list_lookup_insert_eq in Hj by (by eapply lookup_lt_Some). injection Hj as <-. exists l', ts'.
      rewrite !list_lookup_insert_eq by (by eapply lookup_lt_Some). done.
    + rewrite list_lookup_insert_ne in Hj by done. destruct (Hc j c2 Hj) as (l2 & ts2 & Hl2 & Ht2 & Hco). exists l2, ts2.
      rewrite !list_lookup_insert_ne by done. split; [done|]. split; [done|]. apply (contains_ext s); [| |by rewrite (fi_first _ _ _ _ Hf'), (fi_first _ _ _ _ Hf)|done].
      * intros a Hin. destruct (Hother j l2 a) as [H1 H2]; [done|done|done|by exists c2|]. by apply Hsame.
      * by intros _.
  - assert (forall k l3, k <> i -> L !! k = Some l3 -> l' ## l3) as Hapart.
    { intros k l3 Hk Hl3 a Hin Hin3. destruct (lookup_lt_is_Some_2 cs k) as [c2 Hc2]; [rewrite (proj1 Hlen), <- (proj2 Hlen); by eapply lookup_lt_Some|].
      destruct (Hother k l3 a Hk Hl3 Hin3) as [_ H]; [by exists c2|]. apply H, elem_of_app. by left. }
    intros j k l2 l3 Hne Hj Hk. destruct (decide (i = j)) as [<-|Hij]; [|destruct (decide (i = k)) as [<-|Hik]].
    + rewrite list_lookup_insert_eq in Hj by (by eapply lookup_lt_Some). injection Hj as <-. rewrite list_lookup_insert_ne in Hk by done. by apply (Hapart k).
    + rewrite list_lookup_insert_eq in Hk by (by eapply lookup_lt_Some). injection Hk as <-. rewrite list_lookup_insert_ne in Hj by done.
      intros a H1 H2. by apply (Hapart j l2 ltac:(done) Hj a).
    + rewrite list_lookup_insert_ne in Hj by done. rewrite list_lookup_insert_ne in Hk by done. by apply (Ha j k).
Qed.

(** A queue that is changed by a visit. *)
Lemma session_visit s cs T L hs n room i c l ts m h l' ts' :
  session s cs T L hs n room -> cs !! i = Some c -> L !! i = Some l -> T !! i = Some ts ->
  contains (with_dmem m (dbody s) s) (with_datas h c) l' ts' -> l' ⊆ l -> frame l (dlinks s) m ->
  session (with_dmem m (dbody s) s) (<[i := with_datas h c]> cs) (<[i := ts']> T) (<[i := l']> L) hs n room.
Proof.
  intros Hs Hc Hl Ht Hco Hsub Hfr. eapply session_update; [done..| |done|intros a Ha; left; by apply Hsub| |done].
  - destruct (se_filling _ _ _ _ _ _ _ Hs). by split.
  - intros a Ha _. split; [|done]. apply Hfr. intros Hin. apply Ha, elem_of_app. by right.
Qed.

Definition budget (s : peak_jars) (n : nat) (room : Z) (os : list call) : Prop :=
  Forall (fun t => Z.of_nat (length t) < 2 ^ 31) (packed os) /\
  sizeof_jar_head * (Z.of_nat (n + length (packed os)) / (JAR_HEAD_COUNT + 1) + 1) + room + rooms (packed os) < size s.

Lemma session_call fuel o os s cs T L hs n room u T' u' bs :
  session s cs T L hs n room -> budget s n room (o :: os) -> call_spec o T u = Some (T', u', bs) ->
  exists s' cs' L' hs' n' room', call_run (S fuel) o s cs u = Done (s', cs', u', bs) /\ session s' cs' T' L' hs' n' room' /\ budget s' n' room' os.
Proof.
  intros Hs [Hb1 Hb2] Hspec. pose proof Hs as [Hf [Hl1 Hl2] Hc _].
  assert (forall i ts, T !! i = Some ts -> exists c l, cs !! i = Some c /\ L !! i = Some l /\ contains s c l ts) as Hctx.
  { intros i ts Hts. destruct (lookup_lt_is_Some_2 cs i) as [c Hci]; [rewrite Hl1; by eapply lookup_lt_Some|].
    destruct (Hc i c Hci) as (l & ts' & Hl & Hts' & Hco). exists c, l. split; [done|]. split; [done|]. by simplify_eq. }
  destruct o as [i t|i|i]; cbn [call_spec call_run] in *; apply bind_Some in Hspec as (ts & Hts & Hspec);
    destruct (Hctx i ts Hts) as (c & l & Hci & Hli & Hco); rewrite Hci; cbn [try mbind run_bind].
  - injection Hspec as <- <- <-. cbn [packed omap list_omap] in *. fold (packed os) in *. apply Forall_cons in Hb1 as [Ht Hb1].
    cbn [rooms foldr length] in Hb2. fold (rooms (packed os)) in Hb2. set (r := data_room (Z.of_nat (length t))) in *.
    assert (0 <= rooms (packed os)) as Hr0.
    { clear -Hb1. induction Hb1 as [|x l Hx _ IH]; cbn [rooms foldr]; [done|]. destruct (data_room_bounds (Z.of_nat (length x))) as [H _]; [lia|]. unfold sizeof_jar_data, rooms in *. lia. }
    assert (Z.of_nat n / (JAR_HEAD_COUNT + 1) <= Z.of_nat (n + S (length (packed os))) / (JAR_HEAD_COUNT + 1)) as Hdiv
      by (apply Z.div_le_mono; unfold JAR_HEAD_COUNT; lia).
    destruct (pack_filling s hs n room c l ts t fuel Hf Ht) as (s' & c' & hs' & q & E & Hf' & Hco' & Hs' & Hq & Hh & Hk); [fold r; unfold sizeof_jar_head in *; lia|done|].
    rewrite E. cbn [mbind run_bind]. eexists _, _, (<[i := q :: l]> L), hs', (S n), (room + r). split; [done|]. split.
    + eapply session_update; [done..| | |done].
      * intros a [->|Ha]%elem_of_cons; [by right|by left].
      * intros a Ha. apply Hk. intros [->|Hin]%elem_of_cons; apply Ha; set_solver.
    + split; [done|]. rewrite Hs'. replace (S n + length (packed os))%nat with (n + S (length (packed os)))%nat by lia. lia.
  - destruct (visit callback u (reverse ts)) as [u1 rest] eqn:Ev. injection Hspec as <- <- <-.
    destruct (fifo_spec callback s c l ts u Hco) as (m & h & l' & -> & Hco' & Hsub & Hfr). rewrite Ev in *. cbn [try mbind run_bind fst snd] in *.
    eexists _, _, _, hs, n, room. split; [done|]. split; [by eapply session_visit|]. by split.
  - destruct (visit callback u ts) as [u1 rest] eqn:Ev. injection Hspec as <- <- <-.
    destruct (lifo_spec callback s c l ts u Hco) as (m & h & l' & -> & Hco' & Hsub & Hfr). rewrite Ev in *. cbn [try mbind run_bind fst snd] in *.
    eexists _, _, _, hs, n, room. split; [done|]. split; [by eapply session_visit|]. by split.
Qed.

Lemma session_calls fuel os s cs T L hs n room u u' bs :
  session s cs T L hs n room -> budget s n room os -> calls_spec os T u = Some (u', bs) -> calls_run (S fuel) os s cs u = Done (u', bs).
Proof.
  revert s cs T L hs n room u u' bs. induction os as [|o os IH]; intros s cs T L hs n room u u' bs Hs Hb Hspec; cbn [calls_spec calls_run] in *.
  { by injection Hspec as <- <-. }
  apply bind_Some in Hspec as ([[T1 u1] b1] & Hspec1 & Hspec). apply bind_Some in Hspec as ([u2 b2] & Hspec2 & Hspec). injection Hspec as <- <-.
  destruct (session_call fuel o os s cs T L hs n room u T1 u1 b1 Hs Hb Hspec1) as (s' & cs' & L' & hs' & n' & room' & -> & Hs' & Hb').
  cbn [mbind run_bind]. by rewrite (IH s' cs' T1 L' hs' n' room' u1 u2 b2 Hs' Hb' Hspec2).
Qed.

(** C17.  As long as the texts fit into the buffer, a jar with any number of contexts
    behaves as a list of texts per context: packing puts a text in front of the list of its
    context, a visit, from the oldest text or from the newest one, shows the callback the
    texts in order until it wants to return, takes out those it drops, and says whether
    something is left. *)
Theorem jar_refines_lists fuel size s cs os u u' bs :
  peak_jar_init size true = Some s -> size < 2 ^ 32 -> budget s 0 0 os ->
  calls_spec os (replicate (length cs) []) u = Some (u', bs) ->
  calls_run (S fuel) os s (JAR_INIT <$> cs) u = Done (u', bs).
Proof.
  intros Hi Hsz Hb. unfold peak_jar_init in Hi. destruct (negb _ || _) eqn:Hg; [done|]. apply orb_false_iff in Hg as [_ Hg%Z.ltb_ge]. injection Hi as <-.
  apply session_calls with (L := replicate (length cs) []) (hs := []) (n := O) (room := 0); [|done]. split.
  - split; try done; try (intros a Ha; by apply elem_of_nil in Ha); cbn; [apply init_tailq|lia].
  - by rewrite length_fmap, !length_replicate.
  - intros i c Hc. apply list_lookup_fmap_Some in Hc as (c0 & -> & Hc0). assert (i < length cs)%nat as Hlt by (by eapply lookup_lt_Some).
    exists [], []. rewrite !lookup_replicate_2 by done. split; [done|]. split; [done|]. split; [apply init_tailq|constructor|done].
  - intros i j l l' _ Hl _. apply lookup_replicate in Hl as [-> _]. intros a Ha. by apply elem_of_nil in Ha.
Qed.

End sessions.

(** ** A full jar *)

(** All headers were freed: the loop of [peak_jar_pack] has nothing left to free. *)
Definition exhausted (s : peak_jars) : Prop :=
  heads s = TAILQ_INIT /\ read s = write s /\ ring_ok s /\ first_serial s = last_serial s /\ fits 32 (last_serial s).

(** Where the next header goes. *)
Definition head_at (s : peak_jars) : Z := if size s <=? write s + sizeof_jar_head then 0 else write s.

(** There is one header, at [p], and no text. *)
Definition only_head (s : peak_jars) (p w : Z) : Prop :=
  heads s = {| tqh_first := Some p; tqh_last := NextOf p |} /\ hlinks s !! p = Some {| tqe_next := None; tqe_prev := Head |} /\
  (exists b, hbody s !! p = Some b /\ h_write b = p + sizeof_jar_head /\ h_serial b = first_serial s) /\
  write s = p + sizeof_jar_head /\ read s = w /\ last_serial s = u32 (first_serial s + 1) /\ fits 32 (first_serial s).

Lemma exhausted_head s :
  exhausted s -> exists s', pack_head s = Some (s', Some (head_at s)) /\ only_head s' (head_at s) (write s) /\ size s' = size s.
Proof.
  intros (Hh & Hr & Hok & Hser & Hfit). pose proof Hok as (_ & Hw & Hs). unfold pack_head. rewrite Hh. cbn [TAILQ_LAST behind load TAILQ_INIT tqh_last tqh_first mbind option_bind].
  assert (peak_jar_write s sizeof_jar_head = (with_write (head_at s + sizeof_jar_head) s, Some (head_at s))) as ->.
  { unfold head_at. rewrite write_cases by (done || unfold sizeof_jar_head; lia). unfold sizeof_jar_head. destruct (Z.leb_spec (size s) (write s + 32)).
    - destruct (Z.leb_spec (read s) 32); [lia|done].
    - destruct (Z.leb_spec (read s) (write s)); [|lia]. destruct (Z.leb_spec (size s - write s + read s) 32); [lia|done]. }
  set (p := head_at s). unfold new_head. change (heads (overwrite p sizeof_jar_head (with_write (p + sizeof_jar_head) s))) with (heads s). rewrite Hh.
  unfold TAILQ_INSERT_TAIL. erewrite set_next_eq by apply lookup_insert_eq. cbn [mbind option_bind]. erewrite set_prev_eq by apply lookup_insert_eq.
  cbn [mbind option_bind tqe_next tqe_prev TAILQ_INIT tqh_last store set_first set_last tqh_first]. eexists. split; [done|]. split; [|done].
  unfold only_head. cbn [with_hmem with_last_serial with_heads heads hlinks hbody write read first_serial last_serial]. rewrite !lookup_insert_eq.
  split; [done|]. split; [done|]. split; [eexists; split; [done|]; split; [done|]; exact (eq_sym Hser)|]. split; [done|]. split; [done|].
  change (u32 (last_serial s + 1) = u32 (first_serial s + 1) /\ fits 32 (first_serial s)). by rewrite Hser.
Qed.

Lemma only_head_freed s p w :
  only_head s p w -> ring_ok s -> exists s', peak_jar_read s = Some s' /\ exhausted s' /\ write s' = p + sizeof_jar_head /\ size s' = size s.
Proof.
  intros (Hh & Hl & (b & Hb & Hbw & _) & Hw & Hr & Hser & Hfit) Hok. unfold peak_jar_read. rewrite Hh. cbn [TAILQ_FIRST tqh_first]. unfold TAILQ_REMOVE. rewrite Hl.
  cbn [mbind option_bind tqe_next tqe_prev link_back]. rewrite Hl. cbn [mbind option_bind tqe_next tqe_prev store with_heads hbody]. rewrite Hb. cbn [mbind option_bind].
  eexists. split; [done|]. split; [|done]. unfold exhausted, ring_ok in *.
  cbn [with_first_serial with_read with_heads heads read write size first_serial last_serial]. rewrite Hbw, Hser. split; [done|]. split; [done|]. split; [lia|].
  split; [done|]. by apply wrap_bound.
Qed.

(** The first text behind the header, in room that does not overlap it. *)
Lemma only_head_data s p w q c bs :
  let r := data_room (Z.of_nat (length bs)) in
  only_head s p w -> datas c = TAILQ_INIT -> q + r <= p \/ p + sizeof_jar_head <= q ->
  exists s' c', new_data q p bs (with_write (q + r) s) c = Some (s', c') /\ contains s' c' [q] [bs].
Proof.
  intros r (Hh & Hl & (b & Hb & Hbw & Hbs) & Hw & Hr & Hser & Hfit) Hc Hq. unfold new_data, peak_jar_repair. rewrite Hc. cbn [TAILQ_FIRST TAILQ_INIT tqh_first mbind option_bind]. fold r.
  assert (hbody (overwrite q r (with_write (q + r) s)) !! p = Some b) as ->.
  { cbn [overwrite with_dmem with_hmem hbody with_write]. apply map_lookup_filter_Some. split; [done|]. unfold disjoint_at. cbn [fst].
    apply orb_true_iff. destruct Hq; [left|right]; by apply Z.leb_le. }
  cbn [mbind option_bind]. rewrite Hc. cbn [TAILQ_EMPTY TAILQ_FIRST TAILQ_INIT tqh_first datas].
  destruct (tailq_insert_head TAILQ_INIT (<[q := no_links]> (dlinks (overwrite q r (with_write (q + r) s)))) [] q) as (h & m & -> & Ht & _);
    [apply init_tailq|rewrite lookup_insert_eq; by eexists|apply not_elem_of_nil|]. cbn [mbind option_bind].
  rewrite (tailq_next h m [] q [] Ht). cbn [mbind option_bind hd_error]. eexists _, _. split; [done|]. split; [exact Ht| |].
  - constructor; [|constructor]. eexists. split; [apply lookup_insert_eq|done].
  - intros _. cbn [with_hmem with_dmem heads first_serial c_last_serial c_first_serial serial].
    change (heads (overwrite q r (with_write (q + r) s))) with (heads s). change (first_serial (overwrite q r (with_write (q + r) s))) with (first_serial s).
    rewrite Hh, Hbs, Z.sub_diag. by split_and!.
Qed.

Lemma exhausted_round s c bs :
  let r := data_room (Z.of_nat (length bs)) in
  exhausted s -> datas c = TAILQ_INIT -> 0 < r < 2 ^ 32 -> 64 + r < size s \/ size s <= r ->
  (exists s' c' q, pack_round s c bs = Some (inr (s', c')) /\ contains s' c' [q] [bs] /\ r < size s) \/
  (exists s', pack_round s c bs = Some (inl s') /\ exhausted s' /\ write s' = head_at s + 32 /\ size s' = size s /\ (r < size s -> write s <> 32)).
Proof.
  intros r Hs Hc Hr Hcase. pose proof Hs as (_ & _ & (_ & Hw & Hsz) & _). destruct (exhausted_head s Hs) as (s1 & E & Ho & Hsize).
  pose proof (eq_refl : sizeof_jar_head = 32) as E32. unfold pack_round. rewrite E. cbn [mbind option_bind]. fold r.
  assert (head_at s = if size s <=? write s + 32 then 0 else write s) as Hp by done. set (p := head_at s) in *.
  assert (0 <= p) as Hp0 by (rewrite Hp; destruct (_ <=? _); lia).
  pose proof Ho as (_ & _ & _ & Hw1 & Hr1 & _). assert (ring_ok s1) as Hok1.
  { unfold ring_ok. rewrite Hw1, Hr1, Hsize. destruct (Z.leb_spec (size s) (write s + 32)); lia. }
  rewrite write_cases by done. rewrite Hsize, Hr1, Hw1.
  assert (exists s' : peak_jars, peak_jar_read s1 = Some s' /\ exhausted s' /\ write s' = p + 32 /\ size s' = size s) as (s2 & E2 & Hfail).
  { destruct (only_head_freed s1 p (write s) Ho Hok1) as (s2 & E2 & H1 & H2 & H3). exists s2. by rewrite H2, H3, Hsize. }
  destruct (Z.leb_spec (size s) (p + sizeof_jar_head + r)).
  - destruct (Z.leb_spec (write s) r).
    + right. exists s2. rewrite E2. split; [done|]. destruct Hfail as (H1 & H2 & H3). split; [done|]. split; [done|]. split; [done|].
      intros Hlt E0. rewrite E0 in Hp. destruct (Z.leb_spec (size s) (32 + 32)); lia.
    + left. destruct (only_head_data s1 p (write s) 0 c bs Ho Hc) as (s' & c' & E' & Hco).
      { left. fold r. destruct (Z.leb_spec (size s) (write s + 32)); lia. }
      fold r in E'. rewrite Z.add_0_l in E'. rewrite E'. exists s', c', 0. split; [done|]. split; [done|lia].
  - destruct (Z.leb_spec (if write s <=? p + sizeof_jar_head then size s - (p + sizeof_jar_head) + write s else write s - (p + sizeof_jar_head)) r) as [Hnot|Hroom].
    + right. exists s2. rewrite E2. split; [done|]. destruct Hfail as (H1 & H2 & H3). split; [done|]. split; [done|]. split; [done|].
      intros Hlt E0. rewrite E0 in Hp, Hnot. revert Hnot. destruct (Z.leb_spec (size s) (32 + 32)); [lia|]. destruct (Z.leb_spec 32 (p + sizeof_jar_head)); lia.
    + left. destruct (only_head_data s1 p (write s) (p + sizeof_jar_head) c bs Ho Hc) as (s' & c' & E' & Hco); [right; lia|]. fold r in E'. rewrite E'.
      exists s', c', (p + sizeof_jar_head). split; [done|]. split; [done|]. revert Hroom. destruct (Z.leb_spec (write s) (p + sizeof_jar_head)); lia.
Qed.

Lemma exhausted_ends k s c bs :
  let r := data_room (Z.of_nat (length bs)) in
  exhausted s -> datas c = TAILQ_INIT -> 0 < r < 2 ^ 32 -> 64 + r < size s -> size s - write s <= 32 * Z.of_nat k ->
  exists s' c' q, peak_jar_pack (k + 2) s c bs = Done (s', c') /\ contains s' c' [q] [bs].
Proof.
  intros r. revert s. induction k as [|k IH]; intros s Hs Hc Hr Hsize Hk; pose proof Hs as (_ & _ & (_ & Hw & _) & _); [lia|].
  cbn [Nat.add peak_jar_pack]. destruct (exhausted_round s c bs Hs Hc Hr ltac:(by left)) as [(s' & c' & q & E & Hco & _)|(s' & E & Hs' & Hw' & Hsz' & _)];
    rewrite E; cbn [try mbind run_bind]; [by exists s', c', q|].
  unfold head_at, sizeof_jar_head in Hw'. destruct (Z.leb_spec (size s) (write s + 32)).
  - rewrite Nat.add_comm. cbn [Nat.add peak_jar_pack]. destruct (exhausted_round s' c bs Hs' Hc Hr ltac:(left; fold r; lia)) as [(s2 & c' & q & E2 & Hco & _)|(s2 & _ & _ & _ & _ & Hno)].
    + rewrite E2. cbn [try mbind run_bind]. by exists s2, c', q.
    + fold r in Hno. lia.
  - apply IH; [done|done|done|lia|lia].
Qed.

(** Packing into a jar ends.  While there are headers a round that finds no room frees
    the oldest one; when there is none left a text that fits, with two headers to spare, is
    stored after at most a round for every 32 bytes of the buffer and three more, and is what
    its context contains.  With a text that is larger than the buffer it never ends. *)
Theorem jar_pack_ends s c bs :
  let r := data_room (Z.of_nat (length bs)) in
  Z.of_nat (length bs) < 2 ^ 31 -> datas c = TAILQ_INIT ->
  (forall h hs, is_tailq (heads s) (hlinks s) (h :: hs) -> is_Some (hbody s !! h) ->
     exists s', peak_jar_read s = Some s' /\ is_tailq (heads s') (hlinks s') hs) /\
  (exhausted s -> 64 + r < size s ->
     exists s' c' q, peak_jar_pack (Z.to_nat (size s / 32) + 3) s c bs = Done (s', c') /\ contains s' c' [q] [bs]) /\
  (exhausted s -> size s <= r -> forall fuel, peak_jar_pack fuel s c bs = OutOfFuel).
Proof.
  intros r Hlen Hc. destruct (data_room_bounds (Z.of_nat (length bs))) as [Hr1 Hr2]; [lia|]. fold r in Hr1, Hr2. unfold sizeof_jar_data in Hr1. split; [|split].
  - intros h hs Ht [b Hb]. unfold peak_jar_read, TAILQ_FIRST. rewrite (tq_first _ _ _ Ht). cbn [hd_error].
    destruct (tailq_remove (heads s) (hlinks s) [] h hs Ht) as (h' & m' & -> & Ht' & _). cbn [mbind option_bind with_heads hbody]. rewrite Hb. cbn [mbind option_bind].
    eexists. split; [done|exact Ht'].
  - intros Hs Hsize. pose proof Hs as (_ & _ & (_ & Hw & Hsz) & _). pose proof (Z.div_pos (size s) 32 ltac:(lia) ltac:(lia)).
    replace (Z.to_nat (size s / 32) + 3)%nat with (Z.to_nat (size s / 32 + 1) + 2)%nat by lia.
    apply exhausted_ends; [done|done|fold r; lia|done|]. pose proof (Z.div_mod (size s) 32 ltac:(lia)). pose proof (Z.mod_pos_bound (size s) 32 ltac:(lia)).
    rewrite Z2Nat.id by lia. lia.
  - intros Hs Hsize fuel. revert s Hs Hsize. induction fuel as [|fuel IH]; intros s Hs Hsize; [done|]. cbn [peak_jar_pack].
    destruct (exhausted_round s c bs Hs Hc) as [(s' & c' & q & _ & _ & Hlt)|(s' & E & Hs' & _ & Hsz & _)]; [fold r; lia|by right|fold r in Hlt; lia|].
    rewrite E. cbn [try mbind run_bind]. apply IH; [done|lia].
Qed.

(** ** Repair *)

(** What is left of a context of which the oldest texts were freed: at most the second one
    of its texts, although the newest and others are still there. *)
Theorem jar_repair_keeps s c a1 l d1 :
  is_tailq (datas c) (dlinks s) (a1 :: l) -> dbody s !! a1 = Some d1 -> (forall a, a ∈ l -> is_Some (dbody s !! a)) ->
  TAILQ_EMPTY (heads s) = false -> wrap32 (c_last_serial c - first_serial s) = false -> wrap32 (c_first_serial c - first_serial s) = true ->
  exists s' c' left, peak_jar_repair s c = Some (s', c') /\ is_tailq (datas c') (dlinks s') left /\ dbody s' = dbody s /\
    left = (if wrap32 (prev_serial d1 - first_serial s) then [] else take 1 l).
Proof.
  intros Ht Hd1 Hl Hh Hlast Hfirst. unfold peak_jar_repair, TAILQ_FIRST. rewrite (tq_first _ _ _ Ht), Hh, Hlast, Hfirst. cbn [hd_error].
  pose proof (queue_fits _ _ _ Ht) as Hsz. cbn [length] in Hsz. destruct (base.size (dlinks s)) as [|k] eqn:Ek; [lia|].
  cbn [repair_loop]. rewrite (tailq_next _ _ [] _ _ Ht). cbn [mbind option_bind app]. destruct l as [|a2 l].
  - cbn [hd_error mbind option_bind]. rewrite Hd1. cbn [mbind option_bind]. eexists _, _, []. split; [done|]. split; [apply init_tailq|]. split; [done|]. by case_match.
  - cbn [hd_error]. rewrite Hd1. cbn [mbind option_bind]. destruct (wrap32 (prev_serial d1 - first_serial s)).
    { cbn [mbind option_bind]. rewrite Hd1. cbn [mbind option_bind]. eexists _, _, []. split; [done|]. split; [apply init_tailq|done]. }
    destruct (tailq_insert_tail TAILQ_INIT (dlinks s) [] a2) as (h & m & -> & Ht' & _); [apply init_tailq| |apply not_elem_of_nil|].
    { apply (tailq_member _ _ _ _ Ht). right. left. }
    cbn [mbind option_bind repair_loop]. rewrite (tailq_next _ _ [] _ _ Ht'). cbn [mbind option_bind app hd_error].
    destruct (Hl a2) as [d2 Hd2]; [left|]. rewrite Hd2. cbn [mbind option_bind]. eexists _, _, [a2]. split; [done|]. split; [exact Ht'|done].
Qed.

(** ** Concrete jars *)

Definition w_size : Z := 256.
Definition w_jars : peak_jars := default (Jars TAILQ_INIT 0 0 0 0 0 ∅ ∅ ∅ ∅) (peak_jar_init w_size true).
Definition w_context : peak_jar := Jar TAILQ_INIT 5 6.
(** The callback collects the texts and keeps those of one byte. *)
Definition w_callback (u : list (list Z)) (t : list Z) : list (list Z) * Z := (u ++ [t], if Z.of_nat (length t) =? 1 then JAR_KEEP else JAR_DROP).
Definition w_calls : list call := [Pack 0 [1]; Pack 1 [2; 2]; Pack 0 [3; 3]; Pack 0 [4]; Fifo 0; Lifo 0; Fifo 1].

Lemma jar_refines_lists_witness :
  calls_run w_callback 1 w_calls w_jars (JAR_INIT <$> [w_context; w_context]) [] =
    Done ([[1]; [3; 3]; [4]; [4]; [1]; [2; 2]], [true; true; false]).
Proof.
  apply (jar_refines_lists w_callback 0 w_size w_jars [w_context; w_context] w_calls []); [reflexivity|reflexivity| |vm_compute; reflexivity].
  split; [repeat constructor|vm_compute; reflexivity].
Defined.

Lemma jar_write_room_witness :
  snd (peak_jar_write (with_write 200 w_jars) 40) = Some 200 /\ ~ live (with_write 200 w_jars) 239.
Proof.
  pose proof (jar_write_room (with_write 200 w_jars) 40) as H.
  destruct H as (_ & _ & _ & _ & _ & H & _); [vm_compute; repeat split; discriminate|split; reflexivity|].
  split; [reflexivity|]. apply H; [|vm_compute; split; congruence]. intros [H0 _]. vm_compute in H0. congruence.
Defined.

Lemma w_exhausted : exhausted w_jars.
Proof. vm_compute. repeat split; discriminate. Qed.

Lemma jar_pack_ends_witness :
  (exists s' c' q, peak_jar_pack 11 w_jars w_context [7; 8] = Done (s', c') /\ contains s' c' [q] [[7; 8]]) /\
  peak_jar_pack 100 w_jars w_context (replicate 250 0) = OutOfFuel.
Proof.
  split.
  - destruct (jar_pack_ends w_jars w_context [7; 8]) as (_ & H & _); [reflexivity|reflexivity|]. apply H; [apply w_exhausted|reflexivity].
  - destruct (jar_pack_ends w_jars w_context (replicate 250 0)) as (_ & _ & H); [reflexivity|reflexivity|]. apply H; [apply w_exhausted|vm_compute; discriminate].
Defined.

(** In a squeezed ring a text is put over the header it was meant to follow, which is lost. *)
Example pack_overwrites_header :
  (s ← try (peak_jar_init 128 true); '(s, c) ← peak_jar_pack 10 s w_context (replicate 56 1); peak_jar_pack 10 s c (replicate 64 2)) = Undefined.
Proof. by vm_compute. Qed.
