(* ===== verification/Packet.v ===== *)
(** * Packet decapsulation

    Models [lib/peak_packet.c]: [peak_packet_parse] takes a frame apart, layer by
    layer, into a [peak_packet] whose pointers are offsets into the frame's buffer.
    Every dereference is a bounds-checked read; the code's own checks are the
    returns of 1.  The IPv6 extension-header loop takes fuel.  Little-endian host:
    [ip_hl] and [th_off] are nibbles of their bytes. *)

From S2P Require Import Prelude Bytes Net Counters.

(** ** Constants of the system headers *)

Definition ETHERTYPE_IP : Z := 0x0800.
Definition ETHERTYPE_IPV6 : Z := 0x86DD.
Definition ETHERTYPE_VLAN : Z := 0x8100.
Definition IPPROTO_HOPOPTS : Z := 0.
Definition IPPROTO_ICMP : Z := 1.
Definition IPPROTO_IGMP : Z := 2.
Definition IPPROTO_IPIP : Z := 4.
Definition IPPROTO_TCP : Z := 6.
Definition IPPROTO_UDP : Z := 17.
Definition IPPROTO_IPV6 : Z := 41.
Definition IPPROTO_ROUTING : Z := 43.
Definition IPPROTO_FRAGMENT : Z := 44.
Definition IPPROTO_GRE : Z := 47.
Definition IPPROTO_ESP : Z := 50.
Definition IPPROTO_AH : Z := 51.
Definition IPPROTO_ICMPV6 : Z := 58.
Definition IPPROTO_NONE : Z := 59.
Definition IPPROTO_DSTOPTS : Z := 60.
Definition IPPROTO_OSPFIGP : Z := 89.
Definition IPPROTO_IPEIP : Z := 94.
Definition IPPROTO_PIM : Z := 103.
Definition IPPROTO_L2TP : Z := 115.
Definition IPPROTO_SCTP : Z := 132.
Definition IPVERSION : Z := 4.
Definition ICMP_MINLEN : Z := 8.
Definition TH_FIN : Z := 0x01.
Definition TH_SYN : Z := 0x02.
Definition TH_RST : Z := 0x04.
Definition TH_PUSH : Z := 0x08.
Definition TH_ACK : Z := 0x10.
Definition TH_URG : Z := 0x20.
Definition TCP_MAXHLEN : Z := 0xf ≪ 2.

(** Sizes of the headers. *)
Definition sizeof_eth : Z := 14.
Definition sizeof_vlan : Z := 18.
Definition sizeof_sll : Z := 16.
Definition sizeof_ip : Z := 20.
Definition sizeof_ip6 : Z := 40.
Definition sizeof_ip6_frag : Z := 8.
Definition sizeof_ip6_ext : Z := 2.
Definition sizeof_tcp : Z := 20.
Definition sizeof_udp : Z := 8.

(** ** [include: lib/peak_packet.h] *)

Definition LINKTYPE_NULL : Z := 0.
Definition LINKTYPE_ETHERNET : Z := 1.
Definition LINKTYPE_LINUX_SLL : Z := 113.
Definition LOWER : Z := 0.
Definition UPPER : Z := 1.

(** [struct peak_packet], less its padding; a NULL pointer is [None]. *)
Record peak_packet := PeakPacket {
  mac_raw : option Z;
  net_raw : option Z;
  flow_raw : option Z;
  app_raw : option Z;
  link_type : Z;
  mac_len : Z;
  mac_type : Z;
  mac_vlan : Z;
  net_saddr : netaddr;
  net_daddr : netaddr;
  net_family : Z;
  net_len : Z;
  net_hlen : Z;
  net_type : Z;
  flow_hlen : Z;
  flow_len : Z;
  flow_sport : Z;
  flow_dport : Z;
  app_len : Z
}.

(** Assignments to its fields. *)
Definition set_mac_raw (v : option Z) (s : peak_packet) : peak_packet :=
  PeakPacket v (net_raw s) (flow_raw s) (app_raw s) (link_type s) (mac_len s) (mac_type s) (mac_vlan
    s) (net_saddr s) (net_daddr s) (net_family s) (net_len s) (net_hlen s) (net_type s)
    (flow_hlen s) (flow_len s) (flow_sport s) (flow_dport s) (app_len s).
Definition set_net_raw (v : option Z) (s : peak_packet) : peak_packet :=
  PeakPacket (mac_raw s) v (flow_raw s) (app_raw s) (link_type s) (mac_len s) (mac_type s) (mac_vlan
    s) (net_saddr s) (net_daddr s) (net_family s) (net_len s) (net_hlen s) (net_type s)
    (flow_hlen s) (flow_len s) (flow_sport s) (flow_dport s) (app_len s).
Definition set_flow_raw (v : option Z) (s : peak_packet) : peak_packet :=
  PeakPacket (mac_raw s) (net_raw s) v (app_raw s) (link_type s) (mac_len s) (mac_type s) (mac_vlan s)
    (net_saddr s) (net_daddr s) (net_family s) (net_len s) (net_hlen s) (net_type s)
    (flow_hlen s) (flow_len s) (flow_sport s) (flow_dport s) (app_len s).
Definition set_app_raw (v : option Z) (s : peak_packet) : peak_packet :=
  PeakPacket (mac_raw s) (net_raw s) (flow_raw s) v (link_type s) (mac_len s) (mac_type s) (mac_vlan
    s) (net_saddr s) (net_daddr s) (net_family s) (net_len s) (net_hlen s) (net_type s)
    (flow_hlen s) (flow_len s) (flow_sport s) (flow_dport s) (app_len s).
Definition set_link_type (v : Z) (s : peak_packet) : peak_packet :=
  PeakPacket (mac_raw s) (net_raw s) (flow_raw s) (app_raw s) v (mac_len s) (mac_type s) (mac_vlan s)
    (net_saddr s) (net_daddr s) (net_family s) (net_len s) (net_hlen s) (net_type s)
    (flow_hlen s) (flow_len s) (flow_sport s) (flow_dport s) (app_len s).
Definition set_mac_len (v : Z) (s : peak_packet) : peak_packet :=
  PeakPacket (mac_raw s) (net_raw s) (flow_raw s) (app_raw s) (link_type s) v (mac_type s) (mac_vlan s)
    (net_saddr s) (net_daddr s) (net_family s) (net_len s) (net_hlen s) (net_type s)
    (flow_hlen s) (flow_len s) (flow_sport s) (flow_dport s) (app_len s).
Definition set_mac_type (v : Z) (s : peak_packet) : peak_packet :=
  PeakPacket (mac_raw s) (net_raw s) (flow_raw s) (app_raw s) (link_type s) (mac_len s) v (mac_vlan s)
    (net_saddr s) (net_daddr s) (net_family s) (net_len s) (net_hlen s) (net_type s)
    (flow_hlen s) (flow_len s) (flow_sport s) (flow_dport s) (app_len s).
Definition set_mac_vlan (v : Z) (s : peak_packet) : peak_packet :=
  PeakPacket (mac_raw s) (net_raw s) (flow_raw s) (app_raw s) (link_type s) (mac_len s) (mac_type s) v
    (net_saddr s) (net_daddr s) (net_family s) (net_len s) (net_hlen s) (net_type s)
    (flow_hlen s) (flow_len s) (flow_sport s) (flow_dport s) (app_len s).
Definition set_net_saddr (v : netaddr) (s : peak_packet) : peak_packet :=
  PeakPacket (mac_raw s) (net_raw s) (flow_raw s) (app_raw s) (link_type s) (mac_len s) (mac_type s)
    (mac_vlan s) v (net_daddr s) (net_family s) (net_len s) (net_hlen s) (net_type s)
    (flow_hlen s) (flow_len s) (flow_sport s) (flow_dport s) (app_len s).
Definition set_net_daddr (v : netaddr) (s : peak_packet) : peak_packet :=
  PeakPacket (mac_raw s) (net_raw s) (flow_raw s) (app_raw s) (link_type s) (mac_len s) (mac_type s)
    (mac_vlan s) (net_saddr s) v (net_family s) (net_len s) (net_hlen s) (net_type s)
    (flow_hlen s) (flow_len s) (flow_sport s) (flow_dport s) (app_len s).
Definition set_net_family (v : Z) (s : peak_packet) : peak_packet :=
  PeakPacket (mac_raw s) (net_raw s) (flow_raw s) (app_raw s) (link_type s) (mac_len s) (mac_type s)
    (mac_vlan s) (net_saddr s) (net_daddr s) v (net_len s) (net_hlen s) (net_type s)
    (flow_hlen s) (flow_len s) (flow_sport s) (flow_dport s) (app_len s).
Definition set_net_len (v : Z) (s : peak_packet) : peak_packet :=
  PeakPacket (mac_raw s) (net_raw s) (flow_raw s) (app_raw s) (link_type s) (mac_len s) (mac_type s)
    (mac_vlan s) (net_saddr s) (net_daddr s) (net_family s) v (net_hlen s) (net_type s)
    (flow_hlen s) (flow_len s) (flow_sport s) (flow_dport s) (app_len s).
Definition set_net_hlen (v : Z) (s : peak_packet) : peak_packet :=
  PeakPacket (mac_raw s) (net_raw s) (flow_raw s) (app_raw s) (link_type s) (mac_len s) (mac_type s)
    (mac_vlan s) (net_saddr s) (net_daddr s) (net_family s) (net_len s) v (net_type s)
    (flow_hlen s) (flow_len s) (flow_sport s) (flow_dport s) (app_len s).
Definition set_net_type (v : Z) (s : peak_packet) : peak_packet :=
  PeakPacket (mac_raw s) (net_raw s) (flow_raw s) (app_raw s) (link_type s) (mac_len s) (mac_type s)
    (mac_vlan s) (net_saddr s) (net_daddr s) (net_family s) (net_len s) (net_hlen s) v
    (flow_hlen s) (flow_len s) (flow_sport s) (flow_dport s) (app_len s).
Definition set_flow_hlen (v : Z) (s : peak_packet) : peak_packet :=
  PeakPacket (mac_raw s) (net_raw s) (flow_raw s) (app_raw s) (link_type s) (mac_len s) (mac_type s)
    (mac_vlan s) (net_saddr s) (net_daddr s) (net_family s) (net_len s) (net_hlen s)
    (net_type s) v (flow_len s) (flow_sport s) (flow_dport s) (app_len s).
Definition set_flow_len (v : Z) (s : peak_packet) : peak_packet :=
  PeakPacket (mac_raw s) (net_raw s) (flow_raw s) (app_raw s) (link_type s) (mac_len s) (mac_type s)
    (mac_vlan s) (net_saddr s) (net_daddr s) (net_family s) (net_len s) (net_hlen s)
    (net_type s) (flow_hlen s) v (flow_sport s) (flow_dport s) (app_len s).
Definition set_flow_sport (v : Z) (s : peak_packet) : peak_packet :=
  PeakPacket (mac_raw s) (net_raw s) (flow_raw s) (app_raw s) (link_type s) (mac_len s) (mac_type s)
    (mac_vlan s) (net_saddr s) (net_daddr s) (net_family s) (net_len s) (net_hlen s)
    (net_type s) (flow_hlen s) (flow_len s) v (flow_dport s) (app_len s).
Definition set_flow_dport (v : Z) (s : peak_packet) : peak_packet :=
  PeakPacket (mac_raw s) (net_raw s) (flow_raw s) (app_raw s) (link_type s) (mac_len s) (mac_type s)
    (mac_vlan s) (net_saddr s) (net_daddr s) (net_family s) (net_len s) (net_hlen s)
    (net_type s) (flow_hlen s) (flow_len s) (flow_sport s) v (app_len s).
Definition set_app_len (v : Z) (s : peak_packet) : peak_packet :=
  PeakPacket (mac_raw s) (net_raw s) (flow_raw s) (app_raw s) (link_type s) (mac_len s) (mac_type s)
    (mac_vlan s) (net_saddr s) (net_daddr s) (net_family s) (net_len s) (net_hlen s)
    (net_type s) (flow_hlen s) (flow_len s) (flow_sport s) (flow_dport s) v.
Arguments set_mac_raw v s /.
Arguments set_net_raw v s /.
Arguments set_flow_raw v s /.
Arguments set_app_raw v s /.
Arguments set_link_type v s /.
Arguments set_mac_len v s /.
Arguments set_mac_type v s /.
Arguments set_mac_vlan v s /.
Arguments set_net_saddr v s /.
Arguments set_net_daddr v s /.
Arguments set_net_family v s /.
Arguments set_net_len v s /.
Arguments set_net_hlen v s /.
Arguments set_net_type v s /.
Arguments set_flow_hlen v s /.
Arguments set_flow_len v s /.
Arguments set_flow_sport v s /.
Arguments set_flow_dport v s /.
Arguments set_app_len v s /.

(** [memset] of the structure. *)
Definition peak_packet_zero : peak_packet :=
  PeakPacket None None None None 0 0 0 0 (replicate 16 0) (replicate 16 0) 0 0 0 0 0 0 0 0 0.

(** ** [peak_packet_mac], [peak_packet_net]: names of the types *)

Definition peak_packet_mac (self : peak_packet) : string :=
  if mac_type self =? ETHERTYPE_IP then "ip"
  else if mac_type self =? ETHERTYPE_IPV6 then "ipv6"
  else "xxx".

Definition peak_packet_net (self : peak_packet) : string :=
  let t := net_type self in
  if t =? IPPROTO_ICMP then "icmp"
  else if t =? IPPROTO_IGMP then "igmp"
  else if t =? IPPROTO_IPIP then "ipv4"
  else if t =? IPPROTO_TCP then "tcp"
  else if t =? IPPROTO_UDP then "udp"
  else if t =? IPPROTO_IPV6 then "ipv6"
  else if t =? IPPROTO_GRE then "gre"
  else if t =? IPPROTO_NONE then "none"
  else if t =? IPPROTO_ICMPV6 then "icmpv6"
  else if t =? IPPROTO_IPEIP then "ipeip"
  else if t =? IPPROTO_OSPFIGP then "ospf"
  else if t =? IPPROTO_L2TP then "l2tp"
  else if t =? IPPROTO_SCTP then "sctp"
  else if t =? IPPROTO_PIM then "pim"
  else "xxx".

(** ** IPv6 *)

(** The header types whose length is in the header. *)
Definition ip6_variable (t : Z) : bool :=
  (t =? IPPROTO_HOPOPTS) || (t =? IPPROTO_ROUTING) || (t =? IPPROTO_DSTOPTS) ||
  (t =? IPPROTO_ESP) || (t =? IPPROTO_AH).

(** The loop over extension headers: [next_hdr] is the offset of the next one.  The
    pointer moves by structures of two bytes.  The result is the function's. *)
Fixpoint ipv6_loop (fuel : nat) (m : list Z) (self : peak_packet) (next_hdr next_type : Z)
    : run (peak_packet * Z) :=
  match fuel with
  | O => OutOfFuel
  | S fuel =>
      if ip6_variable next_type then
        ip6e_len ← try (rd m (next_hdr + 1));
        if negb (ip6e_len mod 8 =? 0) then Done (self, 1)
        else
          ip6e_nxt ← try (rd m next_hdr);
          ipv6_loop fuel m self<|set_net_hlen (u8 (net_hlen self + ip6e_len))|>
            (next_hdr + (ip6e_len ≫ 1) * sizeof_ip6_ext) ip6e_nxt
      else if next_type =? IPPROTO_FRAGMENT then
        ip6e_nxt ← try (rd m next_hdr);
        ipv6_loop fuel m self<|set_net_hlen (u8 (net_hlen self + sizeof_ip6_frag))|>
          (next_hdr + (sizeof_ip6_frag ≫ 1) * sizeof_ip6_ext) ip6e_nxt
      else Done (self<|set_net_type next_type|>, 0)
  end.

Definition peak_packet_ipv6 (fuel : nat) (m : list Z) (self : peak_packet)
    : run (peak_packet * Z) :=
  i6h ← try (net_raw self);
  next_type ← try (rd m (i6h + 6));
  ip6_plen ← try (peak_be16dec m (i6h + 4));
  ipv6_loop fuel m
    self<|set_net_len (u16 (sizeof_ip6 + ip6_plen))|><|set_net_hlen sizeof_ip6|>
    (i6h + sizeof_ip6) next_type.

(** ** UDP, TCP *)

Definition peak_packet_udp (m : list Z) (self : peak_packet) : option (peak_packet * Z) :=
  uh ← flow_raw self;
  let flow_hlen := sizeof_udp in
  if flow_len self <? flow_hlen then Some (self, 1) else
  sport ← peak_le16dec m uh;
  if sport =? 0 then Some (self, 1) else
  dport ← peak_le16dec m (uh + 2);
  if dport =? 0 then Some (self, 1) else
  ulen ← peak_le16dec m (uh + 4);
  if ulen =? 0 then Some (self, 1) else
  ulen_be ← peak_be16dec m (uh + 4);
  if ulen_be <? flow_hlen then Some (self, 1) else
  uh_sum ← peak_le16dec m (uh + 6);
  sport_be ← peak_be16dec m uh;
  dport_be ← peak_be16dec m (uh + 2);
  Some (self<|set_app_len (u16 (flow_len self - flow_hlen))|>
            <|set_app_raw (Some (uh + flow_hlen))|>
            <|set_flow_sport sport_be|><|set_flow_dport dport_be|>
            <|set_flow_hlen flow_hlen|>, 0).

(** The flag combinations that are refused. *)
Definition tcp_flags_bad (flags : Z) : bool :=
  (if negb (flags .& TH_SYN =? 0) then negb (flags .& TH_RST =? 0)
   else flags .& (TH_ACK .| TH_RST) =? 0) ||
  ((flags .& TH_ACK =? 0) && negb (flags .& (TH_FIN .| TH_PUSH .| TH_URG) =? 0)).

Definition peak_packet_tcp (m : list Z) (self : peak_packet) : option (peak_packet * Z) :=
  th ← flow_raw self;
  off_byte ← rd m (th + 12);
  let flow_hlen := (off_byte ≫ 4) ≪ 2 in
  if (flow_hlen <? sizeof_tcp) || (TCP_MAXHLEN <? flow_hlen) then Some (self, 1) else
  if flow_len self <? flow_hlen then Some (self, 1) else
  sport ← peak_le16dec m th;
  if sport =? 0 then Some (self, 1) else
  dport ← peak_le16dec m (th + 2);
  if dport =? 0 then Some (self, 1) else
  flags ← rd m (th + 13);
  if tcp_flags_bad flags then Some (self, 1) else
  sport_be ← peak_be16dec m th;
  dport_be ← peak_be16dec m (th + 2);
  Some (self<|set_app_raw (Some (th + flow_hlen))|>
            <|set_app_len (u16 (flow_len self - flow_hlen))|>
            <|set_flow_sport sport_be|><|set_flow_dport dport_be|>
            <|set_flow_hlen flow_hlen|>, 0).

(** ** [peak_packet_parse]

    Its three switches, then their composition.  Each gives the packet and
    [None], or the return value of the whole function. *)

Definition parse_result : Type := peak_packet * peak_audit * Z.

(** The switch over the link type: the packet with its network header, or a drop. *)
Definition parse_link (m : list Z) (self : peak_packet) (type : Z)
    : option (peak_packet * bool) :=
  p ← mac_raw self;
  if type =? LINKTYPE_NULL then
    Some (self<|set_mac_type ETHERTYPE_IP|><|set_net_raw (Some p)|>, true)
  else if type =? LINKTYPE_ETHERNET then
    m_type ← peak_be16dec m (p + 12);
    if m_type =? ETHERTYPE_VLAN then
      mac_type ← peak_be16dec m (p + 16);
      vlan_tci ← peak_be16dec m (p + 14);
      Some (self<|set_mac_type mac_type|><|set_mac_vlan (0x0FFF .& vlan_tci)|>
                <|set_net_raw (Some (p + sizeof_vlan))|>, true)
    else
      Some (self<|set_mac_type m_type|><|set_net_raw (Some (p + sizeof_eth))|>, true)
  else if type =? LINKTYPE_LINUX_SLL then
    sll_protocol ← peak_be16dec m (p + 14);
    Some (self<|set_mac_type sll_protocol|><|set_net_raw (Some (p + sizeof_sll))|>, true)
  else Some (self, false).

(** The IPv4 case of the switch over the network type: the packet, and whether it is
    kept. *)
Definition parse_ipv4 (m : list Z) (self : peak_packet) : option (peak_packet * bool) :=
  iph ← net_raw self;
  b0 ← rd m iph;
  let ip_hlen := (b0 .& 0xf) ≪ 2 in
  ip_len ← peak_be16dec m (iph + 2);
  if negb (b0 ≫ 4 =? IPVERSION) then Some (self, false) else
  if ip_hlen <? sizeof_ip then Some (self, false) else
  if ip_len <? ip_hlen then Some (self, false) else
  src ← peak_le32dec m (iph + 12);
  saddr ← netaddr4 (net_saddr self) src;
  dst ← peak_le32dec m (iph + 16);
  daddr ← netaddr4 (net_daddr self) dst;
  ip_p ← rd m (iph + 9);
  Some (self<|set_net_saddr saddr|><|set_net_daddr daddr|><|set_net_family AF_INET|>
            <|set_net_type ip_p|><|set_net_hlen (u8 ip_hlen)|><|set_net_len ip_len|>, true).

(** The IPv6 case. *)
Definition parse_ipv6 (fuel : nat) (m : list Z) (self : peak_packet)
    : run (peak_packet * bool) :=
  ip6h ← try (net_raw self);
  saddr ← try (netaddr6 (net_saddr self) m (ip6h + 8));
  daddr ← try (netaddr6 (net_daddr self) m (ip6h + 24));
  r ← peak_packet_ipv6 fuel m
        self<|set_net_saddr saddr|><|set_net_daddr daddr|><|set_net_family AF_INET6|>;
  Done (r.1, r.2 =? 0).

(** The header start and length of the transport layer, and its switch. *)
Definition parse_flow (m : list Z) (self : peak_packet) (audit : peak_audit)
    : option parse_result :=
  net ← net_raw self;
  let self := self<|set_flow_raw (Some (net + net_hlen self))|>
                  <|set_flow_len (u16 (net_len self - net_hlen self))|> in
  if net_type self =? IPPROTO_TCP then
    r ← peak_packet_tcp m self;
    if negb (r.2 =? 0)
    then Some (r.1, peak_audit_inc audit AUDIT_PACKET_DROP_TCP, 1)
    else Some (r.1, audit, 0)
  else if net_type self =? IPPROTO_UDP then
    r ← peak_packet_udp m self;
    if negb (r.2 =? 0)
    then Some (r.1, peak_audit_inc audit AUDIT_PACKET_DROP_UDP, 1)
    else Some (r.1, audit, 0)
  else if net_type self =? IPPROTO_ICMP then
    if flow_len self <? ICMP_MINLEN
    then Some (self, peak_audit_inc audit AUDIT_PACKET_DROP_ICMP, 1)
    else
      Some (self<|set_app_len (u16 (flow_len self - ICMP_MINLEN))|>
                <|set_app_raw (Some (net + net_hlen self + ICMP_MINLEN))|>
                <|set_flow_hlen ICMP_MINLEN|>, audit, 0)
  else Some (self, audit, 0).

(** [buf] is the offset of the frame in the memory [m]; [len] is only recorded. *)
Definition peak_packet_parse (fuel : nat) (m : list Z) (audit : peak_audit)
    (buf len type : Z) : run parse_result :=
  let self := peak_packet_zero<|set_link_type type|><|set_mac_raw (Some buf)|>
                              <|set_mac_len len|> in
  r ← try (parse_link m self type);
  let self := r.1 in
  if negb r.2 then Done (self, peak_audit_inc audit AUDIT_PACKET_DROP_LINK, 1)
  else if mac_type self =? ETHERTYPE_IP then
    r ← try (parse_ipv4 m self);
    if negb r.2 then Done (r.1, peak_audit_inc audit AUDIT_PACKET_DROP_IPV4, 1)
    else try (parse_flow m r.1 audit)
  else if mac_type self =? ETHERTYPE_IPV6 then
    r ← parse_ipv6 fuel m self;
    if negb r.2 then Done (r.1, peak_audit_inc audit AUDIT_PACKET_DROP_IPV6, 1)
    else try (parse_flow m r.1 audit)
  else Done (self, audit, 0).

(** ** What each step leaves behind *)

Lemma try_Done {A} (o : option A) a : try o = Done a -> o = Some a.
Proof. destruct o; [by intros [= ->]|done]. Qed.

Lemma run_bind_Done {A B} (x : run A) (f : A -> run B) b :
  x ≫= f = Done b -> exists a, x = Done a /\ f a = Done b.
Proof. destruct x; [eauto|done..]. Qed.

(** Split a parser that returned, branch by branch. *)
Ltac parse_inv :=
  repeat match goal with
  | H : _ ≫= _ = Some _ |- _ => apply bind_Some in H as (? & ? & H)
  | H : _ ≫= _ = Done _ |- _ => apply run_bind_Done in H as (? & ? & H)
  | H : try _ = Done _ |- _ => apply try_Done in H
  | H : (if _ then _ else _) = Some _ |- _ => let E := fresh "C" in destruct_if H E
  | H : (if _ then _ else _) = Done _ |- _ => let E := fresh "C" in destruct_if H E
  | H : Some _ = Some _ |- _ => injection H as H; subst
  | H : Done _ = Done _ |- _ => injection H as H; subst
  | H : (_, _) = (_, _) |- _ => injection H as ?; subst
  end
with destruct_if H E :=
  match type of H with (if ?b then _ else _) = _ => destruct b eqn:E end.

Lemma be16dec_fits m p v : bytes m -> peak_be16dec m p = Some v -> fits 16 v.
Proof.
  intros Hm. rewrite be16dec_spec by done. intros (bs & H & ->)%fmap_Some.
  pose proof (be_val_fits bs (rd_n_bytes _ _ _ _ Hm H)) as Hf.
  by rewrite (rd_n_length _ _ _ _ H) in Hf.
Qed.

Lemma parse_link_true m self type self' :
  bytes m -> parse_link m self type = Some (self', true) ->
  exists n mt vl, 0 <= n - default 0 (mac_raw self) <= sizeof_vlan /\ fits 16 mt /\
    self' = self<|set_mac_type mt|><|set_mac_vlan vl|><|set_net_raw (Some n)|>.
Proof.
  intros Hm H. unfold parse_link in H. parse_inv; try done.
  all: destruct self; simpl in *; simplify_eq; simpl.
  all: unfold sizeof_vlan, sizeof_eth, sizeof_sll.
  all: do 3 eexists; split_and!; [..|reflexivity]; try (by eapply be16dec_fits); try lia; try done.
Qed.

(** A header length in 32-bit words, from a nibble. *)
Lemma nibble_words b : 0 <= b < 16 -> b ≪ 2 = 4 * b.
Proof. intros Hb. rewrite Z.shiftl_mul_pow2 by lia. lia. Qed.

Lemma low_nibble b : 0 <= b .& 0xf < 16.
Proof. rewrite (land_low 4 b 0xf) by done. by apply Z.mod_pos_bound. Qed.

Lemma high_nibble b : fits 8 b -> 0 <= b ≫ 4 < 16.
Proof. intros Hb. width_lia. Qed.

Lemma parse_ipv4_true m self self' :
  bytes m -> parse_ipv4 m self = Some (self', true) ->
  exists n sa da p hl len, net_raw self = Some n /\
    20 <= hl <= 60 /\ hl mod 4 = 0 /\ hl <= len < 2 ^ 16 /\ fits 8 p /\
    self' = self<|set_net_saddr sa|><|set_net_daddr da|><|set_net_family AF_INET|>
                <|set_net_type p|><|set_net_hlen hl|><|set_net_len len|>.
Proof.
  intros Hm H. unfold parse_ipv4 in H. parse_inv; try done.
  match goal with E : rd m _ = Some ?b, C : ((?b .& 0xf) ≪ 2 <? _) = false |- _ =>
    pose proof (low_nibble b) as Hb; rewrite nibble_words in * by done end.
  match goal with E : peak_be16dec m _ = Some _ |- _ => pose proof (be16dec_fits _ _ _ Hm E) as Hlen end.
  unfold sizeof_ip, fits in *. rewrite Z.ltb_ge in *.
  rewrite (wrap_small 8) by (unfold fits; lia). remember (4 * _) as hl eqn:Ehl.
  do 6 eexists. split_and!; [eassumption|..|reflexivity].
  all: try lia; try (by eapply rd_byte).
  rewrite Ehl, Z.mul_comm. apply Z_mod_mult.
Qed.

(** The transports [parse_flow] knows. *)
Definition has_app (t : Z) : bool :=
  (t =? IPPROTO_TCP) || (t =? IPPROTO_UDP) || (t =? IPPROTO_ICMP).

(** Specification: consecutive layers, each the payload of the one before; [n] is
    the network header. *)
Definition layered (n : Z) (self : peak_packet) : Prop :=
  net_raw self = Some n /\ 20 <= net_hlen self /\
  flow_raw self = Some (n + net_hlen self) /\
  net_hlen self + flow_len self = net_len self /\ 0 <= flow_len self /\
  if has_app (net_type self)
  then app_raw self = Some (n + net_hlen self + flow_hlen self) /\
       flow_hlen self + app_len self = flow_len self /\
       8 <= flow_hlen self /\ 0 <= app_len self
  else app_raw self = None /\ app_len self = 0.

Lemma u16_sub a b : 0 <= b <= a -> a < 2 ^ 16 -> u16 (a - b) = a - b.
Proof. intros. apply wrap_small. unfold fits. lia. Qed.

Lemma peak_packet_udp_0 m self self' f :
  flow_raw self = Some f -> 0 <= flow_len self < 2 ^ 16 ->
  peak_packet_udp m self = Some (self', 0) ->
  exists sp dp, sizeof_udp <= flow_len self /\
    self' = self<|set_app_len (flow_len self - sizeof_udp)|>
                <|set_app_raw (Some (f + sizeof_udp))|>
                <|set_flow_sport sp|><|set_flow_dport dp|><|set_flow_hlen sizeof_udp|>.
Proof.
  intros Hf Hl H. unfold peak_packet_udp in H. rewrite Hf in H. simpl in H. parse_inv; try done.
  rewrite Z.ltb_ge in *. rewrite u16_sub by (unfold sizeof_udp in *; lia).
  do 2 eexists. split; [done|reflexivity].
Qed.

Lemma peak_packet_tcp_0 m self self' f :
  bytes m -> flow_raw self = Some f -> 0 <= flow_len self < 2 ^ 16 ->
  peak_packet_tcp m self = Some (self', 0) ->
  exists hl sp dp, 20 <= hl <= 60 /\ hl <= flow_len self /\
    self' = self<|set_app_raw (Some (f + hl))|><|set_app_len (flow_len self - hl)|>
                <|set_flow_sport sp|><|set_flow_dport dp|><|set_flow_hlen hl|>.
Proof.
  intros Hm Hf Hl H. unfold peak_packet_tcp in H. rewrite Hf in H. simpl in H. parse_inv; try done.
  apply orb_false_iff in C as [Hlo Hhi]. rewrite Z.ltb_ge in *.
  unfold sizeof_tcp in *. change TCP_MAXHLEN with 60 in Hhi. rewrite u16_sub by lia.
  do 3 eexists. split_and!; [..|reflexivity]; done.
Qed.

Lemma tcp_udp_ret m self self' r :
  peak_packet_tcp m self = Some (self', r) \/ peak_packet_udp m self = Some (self', r) ->
  r = 0 \/ r = 1.
Proof.
  intros [H|H]; [unfold peak_packet_tcp in H|unfold peak_packet_udp in H]; parse_inv; auto.
Qed.

(** The application data is what follows the transport header, up to its end. *)
Definition app_layered (f : Z) (self : peak_packet) : Prop :=
  if has_app (net_type self)
  then app_raw self = Some (f + flow_hlen self) /\ flow_hlen self + app_len self = flow_len self /\
       8 <= flow_hlen self /\ 0 <= app_len self
  else app_raw self = None /\ app_len self = 0.

(** What the transport layer leaves alone. *)
Definition below_flow (self self' : peak_packet) : Prop :=
  net_raw self' = net_raw self /\ net_hlen self' = net_hlen self /\ net_len self' = net_len self /\
  net_type self' = net_type self /\ net_family self' = net_family self /\ net_saddr self' = net_saddr self /\
  net_daddr self' = net_daddr self /\ mac_type self' = mac_type self.

Lemma parse_flow_app m self audit self' audit' n :
  bytes m -> net_raw self = Some n -> app_raw self = None -> app_len self = 0 ->
  parse_flow m self audit = Some (self', audit', 0) ->
  audit' = audit /\ below_flow self self' /\ flow_raw self' = Some (n + net_hlen self) /\
  flow_len self' = u16 (net_len self - net_hlen self) /\ app_layered (n + net_hlen self) self'.
Proof.
  intros Hm Hn Ha Hal H. unfold parse_flow in H. rewrite Hn in H. simpl in H.
  destruct self. simpl in *. subst. unfold app_layered, below_flow, has_app.
  pose proof (wrap_bound 16 (net_len0 - net_hlen0) ltac:(lia)) as [Hf0 Hf1]. set (fl := u16 _) in *.
  destruct (Z.eqb_spec net_type0 IPPROTO_TCP) as [->|H1]; [|
  destruct (Z.eqb_spec net_type0 IPPROTO_UDP) as [->|H2]; [|
  destruct (Z.eqb_spec net_type0 IPPROTO_ICMP) as [->|H3]]].
  - parse_inv; [done|]. destruct x as [s r]. apply negb_false_iff, Z.eqb_eq in C. simpl in *. subst r.
    match goal with E : peak_packet_tcp _ _ = _ |- _ => eapply peak_packet_tcp_0 in E as (hl & sp & dp & ? & ? & ->) end;
      simpl in *; [|done|done|lia].
    split_and!; try done; lia.
  - parse_inv; [done|]. destruct x as [s r]. apply negb_false_iff, Z.eqb_eq in C. simpl in *. subst r.
    match goal with E : peak_packet_udp _ _ = _ |- _ => eapply peak_packet_udp_0 in E as (sp & dp & ? & ->) end;
      simpl in *; [|done|lia].
    unfold sizeof_udp in *. split_and!; try done; lia.
  - parse_inv; [done|]. rewrite Z.ltb_ge in *. unfold ICMP_MINLEN in *. simpl.
    rewrite u16_sub by lia. split_and!; try done; lia.
  - parse_inv. simpl.
    rewrite (proj2 (Z.eqb_neq _ _) H1), (proj2 (Z.eqb_neq _ _) H2), (proj2 (Z.eqb_neq _ _) H3).
    split_and!; done.
Qed.

Lemma parse_flow_0 m self audit self' audit' n :
  bytes m -> net_raw self = Some n -> app_raw self = None -> app_len self = 0 ->
  20 <= net_hlen self <= net_len self -> net_len self < 2 ^ 16 ->
  parse_flow m self audit = Some (self', audit', 0) ->
  audit' = audit /\ mac_type self' = mac_type self /\ layered n self'.
Proof.
  intros Hm Hn Ha Hal Hh Hl H. apply (parse_flow_app _ _ _ _ _ n) in H as (-> & Hb & Hf & Hfl & Happ); [|done..].
  destruct Hb as (E1 & E2 & E3 & _ & _ & _ & _ & E4). rewrite u16_sub in Hfl by lia.
  split_and!; [done..|]. unfold layered, app_layered in *. rewrite E1, E2, E3, Hfl.
  split_and!; [done|lia|done|lia|lia|]. rewrite Hfl in Happ. exact Happ.
Qed.

(** ** Reads in bounds succeed *)

Lemma be16dec_in m p : bytes m -> 0 <= p -> p + 2 <= msize m -> exists v, peak_be16dec m p = Some v.
Proof.
  intros Hm H0 H1. rewrite be16dec_spec by done.
  destruct (rd_n_is_Some m p 2) as (bs & -> & _); [lia..|]. by eexists.
Qed.

Lemma le16dec_in m p : bytes m -> 0 <= p -> p + 2 <= msize m -> exists v, peak_le16dec m p = Some v.
Proof.
  intros Hm H0 H1. rewrite le16dec_spec by done.
  destruct (rd_n_is_Some m p 2) as (bs & -> & _); [lia..|]. by eexists.
Qed.

Lemma le32dec_in m p : bytes m -> 0 <= p -> p + 4 <= msize m -> exists v, peak_le32dec m p = Some v.
Proof.
  intros Hm H0 H1. rewrite le32dec_spec by done.
  destruct (rd_n_is_Some m p 4) as (bs & -> & _); [lia..|]. by eexists.
Qed.

Lemma netaddr4_in a ip : length a = 16%nat -> exists r, netaddr4 a ip = Some r /\ length r = 16%nat.
Proof. intros Ha. rewrite netaddr4_val by done. by eexists. Qed.

(** Perform the reads of the goal, then branch. *)
Ltac do_reads :=
  repeat match goal with
  | |- exists _, (_ ← peak_be16dec ?m ?p; _) = Some _ =>
      let E := fresh "R" in destruct (be16dec_in m p) as [? E]; [done|lia|lia|rewrite E; simpl]
  | |- exists _, (_ ← peak_le16dec ?m ?p; _) = Some _ =>
      let E := fresh "R" in destruct (le16dec_in m p) as [? E]; [done|lia|lia|rewrite E; simpl]
  | |- exists _, (_ ← peak_le32dec ?m ?p; _) = Some _ =>
      let E := fresh "R" in destruct (le32dec_in m p) as [? E]; [done|lia|lia|rewrite E; simpl]
  | |- exists _, (_ ← rd ?m ?p; _) = Some _ =>
      let E := fresh "R" in destruct (rd_in m p) as [? E]; [lia|rewrite E; simpl]
  | |- exists _, (_ ← netaddr4 ?a ?p; _) = Some _ =>
      let E := fresh "R" in destruct (netaddr4_in a p) as (? & E & ?); [done|rewrite E; simpl]
  | |- exists _, (if ?b then _ else _) = Some _ => destruct b
  | |- exists _, Some _ = Some _ => by eexists
  end.

Lemma parse_link_in m self type p :
  bytes m -> mac_raw self = Some p -> 0 <= p -> p + sizeof_vlan <= msize m ->
  exists r, parse_link m self type = Some r.
Proof.
  intros Hm Hp H0 H1. unfold sizeof_vlan in *. unfold parse_link. rewrite Hp. simpl. do_reads.
Qed.

Lemma parse_ipv4_in m self p :
  bytes m -> net_raw self = Some p -> 0 <= p -> p + sizeof_ip <= msize m ->
  length (net_saddr self) = 16%nat -> length (net_daddr self) = 16%nat ->
  exists r, parse_ipv4 m self = Some r.
Proof.
  intros Hm Hp H0 H1 Hs Hd. unfold sizeof_ip in *. unfold parse_ipv4. rewrite Hp. simpl. do_reads.
Qed.

Lemma peak_packet_tcp_in m self f :
  bytes m -> flow_raw self = Some f -> 0 <= f -> f + 14 <= msize m ->
  exists r, peak_packet_tcp m self = Some r.
Proof. intros Hm Hf H0 H1. unfold peak_packet_tcp. rewrite Hf. simpl. do_reads. Qed.

Lemma peak_packet_udp_in m self f :
  bytes m -> flow_raw self = Some f -> 0 <= f -> f + sizeof_udp <= msize m ->
  exists r, peak_packet_udp m self = Some r.
Proof.
  intros Hm Hf H0 H1. unfold sizeof_udp in *. unfold peak_packet_udp. rewrite Hf. simpl. do_reads.
Qed.

Lemma parse_flow_in m self audit n :
  bytes m -> net_raw self = Some n -> 0 <= n + net_hlen self ->
  n + net_hlen self + 14 <= msize m -> exists r, parse_flow m self audit = Some r.
Proof.
  intros Hm Hn H0 H1. unfold parse_flow. rewrite Hn. simpl.
  repeat match goal with |- exists _, (if ?b then _ else _) = Some _ => destruct b end;
    try (by eexists).
  - edestruct peak_packet_tcp_in as [r ->]; [done|reflexivity|done|done|]. simpl. by case_match; eexists.
  - edestruct peak_packet_udp_in as [r ->]; [done|reflexivity|done|unfold sizeof_udp; lia|].
    simpl. by case_match; eexists.
Qed.

(** ** The extension-header loop *)

(** A header of variable type and length zero that names a variable type again:
    the loop stays where it is. *)
Definition ip6_stuck (m : list Z) (q t : Z) : Prop :=
  ip6_variable t = true /\ rd m (q + 1) = Some 0 /\
  exists t', rd m q = Some t' /\ ip6_variable t' = true.

(** One iteration: undefined, a return, or the state of the next. *)
Definition ipv6_iter (m : list Z) (self : peak_packet) (q t : Z)
    : option (peak_packet * Z + peak_packet * Z * Z) :=
  if ip6_variable t then
    l ← rd m (q + 1);
    if negb (l mod 8 =? 0) then Some (inl (self, 1)) else
    t' ← rd m q;
    Some (inr (self<|set_net_hlen (u8 (net_hlen self + l))|>, q + (l ≫ 1) * 2, t'))
  else if t =? IPPROTO_FRAGMENT then
    t' ← rd m q;
    Some (inr (self<|set_net_hlen (u8 (net_hlen self + 8))|>, q + 8, t'))
  else Some (inl (self<|set_net_type t|>, 0)).

Lemma ipv6_loop_S fuel m self q t :
  ipv6_loop (S fuel) m self q t =
    match ipv6_iter m self q t with
    | None => Undefined
    | Some (inl r) => Done r
    | Some (inr (s, q', t')) => ipv6_loop fuel m s q' t'
    end.
Proof.
  unfold ipv6_iter. cbn [ipv6_loop]. destruct (ip6_variable t).
  - destruct (rd m (q + 1)) as [l|]; cbn; [|done]. destruct (l mod 8 =? 0); cbn; [|done].
    by destruct (rd m q).
  - destruct (t =? IPPROTO_FRAGMENT); [|done]. by destruct (rd m q).
Qed.

(** An iteration that goes on leaves its header behind, unless the length is 0. *)
Lemma ipv6_iter_next m self q t s q' t' :
  bytes m -> ipv6_iter m self q t = Some (inr (s, q', t')) ->
  fits 8 (net_hlen s) /\
  (q < q' \/ ip6_variable t = true /\ rd m (q + 1) = Some 0 /\ rd m q = Some t' /\ q' = q).
Proof.
  intros Hm. unfold ipv6_iter. destruct (ip6_variable t) eqn:Et.
  - destruct (rd m (q + 1)) as [l|] eqn:El; cbn; [|done].
    destruct (Z.eqb_spec (l mod 8) 0) as [E8|]; cbn; [|done].
    destruct (rd m q) as [t1|]; cbn; [|done]. intros [= <- <- <-].
    split; [by apply wrap_bound|].
    pose proof (rd_byte _ _ _ Hm El) as [Hl _]. rewrite shiftr_div by lia. change (2 ^ 1) with 2.
    destruct (Z.eq_dec l 0) as [->|]; [right; split_and!; [done..|apply Z.add_0_r]|left].
    Z.to_euclidean_division_equations; lia.
  - destruct (t =? IPPROTO_FRAGMENT); [|done].
    destruct (rd m q); cbn; [|done]. intros [= <- <- <-].
    split; [by apply wrap_bound|]. lia.
Qed.

(** A header beyond the buffer is not read. *)
Lemma ipv6_iter_out m self q t s q' t' :
  ipv6_iter m self q t = Some (inr (s, q', t')) -> q < msize m.
Proof.
  unfold ipv6_iter. destruct (ip6_variable t).
  - destruct (rd m (q + 1)) eqn:E; cbn; [|done]. apply rd_bound in E. lia.
  - destruct (t =? IPPROTO_FRAGMENT); [|done].
    destruct (rd m q) eqn:E; cbn; [|done]. apply rd_bound in E. lia.
Qed.

(** The next header: its place and its type are read from this one. *)
Inductive ip6_next (m : list Z) : Z * Z -> Z * Z -> Prop :=
  | ip6_next_variable q t l t' : ip6_variable t = true -> rd m (q + 1) = Some l -> l mod 8 = 0 -> rd m q = Some t' ->
      ip6_next m (q, t) (q + (l ≫ 1) * 2, t')
  | ip6_next_fragment q t' : rd m q = Some t' -> ip6_next m (q, IPPROTO_FRAGMENT) (q + 8, t').

Lemma ipv6_iter_goes m self q t s q' t' :
  ipv6_iter m self q t = Some (inr (s, q', t')) -> ip6_next m (q, t) (q', t').
Proof.
  unfold ipv6_iter. destruct (ip6_variable t) eqn:Et.
  - destruct (rd m (q + 1)) as [l|] eqn:El; cbn; [|done]. destruct (Z.eqb_spec (l mod 8) 0); cbn; [|done].
    destruct (rd m q) as [t1|] eqn:E1; cbn; [|done]. intros [= <- <- <-]. by eapply ip6_next_variable.
  - destruct (Z.eqb_spec t IPPROTO_FRAGMENT) as [->|]; [|done].
    destruct (rd m q) as [t1|] eqn:E1; cbn; [|done]. intros [= <- <- <-]. by apply ip6_next_fragment.
Qed.

Lemma ip6_next_iter m self x y :
  ip6_next m x y -> exists s, ipv6_iter m self x.1 x.2 = Some (inr (s, y.1, y.2)).
Proof.
  intros [q t l t' Ht Hl H8 H1|q t' H1]; cbn [fst snd]; unfold ipv6_iter.
  - rewrite Ht, Hl. cbn [mbind option_bind]. rewrite H8, H1. cbn. by eexists.
  - rewrite H1. cbn. by eexists.
Qed.

Lemma ip6_next_loop m self x y :
  rtc (ip6_next m) x y ->
  exists k self', forall fuel, ipv6_loop (k + fuel) m self x.1 x.2 = ipv6_loop fuel m self' y.1 y.2.
Proof.
  intros Hr. revert self. induction Hr as [x|x y z Hs _ IH]; intros self; [by exists 0%nat, self|].
  destruct (ip6_next_iter m self x y Hs) as [s E]. destruct (IH s) as (k & self' & Hk). exists (S k), self'.
  intros fuel. cbn [plus]. by rewrite ipv6_loop_S, E.
Qed.

Lemma ip6_stuck_next m q t : ip6_stuck m q t -> exists t', ip6_next m (q, t) (q, t') /\ ip6_stuck m q t'.
Proof.
  intros (Ht & H0 & t' & Ht' & Hv). exists t'. split; [|by split_and!; eauto].
  pose proof (ip6_next_variable m q t 0 t' Ht H0 eq_refl Ht') as H. by rewrite Z.add_0_r in H.
Qed.

Lemma ipv6_loop_stuck fuel m self q t : ip6_stuck m q t -> ipv6_loop fuel m self q t = OutOfFuel.
Proof.
  revert self t. induction fuel as [|fuel IH]; intros self t Hs; [done|].
  destruct (ip6_stuck_next m q t Hs) as (t' & Hn & Hs'). destruct (ip6_next_iter m self _ _ Hn) as [s E].
  cbn [fst snd] in E. rewrite ipv6_loop_S, E. by apply IH.
Qed.

(** More fuel does not change a result. *)
Lemma ipv6_loop_more k fuel m self q t :
  ipv6_loop fuel m self q t <> OutOfFuel ->
  ipv6_loop (k + fuel) m self q t = ipv6_loop fuel m self q t.
Proof.
  revert self q t. induction fuel as [|fuel IH]; intros self q t H; [done|].
  rewrite Nat.add_succ_r. rewrite ipv6_loop_S in *. rewrite ipv6_loop_S.
  destruct (ipv6_iter m self q t) as [[r|[[s q'] t']]|]; [done| |done]. by apply IH.
Qed.

(** A header from which the loop never ends. *)
Definition ip6_reaches_stuck (m : list Z) (q t : Z) : Prop :=
  exists q' t', rtc (ip6_next m) (q, t) (q', t') /\ ip6_stuck m q' t'.

Lemma ipv6_loop_reaches fuel m self q t : ip6_reaches_stuck m q t -> ipv6_loop fuel m self q t = OutOfFuel.
Proof.
  intros (q' & t' & Hr & Hs). destruct (ipv6_loop fuel m self q t) as [r| |] eqn:E; [..|done];
    (assert (ipv6_loop fuel m self q t <> OutOfFuel) as Hne by (by rewrite E));
    destruct (ip6_next_loop m self _ _ Hr) as (k & self' & Hk); cbn [fst snd] in Hk;
    apply (ipv6_loop_more k) in Hne; rewrite Hk, ipv6_loop_stuck, E in Hne; done.
Qed.

(** The loop ends within [n] iterations, or is on its way to a stuck header. *)
Definition ends_or_stuck (n : nat) (m : list Z) (self : peak_packet) (q t : Z) : Prop :=
  ipv6_loop n m self q t <> OutOfFuel \/ ip6_reaches_stuck m q t.

Lemma ends_or_stuck_step n m self q t :
  (forall s q' t', ipv6_iter m self q t = Some (inr (s, q', t')) -> ends_or_stuck n m s q' t') ->
  ends_or_stuck (S n) m self q t.
Proof.
  intros H. unfold ends_or_stuck. rewrite ipv6_loop_S.
  destruct (ipv6_iter m self q t) as [[r|[[s q'] t']]|] eqn:E; [by left| |by left].
  destruct (H s q' t' eq_refl) as [Hn|(q1 & t1 & Hr & Hs)]; [by left|right].
  exists q1, t1. split; [|done]. eapply rtc_l; [by eapply ipv6_iter_goes|done].
Qed.

Lemma ends_or_stuck_mono k n m self q t :
  ends_or_stuck n m self q t -> ends_or_stuck (k + n) m self q t.
Proof. intros [H|H]; [left; by rewrite ipv6_loop_more|by right]. Qed.

(** Every header that is not stuck is left behind within two iterations, so the
    bytes that remain bound the loop. *)
Lemma ipv6_loop_bound n m self q t :
  bytes m -> msize m - q < Z.of_nat n -> ends_or_stuck (2 * n + 1) m self q t.
Proof.
  intros Hm. revert self q t. induction n as [|n IH]; intros self q t Hn.
  { apply ends_or_stuck_step. intros s q' t' E%ipv6_iter_out. lia. }
  replace (2 * S n + 1)%nat with (S (S (2 * n + 1))) by lia.
  apply ends_or_stuck_step. intros s q' t' E.
  destruct (ipv6_iter_next _ _ _ _ _ _ _ Hm E) as [Hh [Hq|(Ht & H0 & Ht' & ->)]].
  { apply (ends_or_stuck_mono 1), IH. lia. }
  destruct (ip6_variable t') eqn:Hv.
  { right. exists q, t'. split; [constructor|]. split_and!; eauto. }
  apply ends_or_stuck_step. intros s2 q2 t2 E2.
  destruct (ipv6_iter_next _ _ _ _ _ _ _ Hm E2) as [_ [Hq|(Hv' & _)]]; [|congruence].
  apply IH. lia.
Qed.

(** ** Properties of IPv4 decapsulation *)

Lemma parse_cases fuel m audit buf len type self audit' r :
  peak_packet_parse fuel m audit buf len type = Done (self, audit', r) ->
  (r = 0 /\ audit' = audit) \/
  (r = 1 /\ exists field, 0 <= field <= AUDIT_PACKET_DROP_UDP /\ audit' = peak_audit_inc audit field).
Proof.
  intros H. unfold peak_packet_parse, parse_flow in H. parse_inv; auto.
  all: right; split; [done|]; eexists; split; [|done]; by compute.
Qed.

(** No step after the link layer changes what the link layer decided. *)
Lemma parse_flow_mac m self audit self' audit' r :
  parse_flow m self audit = Some (self', audit', r) ->
  mac_type self' = mac_type self /\ net_len self' = net_len self.
Proof.
  intros H. unfold parse_flow, peak_packet_tcp, peak_packet_udp in H.
  parse_inv; done.
Qed.

Lemma ipv6_iter_mac m self q t x :
  ipv6_iter m self q t = Some x ->
  mac_type (match x with inl r => r.1 | inr r => r.1.1 end) = mac_type self.
Proof. intros H. unfold ipv6_iter in H. parse_inv; done. Qed.

Lemma ipv6_loop_mac fuel m self q t self' r :
  ipv6_loop fuel m self q t = Done (self', r) -> mac_type self' = mac_type self.
Proof.
  revert self q t. induction fuel as [|fuel IH]; intros self q t H; [done|].
  rewrite ipv6_loop_S in H.
  destruct (ipv6_iter m self q t) as [[[s1 r1]|[[s q'] t']]|] eqn:E; [..|done].
  all: apply ipv6_iter_mac in E; simpl in E.
  - by injection H as -> _.
  - rewrite <- E. by eapply IH.
Qed.

Lemma parse_ipv6_mac fuel m self self' r :
  parse_ipv6 fuel m self = Done (self', r) -> mac_type self' = mac_type self.
Proof.
  unfold parse_ipv6, peak_packet_ipv6. intros H. parse_inv.
  match goal with E : ipv6_loop _ _ _ _ _ = Done ?x |- _ => destruct x; apply ipv6_loop_mac in E end.
  done.
Qed.

(** C24.  A frame that is accepted as IPv4 decapsulates into consecutive layers: the
    network header takes at least 20 bytes and lies in the datagram, the
    transport layer is what follows it up to the datagram's total length, and for
    TCP, UDP and ICMP the application data is what follows the transport header, up
    to the same end; for other protocols there is none. *)
Theorem parse_layers_ipv4 fuel m audit buf len type self audit' :
  bytes m -> peak_packet_parse fuel m audit buf len type = Done (self, audit', 0) ->
  mac_type self = ETHERTYPE_IP ->
  exists n, 0 <= n - buf <= sizeof_vlan /\ layered n self /\ net_len self < 2 ^ 16.
Proof.
  intros Hm H Ht. unfold peak_packet_parse in H.
  apply run_bind_Done in H as ((s1 & ok) & L%try_Done & H). simpl in H.
  destruct ok; simpl in H; [|done].
  apply parse_link_true in L as (n & mt & vl & Hn & _ & ->); [|done]. simpl in H, Hn.
  destruct (Z.eqb_spec mt ETHERTYPE_IP) as [->|Hne].
  - apply run_bind_Done in H as ((s2 & ok) & I%try_Done & H). simpl in H.
    destruct ok; simpl in H; [|done].
    apply parse_ipv4_true in I as (n' & sa & da & p & hl & tl & En & Hhl & _ & Htl & _ & ->); [|done].
    simpl in En. injection En as <-. apply try_Done in H. exists n. split; [done|].
    destruct (parse_flow_mac _ _ _ _ _ _ H) as [_ El].
    apply (parse_flow_0 _ _ _ _ _ n) in H as (_ & _ & Hlay); simpl in *; try done; [|lia..].
    split; [done|]. rewrite El. apply Htl.
  - exfalso. apply Hne. rewrite <- Ht. destruct (mt =? ETHERTYPE_IPV6).
    + parse_inv; [done|]. destruct x as [s2 ok]. simpl in *. subst.
      match goal with E : parse_flow _ _ _ = _ |- _ => apply parse_flow_mac in E as [-> _] end.
      match goal with E : parse_ipv6 _ _ _ = _ |- _ => by apply parse_ipv6_mac in E as -> end.
    + by injection H as <- _.
Qed.

(** A UDP datagram over IPv4 with four bytes of payload. *)
Definition sample_frame : list Z :=
  replicate 12 0xaa ++ [0x08; 0x00] ++
  [0x45; 0; 0; 32; 0; 0; 0; 0; 64; 17; 0; 0; 10; 0; 0; 1; 10; 0; 0; 2] ++
  [0; 53; 0x30; 0x39; 0; 12; 0; 0] ++ [1; 2; 3; 4].

Lemma sample_frame_bytes : bytes sample_frame.
Proof. apply (bool_decide_unpack _). vm_compute. exact I. Qed.

Lemma parse_layers_ipv4_witness :
  exists self, peak_packet_parse 0 sample_frame zeros 0 46 LINKTYPE_ETHERNET = Done (self, zeros, 0) /\
    app_raw self = Some 42 /\ app_len self = 4 /\
    exists n, 0 <= n - 0 <= sizeof_vlan /\ layered n self /\ net_len self < 2 ^ 16.
Proof.
  eexists. split; [vm_compute; reflexivity|]. split; [reflexivity|]. split; [reflexivity|].
  eapply (parse_layers_ipv4 0 sample_frame zeros 0 46 LINKTYPE_ETHERNET _ zeros);
    [exact sample_frame_bytes|vm_compute; reflexivity|reflexivity].
Defined.

(** *** IPv6 *)





(** What the link layer says that the frame carries. *)
Definition carries (m : list Z) (buf type ethertype : Z) : Prop :=
  type = LINKTYPE_NULL /\ ethertype = ETHERTYPE_IP \/
  type = LINKTYPE_ETHERNET /\ ethertype <> ETHERTYPE_VLAN /\ peak_be16dec m (buf + 12) = Some ethertype \/
  type = LINKTYPE_ETHERNET /\ peak_be16dec m (buf + 12) = Some ETHERTYPE_VLAN /\ peak_be16dec m (buf + 16) = Some ethertype \/
  type = LINKTYPE_LINUX_SLL /\ peak_be16dec m (buf + 14) = Some ethertype.

(** The bytes that are read of any frame: the type of the link layer, or without one the
    lengths of the IP header. *)
Definition link_reads (type : Z) : option Z :=
  if type =? LINKTYPE_NULL then Some 4
  else if type =? LINKTYPE_ETHERNET then Some sizeof_eth
  else if type =? LINKTYPE_LINUX_SLL then Some sizeof_sll
  else None.

Lemma parse_link_carries m self type p self' :
  mac_raw self = Some p -> parse_link m self type = Some (self', true) -> carries m p type (mac_type self').
Proof.
  intros Hp. unfold parse_link, carries. rewrite Hp. cbn [mbind option_bind].
  destruct (Z.eqb_spec type LINKTYPE_NULL) as [->|]; [intros [= <-]; by left|].
  destruct (Z.eqb_spec type LINKTYPE_ETHERNET) as [->|].
  - destruct (peak_be16dec m (p + 12)) as [t|] eqn:E; cbn [mbind option_bind]; [|done].
    destruct (Z.eqb_spec t ETHERTYPE_VLAN) as [->|]; [|intros [= <-]; right; by left].
    destruct (peak_be16dec m (p + 16)) as [t|]; cbn [mbind option_bind]; [|done].
    destruct (peak_be16dec m (p + 14)); cbn [mbind option_bind]; [|done]. intros [= <-]. right; right. by left.
  - destruct (Z.eqb_spec type LINKTYPE_LINUX_SLL) as [->|]; [|done].
    destruct (peak_be16dec m (p + 14)) as [t|]; cbn [mbind option_bind]; [|done]. intros [= <-]. by right; right; right.
Qed.

Lemma be16dec_out m p : bytes m -> 0 <= p -> msize m < p + 2 -> peak_be16dec m p = None.
Proof.
  intros Hm H0 H. rewrite be16dec_spec by done. destruct (rd_n m p 2) eqn:E; [|done]. apply rd_n_inv in E; lia.
Qed.

(** With the longest headers in the buffer no read leaves it, but for the extension headers
    of IPv6. *)
Lemma parse_in fuel m audit buf len type :
  bytes m -> 0 <= buf -> buf + 92 <= msize m ->
  (exists r, peak_packet_parse fuel m audit buf len type = Done r) \/ carries m buf type ETHERTYPE_IPV6.
Proof.
  intros Hm Hb Hlen. unfold peak_packet_parse.
  match goal with |- context [parse_link m ?s type] =>
    destruct (parse_link_in m s type buf) as [[s1 ok] L] end;
    [done..|unfold sizeof_vlan; lia|]. rewrite L. simpl. destruct ok; simpl; [|left; by eexists].
  pose proof (fun H => parse_link_carries _ _ _ buf _ H L) as Hc; specialize (Hc eq_refl).
  apply parse_link_true in L as (n & mt & vl & Hn & _ & ->); [|done].
  unfold sizeof_vlan in Hn. simpl in Hn, Hc |- *.
  destruct (Z.eqb_spec mt ETHERTYPE_IP) as [->|]; [left|].
  - match goal with |- context [parse_ipv4 m ?s] =>
      destruct (parse_ipv4_in m s n) as [[s2 ok2] I] end;
      [done|done|lia|unfold sizeof_ip; lia|done..|]. rewrite I. simpl. destruct ok2; simpl; [|by eexists].
    apply parse_ipv4_true in I as (n' & sa & da & p & hl & tl & En & Hhl & _ & Htl & _ & ->); [|done].
    simpl in En. injection En as <-.
    match goal with |- context [parse_flow m ?s audit] =>
      destruct (parse_flow_in m s audit n) as [r ->] end; [done|done|simpl; lia..|].
    by eexists.
  - destruct (Z.eqb_spec mt ETHERTYPE_IPV6) as [->|]; [by right|]. left. by eexists.
Qed.

(** Away from IPv6 there is no loop. *)
Lemma parse_fuel fuel m audit buf len type :
  peak_packet_parse fuel m audit buf len type = OutOfFuel -> carries m buf type ETHERTYPE_IPV6.
Proof.
  unfold peak_packet_parse. destruct (parse_link _ _ _) as [[s1 ok]|] eqn:L; [|done]. cbn [try mbind run_bind fst snd].
  destruct ok; cbn [negb]; [|done]. pose proof (fun H => parse_link_carries _ _ _ buf _ H L) as Hc; specialize (Hc eq_refl).
  destruct (mac_type s1 =? ETHERTYPE_IP).
  - destruct (parse_ipv4 m s1) as [[s2 []]|]; cbn; [|done..]. by destruct (parse_flow m s2 audit).
  - by destruct (Z.eqb_spec (mac_type s1) ETHERTYPE_IPV6) as [<-|].
Qed.

(** C8.  What parsing a frame comes to, for any frame and whatever its length is said to be.
    A verdict is 0 with the counters untouched, or 1 with exactly one of the six drop
    counters incremented.  There is one, and no access out of bounds, if the memory goes on
    for 92 bytes from the start of the frame (the longest headers) and the frame does not
    carry IPv6; only a frame that carries IPv6 can keep the parser from returning.  Nothing
    is checked against the length of the frame: one that ends before the type in its link
    header is read beyond its end, and a link type that is not known is dropped unread. *)
Theorem parse_total fuel m audit buf len type :
  bytes m -> 0 <= buf ->
  let run := peak_packet_parse fuel m audit buf len type in
  (forall self audit' ret, run = Done (self, audit', ret) ->
     (ret = 0 /\ audit' = audit) \/
     (ret = 1 /\ exists field, 0 <= field <= AUDIT_PACKET_DROP_UDP /\ audit' = peak_audit_inc audit field)) /\
  (run = Undefined -> msize m < buf + 92 \/ carries m buf type ETHERTYPE_IPV6) /\
  (run = OutOfFuel -> carries m buf type ETHERTYPE_IPV6) /\
  match link_reads type with
  | Some n => msize m < buf + n -> run = Undefined
  | None => exists self, run = Done (self, peak_audit_inc audit AUDIT_PACKET_DROP_LINK, 1)
  end.
Proof.
  intros Hm Hb run. split_and!.
  - intros self audit' ret H. by eapply parse_cases.
  - intros Hu. destruct (Z.lt_ge_cases (msize m) (buf + 92)) as [|Hl]; [by left|right].
    destruct (parse_in fuel m audit buf len type Hm Hb Hl) as [[r Hr]|]; [|done]. unfold run in Hu. congruence.
  - apply parse_fuel.
  - unfold run, peak_packet_parse, parse_link, link_reads, sizeof_eth, sizeof_sll. cbn [mac_raw set_mac_raw set_mac_len mbind option_bind].
    destruct (type =? LINKTYPE_NULL); [|destruct (type =? LINKTYPE_ETHERNET); [|destruct (type =? LINKTYPE_LINUX_SLL)]].
    + intros Hl. cbn [try mbind run_bind fst snd negb mac_type set_mac_type set_net_raw]. rewrite Z.eqb_refl. unfold parse_ipv4.
      cbn [net_raw set_net_raw mbind option_bind]. destruct (rd m buf); [|done]. cbn [mbind option_bind]. by rewrite be16dec_out by (done || lia).
    + intros Hl. by rewrite (be16dec_out m (buf + 12)) by (done || lia).
    + intros Hl. by rewrite (be16dec_out m (buf + 14)) by (done || lia).
    + by eexists.
Qed.

(** A frame with its headers in the buffer, and one of which only the addresses are. *)
Lemma parse_total_witness :
  (exists self audit', peak_packet_parse 0 (sample_frame ++ replicate 46 0) zeros 0 46 LINKTYPE_ETHERNET = Done (self, audit', 0) /\ audit' = zeros) /\
  peak_packet_parse 0 (take 12 sample_frame) zeros 0 12 LINKTYPE_ETHERNET = Undefined.
Proof.
  split.
  - destruct (parse_total 0 (sample_frame ++ replicate 46 0) zeros 0 46 LINKTYPE_ETHERNET) as (H & _).
    + apply (bool_decide_unpack _). vm_compute. exact I.
    + lia.
    + eexists. exists zeros. split; [vm_compute; reflexivity|].
      destruct (H _ zeros 0 ltac:(vm_compute; reflexivity)) as [[_ E]|[E _]]; [exact E|discriminate E].
  - destruct (parse_total 0 (take 12 sample_frame) zeros 0 12 LINKTYPE_ETHERNET) as (_ & _ & _ & H).
    + apply (bool_decide_unpack _). vm_compute. exact I.
    + lia.
    + apply H. vm_compute. reflexivity.
Defined.

(** C40.  When the IPv6 parser returns: it never does exactly if the extension headers,
    followed from the first one, reach one of length 0 and of variable type whose next header
    is again of variable type; otherwise it ends within [2 * (size + 1) + 1] iterations, and
    more fuel changes nothing. *)
Theorem ipv6_terminates m self n :
  bytes m -> net_raw self = Some n -> 0 <= n ->
  let enough := (2 * S (length m) + 1)%nat in
  let endless := exists t, rd m (n + 6) = Some t /\ ip6_reaches_stuck m (n + sizeof_ip6) t in
  ((forall fuel, peak_packet_ipv6 fuel m self = OutOfFuel) <-> endless) /\
  (~ endless -> peak_packet_ipv6 enough m self <> OutOfFuel /\
     forall k, peak_packet_ipv6 (k + enough) m self = peak_packet_ipv6 enough m self).
Proof.
  intros Hm En Hn enough endless.
  assert (endless \/ (peak_packet_ipv6 enough m self <> OutOfFuel /\
     forall k, peak_packet_ipv6 (k + enough) m self = peak_packet_ipv6 enough m self)) as Hdic.
  { unfold endless, peak_packet_ipv6. rewrite En. cbn [try mbind run_bind].
    destruct (rd m (n + 6)) as [t|]; cbn [try mbind run_bind]; [|by right].
    destruct (peak_be16dec m (n + 4)) as [l|]; cbn [try mbind run_bind]; [|by right].
    match goal with |- context [ipv6_loop _ m ?p _ _] => set (s := p) end.
    destruct (ipv6_loop_bound (S (length m)) m s (n + sizeof_ip6) t Hm) as [H|H].
    - unfold msize, sizeof_ip6. lia.
    - right. split; [done|]. intros k. by apply ipv6_loop_more.
    - left. by exists t. }
  split; [split|].
  - intros H. destruct Hdic as [|[Hne _]]; [done|]. by rewrite H in Hne.
  - intros (t & Ht & Hr) fuel. unfold peak_packet_ipv6. rewrite En. cbn [try mbind run_bind]. rewrite Ht. cbn [try mbind run_bind].
    apply rd_bound in Ht. destruct (be16dec_in m (n + 4)) as [l ->]; [done|lia..|]. cbn [try mbind run_bind]. by apply ipv6_loop_reaches.
  - intros H. by destruct Hdic.
Qed.

(** A hop-by-hop header of length 0 followed by another: the parser loops. *)
Definition stuck_frame : list Z := replicate 48 0.

(** Behind a header of 8 bytes the header that ends them. *)
Definition short_chain : list Z := replicate 40 0 ++ [59; 8; 0; 0; 0; 0; 0; 0; 59; 8].

Lemma ipv6_terminates_witness :
  (forall fuel, peak_packet_ipv6 fuel stuck_frame peak_packet_zero<|set_net_raw (Some 0)|> = OutOfFuel) /\
  ~ (exists t, rd short_chain (0 + 6) = Some t /\ ip6_reaches_stuck short_chain (0 + sizeof_ip6) t).
Proof.
  split.
  - apply (ipv6_terminates stuck_frame peak_packet_zero<|set_net_raw (Some 0)|> 0).
    + apply (bool_decide_unpack _). vm_compute. exact I.
    + reflexivity.
    + lia.
    + exists 0. split; [reflexivity|]. exists 40, 0. split; [constructor|]. split; [reflexivity|]. split; [reflexivity|]. exists 0. split; reflexivity.
  - intros H. apply (ipv6_terminates short_chain peak_packet_zero<|set_net_raw (Some 0)|> 0) with (fuel := 3%nat) in H.
    + vm_compute in H. discriminate H.
    + apply (bool_decide_unpack _). vm_compute. exact I.
    + reflexivity.
    + lia.
Defined.

(** ** Building frames *)

(** Specification: the frame a sender builds.  A 16-bit field in network order. *)
Definition be2 (x : Z) : list Z := [x / 256; x mod 256].

Inductive link_header :=
  | Null
  | Ethernet (macs : list Z)
  | Vlan (macs : list Z) (tci : Z)
  | LinuxSll (addr : list Z).

Definition link_ok (l : link_header) : Prop :=
  match l with
  | Null => True
  | Ethernet macs => length macs = 12%nat /\ bytes macs
  | Vlan macs tci => length macs = 12%nat /\ bytes macs /\ fits 16 tci
  | LinuxSll addr => length addr = 14%nat /\ bytes addr
  end.

Definition link_type_of (l : link_header) : Z :=
  match l with
  | Null => LINKTYPE_NULL
  | Ethernet _ | Vlan _ _ => LINKTYPE_ETHERNET
  | LinuxSll _ => LINKTYPE_LINUX_SLL
  end.

Definition link_bytes (l : link_header) : list Z :=
  match l with
  | Null => []
  | Ethernet macs => macs ++ be2 ETHERTYPE_IP
  | Vlan macs tci => macs ++ be2 ETHERTYPE_VLAN ++ be2 tci ++ be2 ETHERTYPE_IP
  | LinuxSll addr => addr ++ be2 ETHERTYPE_IP
  end.

Inductive transport :=
  | Udp
  | Tcp (flags : Z).

Definition transport_ok (t : transport) : Prop :=
  match t with Udp => True | Tcp flags => fits 8 flags /\ tcp_flags_bad flags = false end.

Definition transport_proto (t : transport) : Z :=
  match t with Udp => IPPROTO_UDP | Tcp _ => IPPROTO_TCP end.

Definition transport_hlen (t : transport) : Z :=
  match t with Udp => 8 | Tcp _ => 20 end.

Definition transport_bytes (t : transport) (sport dport : Z) (n : Z) : list Z :=
  be2 sport ++ be2 dport ++
  match t with
  | Udp => be2 (8 + n) ++ [0; 0]
  | Tcp flags => [0; 0; 0; 0; 0; 0; 0; 0; 0x50; flags; 0; 0; 0; 0; 0; 0]
  end.

Definition ipv4_bytes (len proto : Z) (src dst : list Z) : list Z :=
  [0x45; 0] ++ be2 len ++ [0; 0; 0; 0; 64; proto; 0; 0] ++ src ++ dst.

Definition frame (l : link_header) (src dst : list Z) (t : transport) (sport dport : Z)
    (payload : list Z) : list Z :=
  let n := msize payload in
  link_bytes l ++ ipv4_bytes (20 + transport_hlen t + n) (transport_proto t) src dst ++
  transport_bytes t sport dport n ++ payload.

Lemma be2_bytes x : fits 16 x -> bytes (be2 x).
Proof. intros Hx. repeat constructor; width_lia. Qed.

Lemma be2_val x : fits 16 x -> be_val [x / 256; x mod 256] = x.
Proof. intros Hx. unfold be_val. simpl. width_lia. Qed.

Lemma be16dec_at m p x :
  bytes m -> fits 16 x -> rd_n m p 2 = Some (be2 x) -> peak_be16dec m p = Some x.
Proof. intros Hm Hx H. rewrite be16dec_spec, H by done. apply (f_equal Some), (be2_val x Hx). Qed.

Lemma le16dec_nonzero m p x :
  bytes m -> fits 16 x -> x <> 0 -> rd_n m p 2 = Some (be2 x) ->
  exists v, peak_le16dec m p = Some v /\ v <> 0.
Proof.
  intros Hm Hx Hne H. rewrite le16dec_spec, H by done. simpl.
  eexists. split; [done|]. width_lia.
Qed.

Lemma le32dec_at m p bs :
  bytes m -> rd_n m p 4 = Some bs -> exists v, peak_le32dec m p = Some v /\ le_bytes 4 v = bs.
Proof.
  intros Hm H. rewrite le32dec_spec, H by done. exists (le_val bs). split; [done|].
  rewrite <- (rd_n_length _ _ _ _ H). apply le_bytes_le_val. by eapply rd_n_bytes.
Qed.

(** A list of known length, element by element. *)
Ltac enumerate l :=
  repeat match goal with
  | H : length l = O |- _ => apply nil_length_inv in H; subst l
  | H : length l = S _ |- _ =>
      let a := fresh "b" in let l' := fresh "bs" in
      destruct l as [|a l']; [discriminate H|]; injection H as H; enumerate l'
  end.

Lemma link_bytes_bytes l : link_ok l -> bytes (link_bytes l).
Proof.
  destruct l as [|macs|macs tci|addr]; unfold link_bytes, link_ok, bytes;
    [constructor|intros [_ H]|intros (_ & H & Ht)|intros [_ H]].
  all: rewrite !Forall_app; split_and!; done || by apply be2_bytes.
Qed.

Lemma parse_link_frame l r self :
  link_ok l -> bytes r -> mac_raw self = Some 0 ->
  parse_link (link_bytes l ++ r) self (link_type_of l) =
    Some (self<|set_mac_type ETHERTYPE_IP|>
              <|set_mac_vlan (match l with Vlan _ tci => tci mod 2 ^ 12 | _ => mac_vlan self end)|>
              <|set_net_raw (Some (msize (link_bytes l)))|>, true).
Proof.
  intros Hl Hr Hm. pose proof (link_bytes_bytes l Hl) as Hb.
  assert (bytes (link_bytes l ++ r)) as HB by (by apply Forall_app).
  unfold parse_link. rewrite Hm. destruct self. simpl in Hm |- *. subst.
  destruct l as [|macs|macs tci|addr]; simpl link_type_of; cbn [Z.eqb LINKTYPE_NULL].
  - done.
  - destruct Hl as [Hl _]. enumerate macs.
    change (LINKTYPE_ETHERNET =? LINKTYPE_NULL) with false.
    rewrite (be16dec_at _ (0 + 12) ETHERTYPE_IP HB) by done. done.
  - destruct Hl as (Hl & _ & Ht). enumerate macs.
    change (LINKTYPE_ETHERNET =? LINKTYPE_NULL) with false.
    change (LINKTYPE_ETHERNET =? LINKTYPE_ETHERNET) with true. cbn [mbind option_bind].
    rewrite (be16dec_at _ (0 + 12) ETHERTYPE_VLAN HB) by done.
    rewrite (be16dec_at _ (0 + 16) ETHERTYPE_IP HB) by done.
    rewrite (be16dec_at _ (0 + 14) tci HB) by done.
    cbn. rewrite (Z.land_comm 4095), (land_low 12 tci 4095) by done. done.
  - destruct Hl as [Hl _]. enumerate addr.
    change (LINKTYPE_LINUX_SLL =? LINKTYPE_NULL) with false.
    rewrite (be16dec_at _ (0 + 14) ETHERTYPE_IP HB) by done. done.
Qed.

Lemma parse_ipv4_frame L r self len proto src dst :
  let m := L ++ ipv4_bytes len proto src dst ++ r in
  bytes m -> fits 16 len -> 20 <= len -> length src = 4%nat -> length dst = 4%nat ->
  net_raw self = Some (msize L) ->
  length (net_saddr self) = 16%nat -> length (net_daddr self) = 16%nat ->
  parse_ipv4 m self =
    Some (self<|set_net_saddr (take 12 net_in64 ++ src)|>
              <|set_net_daddr (take 12 net_in64 ++ dst)|><|set_net_family AF_INET|>
              <|set_net_type proto|><|set_net_hlen 20|><|set_net_len len|>, true).
Proof.
  intros m Hm Hlen H20 Hs Hd Hn Hsa Hda. unfold parse_ipv4. rewrite Hn. cbn [mbind option_bind].
  enumerate src. enumerate dst.
  assert (rd m (msize L) = Some 0x45) as ->
    by (rewrite <- (Z.add_0_r (msize L)); unfold m; by rewrite rd_app_r).
  cbn [mbind option_bind]. rewrite (be16dec_at m _ len Hm Hlen) by (unfold m; by rewrite rd_n_app_r).
  cbn [mbind option_bind]. change (negb (69 ≫ 4 =? IPVERSION)) with false.
  change ((69 .& 15) ≪ 2 <? sizeof_ip) with false.
  change ((69 .& 15) ≪ 2) with 20. cbn [mbind option_bind]. destruct (Z.ltb_spec len 20); [lia|].
  edestruct (le32dec_at m (msize L + 12)) as (vs & -> & Es);
    [done|unfold m; rewrite rd_n_app_r by lia; reflexivity|].
  cbn [mbind option_bind]. rewrite netaddr4_val, Es by done. cbn [mbind option_bind].
  edestruct (le32dec_at m (msize L + 16)) as (vd & -> & Ed);
    [done|unfold m; rewrite rd_n_app_r by lia; reflexivity|].
  cbn [mbind option_bind]. rewrite netaddr4_val, Ed by done. cbn [mbind option_bind].
  unfold m. rewrite rd_app_r by lia. done.
Qed.

Lemma peak_packet_frame L self t sport dport payload :
  let m := L ++ transport_bytes t sport dport (msize payload) ++ payload in
  bytes m -> transport_ok t -> fits 16 sport -> fits 16 dport -> sport <> 0 -> dport <> 0 ->
  flow_raw self = Some (msize L) -> flow_len self = transport_hlen t + msize payload ->
  transport_hlen t + msize payload < 2 ^ 16 ->
  (match t with Udp => peak_packet_udp | Tcp _ => peak_packet_tcp end) m self =
    Some (self<|set_app_raw (Some (msize L + transport_hlen t))|><|set_app_len (msize payload)|>
              <|set_flow_sport sport|><|set_flow_dport dport|>
              <|set_flow_hlen (transport_hlen t)|>, 0).
Proof.
  intros m Hm Ht Hsp Hdp Hs0 Hd0 Hf Hfl Hlen.
  assert (0 <= msize payload) by (unfold msize; lia).
  edestruct (le16dec_nonzero m (msize L + 0) sport) as (vs & Es & Ns);
    [done..|unfold m; rewrite rd_n_app_r by lia; by destruct t|].
  edestruct (le16dec_nonzero m (msize L + 2) dport) as (vd & Ed & Nd);
    [done..|unfold m; rewrite rd_n_app_r by lia; by destruct t|].
  assert (peak_be16dec m (msize L + 0) = Some sport) as Es'
    by (apply be16dec_at; [done..|unfold m; rewrite rd_n_app_r by lia; by destruct t]).
  assert (peak_be16dec m (msize L + 2) = Some dport) as Ed'
    by (apply be16dec_at; [done..|unfold m; rewrite rd_n_app_r by lia; by destruct t]).
  rewrite Z.add_0_r in Es, Es'. apply Z.eqb_neq in Ns, Nd.
  assert (fits 16 (transport_hlen t + msize payload)) as Hfit by (destruct t; simpl in *; unfold fits; lia).
  destruct t as [|flags]; simpl transport_hlen in *.
  - unfold peak_packet_udp. rewrite Hf. cbn [mbind option_bind]. rewrite Hfl.
    unfold sizeof_udp. destruct (Z.ltb_spec (8 + msize payload) 8); [lia|].
    rewrite Es. cbn [mbind option_bind]. rewrite Ns, Ed. cbn [mbind option_bind]. rewrite Nd.
    edestruct (le16dec_nonzero m (msize L + 4) (8 + msize payload)) as (vu & -> & Nu);
      [done|done|lia|unfold m; by rewrite rd_n_app_r|].
    apply Z.eqb_neq in Nu. cbn [mbind option_bind]. rewrite Nu.
    rewrite (be16dec_at m (msize L + 4) (8 + msize payload) Hm Hfit)
      by (unfold m; by rewrite rd_n_app_r).
    cbn [mbind option_bind]. destruct (Z.ltb_spec (8 + msize payload) 8); [lia|].
    destruct (le16dec_in m (msize L + 6)) as [? ->]; [done|unfold msize; lia|..].
    { unfold m, msize. rewrite !length_app. simpl. lia. }
    cbn [mbind option_bind]. rewrite Es', Ed'. cbn.
    replace (8 + msize payload - 8) with (msize payload) by lia.
    rewrite wrap_small by (unfold fits in *; lia). done.
  - destruct Ht as [Hflags Hok]. unfold peak_packet_tcp. rewrite Hf. cbn [mbind option_bind].
    assert (rd m (msize L + 12) = Some 0x50) as -> by (unfold m; by rewrite rd_app_r).
    cbn [mbind option_bind]. change ((80 ≫ 4) ≪ 2) with 20.
    change ((20 <? sizeof_tcp) || (TCP_MAXHLEN <? 20)) with false. cbn [mbind option_bind]. rewrite Hfl.
    destruct (Z.ltb_spec (20 + msize payload) 20); [lia|].
    rewrite Es. cbn [mbind option_bind]. rewrite Ns, Ed. cbn [mbind option_bind]. rewrite Nd.
    assert (rd m (msize L + 13) = Some flags) as -> by (unfold m; by rewrite rd_app_r).
    cbn [mbind option_bind]. rewrite Hok, Es'. cbn [mbind option_bind]. rewrite Ed'. cbn.
    replace (20 + msize payload - 20) with (msize payload) by lia.
    rewrite wrap_small by (unfold fits in *; lia). done.
Qed.

Lemma transport_fits t : 8 <= transport_hlen t <= 20 /\ fits 8 (transport_proto t).
Proof. destruct t; by compute. Qed.

Lemma parse_flow_frame L self audit t sport dport payload nt :
  let m := L ++ transport_bytes t sport dport (msize payload) ++ payload in
  bytes m -> transport_ok t -> 0 < sport < 2 ^ 16 -> 0 < dport < 2 ^ 16 ->
  net_raw self = Some nt -> nt + net_hlen self = msize L -> net_type self = transport_proto t ->
  net_len self - net_hlen self = transport_hlen t + msize payload ->
  transport_hlen t + msize payload < 2 ^ 16 ->
  parse_flow m self audit =
    Some (self<|set_flow_raw (Some (msize L))|><|set_flow_len (transport_hlen t + msize payload)|>
              <|set_app_raw (Some (msize L + transport_hlen t))|><|set_app_len (msize payload)|>
              <|set_flow_sport sport|><|set_flow_dport dport|>
              <|set_flow_hlen (transport_hlen t)|>, audit, 0).
Proof.
  intros m Hm Ht Hsp Hdp Hn HL Hty Hd Hlen. unfold parse_flow. rewrite Hn. cbn [mbind option_bind].
  pose proof (transport_fits t) as [Hth _]. assert (0 <= msize payload) by (unfold msize; lia).
  rewrite HL, Hd, (wrap_small 16) by (unfold fits; lia).
  set (self' := set_flow_len _ _).
  pose proof (peak_packet_frame L self' t sport dport payload Hm Ht) as E. fold m in E.
  change (net_type self') with (net_type self). rewrite Hty.
  destruct t; cbn [transport_proto]; cbv iota zeta in E.
  - change (IPPROTO_UDP =? IPPROTO_TCP) with false. change (IPPROTO_UDP =? IPPROTO_UDP) with true.
    cbv iota. rewrite E by (done || unfold fits; lia). done.
  - change (IPPROTO_TCP =? IPPROTO_TCP) with true.
    cbv iota. rewrite E by (done || unfold fits; lia). done.
Qed.

(** The addresses, ports and payload of a frame are well formed. *)
Record frame_ok (l : link_header) (src dst : list Z) (t : transport) (sport dport : Z)
    (payload : list Z) : Prop := {
  fok_link : link_ok l;
  fok_src : length src = 4%nat /\ bytes src;
  fok_dst : length dst = 4%nat /\ bytes dst;
  fok_transport : transport_ok t;
  fok_sport : 0 < sport < 2 ^ 16;
  fok_dport : 0 < dport < 2 ^ 16;
  fok_payload : bytes payload;
  fok_len : 20 + transport_hlen t + msize payload < 2 ^ 16
}.

Lemma frame_bytes l src dst t sport dport payload :
  frame_ok l src dst t sport dport payload ->
  bytes (link_bytes l) /\
  bytes (ipv4_bytes (20 + transport_hlen t + msize payload) (transport_proto t) src dst) /\
  bytes (transport_bytes t sport dport (msize payload)).
Proof.
  intros [Hl [_ Hs] [_ Hd] Ht Hsp Hdp Hp Hn]. pose proof (transport_fits t) as [Hth Htp].
  assert (0 <= msize payload) by (unfold msize; lia).
  assert (forall l, bool_decide (bytes l) = true -> bytes l) as Hlit
    by (intros x Hx; by apply bool_decide_eq_true_1 in Hx).
  split; [by apply link_bytes_bytes|]. unfold ipv4_bytes, transport_bytes, bytes.
  rewrite !Forall_app. split_and!; try done.
  all: try (apply be2_bytes; unfold fits in *; lia).
  all: try (by apply Hlit).
  - repeat (apply Forall_cons_2; [done || by compute|]). constructor.
  - destruct t as [|flags].
    + apply Forall_app. split; [apply be2_bytes; unfold fits in *; simpl in *; lia|by apply Hlit].
    + destruct Ht as [Hf _]. repeat (apply Forall_cons_2; [done || by compute|]). constructor.
Qed.

(** C1.  Decapsulation inverts encapsulation: a well-formed frame (any link type, with
    or without a VLAN tag, IPv4, UDP or TCP with admissible flags) parses without
    an error and without touching the counters, and the packet has exactly the
    addresses, ports, VLAN and header lengths it was built from; the application
    data is the payload. *)
Theorem parse_frame fuel audit l src dst t sport dport payload len :
  frame_ok l src dst t sport dport payload ->
  let m := frame l src dst t sport dport payload in
  exists self,
    peak_packet_parse fuel m audit 0 len (link_type_of l) = Done (self, audit, 0) /\
    mac_type self = ETHERTYPE_IP /\
    mac_vlan self = match l with Vlan _ tci => tci mod 2 ^ 12 | _ => 0 end /\
    netto4 (net_saddr self) = src /\ netto4 (net_daddr self) = dst /\
    netcmp4 (net_saddr self) = 0 /\ netcmp4 (net_daddr self) = 0 /\
    net_family self = AF_INET /\ net_type self = transport_proto t /\
    flow_sport self = sport /\ flow_dport self = dport /\
    flow_hlen self = transport_hlen t /\ app_len self = msize payload /\
    exists a, app_raw self = Some a /\ rd_n m a (length payload) = Some payload.
Proof.
  intros Hok m. pose proof (frame_bytes _ _ _ _ _ _ _ Hok) as (Hlb & Hib & Htb).
  destruct Hok as [Hl [Ls Hs] [Ld Hd] Ht Hsp Hdp Hp Hn]. pose proof (transport_fits t) as [Hth Htp].
  assert (0 <= msize payload) by (unfold msize; lia).
  set (n := msize payload) in *. set (ip := ipv4_bytes _ _ src dst) in *.
  set (tp := transport_bytes t sport dport n) in *.
  assert (bytes (ip ++ tp ++ payload)) as Hr by (unfold bytes; by rewrite !Forall_app).
  assert (bytes m) as Hm by (unfold m, frame, bytes; rewrite Forall_app; by split).
  assert (msize (link_bytes l) + 20 = msize (link_bytes l ++ ip)) as Eip.
  { unfold msize. rewrite length_app. unfold ip, ipv4_bytes. rewrite !length_app, Ls, Ld. simpl. lia. }
  assert (msize (link_bytes l ++ ip) + transport_hlen t =
          msize ((link_bytes l ++ ip) ++ tp)) as Etp.
  { unfold msize. rewrite (length_app _ tp). unfold tp. by destruct t; simpl; lia. }
  assert (rd_n m (msize (link_bytes l ++ ip) + transport_hlen t) (length payload) = Some payload)
    as Hpl.
  { change m with (link_bytes l ++ ip ++ tp ++ payload).
    replace (link_bytes l ++ ip ++ tp ++ payload) with (((link_bytes l ++ ip) ++ tp) ++ payload)
      by (by rewrite <- !app_assoc).
    rewrite Etp, <- (Z.add_0_r (msize ((link_bytes l ++ ip) ++ tp))), rd_n_app_r by lia.
    apply rd_n_eq; [done|]. intros k Hk. unfold rd.
    destruct (Z.leb_spec 0 (0 + Z.of_nat k)); [|lia]. f_equal. lia. }
  unfold peak_packet_parse. unfold m, frame. fold n ip tp.
  rewrite parse_link_frame by done. cbn [mbind run_bind try fst snd].
  change (mac_type _ =? ETHERTYPE_IP) with true. cbn [negb].
  match goal with |- context [parse_ipv4 _ ?s] =>
    pose proof (parse_ipv4_frame (link_bytes l) (tp ++ payload) s
      (20 + transport_hlen t + n) (transport_proto t) src dst) as Ei end.
  cbv zeta in Ei. fold ip in Ei. rewrite Ei by (done || unfold fits; lia). clear Ei.
  cbn [mbind run_bind try fst snd negb].
  match goal with |- context [parse_flow ?x ?s audit] =>
    replace x with ((link_bytes l ++ ip) ++ tp ++ payload) by (by rewrite <- app_assoc);
    pose proof (parse_flow_frame (link_bytes l ++ ip) s audit t sport dport payload
      (msize (link_bytes l))) as Ef end.
  cbv zeta in Ef. fold n tp in Ef.
  rewrite Ef; try done; [|by rewrite <- app_assoc|cbn; lia|lia]. clear Ef.
  cbn [mbind run_bind try]. eexists. split; [reflexivity|]. cbn. split_and!; try done.
  exists (msize (link_bytes l ++ ip) + transport_hlen t). split; [reflexivity|].
  change (rd_n ((link_bytes l ++ ip) ++ tp ++ payload) (msize (link_bytes l ++ ip) + transport_hlen t)
    (length payload) = Some payload).
  rewrite <- app_assoc. exact Hpl.
Qed.

Lemma parse_frame_witness :
  let l := Vlan (repeat 0xaa 12) 0xF005 in
  frame_ok l [10; 0; 0; 1] [10; 0; 0; 2] (Tcp 0x18) 443 40000 [1; 2; 3] /\
  exists self,
    peak_packet_parse 0 (frame l [10; 0; 0; 1] [10; 0; 0; 2] (Tcp 0x18) 443 40000 [1; 2; 3])
      zeros 0 61 LINKTYPE_ETHERNET = Done (self, zeros, 0) /\ mac_vlan self = 5.
Proof.
  assert (frame_ok (Vlan (repeat 0xaa 12) 0xF005) [10; 0; 0; 1] [10; 0; 0; 2] (Tcp 0x18) 443 40000
            [1; 2; 3]) as H.
  { split; try (split; [reflexivity|]); try lia;
      try (apply (bool_decide_unpack _); vm_compute; exact I); vm_compute; done. }
  split; [exact H|].
  destruct (parse_frame 0 zeros _ _ _ _ _ _ _ 61 H) as (self & E & _ & Hv & _).
  exists self. split; [exact E|exact Hv].
Defined.
