(* ===== verification/Typed.v ===== *)
(** * The types of a packet's fields

    [Packet] computes with [Z] and wraps where the code assigns to a field that is narrower than
    the value.  Here every field of the [peak_packet] that [peak_packet_parse] leaves, accepted or
    not, is shown to be a value of its type in the C structure, and the counters to stay
    counters. *)

From S2P Require Import Prelude Bytes Net Counters Packet.
Open Scope Z_scope.

(** Follow a parser that succeeded. *)
Ltac parse_ext :=
  repeat match goal with
  | H : _ ≫= _ = Some _ |- _ => let E := fresh "E" in apply bind_Some in H as (? & E & H)
  | H : _ ≫= _ = Done _ |- _ => let E := fresh "E" in apply run_bind_Done in H as (? & E & H)
  | H : try _ = Done _ |- _ => apply try_Done in H
  | H : (if ?b then _ else _) = Some _ |- _ => destruct b eqn:?
  | H : (if ?b then _ else _) = Done _ |- _ => destruct b eqn:?
  | E : ?x = Some _ |- context [?x] => rewrite E
  | E : ?b = true |- context [if ?b then _ else _] => rewrite E
  | E : ?b = false |- context [if ?b then _ else _] => rewrite E
  | |- context [Some _ ≫= _] => progress cbn [mbind option_bind]
  | |- context [try (Some _) ≫= _] => progress cbn [try mbind run_bind]
  | |- context [Done _ ≫= _] => progress cbn [mbind run_bind]
  end; try done.

(** The fields that decapsulation fills in: [uint8_t], [uint16_t] and two addresses. *)
Record layers_typed (self : peak_packet) : Prop := {
  ty_mac_type : fits 16 (mac_type self);
  ty_mac_vlan : fits 16 (mac_vlan self);
  ty_net_saddr : netaddr_ok (net_saddr self);
  ty_net_daddr : netaddr_ok (net_daddr self);
  ty_net_family : fits 16 (net_family self);
  ty_net_len : fits 16 (net_len self);
  ty_net_hlen : fits 8 (net_hlen self);
  ty_net_type : fits 8 (net_type self);
  ty_flow_hlen : fits 16 (flow_hlen self);
  ty_flow_len : fits 16 (flow_len self);
  ty_flow_sport : fits 16 (flow_sport self);
  ty_flow_dport : fits 16 (flow_dport self);
  ty_app_len : fits 16 (app_len self);
}.

Lemma netaddr6_ok a m p v : netaddr_ok a -> bytes m -> netaddr6 a m p = Some v -> netaddr_ok v.
Proof.
  intros [La Ba] Hm. unfold netaddr6. intros H. opt_inv. pose proof (rd_n_bytes _ _ _ _ Hm E) as Hb.
  pose proof (rd_n_length _ _ _ _ E) as Hl. destruct (wr_n_spec a 0 v0) as (m' & E' & Hs & _); [done|unfold msize; lia|].
  rewrite H in E'. injection E' as <-. split; [unfold msize in Hs; lia|]. exact (wr_n_bytes _ _ _ _ Ba Hb H).
Qed.

Lemma netaddr4_ok a v r : netaddr_ok a -> netaddr4 a v = Some r -> netaddr_ok r.
Proof.
  intros [La _] H. rewrite netaddr4_val in H by done. apply (inj Some) in H as <-.
  split; [rewrite length_app, le_bytes_length; done|]. apply Forall_app. split; [by repeat constructor|apply le_bytes_bytes].
Qed.

Section memory.
Variable m : list Z.
Hypothesis Hm : bytes m.

(** What is assigned is a value of the field's type: it was read, wrapped, or there before. *)
Ltac typed := constructor; cbn;
  try solve [done|by apply wrap_bound|by eapply be16dec_fits|by eapply rd_byte|eapply netaddr4_ok; [|eassumption]; done|eapply netaddr6_ok; [..|eassumption]; done].

Lemma parse_link_typed self type r :
  layers_typed self -> parse_link m self type = Some r ->
  layers_typed r.1 /\ link_type r.1 = link_type self /\ mac_len r.1 = mac_len self.
Proof.
  unfold parse_link. intros [] H. parse_ext; injection H as <-; (split; [|done]); typed.
  pose proof (Z.mod_pos_bound x2 (2 ^ 12)). rewrite Z.land_comm, (land_low 12) by done. unfold fits. lia.
Qed.

Lemma parse_ipv4_typed self r :
  layers_typed self -> parse_ipv4 m self = Some r ->
  layers_typed r.1 /\ link_type r.1 = link_type self /\ mac_len r.1 = mac_len self.
Proof. unfold parse_ipv4. intros [] H. parse_ext; injection H as <-; (split; [|done]); typed. Qed.

Lemma ipv6_loop_typed fuel self q n r :
  layers_typed self -> fits 8 n -> ipv6_loop fuel m self q n = Done r ->
  layers_typed r.1 /\ link_type r.1 = link_type self /\ mac_len r.1 = mac_len self.
Proof.
  revert self q n. induction fuel as [|fuel IH]; intros self q n Hs Hn; cbn [ipv6_loop]; [done|]. intros H.
  parse_ext; try (injection H as <-; split; [destruct Hs; typed|done]).
  all: edestruct IH as (? & ? & ?); [| |exact H|done]; [destruct Hs; typed|by eapply rd_byte].
Qed.

Lemma parse_ipv6_typed fuel self r :
  layers_typed self -> parse_ipv6 fuel m self = Done r ->
  layers_typed r.1 /\ link_type r.1 = link_type self /\ mac_len r.1 = mac_len self.
Proof.
  unfold parse_ipv6, peak_packet_ipv6. intros [] H. parse_ext. injection H as <-.
  match goal with E : ipv6_loop _ _ _ _ _ = _ |- _ => by apply ipv6_loop_typed in E; [|typed|eapply rd_byte] end.
Qed.

Lemma peak_packet_tcp_typed self r :
  layers_typed self -> peak_packet_tcp m self = Some r ->
  layers_typed r.1 /\ link_type r.1 = link_type self /\ mac_len r.1 = mac_len self.
Proof.
  unfold peak_packet_tcp. intros [] H. parse_ext; injection H as <-; (split; [|done]); typed.
  match goal with E : (?h <? sizeof_tcp) || _ = false |- _ => apply orb_false_iff in E as [H1%Z.ltb_ge H2%Z.ltb_ge]; generalize dependent h end.
  unfold sizeof_tcp, fits. change TCP_MAXHLEN with 60. lia.
Qed.

Lemma peak_packet_udp_typed self r :
  layers_typed self -> peak_packet_udp m self = Some r ->
  layers_typed r.1 /\ link_type r.1 = link_type self /\ mac_len r.1 = mac_len self.
Proof. unfold peak_packet_udp. intros [] H. parse_ext; injection H as <-; (split; [|done]); typed. Qed.

(** The invariant with what surrounds the packet. *)
Definition result_typed (self : peak_packet) (r : parse_result) : Prop :=
  layers_typed r.1.1 /\ link_type r.1.1 = link_type self /\ mac_len r.1.1 = mac_len self /\
  audit_ok r.1.2 /\ (r.2 = 0 \/ r.2 = 1).

Lemma audit_inc_ok a field : audit_ok a -> audit_ok (peak_audit_inc a field).
Proof. by apply audit_add_ok. Qed.

Lemma parse_flow_typed self a r :
  layers_typed self -> audit_ok a -> parse_flow m self a = Some r -> result_typed self r.
Proof.
  unfold parse_flow. intros [] Ha H. parse_ext; injection H as <-; unfold result_typed; cbn [fst snd].
  all: try match goal with
    | E : peak_packet_tcp _ _ = _ |- _ => apply peak_packet_tcp_typed in E as (? & E1 & E2); [rewrite E1, E2|typed]
    | E : peak_packet_udp _ _ = _ |- _ => apply peak_packet_udp_typed in E as (? & E1 & E2); [rewrite E1, E2|typed]
    end; split_and!; auto using audit_inc_ok; typed.
Qed.

Lemma parse_result_typed fuel a buf len type r :
  audit_ok a -> peak_packet_parse fuel m a buf len type = Done r ->
  result_typed peak_packet_zero<|set_link_type type|><|set_mac_len len|> r.
Proof.
  unfold peak_packet_parse. intros Ha H.
  assert (layers_typed peak_packet_zero) as [] by (constructor; try done; split; [done|by repeat constructor|done|by repeat constructor]).
  parse_ext; match goal with E : parse_link _ _ _ = Some _ |- _ => apply parse_link_typed in E as (Hl & E1 & E2); [cbn in E1, E2|typed] end.
  all: try match goal with E : parse_ipv4 _ _ = Some _ |- _ => apply parse_ipv4_typed in E as (Hn & E3 & E4); [|done] end.
  all: try match goal with E : parse_ipv6 _ _ _ = Done _ |- _ => apply parse_ipv6_typed in E as (Hn & E3 & E4); [|done] end.
  all: try match goal with E : parse_flow _ _ _ = Some _ |- _ => apply parse_flow_typed in E as (? & E5 & E6 & ? & ?); [|done..] end.
  all: try (injection H as <-); unfold result_typed; cbn [fst snd]; split_and!; auto using audit_inc_ok; cbn; congruence.
Qed.
End memory.
