(* ===== verification/File.v ===== *)
(** * Files

    What the library's readers and writers of capture files use of the system: a file
    is its bytes and a position, [read(2)] delivers what is left, at most as much as was
    asked for, [lseek(2)] moves the position unless it would become negative, and
    [write(2)] appends as much as the device has room for. *)

From S2P Require Import Prelude Bytes.

Record file := {
  content : list Z;
  pos : Z;
}.

Definition set_pos (v : Z) (f : file) : file := {| content := content f; pos := v |}.
Arguments set_pos v f /.

(** The bytes a [read(2)] of [n] bytes delivers. *)
Definition read_bytes (f : file) (n : Z) : file * list Z :=
  let bs := take (Z.to_nat n) (drop (Z.to_nat (pos f)) (content f)) in
  (f<|set_pos (pos f + msize bs)|>, bs).

(** The offset is an [off_t], the result at most [2^63 - 1]; on an error the position stays. *)
Definition seek_to (f : file) (p : Z) : file :=
  if (0 <=? p) && (p <? 2 ^ 63) then f<|set_pos p|> else f.

Definition lseek_set (f : file) (off : Z) : file := seek_to f (s64 off).
Definition lseek_cur (f : file) (off : Z) : file := seek_to f (pos f + s64 off).

(** A file open for writing and the bytes its device still takes. *)
Record output := {
  written : list Z;
  room : Z;
}.

Definition write (o : output) (bs : list Z) : output * Z :=
  let n := Z.min (msize bs) (room o) in
  ({| written := written o ++ take (Z.to_nat n) bs; room := room o - n |}, n).

(** ** Positions in a file *)

(** The file continues with [bs]. *)
Definition ahead (f : file) (bs : list Z) : Prop :=
  0 <= pos f /\ drop (Z.to_nat (pos f)) (content f) = bs.

Lemma read_bytes_spec f n bs :
  ahead f bs ->
  read_bytes f n = (f<|set_pos (pos f + msize (take (Z.to_nat n) bs))|>, take (Z.to_nat n) bs).
Proof. unfold read_bytes. by intros [_ ->]. Qed.

Lemma ahead_skip f l r : ahead f (l ++ r) -> ahead (f<|set_pos (pos f + msize l)|>) r.
Proof.
  intros [H0 H]. split; simpl; [unfold msize; lia|].
  rewrite Z2Nat.inj_add by (unfold msize; lia). unfold msize. rewrite Nat2Z.id.
  rewrite <- drop_drop, H. by rewrite drop_app_length.
Qed.

(** A read of exactly the next block. *)
Lemma read_block f l r :
  ahead f (l ++ r) ->
  read_bytes f (msize l) = (f<|set_pos (pos f + msize l)|>, l) /\
  ahead (f<|set_pos (pos f + msize l)|>) r.
Proof.
  intros H. split; [|by apply ahead_skip]. rewrite (read_bytes_spec _ _ _ H).
  unfold msize. by rewrite Nat2Z.id, take_app_length.
Qed.

Lemma read_bytes_inv f n f' bs :
  0 <= n -> read_bytes f n = (f', bs) ->
  content f' = content f /\ pos f' = pos f + msize bs /\ msize bs <= n /\
  (0 <= pos f -> msize bs = 0 \/ pos f' <= msize (content f)).
Proof.
  unfold read_bytes. intros Hn [= <- <-]. simpl. unfold msize. rewrite length_take, length_drop.
  split_and!; [done..|lia|lia].
Qed.

Lemma read_bytes_bytes f n : bytes (content f) -> bytes (snd (read_bytes f n)).
Proof. intros Hb. simpl. by apply Forall_take, Forall_drop. Qed.

(** A full read of the bytes at the position. *)
Lemma read_bytes_full f n :
  0 <= pos f -> 0 <= n -> msize (snd (read_bytes f n)) = n ->
  rd_n (content f) (pos f) (Z.to_nat n) = Some (snd (read_bytes f n)).
Proof.
  intros Hp Hn Hs. simpl in *. apply rd_n_eq; [unfold msize in Hs; lia|]. intros k Hk.
  unfold rd. destruct (Z.leb_spec 0 (pos f + Z.of_nat k)); [|lia].
  rewrite lookup_take_lt by done. rewrite lookup_drop. f_equal. lia.
Qed.

Lemma read_bytes_size f n :
  0 <= pos f -> 0 <= n -> msize (snd (read_bytes f n)) = n <-> pos f + n <= msize (content f) \/ n = 0.
Proof. intros Hp Hn. simpl. unfold msize. rewrite length_take, length_drop. lia. Qed.

(** A read that fails to be full leaves nothing to read. *)
Lemma read_bytes_short f n bs :
  ahead f bs -> msize bs < n -> read_bytes f n = (f<|set_pos (pos f + msize bs)|>, bs).
Proof.
  intros H Hs. rewrite (read_bytes_spec _ _ _ H), take_ge; [done|]. unfold msize in Hs. lia.
Qed.

Lemma seek_to_pos f p : 0 <= p < 2 ^ 63 -> seek_to f p = f<|set_pos p|>.
Proof.
  intros Hp. unfold seek_to. destruct (Z.leb_spec 0 p), (Z.ltb_spec p (2 ^ 63)); try lia. done.
Qed.

(** A strict prefix ends in the first part or in the second. *)
Lemma strict_prefix_split (h body bs : list Z) :
  bs `prefix_of` (h ++ body) -> msize bs < msize (h ++ body) ->
  msize bs < msize h \/ exists b, bs = h ++ b /\ msize b < msize body.
Proof.
  intros [k E] Hl. destruct (decide (msize bs < msize h)) as [|Hge]; [by left|right].
  unfold msize in *. exists (drop (length h) bs). rewrite length_drop, !length_app in *.
  split; [|lia]. rewrite <- (take_drop (length h) bs) at 1. f_equal.
  apply (f_equal (take (length h))) in E. by rewrite take_app_length, take_app_le in E by lia.
Qed.

(** ** Fields of a header *)

(** The values of a structure with the fields [l], a byte width and a value each. *)
Definition fields (l : list (nat * Z)) : list Z := concat ((fun f => le_bytes (fst f) (snd f)) <$> l).

(** A field in the byte order of the host, or the other one. *)
Definition word (swap : bool) (n : nat) (v : Z) : list Z :=
  if swap then reverse (le_bytes n v) else le_bytes n v.

Lemma word_length swap n v : length (word swap n v) = n.
Proof. unfold word. destruct swap; by rewrite ?length_reverse, le_bytes_length. Qed.

Lemma word_bytes swap n v : bytes (word swap n v).
Proof. unfold word. destruct swap; [apply bytes_reverse|]; apply le_bytes_bytes. Qed.

(** The value of a field behind [l]. *)
Definition field_at (h : list Z) (p : Z) (bs : list Z) : Prop := bytes h /\ rd_n h p (length bs) = Some bs.

Lemma field_at_intro h p l bs r : bytes h -> h = l ++ bs ++ r -> p = msize l -> field_at h p bs.
Proof. intros Hh E ->. split; [done|]. rewrite E. apply rd_n_middle. Qed.

Lemma le32_at h p v : field_at h p (le_bytes 4 v) -> fits 32 v -> peak_le32dec h p = Some v.
Proof.
  intros [Hh H] Hv. rewrite le_bytes_length in H. rewrite le32dec_spec, H by done. simpl. f_equal.
  by apply (le_val_le_bytes 4).
Qed.

Lemma le16_at h p v : field_at h p (le_bytes 2 v) -> fits 16 v -> peak_le16dec h p = Some v.
Proof.
  intros [Hh H] Hv. rewrite le_bytes_length in H. rewrite le16dec_spec, H by done.
  apply (f_equal Some), (le_val_le_bytes 2 v Hv).
Qed.

Lemma le64_at h p v : field_at h p (le_bytes 8 v) -> fits 64 v -> peak_le64dec h p = Some v.
Proof.
  intros [Hh H] Hv. rewrite le_bytes_length in H. rewrite le64dec_spec, H by done.
  apply (f_equal Some), (le_val_le_bytes 8 v Hv).
Qed.

Lemma be16_at h p v : field_at h p (reverse (le_bytes 2 v)) -> fits 16 v -> peak_be16dec h p = Some v.
Proof.
  intros [Hh H] Hv. rewrite length_reverse, le_bytes_length in H. rewrite be16dec_spec, H by done.
  assert (be_val (reverse (le_bytes 2 v)) = v) as E; [|exact (f_equal Some E)].
  unfold be_val. by rewrite reverse_involutive, (le_val_le_bytes 2).
Qed.

(** A word of either order, and its value once swapped. *)
Lemma word_at h p swap v :
  field_at h p (word swap 4 v) -> fits 32 v ->
  exists x, peak_le32dec h p = Some x /\ (if swap then peak_bswap32 x else x) = v.
Proof.
  intros Hf Hv. destruct swap; [|exists v; by split; [apply le32_at|]].
  destruct Hf as [Hh H]. rewrite word_length in H. rewrite le32dec_spec, H by done.
  eexists. split; [done|]. unfold word.
  rewrite bswap32_le_val by (rewrite ?length_reverse, ?le_bytes_length; try done; apply bytes_reverse, le_bytes_bytes).
  unfold be_val. rewrite reverse_involutive. by apply (le_val_le_bytes 4).
Qed.

(** Prove that a header is made of bytes, and find a field in it. *)
Ltac header_bytes :=
  repeat first [apply Forall_app; split | apply word_bytes | apply bytes_reverse | apply le_bytes_bytes].
Ltac field_in l :=
  eapply (field_at_intro _ _ l); [header_bytes | rewrite <- ?app_assoc; reflexivity
    | unfold msize; rewrite ?length_app, ?word_length, ?length_reverse, ?le_bytes_length; reflexivity].
Ltac field_last l :=
  apply (field_at_intro _ _ l _ []); [header_bytes | rewrite app_nil_r, <- ?app_assoc; reflexivity
    | unfold msize; rewrite ?length_app, ?word_length, ?length_reverse, ?le_bytes_length; reflexivity].
