(* ===== verification/Load.v ===== *)
(** * Loading capture files

    Models [lib/peak_load.c] and [lib/peak_load.h]: detection of the format, and one
    reader per format that fills the structure of the user with the next packet.  A read
    into the 32K of the packet buffer that may be larger than the buffer is undefined. *)

From S2P Require Import Prelude Bytes Packet File.

(** ** peak_load.h *)

Definition sizeof_buf : Z := 32 * 1024.

Record peak_load := {
  ts_sec : Z;
  ts_usec : Z;
  len : Z;
  ll : Z;
  buf : list Z;
}.

Definition set_ts (sec usec : Z) (s : peak_load) : peak_load :=
  {| ts_sec := sec; ts_usec := usec; len := len s; ll := ll s; buf := buf s |}.
Definition set_len (v : Z) (s : peak_load) : peak_load :=
  {| ts_sec := ts_sec s; ts_usec := ts_usec s; len := v; ll := ll s; buf := buf s |}.
Definition set_ll (v : Z) (s : peak_load) : peak_load :=
  {| ts_sec := ts_sec s; ts_usec := ts_usec s; len := len s; ll := v; buf := buf s |}.
Definition set_buf (v : list Z) (s : peak_load) : peak_load :=
  {| ts_sec := ts_sec s; ts_usec := ts_usec s; len := len s; ll := ll s; buf := v |}.

(** ** peak_load.c *)

(** [netmon_table] is the bytes of the table. *)
Record _peak_load := {
  netmon_table : list Z;
  netmon_count : Z;
  netmon_pos : Z;
  netmon_time : Z;
  fmt : Z;
  fd : file;
  data : peak_load;
}.

Definition set_netmon_pos (v : Z) (s : _peak_load) : _peak_load :=
  {| netmon_table := netmon_table s; netmon_count := netmon_count s; netmon_pos := v;
     netmon_time := netmon_time s; fmt := fmt s; fd := fd s; data := data s |}.
Definition set_fd (v : file) (s : _peak_load) : _peak_load :=
  {| netmon_table := netmon_table s; netmon_count := netmon_count s; netmon_pos := netmon_pos s;
     netmon_time := netmon_time s; fmt := fmt s; fd := v; data := data s |}.
Definition set_data (v : peak_load) (s : _peak_load) : _peak_load :=
  {| netmon_table := netmon_table s; netmon_count := netmon_count s; netmon_pos := netmon_pos s;
     netmon_time := netmon_time s; fmt := fmt s; fd := fd s; data := v |}.
Arguments set_ts sec usec s /.
Arguments set_len v s /.
Arguments set_ll v s /.
Arguments set_buf v s /.
Arguments set_netmon_pos v s /.
Arguments set_fd v s /.
Arguments set_data v s /.

Definition sizeof_erf : Z := 18.

Definition ERF_USEC (x : Z) : Z := u64 (u64 ((x .& 0xFFFFFFFF) * 1000) * 1000) ≫ 32.
Definition ERF_SEC (x : Z) : Z := x ≫ 32.
Definition ERF_MAGIC : Z := 0.

Definition sizeof_pcap_file : Z := 24.
Definition sizeof_pcap_packet : Z := 16.
Definition PCAP_SWAP_MAGIC : Z := 0xD4C3B2A1.
Definition PCAP_MAGIC : Z := 0xA1B2C3D4.

Definition sizeof_pcapng_block : Z := 8.
Definition sizeof_pcapng_iface : Z := 8.
Definition sizeof_pcapng_pkt : Z := 20.
Definition PCAPNG_MAGIC : Z := 0x0A0D0D0A.

Definition sizeof_netmon_file : Z := 64.
Definition sizeof_netmon_record : Z := 16.
Definition NETMON_USEC (x : Z) : Z := (u64 (x * 10) / 10) mod (1000 * 1000).
Definition NETMON_SEC (x : Z) : Z := u64 (x * 10) / (10 * 1000 * 1000).
Definition NETMON_MAGIC : Z := 0x55424D47.

(** [read(self->fd, &hdr, n)] of a header, and [read(self->fd, self->data.buf, n)]. *)
Definition read_header (self : _peak_load) (n : Z) : _peak_load * list Z :=
  let '(fd, bs) := read_bytes (fd self) n in (self<|set_fd fd|>, bs).

Definition read_buf (self : _peak_load) (n : Z) : run (_peak_load * Z) :=
  if sizeof_buf <? n then Undefined
  else
    let '(fd, bs) := read_bytes (fd self) n in
    let data := (data self)<|set_buf (bs ++ drop (length bs) (buf (data self)))|> in
    Done (self<|set_fd fd|><|set_data data|>, msize bs).

(** The assignments at the end of a reader. *)
Definition deliver (self : _peak_load) (sec usec n : Z) : _peak_load :=
  self<|set_data ((set_ts sec usec (data self))<|set_len n|>)|>.

Definition _peak_load_erf (self : _peak_load) : run _peak_load :=
  let '(self, hdr) := read_header self sizeof_erf in
  if negb (msize hdr =? sizeof_erf) then Done self else
  rlen ← try (peak_be16dec hdr 10);
  let rlen := u16 (rlen - sizeof_erf) in
  wlen ← try (peak_be16dec hdr 14);
  if sizeof_buf <? rlen then Done self else
  '(self, ret) ← read_buf self rlen;
  if negb (ret =? rlen) then Done self else
  ts ← try (peak_le64dec hdr 0);
  Done (deliver self (ERF_SEC ts) (ERF_USEC ts) wlen).

Definition _peak_load_pcap (self : _peak_load) : run _peak_load :=
  let '(self, hdr) := read_header self sizeof_pcap_packet in
  if negb (msize hdr =? sizeof_pcap_packet) then Done self else
  sec ← try (peak_le32dec hdr 0);
  usec ← try (peak_le32dec hdr 4);
  incl_len ← try (peak_le32dec hdr 8);
  let swap x := if fmt self =? PCAP_SWAP_MAGIC then peak_bswap32 x else x in
  if sizeof_buf <? swap incl_len then Done self else
  '(self, ret) ← read_buf self (swap incl_len);
  if negb (ret =? swap incl_len) then Done self else
  Done (deliver self (swap sec) (swap usec) (swap incl_len)).

(** The body up to its [goto]: whether to go again. *)
Definition pcapng_block (self : _peak_load) : run (_peak_load * bool) :=
  let '(self, hdr) := read_header self sizeof_pcapng_block in
  if negb (msize hdr =? sizeof_pcapng_block) then Done (self, false) else
  type ← try (peak_le32dec hdr 0);
  length ← try (peak_le32dec hdr 4);
  if sizeof_buf <? length then Done (self, false) else
  if (type =? 2) || (type =? 6) then
    let '(self, pkt) := read_header self sizeof_pcapng_pkt in
    if negb (msize pkt =? sizeof_pcapng_pkt) then Done (self, false) else
    let size := u64 (length - sizeof_pcapng_block - sizeof_pcapng_pkt) in
    '(self, ret) ← read_buf self size;
    if negb (ret =? s64 size) then Done (self, false) else
    ts_high ← try (peak_le32dec pkt 4);
    ts_low ← try (peak_le32dec pkt 8);
    packetlen ← try (peak_le32dec pkt 16);
    let ts := s64 (ts_high ≪ 32) .| ts_low in
    Done (deliver self (Z.quot (Z.quot ts 1000) 1000) (Z.rem ts (1000 * 1000)) packetlen, false)
  else if type =? 1 then
    let '(self, iface) := read_header self sizeof_pcapng_iface in
    if negb (msize iface =? sizeof_pcapng_iface) then Done (self, false) else
    let self := self<|set_fd (lseek_cur (fd self)
      (u64 (length - sizeof_pcapng_block - sizeof_pcapng_iface)))|> in
    linktype ← try (peak_le16dec iface 0);
    Done (self<|set_data ((data self)<|set_ll linktype|>)|>, true)
  else
    Done (self<|set_fd (lseek_cur (fd self) (u64 (length - sizeof_pcapng_block)))|>, true).

Fixpoint _peak_load_pcapng (fuel : nat) (self : _peak_load) : run _peak_load :=
  match fuel with
  | O => OutOfFuel
  | S fuel =>
      '(self, again) ← pcapng_block self;
      if (again : bool) then _peak_load_pcapng fuel self else Done self
  end.

Definition _peak_load_netmon (self : _peak_load) : run _peak_load :=
  if netmon_pos self =? netmon_count self then Done self else
  entry ← try (peak_le32dec (netmon_table self) (4 * netmon_pos self));
  let self := self<|set_netmon_pos (u32 (netmon_pos self + 1))|>
                  <|set_fd (lseek_set (fd self) entry)|> in
  let '(self, hdr) := read_header self sizeof_netmon_record in
  if negb (msize hdr =? sizeof_netmon_record) then Done self else
  include_length ← try (peak_le32dec hdr 12);
  if sizeof_buf <? include_length then Done self else
  '(self, ret) ← read_buf self include_length;
  if negb (ret =? include_length) then Done self else
  time_stamp_data ← try (peak_le64dec hdr 0);
  original_length ← try (peak_le32dec hdr 8);
  Done (deliver self (s64 (NETMON_SEC time_stamp_data + netmon_time self))
    (NETMON_USEC time_stamp_data) original_length).

(** [fuel] is for the blocks of a pcapng file. *)
Definition peak_load_packet (fuel : nat) (self : _peak_load) : run (_peak_load * Z) :=
  let self := self<|set_data ((data self)<|set_len 0|>)|> in
  self ←
    (if fmt self =? ERF_MAGIC then _peak_load_erf self
     else if (fmt self =? PCAP_SWAP_MAGIC) || (fmt self =? PCAP_MAGIC) then _peak_load_pcap self
     else if fmt self =? PCAPNG_MAGIC then _peak_load_pcapng fuel self
     else if fmt self =? NETMON_MAGIC then _peak_load_netmon self
     else Done self);
  Done (self, len (data self)).

(** The fields of [struct tm] the library sets, for [timegm(3)]. *)
Record tm := {
  tm_year : Z; tm_mon : Z; tm_mday : Z; tm_hour : Z; tm_min : Z; tm_sec : Z;
}.

(** What the detection of the format settles: the file behind its header, the format, the
    link layer, the table, its length in bytes and the start time. *)
Record detected := {
  d_fd : file;
  d_fmt : Z;
  d_ll : Z;
  d_table : list Z;
  d_length : Z;
  d_time : Z;
}.

Definition plain (fd : file) (fmt ll : Z) : detected :=
  {| d_fd := fd; d_fmt := fmt; d_ll := ll; d_table := []; d_length := 0; d_time := 0 |}.

(** The branches of [switch (file_magic)]; [None] inside is [goto peak_load_init_close]. *)
Definition init_pcap (fd : file) (file_magic : Z) : option (option detected) :=
  let '(fd, hdr) := read_bytes fd sizeof_pcap_file in
  if negb (msize hdr =? sizeof_pcap_file) then Some None else
  network ← peak_le32dec hdr 20;
  if file_magic =? PCAP_SWAP_MAGIC
  then Some (Some (plain fd PCAP_SWAP_MAGIC (peak_bswap32 network)))
  else Some (Some (plain fd PCAP_MAGIC network)).

(** [mem n] says whether [malloc] has [n] bytes, [timegm] is the function of the C library. *)
Definition init_netmon (mem : Z -> bool) (timegm : tm -> Z) (fd : file) : option (option detected) :=
  let '(fd, hdr) := read_bytes fd sizeof_netmon_file in
  if negb (msize hdr =? sizeof_netmon_file) then Some None else
  version_minor ← rd hdr 4;
  version_major ← rd hdr 5;
  if negb (version_minor =? 0) || negb (version_major =? 2) then Some None else
  network ← peak_le16dec hdr 6;
  if 1 <? network then Some None else
  netmon_length ← peak_le32dec hdr 28;
  if (netmon_length =? 0) || negb (mem netmon_length) then Some None else
  start_year ← peak_le16dec hdr 8;
  start_month ← peak_le16dec hdr 10;
  start_day ← peak_le16dec hdr 14;
  start_hour ← peak_le16dec hdr 16;
  start_min ← peak_le16dec hdr 18;
  start_sec ← peak_le16dec hdr 20;
  let netmon_time := timegm {| tm_year := start_year - 1900; tm_mon := start_month - 1;
    tm_mday := start_day; tm_hour := start_hour; tm_min := start_min; tm_sec := start_sec |} in
  frame_table_offset ← peak_le32dec hdr 24;
  let fd := lseek_set fd frame_table_offset in
  let '(fd, netmon_table) := read_bytes fd netmon_length in
  if negb (msize netmon_table =? netmon_length) then Some None else
  Some (Some {| d_fd := fd; d_fmt := NETMON_MAGIC; d_ll := LINKTYPE_ETHERNET;
    d_table := netmon_table; d_length := netmon_length; d_time := netmon_time |}).

Definition init_pcapng (fd : file) : option (option detected) :=
  let '(fd, hdr) := read_bytes fd sizeof_pcapng_block in
  if negb (msize hdr =? sizeof_pcapng_block) then Some None else
  length ← peak_le32dec hdr 4;
  Some (Some (plain (lseek_cur fd (u64 (length - sizeof_pcapng_block))) PCAPNG_MAGIC 0)).

Definition detect (mem : Z -> bool) (timegm : tm -> Z) (fd : file) : option (option detected) :=
  let '(fd, magic) := read_bytes fd 4 in
  if negb (msize magic =? 4) then Some None else
  file_magic ← peak_le32dec magic 0;
  let fd := lseek_set fd 0 in
  if (file_magic =? PCAP_SWAP_MAGIC) || (file_magic =? PCAP_MAGIC) then init_pcap fd file_magic
  else if file_magic =? NETMON_MAGIC then init_netmon mem timegm fd
  else if file_magic =? PCAPNG_MAGIC then init_pcapng fd
  else Some (Some (plain fd ERF_MAGIC LINKTYPE_ETHERNET)).

(** The size of the structure [calloc] is asked for. *)
Definition sizeof_peak_load : Z := 32824.

(** [from] is the standard input when there is no file name ([inr]), else what
    [open(2)] makes of the name. *)
Definition peak_load_init (mem : Z -> bool) (timegm : tm -> Z) (from : option file + file)
    : option (option _peak_load) :=
  found ← match from with
    | inl None => Some None
    | inl (Some fd) => detect mem timegm fd
    | inr stdin => Some (Some (plain stdin ERF_MAGIC LINKTYPE_ETHERNET))
    end;
  match (found : option detected) with
  | None => Some None
  | Some d =>
      if negb (mem sizeof_peak_load) then Some None else
      Some (Some {| netmon_table := d_table d; netmon_count := d_length d / 4; netmon_pos := 0;
        netmon_time := d_time d; fmt := d_fmt d; fd := d_fd d;
        data := {| ts_sec := 0; ts_usec := 0; len := 0; ll := d_ll d;
                   buf := replicate (Z.to_nat sizeof_buf) 0 |} |})
  end.

(** ** The state of a reader *)

Record load_ok (self : _peak_load) : Prop := {
  ok_buf : msize (buf (data self)) = sizeof_buf;
  ok_bytes : bytes (content (fd self));
  ok_pos : 0 <= pos (fd self);
  ok_table : bytes (netmon_table self);
  ok_count : 0 <= netmon_pos self <= netmon_count self;
  ok_size : 4 * netmon_count self <= msize (netmon_table self);
}.

(** A step keeps the file's bytes, its format and the table, and the state in order. *)
Definition kept (self self' : _peak_load) : Prop :=
  load_ok self' /\ content (fd self') = content (fd self) /\ fmt self' = fmt self.

Lemma kept_refl self : load_ok self -> kept self self.
Proof. intros. unfold kept. by split_and!. Qed.

Lemma kept_trans x y z : kept x y -> kept y z -> kept x z.
Proof. intros (_ & Hc & Hf) (H & Hc' & Hf'). unfold kept. split_and!; [done|congruence..]. Qed.

Lemma kept_fd self f :
  load_ok self -> content f = content (fd self) -> 0 <= pos f -> kept self (self<|set_fd f|>).
Proof. intros [] Hc Hp. unfold kept. split_and!; [split; simpl; try done; by rewrite Hc|done..]. Qed.

Lemma kept_data self d : load_ok self -> msize (buf d) = sizeof_buf -> kept self (self<|set_data d|>).
Proof. intros [] Hb. unfold kept. by split_and!; [split|..]. Qed.

Lemma read_header_ok self n :
  load_ok self -> 0 <= n ->
  let '(self', bs) := read_header self n in
  kept self self' /\ bytes bs /\ pos (fd self') = pos (fd self) + msize bs /\ data self' = data self /\
  (msize bs = n -> rd_n (content (fd self)) (pos (fd self)) (Z.to_nat n) = Some bs) /\
  (msize bs = n <-> pos (fd self) + n <= msize (content (fd self)) \/ n = 0).
Proof.
  intros Hok Hn. unfold read_header. pose proof (read_bytes_bytes (fd self) n (ok_bytes _ Hok)) as Hb.
  pose proof (read_bytes_full (fd self) n (ok_pos _ Hok) Hn) as Hf.
  pose proof (read_bytes_size (fd self) n (ok_pos _ Hok) Hn) as Hsz.
  destruct (read_bytes (fd self) n) as [f bs] eqn:E. destruct (read_bytes_inv _ _ _ _ Hn E) as (Hc & Hp & _).
  split_and!; [|done..]. apply kept_fd; [done..|]. pose proof (ok_pos _ Hok). unfold msize in Hp. lia.
Qed.

Lemma read_buf_ok self n :
  load_ok self -> 0 <= n <= sizeof_buf ->
  exists self' ret, read_buf self n = Done (self', ret) /\ kept self self' /\
    len (data self') = len (data self).
Proof.
  intros Hok Hn. unfold read_buf. destruct (Z.ltb_spec sizeof_buf n); [lia|].
  destruct (read_bytes (fd self) n) as [f bs] eqn:E.
  destruct (read_bytes_inv _ _ _ _ (proj1 Hn) E) as (Hc & Hp & Hl & _). do 2 eexists. split; [done|]. split; [|done].
  eapply kept_trans; [eapply (kept_fd self f)|apply kept_data].
  - done.
  - done.
  - pose proof (ok_pos _ Hok). unfold msize in Hp. lia.
  - apply kept_fd; [done..|]. pose proof (ok_pos _ Hok). unfold msize in Hp. lia.
  - simpl. pose proof (ok_buf _ Hok) as Hb. unfold msize in *. rewrite length_app, length_drop. lia.
Qed.

Lemma deliver_ok self sec usec n : load_ok self -> kept self (deliver self sec usec n).
Proof. intros Hok. apply kept_data; [done|]. simpl. apply Hok. Qed.

(** Decode a field of a header known to be long enough. *)
Ltac field C Hb :=
  match goal with
  | |- _ (try (?dec ?h ?k) ≫= _) =>
      let v := fresh "v" in let E := fresh "E" in
      destruct (@codec_bound _ _ dec C h k) as [v E];
        [exact Hb|lia|unfold sizeof_erf, sizeof_pcap_packet, sizeof_pcapng_block, sizeof_pcapng_iface,
                        sizeof_pcapng_pkt, sizeof_netmon_record in *; simpl; lia|];
      rewrite E; cbn [try mbind run_bind];
      destruct (@codec_dec _ _ dec C h k v Hb ltac:(lia) E) as (? & _ & _)
  end.
Ltac field16 Hb := field le16_codec Hb.
Ltac field32 Hb := field le32_codec Hb.
Ltac field64 Hb := field le64_codec Hb.
Ltac fieldbe Hb := field be16_codec Hb.

(** A run that keeps the state. *)
Definition keeps (self : _peak_load) (r : run _peak_load) : Prop := exists self', r = Done self' /\ kept self self'.

Lemma keeps_done self self' : kept self self' -> keeps self (Done self').
Proof. by exists self'. Qed.

Lemma erf_keeps self : load_ok self -> keeps self (_peak_load_erf self).
Proof.
  intros Hok. unfold _peak_load_erf. pose proof (read_header_ok self sizeof_erf Hok ltac:(done)) as H.
  destruct (read_header self sizeof_erf) as [s hdr]. destruct H as (Hk & Hb & _).
  destruct (Z.eqb_spec (msize hdr) sizeof_erf); cbn [negb]; [|by apply keeps_done].
  fieldbe Hb. cbv zeta. fieldbe Hb. destruct (Z.ltb_spec sizeof_buf (u16 (v - sizeof_erf))); [by apply keeps_done|].
  destruct (read_buf_ok s (u16 (v - sizeof_erf)) (proj1 Hk)) as (s' & ret & -> & Hk' & _).
  { pose proof (wrap_bound 16 (v - sizeof_erf) ltac:(lia)) as []. lia. }
  cbn [mbind run_bind]. destruct (negb _); [by apply keeps_done; eapply kept_trans|].
  field64 Hb. apply keeps_done. eapply kept_trans; [done|]. eapply kept_trans; [done|]. apply deliver_ok, Hk'.
Qed.

Lemma bswap32_fits x : fits 32 (peak_bswap32 x).
Proof. by apply wrap_bound. Qed.

Lemma pcap_keeps self : load_ok self -> keeps self (_peak_load_pcap self).
Proof.
  intros Hok. unfold _peak_load_pcap. pose proof (read_header_ok self sizeof_pcap_packet Hok ltac:(done)) as H.
  destruct (read_header self sizeof_pcap_packet) as [s hdr]. destruct H as (Hk & Hb & _).
  destruct (Z.eqb_spec (msize hdr) sizeof_pcap_packet); cbn [negb]; [|by apply keeps_done].
  field32 Hb. field32 Hb. field32 Hb.
  set (incl := if fmt s =? _ then _ else _).
  assert (fits 32 incl) as Hi by (unfold incl; destruct (_ =? _); [apply bswap32_fits|done]).
  destruct (Z.ltb_spec sizeof_buf incl); [by apply keeps_done|].
  destruct (read_buf_ok s incl (proj1 Hk)) as (s' & ret & -> & Hk' & _); [unfold fits in *; lia|].
  cbn [mbind run_bind]. destruct (negb _); [by apply keeps_done; eapply kept_trans|].
  apply keeps_done. eapply kept_trans; [done|]. eapply kept_trans; [done|]. apply deliver_ok, Hk'.
Qed.

(** *** The blocks of a pcapng file *)

(** At [q] there is a packet block too short for its own header. *)
Definition short_block (m : list Z) (q : Z) : Prop :=
  exists type length, peak_le32dec m q = Some type /\ (type = 2 \/ type = 6) /\
    peak_le32dec m (q + 4) = Some length /\ length < 28 /\ q + 28 <= msize m.

(** At [q] there is a block without a packet, [length] bytes long. *)
Definition skipped_block (m : list Z) (q length : Z) : Prop :=
  exists type, peak_le32dec m q = Some type /\ type <> 2 /\ type <> 6 /\
    peak_le32dec m (q + 4) = Some length /\ 0 <= length <= sizeof_buf /\
    (type = 1 -> q + 16 <= msize m).

Lemma le32dec_part m p n h k :
  bytes m -> rd_n m p n = Some h -> 0 <= k -> k + 4 <= Z.of_nat n ->
  peak_le32dec h k = peak_le32dec m (p + k).
Proof.
  intros Hm Hr Hk Hn. rewrite !le32dec_spec by (done || by eapply rd_n_bytes).
  f_equal. by eapply rd_n_part.
Qed.

Lemma le32dec_inv m p v : bytes m -> 0 <= p -> peak_le32dec m p = Some v -> fits 32 v /\ p + 4 <= msize m.
Proof. intros Hm Hp E. destruct (@codec_dec _ _ _ le32_codec m p v Hm Hp E) as (? & ? & _). done. Qed.

Lemma skipped_block_inside m q length : bytes m -> 0 <= q -> skipped_block m q length -> q + 8 <= msize m.
Proof. intros Hm Hq (type & _ & _ & _ & Hl & _). apply le32dec_inv in Hl; [lia|done|lia]. Qed.

(** At [q] the loop over the blocks ends. *)
Definition last_block (m : list Z) (q : Z) : Prop :=
  ~ (exists length, skipped_block m q length) /\ ~ short_block m q.

(** What becomes of a block. *)
Definition block_outcome (self : _peak_load) (r : run (_peak_load * bool)) : Prop :=
  match r with
  | Done (self', again) => kept self self' /\
      if again then exists length, skipped_block (content (fd self)) (pos (fd self)) length /\
                                   pos (fd self') = pos (fd self) + length /\
                                   len (data self') = len (data self)
      else last_block (content (fd self)) (pos (fd self))
  | Undefined => short_block (content (fd self)) (pos (fd self))
  | OutOfFuel => False
  end.

(** A file no longer than positions can be. *)
Definition file_small (self : _peak_load) : Prop := msize (content (fd self)) < 2 ^ 62.

Lemma lseek_cur_ok f n length :
  0 <= pos f < 2 ^ 62 -> - 2 ^ 32 < n < 2 ^ 32 -> 0 <= pos f + n -> length = n ->
  lseek_cur f (u64 n) = f<|set_pos (pos f + length)|>.
Proof.
  intros Hp Hn Hs ->. unfold lseek_cur. rewrite s64_u64, s64_small by lia. apply seek_to_pos. lia.
Qed.

Lemma block_packet self s pkt length :
  load_ok self -> kept self s -> bytes pkt -> fits 32 length -> length <= sizeof_buf ->
  (msize pkt = sizeof_pcapng_pkt -> length < 28 -> short_block (content (fd self)) (pos (fd self))) ->
  (msize pkt <> sizeof_pcapng_pkt \/ 28 <= length -> last_block (content (fd self)) (pos (fd self))) ->
  block_outcome self
    (if negb (msize pkt =? sizeof_pcapng_pkt) then Done (s, false) else
     let size := u64 (length - sizeof_pcapng_block - sizeof_pcapng_pkt) in
     '(self, ret) ← read_buf s size;
     if negb (ret =? s64 size) then Done (self, false) else
     ts_high ← try (peak_le32dec pkt 4);
     ts_low ← try (peak_le32dec pkt 8);
     packetlen ← try (peak_le32dec pkt 16);
     let ts := s64 (ts_high ≪ 32) .| ts_low in
     Done (deliver self (Z.quot (Z.quot ts 1000) 1000) (Z.rem ts (1000 * 1000)) packetlen, false)).
Proof.
  intros Hok Hk Hb Hf Hl Hshort Hno. destruct (Z.eqb_spec (msize pkt) sizeof_pcapng_pkt) as [Hs|];
    cbn [negb]; [|split; [done|apply Hno; by left]].
  assert (28 <= length -> last_block (content (fd self)) (pos (fd self))) as Hlast by (intros; apply Hno; by right).
  cbv zeta. unfold sizeof_pcapng_block, sizeof_pcapng_pkt in *. destruct (decide (length < 28)).
  - replace (read_buf _ _) with (@Undefined (_peak_load * Z)); [by apply Hshort|]. unfold read_buf.
    destruct (Z.ltb_spec sizeof_buf (u64 (length - 8 - 20))) as [|Hw]; [done|].
    unfold sizeof_buf, fits, wrap in *. rewrite (Z.mod_eq _ (2 ^ 64)) in Hw by done.
    replace ((length - 8 - 20) / 2 ^ 64) with (-1) in Hw; [lia|]. Z.to_euclidean_division_equations. lia.
  - rewrite wrap_small, s64_small by (unfold sizeof_buf, fits in *; lia).
    destruct (read_buf_ok s (length - 8 - 20) (proj1 Hk)) as (s' & ret & -> & Hk' & _); [lia|].
    cbn [mbind run_bind]. pose proof (kept_trans _ _ _ Hk Hk') as Hk2. specialize (Hlast ltac:(lia)).
    destruct (negb _); [by split|].
    field32 Hb. field32 Hb. field32 Hb. split; [|done]. eapply kept_trans; [done|]. apply deliver_ok, Hk'.
Qed.

Lemma pcapng_block_ok self :
  load_ok self -> file_small self -> block_outcome self (pcapng_block self).
Proof.
  intros Hok Hsmall. unfold pcapng_block. pose proof (read_header_ok self sizeof_pcapng_block Hok ltac:(done)) as H.
  destruct (read_header self sizeof_pcapng_block) as [s hdr]. destruct H as (Hk & Hb & Hp & Hd & Hfull & Hsz).
  set (m := content (fd self)) in *. set (q := pos (fd self)) in *.
  assert (content (fd s) = m) as Hm by apply Hk. pose proof (ok_bytes _ Hok) as Hmb. fold m in Hmb.
  assert (0 <= q) as Hq by apply Hok. unfold sizeof_pcapng_block in *.
  destruct (Z.eqb_spec (msize hdr) 8) as [Hs|Hs]; cbn [negb].
  2: { split; [done|]. split; [intros (n & Hn); pose proof (skipped_block_inside _ _ _ Hmb Hq Hn); lia|].
       intros (_ & _ & _ & _ & _ & _ & Hq28). fold m q in Hq28. lia. }
  assert (forall k, 0 <= k <= 4 -> peak_le32dec hdr k = peak_le32dec m (q + k)) as Hdec.
  { intros k Hk8. eapply (le32dec_part _ _ 8); [done|by apply Hfull|lia..]. }
  pose proof (Hdec 0 ltac:(lia)) as H0. pose proof (Hdec 4 ltac:(lia)) as H4. rewrite Z.add_0_r in H0.
  field32 Hb. field32 Hb. rename v into type, v0 into length. rewrite E in H0. rewrite E0 in H4.
  symmetry in H0, H4. change (8 * Z.of_nat 4) with 32 in *.
  assert (forall n, skipped_block m q n -> n = length /\ type <> 2 /\ type <> 6 /\ length <= sizeof_buf /\
    (type = 1 -> q + 16 <= msize m)) as Hinv.
  { intros n (ty & Hty & ? & ? & Hn & ? & ?). rewrite H0 in Hty. rewrite H4 in Hn. simplify_eq. split_and!; try done; lia. }
  assert (short_block m q -> (type = 2 \/ type = 6) /\ length < 28 /\ q + 28 <= msize m) as Hshort.
  { intros (ty & n & Hty & ? & Hn & ? & ?). rewrite H0 in Hty. rewrite H4 in Hn. by simplify_eq. }
  assert ((type = 2 \/ type = 6 \/ sizeof_buf < length \/ type = 1 /\ msize m < q + 16) ->
    (type <> 2 /\ type <> 6 \/ 28 <= length \/ msize m < q + 28) -> last_block m q) as Hlast.
  { intros Hno Hno'. split; [intros (n & Hn); apply Hinv in Hn; lia|]. intros Hn. apply Hshort in Hn. lia. }
  destruct (Z.ltb_spec sizeof_buf length); [split; [done|]; apply Hlast; unfold sizeof_buf in *; lia|].
  destruct ((type =? 2) || (type =? 6)) eqn:Et.
  - apply orb_true_iff in Et. rewrite !Z.eqb_eq in Et.
    pose proof (read_header_ok s sizeof_pcapng_pkt (proj1 Hk) ltac:(done)) as Hr.
    destruct (read_header s sizeof_pcapng_pkt) as [s' pkt]. destruct Hr as (Hk' & Hb' & _ & _ & _ & Hsz').
    apply block_packet; [done|by eapply kept_trans|done..| |].
    2: { intros Hor. rewrite Hm in Hsz'. unfold sizeof_pcapng_pkt in *. apply Hlast; lia. }
    + intros Hpkt Hlt. exists type, length. split_and!; [done..|]. rewrite Hm in Hsz'. unfold sizeof_pcapng_pkt in *.
      fold m. fold q. lia.
  - apply orb_false_iff in Et as [Et2%Z.eqb_neq Et6%Z.eqb_neq].
    assert (msize m < 2 ^ 62) as Hms by done. assert (q + 8 <= msize m) as Hq8 by lia.
    destruct (Z.eqb_spec type 1) as [Ht1|Ht1].
    + pose proof (read_header_ok s sizeof_pcapng_iface (proj1 Hk) ltac:(done)) as Hr.
      destruct (read_header s sizeof_pcapng_iface) as [s' iface].
      destruct Hr as (Hk' & Hb' & Hp' & Hd' & _ & Hsz'). rewrite Hm, Hp, Hs in *. unfold sizeof_pcapng_iface in *.
      destruct (Z.eqb_spec (msize iface) 8) as [Hs8|Hs8]; cbn [negb].
      2: { split; [by eapply kept_trans|]. apply Hlast; lia. }
      cbv zeta. field16 Hb'. unfold fits, sizeof_buf in *.
      rewrite (lseek_cur_ok _ _ (length - 16)) by lia. rewrite Hp'.
      assert (kept self (s'<|set_fd ((fd s')<|set_pos (q + 8 + msize iface + (length - 16))|>)|>)) as Hk2.
      { eapply kept_trans; [done|]. eapply kept_trans; [done|]. apply kept_fd; [apply Hk'|done|simpl; lia]. }
      split; [eapply kept_trans; [done|]; apply kept_data; [apply Hk2|]; simpl; apply Hk'|].
      exists length. split; [|simpl; rewrite Hd', Hd; split; [fold q; lia|done]].
      exists type. unfold sizeof_buf. split_and!; try done; try lia. intros _. fold m q. lia.
    + unfold fits, sizeof_buf in *. rewrite (lseek_cur_ok _ _ (length - 8)) by lia. rewrite Hp.
      split; [eapply kept_trans; [done|]; apply kept_fd; [apply Hk|done|simpl; lia]|].
      exists length. simpl. rewrite Hd. split; [|split; [fold q; lia|done]].
      exists type. unfold sizeof_buf. split_and!; try done; lia.
Qed.

Lemma netmon_keeps self : load_ok self -> keeps self (_peak_load_netmon self).
Proof.
  intros Hok. unfold _peak_load_netmon. destruct (Z.eqb_spec (netmon_pos self) (netmon_count self)); [by apply keeps_done, kept_refl|].
  pose proof (ok_table _ Hok) as Ht. pose proof (ok_count _ Hok) as Hc. pose proof (ok_size _ Hok) as Hs.
  destruct (@codec_bound _ _ _ le32_codec (netmon_table self) (4 * netmon_pos self)) as [entry Ee]; [done|lia..|].
  rewrite Ee. cbn [try mbind run_bind]. cbv zeta.
  destruct (le32dec_inv (netmon_table self) (4 * netmon_pos self) entry) as [He _]; [done|lia|done|]. unfold fits in He. unfold lseek_set. rewrite s64_small, seek_to_pos by lia.
  match goal with |- keeps _ (let '(_, _) := read_header ?x _ in _) => set (s0 := x) end.
  assert (kept self s0) as Hk0.
  { destruct Hok. unfold kept. split_and!; [split; simpl; try done; [lia|]|done..].
    pose proof (wrap_bound 32 (netmon_pos self + 1) ltac:(lia)) as [].
    assert (u32 (netmon_pos self + 1) <= netmon_pos self + 1) by (apply Z.mod_le; lia). lia. }
  pose proof (read_header_ok s0 sizeof_netmon_record (proj1 Hk0) ltac:(done)) as Hr.
  destruct (read_header s0 sizeof_netmon_record) as [s hdr]. destruct Hr as (Hk & Hb & _).
  pose proof (kept_trans _ _ _ Hk0 Hk) as Hk1.
  destruct (Z.eqb_spec (msize hdr) sizeof_netmon_record); cbn [negb]; [|by apply keeps_done].
  field32 Hb. destruct (Z.ltb_spec sizeof_buf v); [by apply keeps_done|].
  destruct (read_buf_ok s v (proj1 Hk)) as (s' & ret & -> & Hk' & _); [unfold fits in *; lia|].
  cbn [mbind run_bind]. pose proof (kept_trans _ _ _ Hk1 Hk') as Hk2.
  destruct (negb _); [by apply keeps_done|]. field64 Hb. field32 Hb.
  apply keeps_done. eapply kept_trans; [done|]. apply deliver_ok, Hk'.
Qed.

(** *** Loops over blocks *)

(** The blocks from [q] on that a reader skips before it stops at [q']. *)
Inductive skipped (m : list Z) : Z -> Z -> Prop :=
  | skipped_here q : skipped m q q
  | skipped_block_at q length q' :
      skipped_block m q length -> skipped m (q + length) q' -> skipped m q q'.

Lemma pcapng_ok fuel self :
  load_ok self -> file_small self ->
  match _peak_load_pcapng fuel self with
  | Done self' => kept self self'
  | Undefined => exists q, skipped (content (fd self)) (pos (fd self)) q /\ short_block (content (fd self)) q
  | OutOfFuel => True
  end.
Proof.
  revert self. induction fuel as [|fuel IH]; intros self Hok Hsm; simpl; [done|].
  pose proof (pcapng_block_ok self Hok Hsm) as Hb. destruct (pcapng_block self) as [[s []]| |]; simpl in *; try done.
  - destruct Hb as (Hk & length & Hskip & Hp & _). destruct Hk as (Hok' & Hc & Hf).
    specialize (IH s Hok'). unfold file_small in IH. rewrite Hc, Hp in IH. specialize (IH Hsm).
    destruct (_peak_load_pcapng fuel s); [by eapply kept_trans|destruct IH as (q & Hq & ?)|done].
    exists q. split; [by eapply skipped_block_at|done].
  - apply Hb.
  - eexists. split; [apply skipped_here|done].
Qed.

(** A block of length 0 that is skipped again and again. *)
Definition stuck (m : list Z) (q : Z) : Prop := skipped_block m q 0.

(** More fuel changes nothing once there is a result. *)
Lemma pcapng_more k fuel self :
  _peak_load_pcapng fuel self <> OutOfFuel ->
  _peak_load_pcapng (k + fuel) self = _peak_load_pcapng fuel self.
Proof.
  revert self. induction fuel as [|fuel IH]; intros self H; [done|]. rewrite Nat.add_succ_r. simpl in *.
  destruct (pcapng_block self) as [[s []]| |]; simpl in *; [by apply IH|done..].
Qed.

Lemma skipped_block_det m q n n' : skipped_block m q n -> skipped_block m q n' -> n = n'.
Proof. intros (? & _ & _ & _ & H & _) (? & _ & _ & _ & H' & _). congruence. Qed.

Lemma pcapng_skip self length :
  load_ok self -> file_small self -> skipped_block (content (fd self)) (pos (fd self)) length ->
  exists s, pcapng_block self = Done (s, true) /\ kept self s /\ pos (fd s) = pos (fd self) + length.
Proof.
  intros Hok Hsm Hs. pose proof (pcapng_block_ok self Hok Hsm) as Hb.
  destruct (pcapng_block self) as [[s []]| |]; simpl in *; [| |destruct Hs as (ty & ? & ? & ? & ? & _), Hb as (ty' & ? & ? & ? & _)|done].
  - destruct Hb as (Hk & n & Hn & Hp & _). exists s. by rewrite (skipped_block_det _ _ _ _ Hs Hn).
  - destruct Hb as (_ & [] & _). by exists length.
  - naive_solver.
Qed.

Lemma pcapng_stuck fuel self :
  load_ok self -> file_small self -> stuck (content (fd self)) (pos (fd self)) ->
  _peak_load_pcapng fuel self = OutOfFuel.
Proof.
  revert self. induction fuel as [|fuel IH]; intros self Hok Hsm Hs; [done|].
  destruct (pcapng_skip self 0 Hok Hsm Hs) as (s & E & (Hok' & Hc & _) & Hp). simpl. rewrite E. simpl.
  apply IH; [done| |]; unfold file_small; rewrite Hc, ?Hp; [done|]. by rewrite Z.add_0_r.
Qed.

(** With enough fuel for the rest of the file the loop ends or is stuck. *)
Lemma pcapng_bound k self :
  load_ok self -> file_small self -> msize (content (fd self)) - pos (fd self) <= Z.of_nat k ->
  _peak_load_pcapng (S k) self <> OutOfFuel \/
  ((forall fuel, _peak_load_pcapng fuel self = OutOfFuel) /\
   exists q, skipped (content (fd self)) (pos (fd self)) q /\ stuck (content (fd self)) q).
Proof.
  revert self. induction k as [|k IH]; intros self Hok Hsm Hk;
    pose proof (pcapng_block_ok self Hok Hsm) as Hb; cbn [_peak_load_pcapng];
    (destruct (pcapng_block self) as [[s []]| |] eqn:E; [| by left..|done]);
    destruct Hb as ((Hok' & Hc & _) & length & Hskip & Hp & _);
    pose proof (skipped_block_inside _ _ _ (ok_bytes _ Hok) (ok_pos _ Hok) Hskip) as Hin; [lia|].
  destruct (decide (length = 0)) as [->|Hne].
  - right. split; [intros fuel; by apply pcapng_stuck|]. eexists. split; [apply skipped_here|done].
  - assert (0 <= length) as H0 by (by destruct Hskip as (? & _ & _ & _ & _ & [] & _)).
    destruct (IH s Hok') as [H|[H (q & Hq & Hst)]]; [unfold file_small; by rewrite Hc|rewrite Hc, Hp; lia|by left|].
    right. rewrite Hc, Hp in *. split; [|exists q; split; [by eapply skipped_block_at|done]].
    intros [|fuel]; simpl; [done|]. rewrite E. apply H.
Qed.

Lemma pcap_len self self' :
  load_ok self -> len (data self) = 0 -> _peak_load_pcap self = Done self' -> len (data self') <= sizeof_buf.
Proof.
  intros Hok H0. unfold _peak_load_pcap. pose proof (read_header_ok self sizeof_pcap_packet Hok ltac:(done)) as Hr.
  destruct (read_header self sizeof_pcap_packet) as [s hdr]. destruct Hr as ((Hok' & _) & Hb & _ & Hd & _).
  assert (len (data s) <= sizeof_buf) as Hs by (rewrite Hd, H0; done).
  destruct (negb (msize hdr =? sizeof_pcap_packet)); [by intros [= <-]|].
  destruct (peak_le32dec hdr 0); cbn [try mbind run_bind]; [|done].
  destruct (peak_le32dec hdr 4); cbn [try mbind run_bind]; [|done].
  destruct (peak_le32dec hdr 8) as [incl|] eqn:E; cbn [try mbind run_bind]; [|done].
  apply le32dec_inv in E as [Hf _]; [|done..]. cbv zeta. set (n := if fmt s =? _ then _ else _).
  assert (fits 32 n) as Hn by (unfold n; destruct (_ =? _); [apply bswap32_fits|done]).
  destruct (Z.ltb_spec sizeof_buf n); [by intros [= <-]|].
  destruct (read_buf_ok s n Hok') as (s' & ret & -> & _ & Hl'); [unfold fits in Hn; lia|].
  cbn [mbind run_bind]. destruct (negb _); intros [= <-]; [by rewrite Hl'|done].
Qed.

Lemma packet_kept self : load_ok self -> kept self (self<|set_data ((data self)<|set_len 0|>)|>).
Proof. intros Hok. apply kept_data; [done|]. apply Hok. Qed.

(** A block that is too short goes wrong. *)
Lemma short_block_undefined fuel self :
  load_ok self -> file_small self -> short_block (content (fd self)) (pos (fd self)) ->
  _peak_load_pcapng (S fuel) self = Undefined.
Proof.
  intros Hok Hsm Hshort. cbn [_peak_load_pcapng]. pose proof (pcapng_block_ok self Hok Hsm) as Hb.
  destruct (pcapng_block self) as [[s []]| |]; [|by destruct Hb as (_ & _ & [])|done..].
  destruct Hb as (_ & n & (ty & Hty & ? & ? & _) & _), Hshort as (ty' & _ & Hty' & Hor & _).
  rewrite Hty in Hty'. naive_solver.
Qed.

(** All formats but pcapng need no fuel. *)
Lemma load_once self :
  load_ok self -> fmt self <> PCAPNG_MAGIC ->
  exists self', kept self self' /\ (forall fuel, peak_load_packet fuel self = Done (self', len (data self'))) /\
    (fmt self = PCAP_MAGIC \/ fmt self = PCAP_SWAP_MAGIC -> len (data self') <= sizeof_buf).
Proof.
  intros Hok Hne. pose proof (packet_kept self Hok) as Hk. unfold peak_load_packet.
  set (s := self<|set_data _|>) in *. assert (fmt s = fmt self) as Hf by done. cbv zeta. rewrite Hf.
  assert (forall r, keeps s r -> exists s', r = Done s' /\ kept self s') as Hkeeps.
  { intros r (s' & -> & Hk'). exists s'. split; [done|]. exact (kept_trans _ _ _ Hk Hk'). }
  destruct (Z.eqb_spec (fmt self) ERF_MAGIC) as [E|_].
  { destruct (Hkeeps _ (erf_keeps s (proj1 Hk))) as (s' & -> & Hk'). exists s'. split_and!; [done..|].
    rewrite E. by intros [|]. }
  destruct ((fmt self =? PCAP_SWAP_MAGIC) || (fmt self =? PCAP_MAGIC)) eqn:Ep.
  { destruct (Hkeeps _ (pcap_keeps s (proj1 Hk))) as (s' & E & Hk'). rewrite E. exists s'. split_and!; [done..|].
    intros _. by apply (pcap_len s); [apply Hk|..]. }
  apply orb_false_iff in Ep as [E1%Z.eqb_neq E2%Z.eqb_neq].
  destruct (Z.eqb_spec (fmt self) PCAPNG_MAGIC) as [E|_]; [done|].
  destruct (fmt self =? NETMON_MAGIC).
  - destruct (Hkeeps _ (netmon_keeps s (proj1 Hk))) as (s' & -> & Hk'). exists s'. by split_and!; [..|intros [|]].
  - exists s. by split_and!; [..|intros [|]].
Qed.

Lemma load_blocks fuel self :
  fmt self = PCAPNG_MAGIC ->
  peak_load_packet fuel self =
    (self ← _peak_load_pcapng fuel (self<|set_data ((data self)<|set_len 0|>)|>); Done (self, len (data self))).
Proof. intros E. unfold peak_load_packet. cbn [fmt set_data]. by rewrite E. Qed.

(** ** Properties *)

(** C28.  A reader never leaves the buffer of the packet or the bytes of a header, and
    keeps its state in order; the length it returns is the one in the structure, and
    for the pcap formats no more than the buffer holds.  The exception is a pcapng
    file: behind any blocks that are skipped, a packet block whose length is below the
    28 bytes of its headers makes the reader ask [read(2)] for nearly [2^64] bytes. *)
Theorem load_in_bounds fuel self :
  load_ok self -> file_small self ->
  match peak_load_packet fuel self with
  | Done (self', n) => kept self self' /\ n = len (data self') /\
      (fmt self = PCAP_MAGIC \/ fmt self = PCAP_SWAP_MAGIC -> n <= sizeof_buf)
  | Undefined => fmt self = PCAPNG_MAGIC /\
      exists q, skipped (content (fd self)) (pos (fd self)) q /\ short_block (content (fd self)) q
  | OutOfFuel => fmt self = PCAPNG_MAGIC
  end /\
  (fmt self = PCAPNG_MAGIC -> short_block (content (fd self)) (pos (fd self)) ->
   peak_load_packet (S fuel) self = Undefined).
Proof.
  intros Hok Hsm. pose proof (packet_kept self Hok) as Hk. split.
  2: { intros E Hshort. by rewrite load_blocks, short_block_undefined by (done || apply Hk). }
  destruct (decide (fmt self = PCAPNG_MAGIC)) as [E|E].
  - rewrite load_blocks by done. set (s := self<|set_data _|>) in *.
    pose proof (pcapng_ok fuel s (proj1 Hk) Hsm) as H. destruct (_peak_load_pcapng fuel s) as [s'| |]; simpl; try done.
    split_and!; [exact (kept_trans _ _ _ Hk H)|done|]. rewrite E. by intros [|].
  - destruct (load_once self Hok E) as (s' & Hk' & -> & Hl). by split_and!.
Qed.

(** C29.  Loading a packet ends: with fuel for one block per byte of the rest of the file
    there is a result that more fuel does not change.  Only a pcapng file can make the
    reader loop forever, exactly when it comes to a block without a packet whose length
    field is 0: the reader goes back to it each time. *)
Theorem load_terminates self :
  load_ok self -> file_small self ->
  let enough := S (Z.to_nat (msize (content (fd self)))) in
  ((forall k, peak_load_packet (k + enough) self = peak_load_packet enough self) /\
   peak_load_packet enough self <> OutOfFuel) \/
  ((forall fuel, peak_load_packet fuel self = OutOfFuel) /\ fmt self = PCAPNG_MAGIC /\
   exists q, skipped (content (fd self)) (pos (fd self)) q /\ stuck (content (fd self)) q).
Proof.
  intros Hok Hsm enough. destruct (decide (fmt self = PCAPNG_MAGIC)) as [E|E].
  - pose proof (packet_kept self Hok) as [Hk _]. rewrite load_blocks by done.
    set (s := self<|set_data _|>) in *. pose proof (ok_pos _ Hk) as Hp.
    destruct (pcapng_bound (Z.to_nat (msize (content (fd self)))) s Hk Hsm) as [H|[H Hq]].
    + simpl in Hp |- *. lia.
    + left. split; [intros k; rewrite load_blocks by done; fold s; by rewrite pcapng_more|].
      fold enough in H. by destruct (_peak_load_pcapng enough s).
    + right. split_and!; [|done..]. intros fuel. rewrite load_blocks by done. fold s. by rewrite H.
  - left. destruct (load_once self Hok E) as (s' & _ & Hl & _). split; [intros k|]; by rewrite !Hl.
Qed.

(** A reader at the start of a file. *)
Definition reader (fmt : Z) (m : list Z) : _peak_load :=
  {| netmon_table := []; netmon_count := 0; netmon_pos := 0; netmon_time := 0; fmt := fmt;
     fd := {| content := m; pos := 0 |};
     data := {| ts_sec := 0; ts_usec := 0; len := 0; ll := LINKTYPE_ETHERNET;
                buf := replicate (Z.to_nat sizeof_buf) 0 |} |}.

Lemma reader_buf fmt m : msize (buf (data (reader fmt m))) = sizeof_buf.
Proof. cbn [reader data buf]. unfold msize. rewrite length_replicate. by apply Z2Nat.id. Qed.

Lemma reader_ok fmt m : bytes m -> load_ok (reader fmt m).
Proof. intros Hm. split; [apply reader_buf|done|done|constructor|done|done]. Qed.

(** A packet block of length 8, and a block of length 0. *)
Definition short_file : list Z := le_bytes 4 6 ++ le_bytes 4 8 ++ replicate 20 0.
Definition stuck_file : list Z := le_bytes 4 5 ++ le_bytes 4 0.

Lemma load_in_bounds_witness :
  peak_load_packet 1 (reader PCAPNG_MAGIC short_file) = Undefined.
Proof.
  apply (load_in_bounds 0 (reader PCAPNG_MAGIC short_file)).
  - apply reader_ok, (bool_decide_unpack _). vm_compute. exact I.
  - vm_compute. reflexivity.
  - reflexivity.
  - exists 6, 8. split; [reflexivity|]. split; [right; reflexivity|]. split; [reflexivity|]. split; [lia|]. vm_compute. discriminate.
Defined.

Lemma load_terminates_witness :
  let self := reader PCAPNG_MAGIC stuck_file in
  stuck stuck_file 0 /\
  (((forall k, peak_load_packet (k + 9) self = peak_load_packet 9 self) /\ peak_load_packet 9 self <> OutOfFuel) \/
   ((forall fuel, peak_load_packet fuel self = OutOfFuel) /\ PCAPNG_MAGIC = PCAPNG_MAGIC /\
    exists q, skipped stuck_file 0 q /\ stuck stuck_file q)).
Proof.
  split.
  - exists 5. split; [reflexivity|]. split; [lia|]. split; [lia|]. split; [reflexivity|]. split; [vm_compute; split; discriminate|lia].
  - apply (load_terminates (reader PCAPNG_MAGIC stuck_file)).
    + apply reader_ok, (bool_decide_unpack _). vm_compute. exact I.
    + vm_compute. reflexivity.
Defined.
