(* ===== verification/Store.v ===== *)
(** * Storing capture files

    Models [lib/peak_store.c], which writes pcap files, and states what the records of
    the formats are that the readers of [Load] read: a record written this way is read
    back, and so is a file. *)

From S2P Require Import Prelude Bytes Packet File Load.

(** ** peak_store.c *)

Definition store_header (sec usec len : Z) : list Z :=
  fields [(4%nat, sec); (4%nat, usec); (4%nat, len); (4%nat, len)].

(** [buf] is the memory of the packet; the time stamps are 64 bits wide. *)
Definition peak_store_packet (o : output) (buf : list Z) (len ts_sec ts_usec : Z) : option (output * Z) :=
  let hdr := store_header (u32 ts_sec) (u32 ts_usec) len in
  let '(o, ret) := write o hdr in
  if negb (ret =? msize hdr) then Some (o, 0) else
  bs ← rd_n buf 0 (Z.to_nat len);
  let '(o, ret) := write o bs in
  if negb (ret =? len) then Some (o, 0) else
  Some (o, 1).

Definition store_file_header : list Z :=
  fields [(4%nat, 0xA1B2C3D4); (2%nat, 2); (2%nat, 4); (4%nat, 0); (4%nat, 0); (4%nat, 65535);
          (4%nat, LINKTYPE_ETHERNET)].

(** [fd] is what [open(2)] made of the name; [None] is a negative descriptor. *)
Definition peak_store_init (fd : option output) : option output :=
  match fd with
  | None => None
  | Some o =>
      let '(o, ret) := write o store_file_header in
      if negb (ret =? msize store_file_header) then None else Some o
  end.

(** ** Specification: packets and their records *)

Record packet := {
  p_sec : Z;
  p_usec : Z;
  p_bytes : list Z;
}.

(** A packet a pcap file can hold and the reader's buffer has room for. *)
Definition packet_ok (p : packet) : Prop :=
  fits 32 (p_sec p) /\ fits 32 (p_usec p) /\ bytes (p_bytes p) /\ msize (p_bytes p) <= sizeof_buf.

Definition pcap_head (swap : bool) (sec usec incl orig : Z) : list Z :=
  word swap 4 sec ++ word swap 4 usec ++ word swap 4 incl ++ word swap 4 orig.

Definition pcap_record (swap : bool) (p : packet) : list Z :=
  pcap_head swap (p_sec p) (p_usec p) (msize (p_bytes p)) (msize (p_bytes p)) ++ p_bytes p.

Definition pcap_file_head (swap : bool) (network : Z) : list Z :=
  word swap 4 PCAP_MAGIC ++ word swap 2 2 ++ word swap 2 4 ++ word swap 4 0 ++ word swap 4 0 ++
  word swap 4 65535 ++ word swap 4 network.

Definition pcap_file (swap : bool) (network : Z) (ps : list packet) : list Z :=
  pcap_file_head swap network ++ concat (pcap_record swap <$> ps).

(** An ERF record: the time as seconds and their fraction in [2^32]ths, the type and
    flags, the loss counter, the length on the wire and the padding. *)
Definition erf_head (ts kind rlen lctr wlen pad : Z) : list Z :=
  le_bytes 8 ts ++ le_bytes 2 kind ++ reverse (le_bytes 2 rlen) ++ le_bytes 2 lctr ++
  reverse (le_bytes 2 wlen) ++ le_bytes 2 pad.

Definition erf_record (ts kind lctr wlen pad : Z) (bs : list Z) : list Z :=
  erf_head ts kind (sizeof_erf + msize bs) lctr wlen pad ++ bs.

Definition netmon_head (time original include : Z) : list Z :=
  le_bytes 8 time ++ le_bytes 4 original ++ le_bytes 4 include.

Definition netmon_record (time original : Z) (bs : list Z) : list Z :=
  netmon_head time original (msize bs) ++ bs.

(** ** Reading a record *)

Definition advance (self : _peak_load) (n : Z) : _peak_load :=
  self<|set_fd ((fd self)<|set_pos (pos (fd self) + n)|>)|>.

(** The bytes [bs] have been read into the packet buffer. *)
Definition filled (self : _peak_load) (bs : list Z) : _peak_load :=
  (advance self (msize bs))<|set_data ((data self)<|set_buf (bs ++ drop (length bs) (buf (data self)))|>)|>.

Lemma read_header_ahead self n h r :
  ahead (fd self) (h ++ r) -> msize h = n ->
  read_header self n = (advance self n, h) /\ ahead (fd (advance self n)) r.
Proof.
  intros H <-. destruct (read_block _ _ _ H) as [E Ha]. unfold read_header. by rewrite E.
Qed.

Lemma read_buf_ahead self bs r :
  ahead (fd self) (bs ++ r) -> msize bs <= sizeof_buf ->
  read_buf self (msize bs) = Done (filled self bs, msize bs) /\ ahead (fd (filled self bs)) r.
Proof.
  intros H Hs. destruct (read_block _ _ _ H) as [E Ha]. unfold read_buf. rewrite E.
  destruct (Z.ltb_spec sizeof_buf (msize bs)); [lia|]. done.
Qed.

(** The file ends within a header, or within the bytes for the buffer. *)
Lemma read_header_short self h n :
  ahead (fd self) h -> msize h < n -> read_header self n = (advance self (msize h), h).
Proof. intros H Hn. unfold read_header. by rewrite (read_bytes_short _ _ _ H Hn). Qed.

Lemma read_buf_short self bs n :
  ahead (fd self) bs -> msize bs < n -> n <= sizeof_buf -> read_buf self n = Done (filled self bs, msize bs).
Proof.
  intros H Hn Hs. unfold read_buf. destruct (Z.ltb_spec sizeof_buf n); [lia|].
  by rewrite (read_bytes_short _ _ _ H Hn).
Qed.

(** ** Records are read back *)

(** [self'] has delivered a packet from [self]: its times, its length on the wire and its
    bytes at the front of the buffer; the file has moved on to [rest]. *)
Record delivered (self self' : _peak_load) (sec usec n : Z) (bs rest : list Z) : Prop := {
  dv_sec : ts_sec (data self') = sec;
  dv_usec : ts_usec (data self') = usec;
  dv_len : len (data self') = n;
  dv_bytes : take (length bs) (buf (data self')) = bs;
  dv_size : msize (buf (data self')) = msize (buf (data self));
  dv_ll : ll (data self') = ll (data self);
  dv_fmt : fmt self' = fmt self;
  dv_ahead : ahead (fd self') rest;
}.

Lemma deliver_filled self k h bs r sec usec n :
  ahead (fd self) (h ++ bs ++ r) -> msize h = k -> msize bs <= sizeof_buf -> msize (buf (data self)) = sizeof_buf ->
  delivered self (deliver (filled (advance self k) bs) sec usec n) sec usec n bs r.
Proof.
  intros Ha Hk Hs Hb. destruct (read_header_ahead _ _ _ _ Ha Hk) as [_ Ha']. destruct (read_buf_ahead _ _ _ Ha' Hs) as [_ Hr].
  split; try done; simpl.
  - by rewrite take_app_length.
  - unfold msize in *. rewrite length_app, length_drop. lia.
Qed.

Lemma delivered_start self self' sec usec n bs rest :
  delivered (self<|set_data ((data self)<|set_len 0|>)|>) self' sec usec n bs rest ->
  delivered self self' sec usec n bs rest.
Proof. by destruct 1. Qed.

Lemma pcap_head_size swap a b c d : msize (pcap_head swap a b c d) = sizeof_pcap_packet.
Proof. unfold msize, pcap_head. by rewrite !length_app, !word_length. Qed.

(** The fields of a record header as the reader decodes them. *)
Lemma pcap_head_fields swap a b c d :
  fits 32 a -> fits 32 b -> fits 32 c ->
  let h := pcap_head swap a b c d in let sw x := if swap then peak_bswap32 x else x in
  exists x y z, peak_le32dec h 0 = Some x /\ peak_le32dec h 4 = Some y /\ peak_le32dec h 8 = Some z /\
    sw x = a /\ sw y = b /\ sw z = c.
Proof.
  intros Ha Hb Hc h sw.
  destruct (word_at h 0 swap a) as (x & Ex & Hx); [field_in (@nil Z)|done|].
  destruct (word_at h 4 swap b) as (y & Ey & Hy); [field_in (word swap 4 a)|done|].
  destruct (word_at h 8 swap c) as (z & Ez & Hz); [field_in (word swap 4 a ++ word swap 4 b)|done|].
  by exists x, y, z.
Qed.

Definition pcap_fmt (swap : bool) : Z := if swap then PCAP_SWAP_MAGIC else PCAP_MAGIC.

Lemma pcap_fmt_swap {A} swap (x y : A) :
  (if pcap_fmt swap =? PCAP_SWAP_MAGIC then x else y) = if swap then x else y.
Proof. by destruct swap. Qed.

Lemma pcap_packet_eq fuel self swap :
  fmt self = pcap_fmt swap ->
  peak_load_packet fuel self =
    (self ← _peak_load_pcap (self<|set_data ((data self)<|set_len 0|>)|>); Done (self, len (data self))).
Proof. intros E. unfold peak_load_packet. cbn [fmt set_data]. rewrite E. by destruct swap. Qed.

Lemma load_pcap_record fuel self swap p rest :
  fmt self = pcap_fmt swap -> msize (buf (data self)) = sizeof_buf -> packet_ok p ->
  ahead (fd self) (pcap_record swap p ++ rest) ->
  exists self', peak_load_packet fuel self = Done (self', msize (p_bytes p)) /\
    delivered self self' (p_sec p) (p_usec p) (msize (p_bytes p)) (p_bytes p) rest.
Proof.
  intros Hf Hb (Hs & Hu & Hby & Hn) Ha. rewrite (pcap_packet_eq _ _ _ Hf). set (s := self<|set_data _|>).
  assert (fmt s = pcap_fmt swap) as Hfs by done. assert (msize (buf (data s)) = sizeof_buf) as Hbs by done.
  unfold pcap_record in Ha. rewrite <- app_assoc in Ha. set (h := pcap_head _ _ _ _ _) in Ha.
  assert (ahead (fd s) (h ++ p_bytes p ++ rest)) as Has by done.
  assert (fits 32 (msize (p_bytes p))) as Hn32 by (unfold fits, sizeof_buf, msize in *; lia).
  destruct (pcap_head_fields swap (p_sec p) (p_usec p) (msize (p_bytes p)) (msize (p_bytes p)))
    as (x & y & z & Ex & Ey & Ez & Hx & Hy & Hz); [done..|]. fold h in Ex, Ey, Ez.
  pose proof (pcap_head_size swap (p_sec p) (p_usec p) (msize (p_bytes p)) (msize (p_bytes p))) as Hh. fold h in Hh.
  destruct (read_header_ahead _ _ _ _ Has Hh) as [Er Ha1]. destruct (read_buf_ahead _ _ _ Ha1 Hn) as [Eb _].
  unfold _peak_load_pcap. rewrite Er, Hh. cbn [negb Z.eqb Pos.eqb sizeof_pcap_packet]. rewrite Ex, Ey, Ez. cbn [try mbind run_bind].
  change (fmt (advance s _)) with (fmt s). rewrite Hfs, !pcap_fmt_swap, Hx, Hy, Hz.
  destruct (Z.ltb_spec sizeof_buf (msize (p_bytes p))); [lia|]. rewrite Eb. cbn [mbind run_bind]. rewrite Z.eqb_refl. cbn [negb].
  eexists. split; [done|]. apply delivered_start. exact (deliver_filled _ _ _ _ _ _ _ _ Has Hh Hn Hbs).
Qed.

(** *** ERF *)

Lemma load_erf_record fuel self ts kind lctr wlen pad bs rest :
  fmt self = ERF_MAGIC -> msize (buf (data self)) = sizeof_buf ->
  fits 64 ts -> fits 16 wlen -> bytes bs -> msize bs <= sizeof_buf ->
  ahead (fd self) (erf_record ts kind lctr wlen pad bs ++ rest) ->
  exists self', peak_load_packet fuel self = Done (self', wlen) /\
    delivered self self' (ts / 2 ^ 32) (ts mod 2 ^ 32 * 10 ^ 6 / 2 ^ 32) wlen bs rest.
Proof.
  intros Hf Hb Hts Hw Hby Hn Ha. unfold peak_load_packet. set (s := self<|set_data _|>).
  assert (fmt s = ERF_MAGIC) as -> by done. cbn [Z.eqb ERF_MAGIC].
  assert (msize (buf (data s)) = sizeof_buf) as Hbs by done.
  unfold erf_record in Ha. rewrite <- app_assoc in Ha. set (h := erf_head _ _ _ _ _ _) in Ha.
  assert (ahead (fd s) (h ++ bs ++ rest)) as Has by done.
  assert (msize h = sizeof_erf) as Hh by (unfold msize, h, erf_head; by rewrite !length_app, !length_reverse, !le_bytes_length).
  destruct (read_header_ahead _ _ _ _ Has Hh) as [Er Ha1]. destruct (read_buf_ahead _ _ _ Ha1 Hn) as [Eb _].
  assert (0 <= msize bs) by (unfold msize; lia). unfold sizeof_buf, sizeof_erf in Hn.
  unfold _peak_load_erf. rewrite Er, Hh. cbn [negb Z.eqb Pos.eqb sizeof_erf].
  rewrite (be16_at h 10 (sizeof_erf + msize bs)); [|field_in (le_bytes 8 ts ++ le_bytes 2 kind)|unfold fits, sizeof_erf; lia].
  cbn [try mbind run_bind]. cbv zeta.
  rewrite (be16_at h 14 wlen); [|field_in (le_bytes 8 ts ++ le_bytes 2 kind ++ reverse (le_bytes 2 (sizeof_erf + msize bs)) ++ le_bytes 2 lctr)|done].
  cbn [try mbind run_bind]. rewrite Z.add_simpl_l, wrap_small by (unfold fits; lia).
  destruct (Z.ltb_spec sizeof_buf (msize bs)); [unfold sizeof_buf in *; lia|]. rewrite Eb.
  cbn [mbind run_bind]. rewrite Z.eqb_refl. cbn [negb].
  rewrite (le64_at h 0 ts); [|field_in (@nil Z)|done]. cbn [try mbind run_bind].
  eexists. split; [done|]. apply delivered_start.
  pose proof (deliver_filled _ _ _ _ _ (ERF_SEC ts) (ERF_USEC ts) wlen Has Hh Hn Hbs) as Hd.
  unfold ERF_SEC at 2, ERF_USEC at 2 in Hd. rewrite !shiftr_div in Hd by lia.
  rewrite (land_low 32 ts 0xFFFFFFFF) in Hd by done.
  rewrite wrap_mul_l, wrap_small, <- Z.mul_assoc in Hd by width_lia. exact Hd.
Qed.

(** *** Network Monitor *)

Lemma load_netmon_record fuel self time original bs rest off :
  fmt self = NETMON_MAGIC -> msize (buf (data self)) = sizeof_buf ->
  netmon_pos self <> netmon_count self ->
  peak_le32dec (netmon_table self) (4 * netmon_pos self) = Some off -> fits 32 off ->
  fits 64 time -> fits 32 original -> bytes bs -> msize bs <= sizeof_buf ->
  ahead ((fd self)<|set_pos off|>) (netmon_record time original bs ++ rest) ->
  exists self', peak_load_packet fuel self = Done (self', original) /\
    delivered self self' (s64 (NETMON_SEC time + netmon_time self)) (NETMON_USEC time) original bs rest /\
    netmon_pos self' = u32 (netmon_pos self + 1).
Proof.
  intros Hf Hb Hpos He Hoff Ht Ho Hby Hn Ha. unfold peak_load_packet. set (s := self<|set_data _|>).
  assert (fmt s = NETMON_MAGIC) as -> by done. cbn [Z.eqb Pos.eqb ERF_MAGIC PCAP_MAGIC PCAP_SWAP_MAGIC PCAPNG_MAGIC NETMON_MAGIC orb].
  unfold netmon_record in Ha. rewrite <- app_assoc in Ha. set (h := netmon_head _ _ _) in Ha.
  assert (msize h = sizeof_netmon_record) as Hh by (unfold msize, h, netmon_head; by rewrite !length_app, !le_bytes_length).
  unfold _peak_load_netmon. change (netmon_pos s) with (netmon_pos self). change (netmon_count s) with (netmon_count self).
  destruct (Z.eqb_spec (netmon_pos self) (netmon_count self)); [done|].
  change (netmon_table s) with (netmon_table self). rewrite He. cbn [try mbind run_bind]. cbv zeta.
  unfold lseek_set. rewrite s64_small, seek_to_pos by (unfold fits in Hoff; lia).
  match goal with |- context [read_header ?x _] => set (s1 := x) end.
  assert (ahead (fd s1) (h ++ bs ++ rest)) as Has by done.
  assert (msize (buf (data s1)) = sizeof_buf) as Hbs by done.
  destruct (read_header_ahead _ _ _ _ Has Hh) as [Er Ha1]. destruct (read_buf_ahead _ _ _ Ha1 Hn) as [Eb _].
  rewrite Er, Hh. cbn [negb Z.eqb Pos.eqb sizeof_netmon_record].
  assert (0 <= msize bs) by (unfold msize; lia). unfold sizeof_buf in Hn.
  rewrite (le32_at h 12 (msize bs)); [|field_in (le_bytes 8 time ++ le_bytes 4 original)|unfold fits; lia].
  cbn [try mbind run_bind]. destruct (Z.ltb_spec sizeof_buf (msize bs)); [unfold sizeof_buf in *; lia|]. rewrite Eb.
  cbn [mbind run_bind]. rewrite Z.eqb_refl. cbn [negb].
  rewrite (le64_at h 0 time); [|field_in (@nil Z)|done]. cbn [try mbind run_bind].
  rewrite (le32_at h 8 original); [|field_in (le_bytes 8 time)|done]. cbn [try mbind run_bind].
  eexists. split; [done|]. split; [|done].
  pose proof (deliver_filled _ _ _ _ _ (s64 (NETMON_SEC time + netmon_time self)) (NETMON_USEC time) original Has Hh Hn Hbs) as [].
  by split.
Qed.

(** *** Records that are cut off *)

Lemma pcap_truncated fuel self swap p bs :
  fmt self = pcap_fmt swap -> packet_ok p -> ahead (fd self) bs ->
  bs `prefix_of` pcap_record swap p -> msize bs < msize (pcap_record swap p) ->
  exists self', peak_load_packet fuel self = Done (self', 0).
Proof.
  intros Hf (Hs & Hu & Hby & Hn) Ha Hpre Hlt. rewrite (pcap_packet_eq _ _ _ Hf). set (s := self<|set_data _|>).
  assert (fmt s = pcap_fmt swap) as Hfs by done. assert (ahead (fd s) bs) as Has by done.
  unfold pcap_record in *. set (h := pcap_head _ _ _ _ _) in *.
  pose proof (pcap_head_size swap (p_sec p) (p_usec p) (msize (p_bytes p)) (msize (p_bytes p))) as Hh. fold h in Hh.
  assert (fits 32 (msize (p_bytes p))) as Hn32 by (unfold fits, sizeof_buf, msize in *; lia).
  destruct (pcap_head_fields swap (p_sec p) (p_usec p) (msize (p_bytes p)) (msize (p_bytes p)))
    as (x & y & z & Ex & Ey & Ez & Hx & Hy & Hz); [done..|]. fold h in Ex, Ey, Ez. unfold _peak_load_pcap.
  destruct (strict_prefix_split _ _ _ Hpre Hlt) as [Hsh|(b & -> & Hb)].
  - rewrite Hh in Hsh. rewrite (read_header_short _ _ _ Has Hsh).
    destruct (Z.eqb_spec (msize bs) sizeof_pcap_packet); [lia|]. cbn [negb mbind run_bind]. by eexists.
  - destruct (read_header_ahead _ _ _ _ Has Hh) as [Er Ha1]. rewrite Er, Hh.
    cbn [negb Z.eqb Pos.eqb sizeof_pcap_packet]. rewrite Ex, Ey, Ez. cbn [try mbind run_bind].
    change (fmt (advance s _)) with (fmt s). rewrite Hfs, !pcap_fmt_swap, Hz.
    destruct (Z.ltb_spec sizeof_buf (msize (p_bytes p))); [lia|].
    rewrite (read_buf_short _ _ _ Ha1 Hb) by lia. cbn [mbind run_bind].
    destruct (Z.eqb_spec (msize b) (msize (p_bytes p))); [lia|]. cbn [negb mbind run_bind]. by eexists.
Qed.

(** *** Blocks of a pcapng file *)

(** The blocks that are skipped: an interface description with its link type and the
    rest of the block, and anything else but a packet. *)
Inductive block :=
  | Interface (linktype : Z) (rest : list Z)
  | Unknown (type : Z) (body : list Z).

Definition block_bytes (b : block) : list Z :=
  match b with
  | Interface linktype rest =>
      (le_bytes 4 1 ++ le_bytes 4 (10 + msize rest)) ++ le_bytes 2 linktype ++ rest
  | Unknown type body => (le_bytes 4 type ++ le_bytes 4 (8 + msize body)) ++ body
  end.

Definition block_ok (b : block) : Prop :=
  match b with
  | Interface linktype rest => fits 16 linktype /\ bytes rest /\ 6 <= msize rest /\ 10 + msize rest <= sizeof_buf
  | Unknown type body =>
      fits 32 type /\ type <> 1 /\ type <> 2 /\ type <> 6 /\ 8 + msize body <= sizeof_buf
  end.

(** The link type after a block. *)
Definition link_of (ll : Z) (b : block) : Z := match b with Interface linktype _ => linktype | Unknown _ _ => ll end.

Definition pcapng_head (id hi lo cap n : Z) : list Z :=
  le_bytes 4 id ++ le_bytes 4 hi ++ le_bytes 4 lo ++ le_bytes 4 cap ++ le_bytes 4 n.

(** A packet block; [bs] is all that follows its headers. *)
Definition pcapng_packet (type id hi lo cap n : Z) (bs : list Z) : list Z :=
  (le_bytes 4 type ++ le_bytes 4 (28 + msize bs)) ++ pcapng_head id hi lo cap n ++ bs.

Lemma block_header s type length r :
  ahead (fd s) ((le_bytes 4 type ++ le_bytes 4 length) ++ r) -> fits 32 type -> fits 32 length ->
  exists h, read_header s sizeof_pcapng_block = (advance s 8, h) /\ msize h = 8 /\
    peak_le32dec h 0 = Some type /\ peak_le32dec h 4 = Some length /\ ahead (fd (advance s 8)) r.
Proof.
  intros Ha Ht Hl. exists (le_bytes 4 type ++ le_bytes 4 length).
  destruct (read_header_ahead s 8 _ _ Ha) as [E Ha']; [done|]. split_and!; [done|done| | |done].
  - apply le32_at; [field_in (@nil Z)|done].
  - apply le32_at; [field_last (le_bytes 4 type)|done].
Qed.

Lemma ahead_room f l r : ahead f (l ++ r) -> l <> [] -> pos f + msize l <= msize (content f).
Proof.
  intros [Hp E] Hne. apply (f_equal length) in E. rewrite length_drop, length_app in E. destruct l; [done|].
  unfold msize. simpl in *. lia.
Qed.

Lemma block_size b :
  msize (block_bytes b) = match b with Interface _ rest => 10 + msize rest | Unknown _ body => 8 + msize body end.
Proof. destruct b; unfold msize; simpl; rewrite ?length_app; simpl; lia. Qed.

(** The outcome of a block without a packet. *)
Definition skips_to (s : _peak_load) (ll : Z) (r : list Z) (res : run (_peak_load * bool)) : Prop :=
  exists s', res = Done (s', true) /\ data s' = (data s)<|set_ll ll|> /\
    fmt s' = fmt s /\ content (fd s') = content (fd s) /\ ahead (fd s') r.

Lemma skip_interface s linktype rest r :
  block_ok (Interface linktype rest) -> pos (fd s) + msize (block_bytes (Interface linktype rest)) < 2 ^ 62 ->
  ahead (fd s) (block_bytes (Interface linktype rest) ++ r) -> skips_to s linktype r (pcapng_block s).
Proof.
  rewrite block_size. intros (Hlt & Hby & H6 & Hn) Hroom Ha. unfold sizeof_buf in Hn.
  pose proof (proj1 Ha) as Hp. pose proof (ahead_skip _ _ _ Ha) as Hrest. rewrite block_size in Hrest.
  cbn [block_bytes] in Ha. rewrite <- app_assoc in Ha. unfold pcapng_block.
  destruct (block_header s 1 (10 + msize rest) _ Ha) as (h & -> & Hs & E0 & E4 & Ha1); [done|unfold fits; lia|].
  rewrite Hs. cbn [negb Z.eqb Pos.eqb sizeof_pcapng_block]. rewrite E0, E4. cbn [try mbind run_bind].
  destruct (Z.ltb_spec sizeof_buf (10 + msize rest)) as [|_]; [unfold sizeof_buf in *; lia|]. cbn [Z.eqb Pos.eqb orb].
  rewrite <- (take_drop 6 rest), app_assoc, <- app_assoc in Ha1 at 1.
  assert (msize (le_bytes 2 linktype ++ take 6 rest) = sizeof_pcapng_iface) as Hi.
  { unfold msize in *. rewrite length_app, le_bytes_length, length_take. unfold sizeof_pcapng_iface. lia. }
  destruct (read_header_ahead _ _ _ _ Ha1 Hi) as [Ei Ha2]. rewrite Ei, Hi.
  cbn [negb Z.eqb Pos.eqb sizeof_pcapng_iface]. cbv zeta.
  set (iface := le_bytes 2 linktype ++ take 6 rest).
  assert (peak_le16dec iface 0 = Some linktype) as ->.
  { apply le16_at; [|done]. apply (field_at_intro _ _ [] _ (take 6 rest)); [|done..].
    apply Forall_app. split; [apply le_bytes_bytes|by apply Forall_take]. }
  cbn [try mbind run_bind]. unfold sizeof_pcapng_block, sizeof_pcapng_iface.
  rewrite (lseek_cur_ok _ _ (10 + msize rest - 8 - 8)) by (simpl; lia).
  eexists. split; [done|]. split_and!; [done..|]. destruct Hrest as [Hr0 Hr]. split; simpl; [lia|].
  rewrite <- Hr. simpl. do 2 f_equal. lia.
Qed.

Lemma skip_unknown s type body r :
  block_ok (Unknown type body) -> pos (fd s) + msize (block_bytes (Unknown type body)) < 2 ^ 62 ->
  ahead (fd s) (block_bytes (Unknown type body) ++ r) -> skips_to s (ll (data s)) r (pcapng_block s).
Proof.
  rewrite block_size. intros (Hty & H1 & H2 & H6 & Hn) Hroom Ha. unfold sizeof_buf in Hn.
  pose proof (proj1 Ha) as Hp. pose proof (ahead_skip _ _ _ Ha) as Hrest. rewrite block_size in Hrest.
  assert (0 <= msize body) by (unfold msize; lia).
  cbn [block_bytes] in Ha. rewrite <- app_assoc in Ha. unfold pcapng_block.
  destruct (block_header s type (8 + msize body) _ Ha) as (h & -> & Hs & E0 & E4 & Ha1); [done|unfold fits; lia|].
  rewrite Hs. cbn [negb Z.eqb Pos.eqb sizeof_pcapng_block]. rewrite E0, E4. cbn [try mbind run_bind].
  destruct (Z.ltb_spec sizeof_buf (8 + msize body)) as [|_]; [unfold sizeof_buf in *; lia|].
  destruct (Z.eqb_spec type 2), (Z.eqb_spec type 6), (Z.eqb_spec type 1); try done. cbn [orb].
  rewrite (lseek_cur_ok _ _ (8 + msize body - sizeof_pcapng_block)) by (unfold sizeof_pcapng_block; simpl; lia).
  eexists. split; [done|]. split_and!; [by destruct s as [??????[]]|done..|].
  destruct Hrest as [Hr0 Hr]. unfold sizeof_pcapng_block. split; simpl; [lia|]. rewrite <- Hr. simpl. do 2 f_equal. lia.
Qed.

Lemma skip_block s b r :
  block_ok b -> pos (fd s) + msize (block_bytes b) < 2 ^ 62 -> ahead (fd s) (block_bytes b ++ r) ->
  skips_to s (link_of (ll (data s)) b) r (pcapng_block s).
Proof. destruct b; [apply skip_interface|apply skip_unknown]. Qed.

(** A packet block. *)
Lemma load_packet_block s type id hi lo cap n bs rest :
  msize (buf (data s)) = sizeof_buf -> type = 2 \/ type = 6 -> fits 31 hi -> fits 32 lo -> fits 32 n ->
  28 + msize bs <= sizeof_buf -> ahead (fd s) (pcapng_packet type id hi lo cap n bs ++ rest) ->
  exists s', pcapng_block s = Done (s', false) /\
    delivered s s' ((hi * 2 ^ 32 + lo) / 10 ^ 6) ((hi * 2 ^ 32 + lo) mod 10 ^ 6) n bs rest.
Proof.
  intros Hb Hty Hhi Hlo Hn Hs Ha. assert (0 <= msize bs) as H0 by (unfold msize; lia). unfold sizeof_buf in Hs.
  unfold pcapng_packet in Ha. rewrite <- app_assoc in Ha. unfold pcapng_block.
  destruct (block_header s type (28 + msize bs) _ Ha) as (h & -> & Hh & E0 & E4 & Ha1); [destruct Hty as [-> | ->]; done|unfold fits; lia|].
  rewrite Hh. cbn [negb Z.eqb Pos.eqb sizeof_pcapng_block]. rewrite E0, E4. cbn [try mbind run_bind].
  destruct (Z.ltb_spec sizeof_buf (28 + msize bs)) as [|_]; [unfold sizeof_buf in *; lia|].
  assert ((type =? 2) || (type =? 6) = true) as -> by (destruct Hty as [-> | ->]; done).
  rewrite <- app_assoc in Ha1. set (pkt := pcapng_head _ _ _ _ _) in *.
  assert (msize pkt = sizeof_pcapng_pkt) as Hp by (unfold msize, pkt, pcapng_head; by rewrite !length_app, !le_bytes_length).
  destruct (read_header_ahead _ _ _ _ Ha1 Hp) as [Er Ha2]. rewrite Er, Hp. cbn [negb Z.eqb Pos.eqb sizeof_pcapng_pkt]. cbv zeta.
  assert (u64 (28 + msize bs - sizeof_pcapng_block - sizeof_pcapng_pkt) = msize bs) as ->
    by (unfold sizeof_pcapng_block, sizeof_pcapng_pkt; rewrite wrap_small; unfold fits; lia).
  destruct (read_buf_ahead _ bs rest Ha2) as [-> _]; [unfold sizeof_buf; lia|]. cbn [mbind run_bind].
  rewrite s64_small, Z.eqb_refl by lia. cbn [negb].
  rewrite (le32_at pkt 4 hi); [|field_in (le_bytes 4 id)|unfold fits in *; lia].
  rewrite (le32_at pkt 8 lo); [|field_in (le_bytes 4 id ++ le_bytes 4 hi)|done].
  rewrite (le32_at pkt 16 n); [|field_last (le_bytes 4 id ++ le_bytes 4 hi ++ le_bytes 4 lo ++ le_bytes 4 cap)|done].
  cbn [try mbind run_bind]. eexists. split; [done|].
  assert (s64 (hi ≪ 32) .| lo = hi * 2 ^ 32 + lo) as ->.
  { rewrite s64_small; [by apply lor_shiftl_add|]. rewrite Z.shiftl_mul_pow2 by lia. unfold fits in Hhi. lia. }
  unfold fits in Hhi, Hlo. rewrite Z.quot_quot by lia. rewrite Z.quot_div_nonneg, Z.rem_mod_nonneg by lia.
  pose proof (deliver_filled (advance s 8) _ _ _ _ ((hi * 2 ^ 32 + lo) / 10 ^ 6) ((hi * 2 ^ 32 + lo) mod 10 ^ 6) n Ha1 Hp
    ltac:(unfold sizeof_buf; lia) Hb) as []. by split.
Qed.

(** The blocks in front of a packet and the packet. *)
Lemma pcapng_next_ok bs fuel s type id hi lo cap n payload rest :
  Forall block_ok bs -> (length bs < fuel)%nat -> msize (content (fd s)) < 2 ^ 62 ->
  msize (buf (data s)) = sizeof_buf -> type = 2 \/ type = 6 -> fits 31 hi -> fits 32 lo -> fits 32 n ->
  28 + msize payload <= sizeof_buf ->
  ahead (fd s) (concat (block_bytes <$> bs) ++ pcapng_packet type id hi lo cap n payload ++ rest) ->
  exists s', _peak_load_pcapng fuel s = Done s' /\
    delivered (s<|set_data ((data s)<|set_ll (foldl link_of (ll (data s)) bs)|>)|>) s'
      ((hi * 2 ^ 32 + lo) / 10 ^ 6) ((hi * 2 ^ 32 + lo) mod 10 ^ 6) n payload rest.
Proof.
  intros Hbs. revert fuel s. induction Hbs as [|b bs Hb Hbs IH]; intros fuel s Hfuel Hsm Hbuf Hty Hhi Hlo Hn Hs Ha;
    (destruct fuel as [|fuel]; [simpl in Hfuel; lia|]); cbn [_peak_load_pcapng].
  - destruct (load_packet_block s type id hi lo cap n payload rest) as (s' & -> & Hd); [done..|]. cbn [mbind run_bind].
    exists s'. split; [done|]. destruct Hd. by split.
  - cbn [fmap list_fmap concat] in Ha. rewrite <- app_assoc in Ha.
    edestruct (skip_block s b) as (s1 & -> & Hdata & Hf & Hc & Ha1); [exact Hb| |exact Ha|].
    + pose proof (block_size b) as Hbsz. assert (block_bytes b <> []) as Hne
        by (intros E; rewrite E in Hbsz; destruct b; unfold msize in Hbsz; simpl in Hbsz; lia).
      pose proof (ahead_room _ _ _ Ha Hne). lia.
    + cbn [mbind run_bind]. destruct (IH fuel s1) as (s' & -> & Hd); try done;
        [simpl in Hfuel; lia|by rewrite Hc|by rewrite Hdata|].
      exists s'. split; [done|]. destruct Hd. split; try done; [rewrite dv_size0|rewrite dv_ll0|rewrite dv_fmt0]; simpl; by rewrite ?Hdata.
Qed.

(** ** Files *)

(** The packet the structure of the user holds after [n] was returned. *)
Definition loaded (self : _peak_load) (n : Z) : packet :=
  {| p_sec := ts_sec (data self); p_usec := ts_usec (data self); p_bytes := take (Z.to_nat n) (buf (data self)) |}.

(** A client loading [n] packets. *)
Fixpoint load_all (fuel n : nat) (self : _peak_load) : run (list packet * _peak_load) :=
  match n with
  | O => Done ([], self)
  | S n =>
      '(self, len) ← peak_load_packet fuel self;
      '(ps, last) ← load_all fuel n self;
      Done (loaded self len :: ps, last)
  end.

(** A client storing packets: how many were accepted. *)
Fixpoint store_all (o : output) (ps : list packet) : option (output * Z) :=
  match ps with
  | [] => Some (o, 0)
  | p :: ps =>
      '(o, ret) ← peak_store_packet o (p_bytes p) (msize (p_bytes p)) (p_sec p) (p_usec p);
      '(o, n) ← store_all o ps;
      Some (o, ret + n)
  end.

Lemma load_pcap_all fuel self swap ps rest :
  fmt self = pcap_fmt swap -> msize (buf (data self)) = sizeof_buf -> Forall packet_ok ps ->
  ahead (fd self) (concat (pcap_record swap <$> ps) ++ rest) ->
  exists self', load_all fuel (length ps) self = Done (ps, self') /\ fmt self' = pcap_fmt swap /\
    msize (buf (data self')) = sizeof_buf /\ ll (data self') = ll (data self) /\ ahead (fd self') rest.
Proof.
  intros Hf Hb Hps. revert self Hf Hb. induction Hps as [|p ps Hp Hps IH]; intros self Hf Hb Ha; simpl in Ha |- *.
  - by exists self.
  - rewrite <- app_assoc in Ha. destruct (load_pcap_record fuel self swap p _ Hf Hb Hp Ha) as (s & -> & Hd).
    cbn [mbind run_bind]. destruct Hd as [Hsec Husec Hl Hby Hs Hll Hfmt Hah].
    destruct (IH s) as (s' & -> & ? & ? & Hll' & ?); [congruence|congruence|done|]. cbn [mbind run_bind].
    exists s'. split_and!; [|done|done|congruence|done]. unfold loaded, msize. rewrite Nat2Z.id, Hsec, Husec, Hby.
    by destruct p.
Qed.

Lemma pcap_init mem timegm swap network rest :
  fits 32 network -> mem sizeof_peak_load = true ->
  exists self, peak_load_init mem timegm (inl (Some {| content := pcap_file_head swap network ++ rest; pos := 0 |}))
      = Some (Some self) /\
    fmt self = pcap_fmt swap /\ msize (buf (data self)) = sizeof_buf /\ ll (data self) = network /\
    ahead (fd self) rest.
Proof.
  intros Hn Hmem. set (h := pcap_file_head swap network). set (f := {| content := _; pos := 0 |}).
  set (tail := word swap 2 2 ++ word swap 2 4 ++ word swap 4 0 ++ word swap 4 0 ++ word swap 4 65535 ++ word swap 4 network).
  assert (ahead f (word swap 4 PCAP_MAGIC ++ tail ++ rest)) as Ha.
  { split; [done|]. unfold f, tail, h, pcap_file_head. simpl. by rewrite <- !app_assoc. }
  assert (ahead f (h ++ rest)) as Hah by (by split).
  assert (msize h = sizeof_pcap_file) as Hh by (unfold msize, h, pcap_file_head; by rewrite !length_app, !word_length).
  assert (msize (word swap 4 PCAP_MAGIC) = 4) as H4 by (unfold msize; by rewrite word_length).
  unfold peak_load_init, detect. destruct (read_block _ _ _ Ha) as [E _]. rewrite H4 in E. rewrite E.
  destruct (word_at (word swap 4 PCAP_MAGIC) 0 swap PCAP_MAGIC) as (x & Ex & Hx).
  { field_last (@nil Z). }
  { done. }
  rewrite H4, Ex. cbn [negb Z.eqb Pos.eqb mbind option_bind].
  assert (x = pcap_fmt swap) as ->.
  { clear -Ex. destruct swap; vm_compute in Ex; by injection Ex as <-. }
  assert ((pcap_fmt swap =? PCAP_SWAP_MAGIC) || (pcap_fmt swap =? PCAP_MAGIC) = true) as -> by (by destruct swap).
  cbv zeta. unfold lseek_set. rewrite s64_small, seek_to_pos by done.
  replace (f <|set_pos (pos f + 4)|> <|set_pos 0|>) with f by done.
  unfold init_pcap. destruct (read_block _ _ _ Hah) as [E' Ha']. rewrite Hh in E'. rewrite E', Hh.
  cbn [negb Z.eqb Pos.eqb sizeof_pcap_file].
  destruct (word_at h 20 swap network) as (y & Ey & Hy).
  { field_last (word swap 4 PCAP_MAGIC ++ word swap 2 2 ++ word swap 2 4 ++ word swap 4 0 ++ word swap 4 0 ++ word swap 4 65535). }
  { done. }
  rewrite Ey. cbn [mbind option_bind]. rewrite pcap_fmt_swap.
  assert (msize (replicate (Z.to_nat sizeof_buf) 0) = sizeof_buf) as Hbuf
    by (unfold msize; rewrite length_replicate; by apply Z2Nat.id).
  rewrite Hh in Ha'.
  destruct swap; cbn [mbind option_bind]; rewrite Hmem; cbn [negb]; eexists; (split; [reflexivity|]);
    cbn [fmt data fd buf ll d_fmt d_ll d_fd plain]; rewrite Hy; split_and!; assumption || reflexivity.
Qed.

(** *** What is stored *)

Lemma write_room o bs :
  0 <= room o -> fst (write o bs) =
    {| written := written o ++ take (Z.to_nat (room o)) bs; room := room o - Z.min (msize bs) (room o) |} /\
  snd (write o bs) = Z.min (msize bs) (room o).
Proof.
  intros Hr. unfold write. simpl. split; [|done]. do 2 f_equal. unfold msize.
  destruct (Z.min_spec (Z.of_nat (length bs)) (room o)) as [[? ->]|[? ->]]; [|done].
  rewrite Nat2Z.id, !take_ge by lia. done.
Qed.

Definition stamped (p : packet) : packet :=
  {| p_sec := u32 (p_sec p); p_usec := u32 (p_usec p); p_bytes := p_bytes p |}.

Lemma store_header_eq sec usec n : store_header sec usec n = pcap_head false sec usec n n.
Proof. unfold store_header, fields, pcap_head, word. simpl. by rewrite ?app_nil_r. Qed.

(** A packet is accepted exactly when there is room for its record. *)
Lemma store_packet_spec o p :
  0 <= room o ->
  exists o', peak_store_packet o (p_bytes p) (msize (p_bytes p)) (p_sec p) (p_usec p)
      = Some (o', if msize (pcap_record false (stamped p)) <=? room o then 1 else 0) /\
    written o' = written o ++ take (Z.to_nat (room o)) (pcap_record false (stamped p)) /\
    room o' = room o - Z.min (msize (pcap_record false (stamped p))) (room o).
Proof.
  intros Hr. unfold peak_store_packet. rewrite store_header_eq. unfold pcap_record. cbn [p_sec p_usec p_bytes stamped].
  set (h := pcap_head _ _ _ _ _). clearbody h. set (bs := p_bytes p).
  assert (msize (h ++ bs) = msize h + msize bs) as Hsz by (unfold msize; rewrite length_app; lia). rewrite Hsz.
  assert (0 <= msize h /\ 0 <= msize bs) as [H0 H1] by (unfold msize; lia).
  destruct (write_room o h Hr) as [E1 E2]. destruct (write o h) as [o1 r1]. cbn [fst snd] in E1, E2. subst r1.
  destruct (Z.eqb_spec (Z.min (msize h) (room o)) (msize h)); cbn [negb].
  - assert (rd_n bs 0 (Z.to_nat (msize bs)) = Some bs) as ->
      by (unfold msize; rewrite Nat2Z.id, rd_n_take, firstn_all by lia; done).
    cbn [mbind option_bind].
    assert (0 <= room o1) as Hr1 by (rewrite E1; cbn [room]; lia).
    destruct (write_room o1 bs Hr1) as [E3 E4]. destruct (write o1 bs) as [o2 r2]. cbn [fst snd] in E3, E4. subst r2 o2 o1. cbn [written room] in *.
    exists {| written := (written o ++ take (Z.to_nat (room o)) h) ++ take (Z.to_nat (room o - Z.min (msize h) (room o))) bs;
              room := room o - Z.min (msize h) (room o) - Z.min (msize bs) (room o - Z.min (msize h) (room o)) |}.
    split_and!.
    + destruct (Z.eqb_spec (Z.min (msize bs) (room o - Z.min (msize h) (room o))) (msize bs)),
        (Z.leb_spec (msize h + msize bs) (room o)); cbn [negb]; done || lia.
    + cbn [written]. rewrite <- app_assoc, (take_app h bs). do 3 f_equal; unfold msize in *; lia.
    + cbn [room]. lia.
  - exists o1. destruct (Z.leb_spec (msize h + msize bs) (room o)); [lia|]. rewrite E1. split_and!; [done| |cbn [room]; lia].
    cbn [written]. f_equal. rewrite take_app_le by (unfold msize in *; lia). done.
Qed.

Lemma store_all_ok o ps :
  msize (concat (pcap_record false <$> (stamped <$> ps))) <= room o ->
  exists o', store_all o ps = Some (o', Z.of_nat (length ps)) /\
    written o' = written o ++ concat (pcap_record false <$> (stamped <$> ps)).
Proof.
  revert o. induction ps as [|p ps IH]; intros o Hr.
  - exists o. by rewrite app_nil_r.
  - cbn [fmap list_fmap concat store_all length] in *. set (r := pcap_record false (stamped p)) in *.
    assert (msize (r ++ concat (pcap_record false <$> (stamped <$> ps))) =
      msize r + msize (concat (pcap_record false <$> (stamped <$> ps)))) as Hs by (unfold msize; rewrite length_app; lia).
    rewrite Hs in Hr. assert (0 <= msize r) by (unfold msize; lia).
    assert (0 <= msize (concat (pcap_record false <$> (stamped <$> ps)))) by (unfold msize; lia).
    destruct (store_packet_spec o p ltac:(lia)) as (o1 & E & Hw & Hr1). fold r in E, Hw, Hr1. rewrite E.
    cbn [mbind option_bind]. destruct (Z.leb_spec (msize r) (room o)); [|lia].
    destruct (IH o1) as (o2 & -> & Hw2); [lia|]. cbn [mbind option_bind]. exists o2. split; [do 2 f_equal; lia|].
    rewrite Hw2, Hw, <- app_assoc, take_ge by (unfold msize in *; lia). done.
Qed.

(** What ends a capture: the end of the file, a record that is cut off, one without any
    bytes, or one that does not fit into the buffer.  What is behind it does not count. *)
Inductive capture_end (swap : bool) : list Z -> Prop :=
  | end_file : capture_end swap []
  | end_cut p bs :
      packet_ok p -> bs `prefix_of` pcap_record swap p -> msize bs < msize (pcap_record swap p) -> capture_end swap bs
  | end_empty p rest : packet_ok p -> p_bytes p = [] -> capture_end swap (pcap_record swap p ++ rest)
  | end_large sec usec incl orig rest :
      fits 32 sec -> fits 32 usec -> fits 32 incl -> sizeof_buf < incl ->
      capture_end swap (pcap_head swap sec usec incl orig ++ rest).

Lemma load_large fuel self swap sec usec incl orig rest :
  fmt self = pcap_fmt swap -> fits 32 sec -> fits 32 usec -> fits 32 incl -> sizeof_buf < incl ->
  ahead (fd self) (pcap_head swap sec usec incl orig ++ rest) -> exists self', peak_load_packet fuel self = Done (self', 0).
Proof.
  intros Hf Hs Hu Hn Hl Ha. rewrite (pcap_packet_eq _ _ _ Hf). set (s := self<|set_data _|>).
  assert (fmt s = pcap_fmt swap) as Hfs by done. assert (ahead (fd s) (pcap_head swap sec usec incl orig ++ rest)) as Has by done.
  destruct (pcap_head_fields swap sec usec incl orig) as (x & y & z & Ex & Ey & Ez & Hx & Hy & Hz); [done..|].
  pose proof (pcap_head_size swap sec usec incl orig) as Hh. destruct (read_header_ahead _ _ _ _ Has Hh) as [Er _].
  unfold _peak_load_pcap. rewrite Er, Hh. cbn [negb Z.eqb Pos.eqb sizeof_pcap_packet]. rewrite Ex, Ey, Ez. cbn [try mbind run_bind].
  change (fmt (advance s _)) with (fmt s). rewrite Hfs, !pcap_fmt_swap, Hz. destruct (Z.ltb_spec sizeof_buf incl); [|lia].
  cbn [mbind run_bind]. by eexists.
Qed.

Lemma load_end fuel self swap tail :
  fmt self = pcap_fmt swap -> msize (buf (data self)) = sizeof_buf -> capture_end swap tail -> ahead (fd self) tail ->
  exists self', peak_load_packet fuel self = Done (self', 0).
Proof.
  intros Hf Hb Hend Ha. destruct Hend as [|p bs Hp Hpre Hlt|p rest Hp E|sec usec incl orig rest Hs Hu Hn Hl].
  - rewrite (pcap_packet_eq _ _ _ Hf). set (s := self<|set_data _|>). unfold _peak_load_pcap.
    rewrite (read_header_short s [] sizeof_pcap_packet Ha) by done. cbn [negb Z.eqb msize length Z.of_nat sizeof_pcap_packet mbind run_bind].
    by eexists.
  - by apply (pcap_truncated fuel self swap p bs).
  - destruct (load_pcap_record fuel self swap p rest Hf Hb Hp Ha) as (self' & El & _). rewrite E in El. by exists self'.
  - by apply (load_large fuel self swap sec usec incl orig rest).
Qed.

(** ** Properties *)

(** C27.  What is stored is loaded again: given room, storing packets makes the pcap
    file of these packets, their times truncated to 32 bits, and loading a pcap file,
    in the byte order of the host or the other one, gives its link layer, its packets
    in order with times and bytes, and then the end. *)
Theorem pcap_roundtrip mem timegm swap network ps qs :
  mem sizeof_peak_load = true -> fits 32 network -> Forall packet_ok ps ->
  (forall o, written o = [] -> msize (pcap_file false LINKTYPE_ETHERNET (stamped <$> qs)) <= room o ->
     exists o1 o2, peak_store_init (Some o) = Some o1 /\ store_all o1 qs = Some (o2, Z.of_nat (length qs)) /\
       written o2 = pcap_file false LINKTYPE_ETHERNET (stamped <$> qs)) /\
  (forall fuel, exists self self' last,
     peak_load_init mem timegm (inl (Some {| content := pcap_file swap network ps; pos := 0 |})) = Some (Some self) /\
     ll (data self) = network /\
     load_all fuel (length ps) self = Done (ps, self') /\
     peak_load_packet fuel self' = Done (last, 0)).
Proof.
  intros Hmem Hn Hps. split.
  - intros o Hw Hr. unfold peak_store_init. change store_file_header with (pcap_file_head false LINKTYPE_ETHERNET).
    unfold pcap_file in *. set (h := pcap_file_head false LINKTYPE_ETHERNET) in *.
    set (r := concat (pcap_record false <$> (stamped <$> qs))) in *.
    assert (msize (h ++ r) = msize h + msize r) as Hs by (unfold msize; rewrite length_app; lia). rewrite Hs in Hr.
    assert (0 <= msize h /\ 0 <= msize r) as [H0 H1] by (unfold msize; lia).
    destruct (write_room o h) as [E1 E2]; [lia|]. destruct (write o h) as [o1 r1]. simpl in E1, E2. subst r1.
    destruct (Z.eqb_spec (Z.min (msize h) (room o)) (msize h)); [|lia]. cbn [negb].
    destruct (store_all_ok o1 qs) as (o2 & E & Hw2); [rewrite E1; fold r; simpl; lia|]. exists o1, o2. split_and!; [done..|].
    rewrite Hw2, E1. simpl. rewrite Hw, take_ge; [done|]. unfold msize in *. lia.
  - intros fuel. unfold pcap_file. destruct (pcap_init mem timegm swap network (concat (pcap_record swap <$> ps)) Hn Hmem) as (self & E & Hf & Hbuf & Hll & Ha).
    rewrite <- (app_nil_r (concat _)) in Ha.
    destruct (load_pcap_all fuel self swap ps [] Hf Hbuf Hps Ha) as (self' & El & Hf' & Hb' & _ & Ha').
    destruct (load_end fuel self' swap [] Hf') as [last Elast]; [done|apply end_file|done|]. by exists self, self', last.
Qed.

(** Reading a record: with a complete record of an ERF, pcap (in either byte order)
    or Network Monitor file ahead, [peak_load_packet] delivers its times, its length and
    its bytes, and the file is at the next record.  With only a part of a pcap record
    ahead, however short, it returns 0. *)
Theorem load_record fuel self bs rest :
  msize (buf (data self)) = sizeof_buf -> bytes bs -> msize bs <= sizeof_buf ->
  (forall ts kind lctr wlen pad,
     fmt self = ERF_MAGIC -> fits 64 ts -> fits 16 wlen ->
     ahead (fd self) (erf_record ts kind lctr wlen pad bs ++ rest) ->
     exists self', peak_load_packet fuel self = Done (self', wlen) /\
       delivered self self' (ts / 2 ^ 32) (ts mod 2 ^ 32 * 10 ^ 6 / 2 ^ 32) wlen bs rest) /\
  (forall swap sec usec,
     fmt self = pcap_fmt swap -> fits 32 sec -> fits 32 usec ->
     let record := pcap_record swap {| p_sec := sec; p_usec := usec; p_bytes := bs |} in
     (ahead (fd self) (record ++ rest) ->
      exists self', peak_load_packet fuel self = Done (self', msize bs) /\
        delivered self self' sec usec (msize bs) bs rest) /\
     (forall part, part `prefix_of` record -> msize part < msize record -> ahead (fd self) part ->
      exists self', peak_load_packet fuel self = Done (self', 0))) /\
  (forall time original off,
     fmt self = NETMON_MAGIC -> netmon_pos self <> netmon_count self ->
     peak_le32dec (netmon_table self) (4 * netmon_pos self) = Some off -> fits 32 off ->
     fits 64 time -> fits 32 original ->
     ahead ((fd self)<|set_pos off|>) (netmon_record time original bs ++ rest) ->
     exists self', peak_load_packet fuel self = Done (self', original) /\
       delivered self self' (s64 (NETMON_SEC time + netmon_time self)) (NETMON_USEC time) original bs rest /\
       netmon_pos self' = u32 (netmon_pos self + 1)).
Proof.
  intros Hb Hby Hn. split_and!.
  - intros. by apply (load_erf_record fuel self ts kind lctr wlen pad bs rest).
  - intros swap sec usec Hf Hs Hu record. set (p := {| p_sec := sec; p_usec := usec; p_bytes := bs |}) in *.
    assert (packet_ok p) as Hp by (by split_and!). split.
    + intros Ha. by apply (load_pcap_record fuel self swap p rest).
    + intros part Hpre Hlt Ha. by apply (pcap_truncated fuel self swap p part).
  - intros. by apply (load_netmon_record fuel self time original bs rest off).
Qed.

(** In a pcapng file the next packet is delivered past any interface descriptions and
    unknown blocks in front of it, as its link layer the one of the last interface
    described.  The length is the one on the wire ([n]), not the one of the bytes. *)
Theorem pcapng_next bs fuel self type id hi lo cap n payload rest :
  fmt self = PCAPNG_MAGIC -> file_small self -> msize (buf (data self)) = sizeof_buf ->
  Forall block_ok bs -> (length bs < fuel)%nat ->
  type = 2 \/ type = 6 -> fits 31 hi -> fits 32 lo -> fits 32 n -> 28 + msize payload <= sizeof_buf ->
  ahead (fd self) (concat (block_bytes <$> bs) ++ pcapng_packet type id hi lo cap n payload ++ rest) ->
  exists self', peak_load_packet fuel self = Done (self', n) /\
    delivered (self<|set_data ((data self)<|set_ll (foldl link_of (ll (data self)) bs)|>)|>) self'
      ((hi * 2 ^ 32 + lo) / 10 ^ 6) ((hi * 2 ^ 32 + lo) mod 10 ^ 6) n payload rest.
Proof.
  intros Hf Hsm Hb Hbs Hfuel Hty Hhi Hlo Hn Hs Ha. rewrite load_blocks by done. set (s := self<|set_data _|>).
  destruct (pcapng_next_ok bs fuel s type id hi lo cap n payload rest) as (s' & -> & Hd); [done..|].
  cbn [mbind run_bind]. exists s'. destruct Hd. split; [by rewrite dv_len0|by split].
Qed.

Definition sample_packets : list packet :=
  [{| p_sec := 1400000000; p_usec := 999999; p_bytes := [1; 2; 3; 4; 5] |};
   {| p_sec := 1400000001; p_usec := 0; p_bytes := [255; 0] |}].

Lemma sample_packets_ok : Forall packet_ok sample_packets.
Proof.
  repeat constructor; done || (apply (bool_decide_unpack _); vm_compute; exact I) || (vm_compute; discriminate).
Qed.

Lemma pcap_roundtrip_witness :
  (forall o, written o = [] -> msize (pcap_file false LINKTYPE_ETHERNET (stamped <$> sample_packets)) <= room o ->
     exists o1 o2, peak_store_init (Some o) = Some o1 /\ store_all o1 sample_packets = Some (o2, 2) /\
       written o2 = pcap_file false LINKTYPE_ETHERNET (stamped <$> sample_packets)) /\
  (forall fuel, exists self self' last,
     peak_load_init (fun _ => true) (fun _ => 0) (inl (Some {| content := pcap_file true 113 sample_packets; pos := 0 |}))
       = Some (Some self) /\
     ll (data self) = 113 /\
     load_all fuel 2 self = Done (sample_packets, self') /\
     peak_load_packet fuel self' = Done (last, 0)).
Proof.
  apply (pcap_roundtrip (fun _ => true) (fun _ => 0) true 113 sample_packets sample_packets); [reflexivity| |].
  - split; [lia|reflexivity].
  - exact sample_packets_ok.
Defined.

(** An ERF record of one and a half seconds. *)
Lemma load_record_witness :
  exists self', peak_load_packet 0 (reader ERF_MAGIC (erf_record (3 * 2 ^ 31) 2 0 60 0 [7; 8; 9])) = Done (self', 60) /\
    delivered (reader ERF_MAGIC (erf_record (3 * 2 ^ 31) 2 0 60 0 [7; 8; 9])) self' 1 500000 60 [7; 8; 9] [].
Proof.
  apply (load_record 0 (reader ERF_MAGIC (erf_record (3 * 2 ^ 31) 2 0 60 0 [7; 8; 9])) [7; 8; 9] []
    (reader_buf _ _) ltac:(apply (bool_decide_unpack _); vm_compute; exact I) ltac:(vm_compute; discriminate))
    with (ts := 3 * 2 ^ 31) (kind := 2) (lctr := 0) (wlen := 60) (pad := 0).
  - reflexivity.
  - split; [lia|reflexivity].
  - split; [lia|reflexivity].
  - split; [vm_compute; discriminate|reflexivity].
Defined.

Definition sample_blocks : list block := [Unknown 5 [0; 0; 0; 0]; Interface 113 [0; 0; 0; 0; 255; 255]].
Definition sample_pcapng : list Z :=
  concat (block_bytes <$> sample_blocks) ++ pcapng_packet 6 0 1 2 3 60 [7; 8; 9].

Lemma pcapng_next_witness :
  exists self', peak_load_packet 3 (reader PCAPNG_MAGIC sample_pcapng) = Done (self', 60) /\
    delivered ((reader PCAPNG_MAGIC sample_pcapng)<|set_data ((data (reader PCAPNG_MAGIC sample_pcapng))<|set_ll 113|>)|>)
      self' 4294 967298 60 [7; 8; 9] [].
Proof.
  apply (pcapng_next sample_blocks 3 (reader PCAPNG_MAGIC sample_pcapng) 6 0 1 2 3 60 [7; 8; 9] []).
  - reflexivity.
  - vm_compute. reflexivity.
  - apply reader_buf.
  - repeat constructor; (vm_compute; discriminate) || reflexivity || lia.
  - simpl. lia.
  - right. reflexivity.
  - split; [lia|reflexivity].
  - split; [lia|reflexivity].
  - split; [lia|reflexivity].
  - vm_compute. discriminate.
  - split; [vm_compute; discriminate|reflexivity].
Defined.
