(* ===== verification/Locate.v ===== *)
(** * Locations of addresses

    Models [lib/peak_locate.c] and [lib/peak_locate.h]: the table of locations and its
    enumeration, the database of address ranges and the file it is loaded from.  Both
    are searched with any conforming [bsearch(3)] ([Search]). *)

From S2P Require Import Prelude Bytes Net File Compat Search.

(** ** peak_locate.h *)

Definition LOCATE_UNKNOWN : Z := 0.
Definition LOCATE_AD : Z := 1.
Definition LOCATE_AE : Z := 2.
Definition LOCATE_AF : Z := 3.
Definition LOCATE_AG : Z := 4.
Definition LOCATE_AI : Z := 5.
Definition LOCATE_AL : Z := 6.
Definition LOCATE_AM : Z := 7.
Definition LOCATE_AO : Z := 8.
Definition LOCATE_AQ : Z := 9.
Definition LOCATE_AR : Z := 10.
Definition LOCATE_AS : Z := 11.
Definition LOCATE_AT : Z := 12.
Definition LOCATE_AU : Z := 13.
Definition LOCATE_AW : Z := 14.
Definition LOCATE_AX : Z := 15.
Definition LOCATE_AZ : Z := 16.
Definition LOCATE_BA : Z := 17.
Definition LOCATE_BB : Z := 18.
Definition LOCATE_BD : Z := 19.
Definition LOCATE_BE : Z := 20.
Definition LOCATE_BF : Z := 21.
Definition LOCATE_BG : Z := 22.
Definition LOCATE_BH : Z := 23.
Definition LOCATE_BI : Z := 24.
Definition LOCATE_BJ : Z := 25.
Definition LOCATE_BL : Z := 26.
Definition LOCATE_BM : Z := 27.
Definition LOCATE_BN : Z := 28.
Definition LOCATE_BO : Z := 29.
Definition LOCATE_BQ : Z := 30.
Definition LOCATE_BR : Z := 31.
Definition LOCATE_BS : Z := 32.
Definition LOCATE_BT : Z := 33.
Definition LOCATE_BV : Z := 34.
Definition LOCATE_BW : Z := 35.
Definition LOCATE_BY : Z := 36.
Definition LOCATE_BZ : Z := 37.
Definition LOCATE_CA : Z := 38.
Definition LOCATE_CC : Z := 39.
Definition LOCATE_CD : Z := 40.
Definition LOCATE_CF : Z := 41.
Definition LOCATE_CG : Z := 42.
Definition LOCATE_CH : Z := 43.
Definition LOCATE_CI : Z := 44.
Definition LOCATE_CK : Z := 45.
Definition LOCATE_CL : Z := 46.
Definition LOCATE_CM : Z := 47.
Definition LOCATE_CN : Z := 48.
Definition LOCATE_CO : Z := 49.
Definition LOCATE_CR : Z := 50.
Definition LOCATE_CU : Z := 51.
Definition LOCATE_CV : Z := 52.
Definition LOCATE_CW : Z := 53.
Definition LOCATE_CX : Z := 54.
Definition LOCATE_CY : Z := 55.
Definition LOCATE_CZ : Z := 56.
Definition LOCATE_DE : Z := 57.
Definition LOCATE_DJ : Z := 58.
Definition LOCATE_DK : Z := 59.
Definition LOCATE_DM : Z := 60.
Definition LOCATE_DO : Z := 61.
Definition LOCATE_DZ : Z := 62.
Definition LOCATE_EC : Z := 63.
Definition LOCATE_EE : Z := 64.
Definition LOCATE_EG : Z := 65.
Definition LOCATE_EH : Z := 66.
Definition LOCATE_ER : Z := 67.
Definition LOCATE_ES : Z := 68.
Definition LOCATE_ET : Z := 69.
Definition LOCATE_FI : Z := 70.
Definition LOCATE_FJ : Z := 71.
Definition LOCATE_FK : Z := 72.
Definition LOCATE_FM : Z := 73.
Definition LOCATE_FO : Z := 74.
Definition LOCATE_FR : Z := 75.
Definition LOCATE_GA : Z := 76.
Definition LOCATE_GB : Z := 77.
Definition LOCATE_GD : Z := 78.
Definition LOCATE_GE : Z := 79.
Definition LOCATE_GF : Z := 80.
Definition LOCATE_GG : Z := 81.
Definition LOCATE_GH : Z := 82.
Definition LOCATE_GI : Z := 83.
Definition LOCATE_GL : Z := 84.
Definition LOCATE_GM : Z := 85.
Definition LOCATE_GN : Z := 86.
Definition LOCATE_GP : Z := 87.
Definition LOCATE_GQ : Z := 88.
Definition LOCATE_GR : Z := 89.
Definition LOCATE_GS : Z := 90.
Definition LOCATE_GT : Z := 91.
Definition LOCATE_GU : Z := 92.
Definition LOCATE_GW : Z := 93.
Definition LOCATE_GY : Z := 94.
Definition LOCATE_HK : Z := 95.
Definition LOCATE_HM : Z := 96.
Definition LOCATE_HN : Z := 97.
Definition LOCATE_HR : Z := 98.
Definition LOCATE_HT : Z := 99.
Definition LOCATE_HU : Z := 100.
Definition LOCATE_ID : Z := 101.
Definition LOCATE_IE : Z := 102.
Definition LOCATE_IL : Z := 103.
Definition LOCATE_IM : Z := 104.
Definition LOCATE_IN : Z := 105.
Definition LOCATE_IO : Z := 106.
Definition LOCATE_IQ : Z := 107.
Definition LOCATE_IR : Z := 108.
Definition LOCATE_IS : Z := 109.
Definition LOCATE_IT : Z := 110.
Definition LOCATE_JE : Z := 111.
Definition LOCATE_JM : Z := 112.
Definition LOCATE_JO : Z := 113.
Definition LOCATE_JP : Z := 114.
Definition LOCATE_KE : Z := 115.
Definition LOCATE_KG : Z := 116.
Definition LOCATE_KH : Z := 117.
Definition LOCATE_KI : Z := 118.
Definition LOCATE_KM : Z := 119.
Definition LOCATE_KN : Z := 120.
Definition LOCATE_KP : Z := 121.
Definition LOCATE_KR : Z := 122.
Definition LOCATE_KW : Z := 123.
Definition LOCATE_KY : Z := 124.
Definition LOCATE_KZ : Z := 125.
Definition LOCATE_LA : Z := 126.
Definition LOCATE_LB : Z := 127.
Definition LOCATE_LC : Z := 128.
Definition LOCATE_LI : Z := 129.
Definition LOCATE_LK : Z := 130.
Definition LOCATE_LR : Z := 131.
Definition LOCATE_LS : Z := 132.
Definition LOCATE_LT : Z := 133.
Definition LOCATE_LU : Z := 134.
Definition LOCATE_LV : Z := 135.
Definition LOCATE_LY : Z := 136.
Definition LOCATE_MA : Z := 137.
Definition LOCATE_MC : Z := 138.
Definition LOCATE_MD : Z := 139.
Definition LOCATE_ME : Z := 140.
Definition LOCATE_MF : Z := 141.
Definition LOCATE_MG : Z := 142.
Definition LOCATE_MH : Z := 143.
Definition LOCATE_MK : Z := 144.
Definition LOCATE_ML : Z := 145.
Definition LOCATE_MM : Z := 146.
Definition LOCATE_MN : Z := 147.
Definition LOCATE_MO : Z := 148.
Definition LOCATE_MP : Z := 149.
Definition LOCATE_MQ : Z := 150.
Definition LOCATE_MR : Z := 151.
Definition LOCATE_MS : Z := 152.
Definition LOCATE_MT : Z := 153.
Definition LOCATE_MU : Z := 154.
Definition LOCATE_MV : Z := 155.
Definition LOCATE_MW : Z := 156.
Definition LOCATE_MX : Z := 157.
Definition LOCATE_MY : Z := 158.
Definition LOCATE_MZ : Z := 159.
Definition LOCATE_NA : Z := 160.
Definition LOCATE_NC : Z := 161.
Definition LOCATE_NE : Z := 162.
Definition LOCATE_NF : Z := 163.
Definition LOCATE_NG : Z := 164.
Definition LOCATE_NI : Z := 165.
Definition LOCATE_NL : Z := 166.
Definition LOCATE_NO : Z := 167.
Definition LOCATE_NP : Z := 168.
Definition LOCATE_NR : Z := 169.
Definition LOCATE_NU : Z := 170.
Definition LOCATE_NZ : Z := 171.
Definition LOCATE_OM : Z := 172.
Definition LOCATE_PA : Z := 173.
Definition LOCATE_PE : Z := 174.
Definition LOCATE_PF : Z := 175.
Definition LOCATE_PG : Z := 176.
Definition LOCATE_PH : Z := 177.
Definition LOCATE_PK : Z := 178.
Definition LOCATE_PL : Z := 179.
Definition LOCATE_PM : Z := 180.
Definition LOCATE_PN : Z := 181.
Definition LOCATE_PR : Z := 182.
Definition LOCATE_PS : Z := 183.
Definition LOCATE_PT : Z := 184.
Definition LOCATE_PW : Z := 185.
Definition LOCATE_PY : Z := 186.
Definition LOCATE_QA : Z := 187.
Definition LOCATE_RE : Z := 188.
Definition LOCATE_RO : Z := 189.
Definition LOCATE_RS : Z := 190.
Definition LOCATE_RU : Z := 191.
Definition LOCATE_RW : Z := 192.
Definition LOCATE_SA : Z := 193.
Definition LOCATE_SB : Z := 194.
Definition LOCATE_SC : Z := 195.
Definition LOCATE_SD : Z := 196.
Definition LOCATE_SE : Z := 197.
Definition LOCATE_SG : Z := 198.
Definition LOCATE_SH : Z := 199.
Definition LOCATE_SI : Z := 200.
Definition LOCATE_SJ : Z := 201.
Definition LOCATE_SK : Z := 202.
Definition LOCATE_SL : Z := 203.
Definition LOCATE_SM : Z := 204.
Definition LOCATE_SN : Z := 205.
Definition LOCATE_SO : Z := 206.
Definition LOCATE_SR : Z := 207.
Definition LOCATE_SS : Z := 208.
Definition LOCATE_ST : Z := 209.
Definition LOCATE_SV : Z := 210.
Definition LOCATE_SX : Z := 211.
Definition LOCATE_SY : Z := 212.
Definition LOCATE_SZ : Z := 213.
Definition LOCATE_TC : Z := 214.
Definition LOCATE_TD : Z := 215.
Definition LOCATE_TF : Z := 216.
Definition LOCATE_TG : Z := 217.
Definition LOCATE_TH : Z := 218.
Definition LOCATE_TJ : Z := 219.
Definition LOCATE_TK : Z := 220.
Definition LOCATE_TL : Z := 221.
Definition LOCATE_TM : Z := 222.
Definition LOCATE_TN : Z := 223.
Definition LOCATE_TO : Z := 224.
Definition LOCATE_TR : Z := 225.
Definition LOCATE_TT : Z := 226.
Definition LOCATE_TV : Z := 227.
Definition LOCATE_TW : Z := 228.
Definition LOCATE_TZ : Z := 229.
Definition LOCATE_UA : Z := 230.
Definition LOCATE_UG : Z := 231.
Definition LOCATE_UM : Z := 232.
Definition LOCATE_US : Z := 233.
Definition LOCATE_UY : Z := 234.
Definition LOCATE_UZ : Z := 235.
Definition LOCATE_VA : Z := 236.
Definition LOCATE_VC : Z := 237.
Definition LOCATE_VE : Z := 238.
Definition LOCATE_VG : Z := 239.
Definition LOCATE_VI : Z := 240.
Definition LOCATE_VN : Z := 241.
Definition LOCATE_VU : Z := 242.
Definition LOCATE_WF : Z := 243.
Definition LOCATE_WS : Z := 244.
Definition LOCATE_XX : Z := 245.
Definition LOCATE_YE : Z := 246.
Definition LOCATE_YT : Z := 247.
Definition LOCATE_ZA : Z := 248.
Definition LOCATE_ZM : Z := 249.
Definition LOCATE_ZW : Z := 250.
Definition LOCATE_MAX : Z := 251.

Record locate_item := {
  guid : Z;
  name : string;
  desc : string;
}.

Definition item (guid : Z) (name desc : string) : locate_item := {| guid := guid; name := name; desc := desc |}.

Definition locate_items : list locate_item := [
  item LOCATE_UNKNOWN "" "unknown";
  item LOCATE_AD "AD" "Andorra";
  item LOCATE_AE "AE" "United Arab Emirates";
  item LOCATE_AF "AF" "Afghanistan";
  item LOCATE_AG "AG" "Antigua & Barbuda";
  item LOCATE_AI "AI" "Anguilla";
  item LOCATE_AL "AL" "Albania";
  item LOCATE_AM "AM" "Armenia";
  item LOCATE_AO "AO" "Angola";
  item LOCATE_AQ "AQ" "Antarctica";
  item LOCATE_AR "AR" "Argentina";
  item LOCATE_AS "AS" "Samoa (American)";
  item LOCATE_AT "AT" "Austria";
  item LOCATE_AU "AU" "Australia";
  item LOCATE_AW "AW" "Aruba";
  item LOCATE_AX "AX" "Aaland Islands";
  item LOCATE_AZ "AZ" "Azerbaijan";
  item LOCATE_BA "BA" "Bosnia & Herzegovina";
  item LOCATE_BB "BB" "Barbados";
  item LOCATE_BD "BD" "Bangladesh";
  item LOCATE_BE "BE" "Belgium";
  item LOCATE_BF "BF" "Burkina Faso";
  item LOCATE_BG "BG" "Bulgaria";
  item LOCATE_BH "BH" "Bahrain";
  item LOCATE_BI "BI" "Burundi";
  item LOCATE_BJ "BJ" "Benin";
  item LOCATE_BL "BL" "St Barthelemy";
  item LOCATE_BM "BM" "Bermuda";
  item LOCATE_BN "BN" "Brunei";
  item LOCATE_BO "BO" "Bolivia";
  item LOCATE_BQ "BQ" "Caribbean Netherlands";
  item LOCATE_BR "BR" "Brazil";
  item LOCATE_BS "BS" "Bahamas";
  item LOCATE_BT "BT" "Bhutan";
  item LOCATE_BV "BV" "Bouvet Island";
  item LOCATE_BW "BW" "Botswana";
  item LOCATE_BY "BY" "Belarus";
  item LOCATE_BZ "BZ" "Belize";
  item LOCATE_CA "CA" "Canada";
  item LOCATE_CC "CC" "Cocos (Keeling) Islands";
  item LOCATE_CD "CD" "Congo (Dem. Rep.)";
  item LOCATE_CF "CF" "Central African Rep.";
  item LOCATE_CG "CG" "Congo (Rep.)";
  item LOCATE_CH "CH" "Switzerland";
  item LOCATE_CI "CI" "Cote d'Ivoire";
  item LOCATE_CK "CK" "Cook Islands";
  item LOCATE_CL "CL" "Chile";
  item LOCATE_CM "CM" "Cameroon";
  item LOCATE_CN "CN" "China";
  item LOCATE_CO "CO" "Colombia";
  item LOCATE_CR "CR" "Costa Rica";
  item LOCATE_CU "CU" "Cuba";
  item LOCATE_CV "CV" "Cape Verde";
  item LOCATE_CW "CW" "Curacao";
  item LOCATE_CX "CX" "Christmas Island";
  item LOCATE_CY "CY" "Cyprus";
  item LOCATE_CZ "CZ" "Czech Republic";
  item LOCATE_DE "DE" "Germany";
  item LOCATE_DJ "DJ" "Djibouti";
  item LOCATE_DK "DK" "Denmark";
  item LOCATE_DM "DM" "Dominica";
  item LOCATE_DO "DO" "Dominican Republic";
  item LOCATE_DZ "DZ" "Algeria";
  item LOCATE_EC "EC" "Ecuador";
  item LOCATE_EE "EE" "Estonia";
  item LOCATE_EG "EG" "Egypt";
  item LOCATE_EH "EH" "Western Sahara";
  item LOCATE_ER "ER" "Eritrea";
  item LOCATE_ES "ES" "Spain";
  item LOCATE_ET "ET" "Ethiopia";
  item LOCATE_FI "FI" "Finland";
  item LOCATE_FJ "FJ" "Fiji";
  item LOCATE_FK "FK" "Falkland Islands";
  item LOCATE_FM "FM" "Micronesia";
  item LOCATE_FO "FO" "Faroe Islands";
  item LOCATE_FR "FR" "France";
  item LOCATE_GA "GA" "Gabon";
  item LOCATE_GB "GB" "Britain (UK)";
  item LOCATE_GD "GD" "Grenada";
  item LOCATE_GE "GE" "Georgia";
  item LOCATE_GF "GF" "French Guiana";
  item LOCATE_GG "GG" "Guernsey";
  item LOCATE_GH "GH" "Ghana";
  item LOCATE_GI "GI" "Gibraltar";
  item LOCATE_GL "GL" "Greenland";
  item LOCATE_GM "GM" "Gambia";
  item LOCATE_GN "GN" "Guinea";
  item LOCATE_GP "GP" "Guadeloupe";
  item LOCATE_GQ "GQ" "Equatorial Guinea";
  item LOCATE_GR "GR" "Greece";
  item LOCATE_GS "GS" "South Georgia & the South Sandwich Islands";
  item LOCATE_GT "GT" "Guatemala";
  item LOCATE_GU "GU" "Guam";
  item LOCATE_GW "GW" "Guinea-Bissau";
  item LOCATE_GY "GY" "Guyana";
  item LOCATE_HK "HK" "Hong Kong";
  item LOCATE_HM "HM" "Heard Island & McDonald Islands";
  item LOCATE_HN "HN" "Honduras";
  item LOCATE_HR "HR" "Croatia";
  item LOCATE_HT "HT" "Haiti";
  item LOCATE_HU "HU" "Hungary";
  item LOCATE_ID "ID" "Indonesia";
  item LOCATE_IE "IE" "Ireland";
  item LOCATE_IL "IL" "Israel";
  item LOCATE_IM "IM" "Isle of Man";
  item LOCATE_IN "IN" "India";
  item LOCATE_IO "IO" "British Indian Ocean Territory";
  item LOCATE_IQ "IQ" "Iraq";
  item LOCATE_IR "IR" "Iran";
  item LOCATE_IS "IS" "Iceland";
  item LOCATE_IT "IT" "Italy";
  item LOCATE_JE "JE" "Jersey";
  item LOCATE_JM "JM" "Jamaica";
  item LOCATE_JO "JO" "Jordan";
  item LOCATE_JP "JP" "Japan";
  item LOCATE_KE "KE" "Kenya";
  item LOCATE_KG "KG" "Kyrgyzstan";
  item LOCATE_KH "KH" "Cambodia";
  item LOCATE_KI "KI" "Kiribati";
  item LOCATE_KM "KM" "Comoros";
  item LOCATE_KN "KN" "St Kitts & Nevis";
  item LOCATE_KP "KP" "Korea (North)";
  item LOCATE_KR "KR" "Korea (South)";
  item LOCATE_KW "KW" "Kuwait";
  item LOCATE_KY "KY" "Cayman Islands";
  item LOCATE_KZ "KZ" "Kazakhstan";
  item LOCATE_LA "LA" "Laos";
  item LOCATE_LB "LB" "Lebanon";
  item LOCATE_LC "LC" "St Lucia";
  item LOCATE_LI "LI" "Liechtenstein";
  item LOCATE_LK "LK" "Sri Lanka";
  item LOCATE_LR "LR" "Liberia";
  item LOCATE_LS "LS" "Lesotho";
  item LOCATE_LT "LT" "Lithuania";
  item LOCATE_LU "LU" "Luxembourg";
  item LOCATE_LV "LV" "Latvia";
  item LOCATE_LY "LY" "Libya";
  item LOCATE_MA "MA" "Morocco";
  item LOCATE_MC "MC" "Monaco";
  item LOCATE_MD "MD" "Moldova";
  item LOCATE_ME "ME" "Montenegro";
  item LOCATE_MF "MF" "St Martin (French part)";
  item LOCATE_MG "MG" "Madagascar";
  item LOCATE_MH "MH" "Marshall Islands";
  item LOCATE_MK "MK" "Macedonia";
  item LOCATE_ML "ML" "Mali";
  item LOCATE_MM "MM" "Myanmar (Burma)";
  item LOCATE_MN "MN" "Mongolia";
  item LOCATE_MO "MO" "Macau";
  item LOCATE_MP "MP" "Northern Mariana Islands";
  item LOCATE_MQ "MQ" "Martinique";
  item LOCATE_MR "MR" "Mauritania";
  item LOCATE_MS "MS" "Montserrat";
  item LOCATE_MT "MT" "Malta";
  item LOCATE_MU "MU" "Mauritius";
  item LOCATE_MV "MV" "Maldives";
  item LOCATE_MW "MW" "Malawi";
  item LOCATE_MX "MX" "Mexico";
  item LOCATE_MY "MY" "Malaysia";
  item LOCATE_MZ "MZ" "Mozambique";
  item LOCATE_NA "NA" "Namibia";
  item LOCATE_NC "NC" "New Caledonia";
  item LOCATE_NE "NE" "Niger";
  item LOCATE_NF "NF" "Norfolk Island";
  item LOCATE_NG "NG" "Nigeria";
  item LOCATE_NI "NI" "Nicaragua";
  item LOCATE_NL "NL" "Netherlands";
  item LOCATE_NO "NO" "Norway";
  item LOCATE_NP "NP" "Nepal";
  item LOCATE_NR "NR" "Nauru";
  item LOCATE_NU "NU" "Niue";
  item LOCATE_NZ "NZ" "New Zealand";
  item LOCATE_OM "OM" "Oman";
  item LOCATE_PA "PA" "Panama";
  item LOCATE_PE "PE" "Peru";
  item LOCATE_PF "PF" "French Polynesia";
  item LOCATE_PG "PG" "Papua New Guinea";
  item LOCATE_PH "PH" "Philippines";
  item LOCATE_PK "PK" "Pakistan";
  item LOCATE_PL "PL" "Poland";
  item LOCATE_PM "PM" "St Pierre & Miquelon";
  item LOCATE_PN "PN" "Pitcairn";
  item LOCATE_PR "PR" "Puerto Rico";
  item LOCATE_PS "PS" "Palestine";
  item LOCATE_PT "PT" "Portugal";
  item LOCATE_PW "PW" "Palau";
  item LOCATE_PY "PY" "Paraguay";
  item LOCATE_QA "QA" "Qatar";
  item LOCATE_RE "RE" "Reunion";
  item LOCATE_RO "RO" "Romania";
  item LOCATE_RS "RS" "Serbia";
  item LOCATE_RU "RU" "Russia";
  item LOCATE_RW "RW" "Rwanda";
  item LOCATE_SA "SA" "Saudi Arabia";
  item LOCATE_SB "SB" "Solomon Islands";
  item LOCATE_SC "SC" "Seychelles";
  item LOCATE_SD "SD" "Sudan";
  item LOCATE_SE "SE" "Sweden";
  item LOCATE_SG "SG" "Singapore";
  item LOCATE_SH "SH" "St Helena";
  item LOCATE_SI "SI" "Slovenia";
  item LOCATE_SJ "SJ" "Svalbard & Jan Mayen";
  item LOCATE_SK "SK" "Slovakia";
  item LOCATE_SL "SL" "Sierra Leone";
  item LOCATE_SM "SM" "San Marino";
  item LOCATE_SN "SN" "Senegal";
  item LOCATE_SO "SO" "Somalia";
  item LOCATE_SR "SR" "Suriname";
  item LOCATE_SS "SS" "South Sudan";
  item LOCATE_ST "ST" "Sao Tome & Principe";
  item LOCATE_SV "SV" "El Salvador";
  item LOCATE_SX "SX" "St Maarten (Dutch part)";
  item LOCATE_SY "SY" "Syria";
  item LOCATE_SZ "SZ" "Swaziland";
  item LOCATE_TC "TC" "Turks & Caicos Is";
  item LOCATE_TD "TD" "Chad";
  item LOCATE_TF "TF" "French Southern & Antarctic Lands";
  item LOCATE_TG "TG" "Togo";
  item LOCATE_TH "TH" "Thailand";
  item LOCATE_TJ "TJ" "Tajikistan";
  item LOCATE_TK "TK" "Tokelau";
  item LOCATE_TL "TL" "East Timor";
  item LOCATE_TM "TM" "Turkmenistan";
  item LOCATE_TN "TN" "Tunisia";
  item LOCATE_TO "TO" "Tonga";
  item LOCATE_TR "TR" "Turkey";
  item LOCATE_TT "TT" "Trinidad & Tobago";
  item LOCATE_TV "TV" "Tuvalu";
  item LOCATE_TW "TW" "Taiwan";
  item LOCATE_TZ "TZ" "Tanzania";
  item LOCATE_UA "UA" "Ukraine";
  item LOCATE_UG "UG" "Uganda";
  item LOCATE_UM "UM" "US minor outlying islands";
  item LOCATE_US "US" "United States";
  item LOCATE_UY "UY" "Uruguay";
  item LOCATE_UZ "UZ" "Uzbekistan";
  item LOCATE_VA "VA" "Vatican City";
  item LOCATE_VC "VC" "St Vincent";
  item LOCATE_VE "VE" "Venezuela";
  item LOCATE_VG "VG" "Virgin Islands (UK)";
  item LOCATE_VI "VI" "Virgin Islands (US)";
  item LOCATE_VN "VN" "Vietnam";
  item LOCATE_VU "VU" "Vanuatu";
  item LOCATE_WF "WF" "Wallis & Futuna";
  item LOCATE_WS "WS" "Samoa (western)";
  item LOCATE_XX "XX" "undefined";
  item LOCATE_YE "YE" "Yemen";
  item LOCATE_YT "YT" "Mayotte";
  item LOCATE_ZA "ZA" "South Africa";
  item LOCATE_ZM "ZM" "Zambia";
  item LOCATE_ZW "ZW" "Zimbabwe"].

Definition LOCATE_MAGIC : Z := 0x10CA7E10CA7E7412.
Definition LOCATE_REVISION : Z := 1.

Definition sizeof_locate_hdr : Z := 16.
Definition sizeof_locate : Z := 40.

Record peak_locate := {
  min : netaddr;
  max : netaddr;
  location : Z;
  reserved : Z;
}.

Definition peak_locate_cmp (x y : peak_locate) : Z :=
  if netcmp (max x) (min y) <? 0 then -1
  else if 0 <? netcmp (min x) (max y) then 1
  else 0.

(** ** peak_locate.c *)

(** [mem] is NULL as long as [count] is 0. *)
Record peak_locates := {
  mem : list peak_locate;
  count : Z;
}.

Section operations.
Context (bsearch : forall A, (A -> Z) -> list A -> option nat).

Definition peak_locate_get (self : peak_locates) (me : netaddr) : option Z :=
  if negb (count self =? 0) then
    let ref := {| min := me; max := me; location := 0; reserved := 0 |} in
    match bsearch _ (peak_locate_cmp ref) (mem self) with
    | Some i => elm ← mem self !! i; Some (location elm)
    | None => Some LOCATE_XX
    end
  else Some LOCATE_UNKNOWN.

Definition kw_cmp (x : string) (y : locate_item) : Z := strcmp x (name y).

Definition peak_locate_number (name : string) : option Z :=
  match bsearch _ (kw_cmp name) locate_items with
  | Some i => location ← locate_items !! i; Some (guid location)
  | None => Some LOCATE_UNKNOWN
  end.

End operations.

(** The inner [None] is NULL. *)
Definition peak_locate_name (number : Z) : option (option string) :=
  if LOCATE_MAX <=? number then Some None
  else item ← locate_items !! Z.to_nat number; Some (Some (name item)).

Definition peak_locate_desc (number : Z) : option (option string) :=
  if LOCATE_MAX <=? number then Some None
  else item ← locate_items !! Z.to_nat number; Some (Some (desc item)).

(** A record of the file. *)
Definition locate_ref (ref : list Z) : option peak_locate :=
  min ← rd_n ref 0 16; max ← rd_n ref 16 16;
  location ← peak_le32dec ref 32; reserved ← peak_le32dec ref 36;
  Some {| min := min; max := max; location := location; reserved := reserved |}.

(** The loop over [n] records; the inner [None] is a file that is not complete. *)
Fixpoint init_loop (n : nat) (fd : file) : option (option (list peak_locate)) :=
  match n with
  | O => Some (Some [])
  | S n =>
      let '(fd, ref) := read_bytes fd sizeof_locate in
      if negb (msize ref =? sizeof_locate) then Some None else
      ref ← locate_ref ref;
      rest ← init_loop n fd;
      Some (cons ref <$> (rest : option (list peak_locate)))
  end.

Definition empty_locates : peak_locates := {| mem := []; count := 0 |}.

(** [avail n]: [malloc] has [n] bytes; [fd] is the file if [open(2)] could open it. *)
Definition peak_locate_init (avail : Z -> bool) (fd : option file) : option (option peak_locates) :=
  if negb (avail 16) then Some None else
  match fd with
  | None => Some (Some empty_locates)
  | Some fd =>
      let '(fd, hdr) := read_bytes fd sizeof_locate_hdr in
      if negb (msize hdr =? sizeof_locate_hdr) then Some (Some empty_locates) else
      magic ← peak_le64dec hdr 0;
      if negb (magic =? LOCATE_MAGIC) then Some (Some empty_locates) else
      revision ← peak_le32dec hdr 8;
      if negb (revision =? LOCATE_REVISION) then Some (Some empty_locates) else
      n ← peak_le32dec hdr 12;
      if n =? 0 then Some (Some empty_locates) else
      if negb (avail (n * sizeof_locate)) then Some (Some empty_locates) else
      refs ← init_loop (Z.to_nat n) fd;
      match (refs : option (list peak_locate)) with
      | None => Some (Some empty_locates)
      | Some refs => Some (Some {| mem := refs; count := n |})
      end
  end.

(** ** The table *)

(** Each name is below the next one, and each number is its place. *)
Lemma locate_items_ascend : names_ascend (fun s => s) name locate_items = true.
Proof. vm_compute. reflexivity. Qed.

Lemma items_guid i x : locate_items !! i = Some x -> guid x = Z.of_nat i.
Proof.
  assert (guid <$> locate_items = Z.of_nat <$> seq 0 251) as Hall by (vm_compute; reflexivity).
  intros Hx. apply (f_equal (fun l => l !! i)) in Hall. rewrite !list_lookup_fmap, Hx in Hall.
  destruct (seq 0 251 !! i) as [k|] eqn:E; [|done]. apply lookup_seq in E as [-> _]. by injection Hall as ->.
Qed.

Lemma items_length : length locate_items = Z.to_nat LOCATE_MAX.
Proof. vm_compute. reflexivity. Qed.

(** ** The database *)

Definition range_ok (r : peak_locate) : Prop :=
  netaddr_ok (min r) /\ netaddr_ok (max r) /\ be_val (min r) <= be_val (max r) /\ fits 32 (location r) /\ fits 32 (reserved r).

Definition in_range (me : netaddr) (r : peak_locate) : Prop := be_val (min r) <= be_val me <= be_val (max r).

(** Ranges that are sorted and do not overlap. *)
Record locates_ok (self : peak_locates) : Prop := {
  lo_count : count self = Z.of_nat (length (mem self));
  lo_range : Forall range_ok (mem self);
  lo_sorted i j x y : (i < j)%nat -> mem self !! i = Some x -> mem self !! j = Some y -> be_val (max x) < be_val (min y);
}.

Lemma netcmp_compare x y : netaddr_ok x -> netaddr_ok y ->
  netcmp x y = match be_val x ?= be_val y with Lt => -1 | Eq => 0 | Gt => 1 end.
Proof. intros [Hx ?] [Hy ?]. apply memcmp_be_val; [congruence|done..]. Qed.

Lemma locate_cmp_spec me r loc res :
  netaddr_ok me -> range_ok r ->
  let c := peak_locate_cmp {| min := me; max := me; location := loc; reserved := res |} r in
  (c < 0 <-> be_val me < be_val (min r)) /\ (c = 0 <-> in_range me r) /\ (0 < c <-> be_val (max r) < be_val me).
Proof.
  intros Hme (Hmin & Hmax & Hle & _). unfold peak_locate_cmp, in_range. cbn [min max].
  rewrite !netcmp_compare by done.
  destruct (Z.compare_spec (be_val me) (be_val (min r))), (Z.compare_spec (be_val me) (be_val (max r))); simpl; lia.
Qed.

Lemma locates_partitioned self me loc res :
  locates_ok self -> netaddr_ok me ->
  partitioned (peak_locate_cmp {| min := me; max := me; location := loc; reserved := res |}) (mem self).
Proof.
  intros [_ Hr Hs] Hme i j x y Hij Hx Hy. pose proof (Hs i j x y Hij Hx Hy) as Hlt.
  rewrite Forall_lookup in Hr. pose proof (Hr i x Hx) as Hxr. pose proof (Hr j y Hy) as Hyr.
  destruct (locate_cmp_spec me x loc res Hme Hxr) as (Hx1 & Hx2 & Hx3).
  destruct (locate_cmp_spec me y loc res Hme Hyr) as (Hy1 & Hy2 & Hy3). unfold in_range in *.
  destruct Hxr as (_ & _ & ? & _), Hyr as (_ & _ & ? & _). lia.
Qed.

(** *** The file *)

Definition locate_bytes (r : peak_locate) : list Z :=
  min r ++ max r ++ le_bytes 4 (location r) ++ le_bytes 4 (reserved r).

Definition locate_header (magic revision n : Z) : list Z := le_bytes 8 magic ++ le_bytes 4 revision ++ le_bytes 4 n.

Definition locate_file (refs : list peak_locate) : list Z :=
  locate_header LOCATE_MAGIC LOCATE_REVISION (Z.of_nat (length refs)) ++ concat (locate_bytes <$> refs).

Lemma locate_bytes_size r : range_ok r -> msize (locate_bytes r) = sizeof_locate.
Proof.
  intros ([H1 _] & [H2 _] & _). unfold msize, locate_bytes. by rewrite !length_app, !le_bytes_length, H1, H2.
Qed.

Lemma locate_ref_bytes r : range_ok r -> locate_ref (locate_bytes r) = Some r.
Proof.
  intros ([H1 Hb1] & [H2 Hb2] & _ & Hl & Hr). unfold locate_ref.
  assert (bytes (locate_bytes r)) as Hb
    by (unfold locate_bytes; repeat (apply Forall_app; split; [done || apply le_bytes_bytes|]); apply le_bytes_bytes).
  assert (rd_n (locate_bytes r) 0 16 = Some (min r)) as ->
    by (rewrite <- H1; apply (rd_n_middle [] (min r))).
  assert (rd_n (locate_bytes r) 16 16 = Some (max r)) as ->.
  { rewrite <- H2. replace 16 with (msize (min r)) by (unfold msize; lia). apply (rd_n_middle (min r) (max r)). }
  cbn [mbind option_bind].
  rewrite (le32_at _ 32 (location r)); [|eapply (field_at_intro _ _ (min r ++ max r))|done].
  2: done. 2: by unfold locate_bytes; rewrite <- app_assoc. 2: unfold msize; rewrite length_app; lia.
  rewrite (le32_at _ 36 (reserved r)); [|eapply (field_at_intro _ _ (min r ++ max r ++ le_bytes 4 (location r)) _ [])|done].
  2: done. 2: by unfold locate_bytes; rewrite app_nil_r, <- !app_assoc. 2: unfold msize; rewrite !length_app, le_bytes_length; lia.
  cbn [mbind option_bind]. by destruct r.
Qed.

Lemma init_loop_all refs fd rest :
  Forall range_ok refs -> ahead fd (concat (locate_bytes <$> refs) ++ rest) ->
  init_loop (length refs) fd = Some (Some refs).
Proof.
  intros Hr. revert fd. induction Hr as [|r refs Hok Hr IH]; intros fd Ha; [done|].
  cbn [fmap list_fmap concat] in Ha. rewrite <- app_assoc in Ha. destruct (read_block _ _ _ Ha) as [E Ha'].
  rewrite (locate_bytes_size r Hok) in E, Ha'. cbn [length init_loop]. rewrite E, (locate_bytes_size r Hok).
  cbn [negb Z.eqb Pos.eqb sizeof_locate]. rewrite (locate_ref_bytes r Hok). cbn [mbind option_bind].
  by rewrite (IH _ Ha').
Qed.

(** A file that ends before the last record does. *)
Lemma init_loop_short refs fd bs :
  Forall range_ok refs -> bs `prefix_of` concat (locate_bytes <$> refs) ->
  msize bs < msize (concat (locate_bytes <$> refs)) -> ahead fd bs ->
  init_loop (length refs) fd = Some None.
Proof.
  intros Hr. revert fd bs. induction Hr as [|r refs Hok Hr IH]; intros fd bs Hpre Hlt Ha; cbn [fmap list_fmap concat] in *.
  { unfold msize in Hlt. simpl in Hlt. lia. }
  pose proof (locate_bytes_size r Hok) as Hs. cbn [length init_loop].
  destruct (strict_prefix_split _ _ _ Hpre Hlt) as [Hsh|(b & -> & Hb)].
  - rewrite Hs in Hsh. rewrite (read_bytes_short _ _ _ Ha Hsh). destruct (Z.eqb_spec (msize bs) sizeof_locate); [lia|done].
  - destruct (read_block _ _ _ Ha) as [E Ha']. rewrite Hs in E, Ha'. rewrite E, Hs.
    cbn [negb Z.eqb Pos.eqb sizeof_locate]. rewrite (locate_ref_bytes r Hok). cbn [mbind option_bind].
    rewrite (IH _ b); [done| |done|done]. by apply prefix_app_inv in Hpre.
Qed.

Lemma locate_ref_total ref : bytes ref -> msize ref = sizeof_locate -> is_Some (locate_ref ref).
Proof.
  intros Hb Hs. unfold locate_ref, sizeof_locate in *.
  destruct (rd_n_is_Some ref 0 16) as (a & -> & _); [lia..|]. destruct (rd_n_is_Some ref 16 16) as (b & -> & _); [lia..|].
  destruct (@codec_bound _ _ _ le32_codec ref 32) as [c Ec]; [done|lia..|].
  destruct (@codec_bound _ _ _ le32_codec ref 36) as [d Ed]; [done|lia..|].
  cbn [mbind option_bind]. rewrite Ec, Ed. by eexists.
Qed.

Lemma init_loop_total n fd :
  bytes (content fd) -> exists r, init_loop n fd = Some r /\ forall refs, r = Some refs -> length refs = n.
Proof.
  revert fd. induction n as [|n IH]; intros fd Hb; cbn [init_loop]; [exists (Some []); naive_solver|].
  pose proof (read_bytes_bytes fd sizeof_locate Hb) as Hbs. destruct (read_bytes fd sizeof_locate) as [f' bs] eqn:E.
  destruct (read_bytes_inv fd sizeof_locate f' bs ltac:(done) E) as (Hc & _).
  destruct (Z.eqb_spec (msize bs) sizeof_locate) as [Hs|]; cbn [negb]; [|by exists None].
  destruct (locate_ref_total bs Hbs Hs) as [r ->]. cbn [mbind option_bind].
  destruct (IH f') as (rs & -> & Hl); [by rewrite Hc|]. cbn [mbind option_bind].
  eexists. split; [done|]. intros refs. destruct rs; [|done]. simpl. intros [= <-]. simpl. by rewrite (Hl l).
Qed.

(** What an [init] may yield: nothing without memory for the structure, else a database
    that is empty or has as many ranges as it counts. *)
Definition init_outcome (avail : Z -> bool) (r : option peak_locates) : Prop :=
  match r with
  | None => avail 16 = false
  | Some s => avail 16 = true /\ count s = Z.of_nat (length (mem s))
  end.

Lemma locate_init_total avail fd :
  (forall f, fd = Some f -> bytes (content f)) ->
  exists r, peak_locate_init avail fd = Some r /\ init_outcome avail r.
Proof.
  intros Hfd. unfold peak_locate_init. destruct (avail 16) eqn:Ea; cbn [negb]; [|by exists None].
  assert (init_outcome avail (Some empty_locates)) as Hempty by done.
  destruct fd as [fd|]; [|by eexists]. specialize (Hfd fd eq_refl).
  pose proof (read_bytes_bytes fd sizeof_locate_hdr Hfd) as Hb. destruct (read_bytes fd sizeof_locate_hdr) as [f' hdr] eqn:E.
  destruct (read_bytes_inv fd sizeof_locate_hdr f' hdr ltac:(done) E) as (Hc & _). cbn [snd] in Hb.
  destruct (Z.eqb_spec (msize hdr) sizeof_locate_hdr) as [Hs|]; cbn [negb]; [|by eexists]. unfold sizeof_locate_hdr in Hs.
  destruct (@codec_bound _ _ _ le64_codec hdr 0) as [magic ->]; [done|lia..|]. cbn [mbind option_bind].
  destruct (negb (magic =? LOCATE_MAGIC)); [by eexists|].
  destruct (@codec_bound _ _ _ le32_codec hdr 8) as [revision ->]; [done|lia..|]. cbn [mbind option_bind].
  destruct (negb (revision =? LOCATE_REVISION)); [by eexists|].
  destruct (@codec_bound _ _ _ le32_codec hdr 12) as [n En]; [done|lia..|]. rewrite En. cbn [mbind option_bind].
  destruct (@codec_dec _ _ _ le32_codec hdr 12 n Hb ltac:(lia) En) as ([Hn _] & _).
  destruct (Z.eqb_spec n 0); [by eexists|]. destruct (negb (avail (n * sizeof_locate))); [by eexists|].
  destruct (init_loop_total (Z.to_nat n) f') as (r & -> & Hl); [by rewrite Hc|]. cbn [mbind option_bind].
  destruct r as [refs|]; [|by eexists]. eexists. split; [done|]. split; [done|]. simpl. rewrite (Hl refs) by done. lia.
Qed.

(** Reading the header of a file. *)
Lemma locate_header_init avail fd magic revision n rest :
  avail 16 = true -> fits 64 magic -> fits 32 revision -> fits 32 n ->
  ahead fd (locate_header magic revision n ++ rest) ->
  ahead (fd<|set_pos (pos fd + sizeof_locate_hdr)|>) rest /\
  peak_locate_init avail (Some fd) =
    if (magic =? LOCATE_MAGIC) && (revision =? LOCATE_REVISION) && negb (n =? 0) && avail (n * sizeof_locate) then
      refs ← init_loop (Z.to_nat n) (fd<|set_pos (pos fd + sizeof_locate_hdr)|>);
      match refs with
      | None => Some (Some empty_locates)
      | Some refs => Some (Some {| mem := refs; count := n |})
      end
    else Some (Some empty_locates).
Proof.
  intros Hav Hm Hr Hn Ha. set (h := locate_header magic revision n) in *.
  assert (msize h = sizeof_locate_hdr) as Hs by (unfold msize, h, locate_header; by rewrite !length_app, !le_bytes_length).
  destruct (read_block _ _ _ Ha) as [E Ha']. rewrite Hs in E, Ha'. split; [done|].
  unfold peak_locate_init. rewrite Hav. cbn [negb]. rewrite E, Hs. cbn [negb Z.eqb Pos.eqb sizeof_locate_hdr].
  rewrite (le64_at h 0 magic); [|field_in (@nil Z)|done].
  rewrite (le32_at h 8 revision); [|field_in (le_bytes 8 magic)|done].
  rewrite (le32_at h 12 n); [|field_last (le_bytes 8 magic ++ le_bytes 4 revision)|done]. cbn [mbind option_bind].
  destruct (magic =? LOCATE_MAGIC), (revision =? LOCATE_REVISION), (n =? 0), (avail (n * sizeof_locate)); done.
Qed.

(** Names, descriptions and items. *)
Lemma locate_item_at n :
  0 <= n -> match locate_items !! Z.to_nat n with
  | Some x => n < LOCATE_MAX /\ guid x = n /\ peak_locate_name n = Some (Some (name x)) /\
              peak_locate_desc n = Some (Some (desc x))
  | None => LOCATE_MAX <= n /\ peak_locate_name n = Some None /\ peak_locate_desc n = Some None
  end.
Proof.
  intros Hn. unfold peak_locate_name, peak_locate_desc. destruct (Z.leb_spec LOCATE_MAX n).
  - rewrite lookup_ge_None_2; [done|]. rewrite items_length. lia.
  - destruct (lookup_lt_is_Some_2 locate_items (Z.to_nat n)) as [x Hx]; [rewrite items_length; lia|]. rewrite Hx.
    split_and!; [done| |done..]. rewrite (items_guid _ _ Hx). lia.
Qed.

(** The number of a text is the one of the item it names, if there is one. *)
Lemma locate_number_spec bsearch `{!Bsearch bsearch} s :
  match peak_locate_number bsearch s with
  | Some r => (exists x, x ∈ locate_items /\ name x = s /\ r = guid x) \/
              r = LOCATE_UNKNOWN /\ forall x, x ∈ locate_items -> name x <> s
  | None => False
  end.
Proof.
  unfold peak_locate_number. pose proof (names_search (fun s => s) name bsearch _ s (kw_cmp s) locate_items_ascend ltac:(done)) as Hs.
  destruct (bsearch _ (kw_cmp s) locate_items) as [i|].
  - destruct Hs as (x & Hx & E). rewrite Hx. left. exists x. split; [by eapply list_elem_of_lookup_2|done].
  - by right.
Qed.

(** ** Properties *)

(** C39.  Whatever conforming [bsearch] is linked: on sorted ranges that do not overlap,
    [peak_locate_get] finds the location of the one range the address is in, "XX" if it
    is in none, and "unknown" if there are no ranges at all. *)
Theorem locate_get_finds bsearch `{!Bsearch bsearch} self me :
  locates_ok self -> netaddr_ok me ->
  exists r, peak_locate_get bsearch self me = Some r /\
    (mem self = [] -> r = LOCATE_UNKNOWN) /\
    (forall x, x ∈ mem self -> in_range me x -> r = location x) /\
    (mem self <> [] -> (forall x, x ∈ mem self -> ~ in_range me x) -> r = LOCATE_XX).
Proof.
  intros Hok Hme. pose proof (lo_count _ Hok) as Hc. unfold peak_locate_get.
  destruct (Z.eqb_spec (count self) 0) as [E|E]; cbn [negb].
  { assert (mem self = []) as -> by (apply nil_length_inv; lia). exists LOCATE_UNKNOWN.
    split_and!; [done..| |done]. by intros x Hx%elem_of_nil. }
  set (ref := {| min := me |}). pose proof (bsearch_promise _ _ _ (locates_partitioned self me 0 0 Hok Hme)) as Hp. fold ref in Hp.
  pose proof (lo_range _ Hok) as Hr. rewrite Forall_forall in Hr.
  assert (forall x, x ∈ mem self -> peak_locate_cmp ref x = 0 <-> in_range me x) as Hcmp
    by (intros x Hx; apply locate_cmp_spec; auto).
  destruct (bsearch _ (peak_locate_cmp ref) (mem self)) as [i|].
  - destruct Hp as (x & Hx & H0). rewrite Hx. exists (location x). split; [done|].
    assert (x ∈ mem self) as Hin by (by eapply list_elem_of_lookup_2). apply Hcmp in H0; [|done].
    split_and!; [intros E0; by rewrite E0 in Hin; apply elem_of_nil in Hin| |intros _ Hno; by destruct (Hno x)].
    intros y Hy Hy0. apply list_elem_of_lookup in Hy as [j Hj]. f_equal.
    destruct (decide (i < j)%nat) as [H|H]; [pose proof (lo_sorted _ Hok _ _ _ _ H Hx Hj); unfold in_range in *; lia|].
    destruct (decide (j < i)%nat) as [H'|H']; [pose proof (lo_sorted _ Hok _ _ _ _ H' Hj Hx); unfold in_range in *; lia|].
    assert (i = j) as -> by lia. by simplify_eq.
  - exists LOCATE_XX. split_and!; [done| | |done].
    + intros E0. rewrite E0 in Hc. done.
    + intros x Hx Hin. by apply Hcmp, Hp in Hin.
Qed.

(** Loading a database never goes wrong.  It yields NULL only without memory for the
    structure, and else a database whose count is the number of its ranges.  A file
    written in the format gives back its ranges; if it is cut off anywhere, has another
    magic value or revision, or could not be opened, the database is empty. *)
Theorem locate_file_roundtrip avail refs rest :
  avail 16 = true -> avail (Z.of_nat (length refs) * sizeof_locate) = true -> Forall range_ok refs ->
  fits 32 (Z.of_nat (length refs)) ->
  (forall avail fd, (forall f, fd = Some f -> bytes (content f)) ->
     exists r, peak_locate_init avail fd = Some r /\ init_outcome avail r) /\
  peak_locate_init avail (Some {| content := locate_file refs ++ rest; pos := 0 |}) =
    Some (Some {| mem := refs; count := Z.of_nat (length refs) |}) /\
  (forall part, part `prefix_of` locate_file refs -> msize part < msize (locate_file refs) ->
     peak_locate_init avail (Some {| content := part; pos := 0 |}) = Some (Some empty_locates)) /\
  (forall magic revision n, fits 64 magic -> fits 32 revision -> fits 32 n ->
     magic <> LOCATE_MAGIC \/ revision <> LOCATE_REVISION ->
     peak_locate_init avail (Some {| content := locate_header magic revision n ++ rest; pos := 0 |}) =
       Some (Some empty_locates)) /\
  peak_locate_init avail None = Some (Some empty_locates).
Proof.
  intros Hav Hmem Hr Hn. set (hd := locate_header LOCATE_MAGIC LOCATE_REVISION (Z.of_nat (length refs))).
  split; [apply locate_init_total|]. split_and!.
  - set (f := {| content := _; pos := 0 |}). assert (ahead f (hd ++ concat (locate_bytes <$> refs) ++ rest)) as Ha
      by (split; [done|]; rewrite app_assoc; reflexivity).
    destruct (locate_header_init avail f LOCATE_MAGIC LOCATE_REVISION _ _ Hav ltac:(done) ltac:(done) Hn Ha) as [Ha' ->].
    rewrite !Z.eqb_refl, Hmem, Nat2Z.id, (init_loop_all refs _ rest Hr Ha'). cbn [mbind option_bind].
    destruct (Z.eqb_spec (Z.of_nat (length refs)) 0) as [E|]; [|done].
    assert (refs = []) as -> by (apply nil_length_inv; lia). done.
  - intros part Hpre Hlt. set (f := {| content := part; pos := 0 |}). assert (ahead f part) as Ha by done.
    destruct (strict_prefix_split _ _ _ Hpre Hlt) as [Hsh|(b & -> & Hb)].
    + unfold peak_locate_init. rewrite Hav. cbn [negb].
      assert (msize hd = sizeof_locate_hdr) as Hs by (unfold msize, hd, locate_header; by rewrite !length_app, !le_bytes_length).
      fold hd in Hsh. rewrite Hs in Hsh. rewrite (read_bytes_short f _ _ Ha Hsh).
      destruct (Z.eqb_spec (msize part) sizeof_locate_hdr); [lia|done].
    + destruct (locate_header_init avail f LOCATE_MAGIC LOCATE_REVISION _ _ Hav ltac:(done) ltac:(done) Hn Ha) as [Ha' ->].
      rewrite !Z.eqb_refl, Hmem, Nat2Z.id. apply prefix_app_inv in Hpre.
      rewrite (init_loop_short refs _ b Hr Hpre Hb Ha'). cbn [mbind option_bind].
      by destruct (negb _).
  - intros magic revision n Hm Hrev Hn' Hne. set (f := {| content := _; pos := 0 |}).
    destruct (locate_header_init avail f magic revision n rest Hav Hm Hrev Hn') as [_ ->]; [done|].
    destruct (Z.eqb_spec magic LOCATE_MAGIC), (Z.eqb_spec revision LOCATE_REVISION); simpl; try done. naive_solver.
  - unfold peak_locate_init. by rewrite Hav.
Qed.

(** Numbers and names of locations: the numbers below [LOCATE_MAX] and no others have a
    name and a description, the name of a number is the number's, and a text that is no
    name has the number of the unknown location. *)
Theorem locate_names_roundtrip bsearch `{!Bsearch bsearch} n s :
  0 <= n ->
  (n < LOCATE_MAX <-> exists x, peak_locate_name n = Some (Some x)) /\
  (LOCATE_MAX <= n <-> peak_locate_name n = Some None /\ peak_locate_desc n = Some None) /\
  (forall x, peak_locate_name n = Some (Some x) ->
     peak_locate_number bsearch x = Some n /\ exists d, peak_locate_desc n = Some (Some d)) /\
  ((forall k, peak_locate_name k <> Some (Some s)) -> peak_locate_number bsearch s = Some LOCATE_UNKNOWN).
Proof.
  intros Hn. pose proof (locate_item_at n Hn) as Hi. pose proof (fun s => locate_number_spec bsearch s) as Hnum. split_and!.
  - destruct (locate_items !! Z.to_nat n); split; intros H; destruct_and?; naive_solver lia.
  - destruct (locate_items !! Z.to_nat n); split; intros H; destruct_and?; naive_solver lia.
  - intros x Hx. destruct (locate_items !! Z.to_nat n) as [it|] eqn:Eit; [|destruct Hi as (_ & Hi & _); congruence].
    destruct Hi as (_ & Hg & Hname & Hd). split; [|by eexists]. assert (name it = x) as Hit by congruence.
    specialize (Hnum x). destruct (peak_locate_number bsearch x) as [r|]; [|done].
    destruct Hnum as [(y & Hy & Hyx & ->)|[_ Hno]]; [|exfalso; eapply Hno; [by eapply list_elem_of_lookup_2|done]].
    apply list_elem_of_lookup in Hy as [j Hj]. rewrite (items_guid _ _ Hj), <- Hg, (items_guid _ _ Eit).
    f_equal. f_equal. eapply (names_unique _ _ _ _ _ _ _ locate_items_ascend); [done..|congruence].
  - intros Hno. specialize (Hnum s). destruct (peak_locate_number bsearch s) as [r|]; [|done].
    destruct Hnum as [(y & Hy & Hys & _)|[-> _]]; [|done]. apply list_elem_of_lookup in Hy as [j Hj].
    destruct (Hno (Z.of_nat j)). pose proof (locate_item_at (Z.of_nat j) ltac:(lia)) as H. rewrite Nat2Z.id, Hj in H.
    destruct H as (_ & _ & -> & _). by rewrite Hys.
Qed.

(** 10.0.0.0/8 and 192.168.0.0/16 as ranges. *)
Definition sample_ranges : list peak_locate :=
  [{| min := take 12 net_in64 ++ [10; 0; 0; 0]; max := take 12 net_in64 ++ [10; 255; 255; 255];
      location := LOCATE_DE; reserved := 0 |};
   {| min := take 12 net_in64 ++ [192; 168; 0; 0]; max := take 12 net_in64 ++ [192; 168; 255; 255];
      location := LOCATE_XX; reserved := 0 |}].

#[export] Instance netaddr_ok_dec a : Decision (netaddr_ok a).
Proof. unfold netaddr_ok, bytes. apply _. Defined.

Lemma sample_ranges_ok : Forall range_ok sample_ranges.
Proof.
  repeat constructor; try (apply (bool_decide_unpack _); vm_compute; exact I); vm_compute; discriminate.
Qed.

Lemma sample_locates_ok : locates_ok {| mem := sample_ranges; count := 2 |}.
Proof.
  split; [done|apply sample_ranges_ok|]. intros [|[|i]] [|[|j]] x y Hij Hx Hy; simpl in *; try lia; try done;
    simplify_eq; vm_compute; reflexivity.
Qed.

Lemma locate_get_finds_witness :
  exists r, peak_locate_get binary_search {| mem := sample_ranges; count := 2 |} (take 12 net_in64 ++ [10; 1; 2; 3]) = Some r /\
    (sample_ranges = [] -> r = LOCATE_UNKNOWN) /\
    (forall x, x ∈ sample_ranges -> in_range (take 12 net_in64 ++ [10; 1; 2; 3]) x -> r = location x) /\
    (sample_ranges <> [] -> (forall x, x ∈ sample_ranges -> ~ in_range (take 12 net_in64 ++ [10; 1; 2; 3]) x) -> r = LOCATE_XX).
Proof.
  apply (locate_get_finds binary_search {| mem := sample_ranges; count := 2 |} (take 12 net_in64 ++ [10; 1; 2; 3])).
  - exact sample_locates_ok.
  - apply (bool_decide_unpack _). vm_compute. exact I.
Defined.

Lemma locate_file_roundtrip_witness :
  peak_locate_init (fun _ => true) (Some {| content := locate_file sample_ranges ++ [0]; pos := 0 |}) =
    Some (Some {| mem := sample_ranges; count := 2 |}).
Proof.
  assert (fits 32 (Z.of_nat (length sample_ranges))) as Hn by (split; [lia|reflexivity]).
  destruct (locate_file_roundtrip (fun _ => true) sample_ranges [0] eq_refl eq_refl sample_ranges_ok Hn) as (_ & H & _).
  exact H.
Defined.

Lemma locate_names_roundtrip_witness :
  (61 < LOCATE_MAX <-> exists x, peak_locate_name 61 = Some (Some x)) /\
  (LOCATE_MAX <= 61 <-> peak_locate_name 61 = Some None /\ peak_locate_desc 61 = Some None) /\
  (forall x, peak_locate_name 61 = Some (Some x) ->
     peak_locate_number binary_search x = Some 61 /\ exists d, peak_locate_desc 61 = Some (Some d)) /\
  ((forall k, peak_locate_name k <> Some (Some "Germany"%string)) -> peak_locate_number binary_search "Germany" = Some LOCATE_UNKNOWN).
Proof. apply (locate_names_roundtrip binary_search 61 "Germany"). lia. Defined.
