(* ===== verification/Magic.v ===== *)
(** * File types

    Models [lib/peak_magic.c] and [lib/peak_magic.h]: the table of file types and their
    enumeration over libmagic, which is a parameter: what it names the type of some
    bytes, and whether it can be opened and its database loaded.  The table is searched
    with any conforming [bsearch(3)] ([Search]), by names without regard to case. *)

From S2P Require Import Prelude Compat Search.

(** ** peak_magic.h *)

Definition MAGIC_UNKNOWN : Z := 0.
Definition MAGIC_DICOM_MEDICAL_IMAGING_DATA : Z := 1.
Definition MAGIC_NODE_JS_SCRIPT_TEXT_EXECUTABLE : Z := 2.
Definition MAGIC_BINHEX_BINARY_TEXT : Z := 3.
Definition MAGIC_MARC21 : Z := 4.
Definition MAGIC_MICROSOFT_WORD_DOCUMENT : Z := 5.
Definition MAGIC_PACKED_DATA : Z := 6.
Definition MAGIC_OGG_DATA : Z := 7.
Definition MAGIC_PDF_DOCUMENT : Z := 8.
Definition MAGIC_PGP_MESSAGE : Z := 9.
Definition MAGIC_PGP_PUBLIC_KEY_BLOCK : Z := 10.
Definition MAGIC_PGP_SIGNATURE : Z := 11.
Definition MAGIC_POSTSCRIPT_DOCUMENT_TEXT : Z := 12.
Definition MAGIC_SEREAL_DATA : Z := 13.
Definition MAGIC_PART_OF_MULTIPART_DEBIAN_PACKAGE : Z := 14.
Definition MAGIC_FDF_DOCUMENT : Z := 15.
Definition MAGIC_SPLINE_FONT_DATABASE : Z := 16.
Definition MAGIC_GOOGLE_KML_DOCUMENT : Z := 17.
Definition MAGIC_COMPRESSED_GOOGLE_KML_DOCUMENT__INCLUDING_RESOURCES_ : Z := 18.
Definition MAGIC_SUN_KCMS_ICC_PROFILE : Z := 19.
Definition MAGIC_LOTUS_WORDPRO : Z := 20.
Definition MAGIC_MICROSOFT_CABINET_ARCHIVE_DATA : Z := 21.
Definition MAGIC_MICROSOFT_EXCEL_WORKSHEET : Z := 22.
Definition MAGIC_EMBEDDED_OPENTYPE__EOT_ : Z := 23.
Definition MAGIC_OPENTYPE_FONT_DATA : Z := 24.
Definition MAGIC_TRANSPORT_NEUTRAL_ENCAPSULATION_FORMAT : Z := 25.
Definition MAGIC_MICROSOFT_WORD_2007P : Z := 26.
Definition MAGIC_REALMEDIA_FILE : Z := 27.
Definition MAGIC_SYMBIAN_INSTALLATION_FILE : Z := 28.
Definition MAGIC_TCPDUMP_CAPTURE_FILE : Z := 29.
Definition MAGIC_LOTUS_1_2_3 : Z := 30.
Definition MAGIC_ABOOK_ADDRESS_BOOK : Z := 31.
Definition MAGIC_ARC_ARCHIVE_DATA : Z := 32.
Definition MAGIC_MIPS_ARCHIVE : Z := 33.
Definition MAGIC_ARJ_ARCHIVE_DATA : Z := 34.
Definition MAGIC_BITTORRENT_FILE : Z := 35.
Definition MAGIC_BZIP2_COMPRESSED_DATA : Z := 36.
Definition MAGIC_COMPRESS_D_DATA : Z := 37.
Definition MAGIC_BYTE_SWAPPED_CPIO_ARCHIVE : Z := 38.
Definition MAGIC_BERKELEY_DB : Z := 39.
Definition MAGIC_WINDOWS_PROGRAM_INFORMATION_FILE : Z := 40.
Definition MAGIC_TEX_DVI_FILE : Z := 41.
Definition MAGIC_EET_ARCHIVE : Z := 42.
Definition MAGIC_EMACS__BYTE_COMPILED_LISP_DATA : Z := 43.
Definition MAGIC_X11_SNF_FONT_DATA__LSB_FIRST : Z := 44.
Definition MAGIC_TRUETYPE_FONT_DATA : Z := 45.
Definition MAGIC_FREEMIND_DOCUMENT : Z := 46.
Definition MAGIC_FREEPLANE_DOCUMENT : Z := 47.
Definition MAGIC_GNU_DBM_OR_NDBM_DATABASE : Z := 48.
Definition MAGIC_GNUMERIC_SPREADSHEET : Z := 49.
Definition MAGIC_GPG_KEY_PUBLIC_RING : Z := 50.
Definition MAGIC_GZIP_COMPRESSED_DATA : Z := 51.
Definition MAGIC_HIERARCHICAL_DATA_FORMAT_DATA : Z := 52.
Definition MAGIC_HANGUL__KOREAN__WORD_PROCESSOR_FILE_2000 : Z := 53.
Definition MAGIC_INTERNET_ARCHIVE_FILE : Z := 54.
Definition MAGIC_JUST_SYSTEM_WORD_PROCESSOR_ICHITARO : Z := 55.
Definition MAGIC_JUST_SYSTEM_WORD_PROCESSOR_ICHITARO_V5 : Z := 56.
Definition MAGIC_JUST_SYSTEM_WORD_PROCESSOR_ICHITARO_V6 : Z := 57.
Definition MAGIC_ISO_9660_CD_ROM_FILESYSTEM_DATA__RAW_2352_BYTE_SECTORS_ : Z := 58.
Definition MAGIC_JAVA_APPLET : Z := 59.
Definition MAGIC_JAVA_JCE_KEYSTORE : Z := 60.
Definition MAGIC_JAVA_KEYSTORE : Z := 61.
Definition MAGIC_KDE_FILE : Z := 62.
Definition MAGIC_LHA_ARCHIVE_DATA : Z := 63.
Definition MAGIC_LHARC_1_X_ARX_ARCHIVE_DATA__LH0_ : Z := 64.
Definition MAGIC_LZ4_COMPRESSED_DATA__V0_1_V0_9_ : Z := 65.
Definition MAGIC_LZIP_COMPRESSED_DATA : Z := 66.
Definition MAGIC_LZMA_COMPRESSED_DATA_ : Z := 67.
Definition MAGIC_FRAMEMAKER_FILE : Z := 68.
Definition MAGIC_MICROSOFT_ACCESS_DATABASE : Z := 69.
Definition MAGIC_PGP_KEY_RING : Z := 70.
Definition MAGIC_WINDOWS_PRECOMPILED_INF : Z := 71.
Definition MAGIC_MOTOROLA_QUARK_EXPRESS_DOCUMENT__ENGLISH_ : Z := 72.
Definition MAGIC_APPLE_QUICKTIME_COMPRESSED_ARCHIVE : Z := 73.
Definition MAGIC_RAR_ARCHIVE_DATA_ : Z := 74.
Definition MAGIC_RPM : Z := 75.
Definition MAGIC_SC_SPREADSHEET_FILE : Z := 76.
Definition MAGIC_SCRIBUS_DOCUMENT : Z := 77.
Definition MAGIC_SNAPPY_FRAMED_DATA : Z := 78.
Definition MAGIC_STUFFIT_ARCHIVE : Z := 79.
Definition MAGIC_PKG_DATASTREAM__SVR4_ : Z := 80.
Definition MAGIC_GNU_TAR_ARCHIVE : Z := 81.
Definition MAGIC_TEX_FONT_METRIC_DATA : Z := 82.
Definition MAGIC_INITIALIZATION_CONFIGURATION : Z := 83.
Definition MAGIC_XZ_COMPRESSED_DATA : Z := 84.
Definition MAGIC_ZOO_ARCHIVE_DATA : Z := 85.
Definition MAGIC_XML_DOCUMENT_TEXT : Z := 86.
Definition MAGIC_XML_SITEMAP_DOCUMENT_TEXT : Z := 87.
Definition MAGIC_ZIP_MULTI_VOLUME_ARCHIVE_DATA__AT_LEAST_PKZIP_V2_50_TO_EXTRACT : Z := 88.
Definition MAGIC_STANDARD_MIDI_DATA : Z := 89.
Definition MAGIC_MPEG_ADTS : Z := 90.
Definition MAGIC_ATSC_A_52_AKA_AC_3_AKA_DOLBY_DIGITAL_STREAM_ : Z := 91.
Definition MAGIC_MONKEY_S_AUDIO_COMPRESSED_FORMAT : Z := 92.
Definition MAGIC_FLAC_AUDIO_BITSTREAM_DATA : Z := 93.
Definition MAGIC_MPEG_ADIF__AAC : Z := 94.
Definition MAGIC_MPEG_ADTS__AAC : Z := 95.
Definition MAGIC_MODULE_SOUND_DATA : Z := 96.
Definition MAGIC_MPEG_4_LOAS : Z := 97.
Definition MAGIC_MUSEPACK_AUDIO : Z := 98.
Definition MAGIC_REALAUDIO_SOUND_FILE : Z := 99.
Definition MAGIC_UNKNOWN_AUDIO_FORMAT : Z := 100.
Definition MAGIC_MBWF_RF64_AUDIO : Z := 101.
Definition MAGIC_PROTEIN_DATA_BANK_DATA__ID_CODE__S : Z := 102.
Definition MAGIC_GIF_IMAGE_DATA : Z := 103.
Definition MAGIC_JPEG_2000_IMAGE : Z := 104.
Definition MAGIC_JPEG_IMAGE_DATA : Z := 105.
Definition MAGIC_PNG_IMAGE_DATA : Z := 106.
Definition MAGIC_SVG_SCALABLE_VECTOR_GRAPHICS_IMAGE : Z := 107.
Definition MAGIC_TIFF_IMAGE_DATA : Z := 108.
Definition MAGIC_ADOBE_PHOTOSHOP_IMAGE : Z := 109.
Definition MAGIC_DJVU_MULTIPLE_PAGE_DOCUMENT : Z := 110.
Definition MAGIC_DWG_AUTODESK_AUTOCAD_RELEASE_1_40 : Z := 111.
Definition MAGIC_AWARD_BIOS_LOGO__136_X_126 : Z := 112.
Definition MAGIC_AWARD_BIOS_BITMAP : Z := 113.
Definition MAGIC_CANON_CR2_RAW_IMAGE_DATA : Z := 114.
Definition MAGIC_CANON_CIFF_RAW_IMAGE_DATA : Z := 115.
Definition MAGIC_CARTESIAN_PERCEPTUAL_COMPRESSION_IMAGE : Z := 116.
Definition MAGIC_MS_WINDOWS_CURSOR_RESOURCE : Z := 117.
Definition MAGIC_DPX_IMAGE_DATA__BIG_ENDIAN_ : Z := 118.
Definition MAGIC_OPENEXR_IMAGE_DATA_ : Z := 119.
Definition MAGIC_MS_WINDOWS_ICON_RESOURCE : Z := 120.
Definition MAGIC_SYSLINUX__LSS16_IMAGE_DATA : Z := 121.
Definition MAGIC_PC_BITMAP__OS_2_1_X_FORMAT : Z := 122.
Definition MAGIC_NIFF_IMAGE_DATA : Z := 123.
Definition MAGIC_OLYMPUS_ORF_RAW_IMAGE_DATA__BIG_ENDIAN : Z := 124.
Definition MAGIC_PAINT_NET_IMAGE_DATA : Z := 125.
Definition MAGIC_PCX : Z := 126.
Definition MAGIC_PROGRESSIVE_GRAPHICS_IMAGE_DATA_ : Z := 127.
Definition MAGIC_POLAR_MONITOR_BITMAP_TEXT : Z := 128.
Definition MAGIC_NETPBM_PPM_IMAGE_FILE : Z := 129.
Definition MAGIC_APPLE_QUICKTIME_IMAGE__FAST_START_ : Z := 130.
Definition MAGIC_UNKNOWN_IMAGE_FORMAT : Z := 131.
Definition MAGIC_FOVEON_X3F_RAW_IMAGE_DATA : Z := 132.
Definition MAGIC_GIMP_XCF_IMAGE_DATA_ : Z := 133.
Definition MAGIC_XCURSOR_DATA : Z := 134.
Definition MAGIC_X_PIXMAP_IMAGE_TEXT : Z := 135.
Definition MAGIC_XWD_X_WINDOW_DUMP_IMAGE_DATA : Z := 136.
Definition MAGIC_NEWS_TEXT : Z := 137.
Definition MAGIC_MAIL_TEXT : Z := 138.
Definition MAGIC_VRML_FILE : Z := 139.
Definition MAGIC_X3D__EXTENSIBLE_3D__MODEL_XML_TEXT : Z := 140.
Definition MAGIC_VCALENDAR_CALENDAR_FILE : Z := 141.
Definition MAGIC_HTML_DOCUMENT_TEXT : Z := 142.
Definition MAGIC_PGP_ENCRYPTED_DATA : Z := 143.
Definition MAGIC_RICH_TEXT_FORMAT_DATA_ : Z := 144.
Definition MAGIC_TEXMACS_DOCUMENT_TEXT : Z := 145.
Definition MAGIC_TROFF_OR_PREPROCESSOR_INPUT_TEXT : Z := 146.
Definition MAGIC_ASSEMBLER_SOURCE_TEXT : Z := 147.
Definition MAGIC_AWK_SCRIPT_TEXT_EXECUTABLE : Z := 148.
Definition MAGIC_BCPL_SOURCE_TEXT : Z := 149.
Definition MAGIC_C_SOURCE_TEXT : Z := 150.
Definition MAGIC_CPP_SOURCE_TEXT : Z := 151.
Definition MAGIC_UNIFIED_DIFF_OUTPUT_TEXT : Z := 152.
Definition MAGIC_FORTRAN_PROGRAM : Z := 153.
Definition MAGIC_GNU_AWK_SCRIPT_TEXT_EXECUTABLE : Z := 154.
Definition MAGIC_GNU_INFO_TEXT : Z := 155.
Definition MAGIC_JAVA_SOURCE : Z := 156.
Definition MAGIC_LISP_SCHEME_PROGRAM_TEXT : Z := 157.
Definition MAGIC_LUA_SCRIPT_TEXT_EXECUTABLE : Z := 158.
Definition MAGIC_M4_MACRO_PROCESSOR_SCRIPT_TEXT : Z := 159.
Definition MAGIC_MAKEFILE_SCRIPT_TEXT : Z := 160.
Definition MAGIC_DOS_BATCH_FILE_TEXT : Z := 161.
Definition MAGIC_NEW_AWK_SCRIPT_TEXT_EXECUTABLE : Z := 162.
Definition MAGIC_PASCAL_SOURCE_TEXT : Z := 163.
Definition MAGIC_PERL_SCRIPT_TEXT : Z := 164.
Definition MAGIC_PHP_SCRIPT_TEXT : Z := 165.
Definition MAGIC_GNU_GETTEXT_MESSAGE_CATALOGUE_TEXT : Z := 166.
Definition MAGIC_PYTHON_SCRIPT_TEXT_EXECUTABLE : Z := 167.
Definition MAGIC_RUBY_SOURCE_TEXT : Z := 168.
Definition MAGIC_SHELLSCRIPT_TEXT_EXECUTABLE : Z := 169.
Definition MAGIC_TCL_TK_SCRIPT_TEXT_EXECUTABLE : Z := 170.
Definition MAGIC_LATEX_FILE : Z := 171.
Definition MAGIC_TEXINFO_SOURCE_TEXT : Z := 172.
Definition MAGIC_VCARD_VISITING_CARD : Z := 173.
Definition MAGIC_XMCD_DATABASE_FILE_FOR_KSCD : Z := 174.
Definition MAGIC_MPEG_SEQUENCE : Z := 175.
Definition MAGIC_APPLE_QUICKTIME_MOVIE : Z := 176.
Definition MAGIC_WEBM : Z := 177.
Definition MAGIC_FLC_ANIMATION : Z := 178.
Definition MAGIC_FLI_ANIMATION__320X200X8 : Z := 179.
Definition MAGIC_MACROMEDIA_FLASH_VIDEO : Z := 180.
Definition MAGIC_JNG_VIDEO_DATA_ : Z := 181.
Definition MAGIC_MNG_VIDEO_DATA_ : Z := 182.
Definition MAGIC_MICROSOFT_ASF : Z := 183.
Definition MAGIC_SILICON_GRAPHICS_MOVIE_FILE : Z := 184.
Definition MAGIC_SYMBIAN_INSTALLATION_FILE__SYMBIAN_OS_9_X_ : Z := 185.
Definition MAGIC_MAX : Z := 186.

Record magic_item := {
  guid : Z;
  description : string;
  mime_type : string;
}.

Definition item (guid : Z) (description mime_type : string) : magic_item :=
  {| guid := guid; description := description; mime_type := mime_type |}.

(** ** peak_magic.c *)

Definition magic_items : list magic_item := [
  item MAGIC_UNKNOWN "unknown" "";
  item MAGIC_DICOM_MEDICAL_IMAGING_DATA "DICOM medical imaging data" "application/dicom";
  item MAGIC_NODE_JS_SCRIPT_TEXT_EXECUTABLE "Node.js script text executable" "application/javascript";
  item MAGIC_BINHEX_BINARY_TEXT "BinHex binary text" "application/mac-binhex40";
  item MAGIC_MARC21 "MARC21" "application/marc";
  item MAGIC_MICROSOFT_WORD_DOCUMENT "Microsoft Word Document" "application/msword";
  item MAGIC_PACKED_DATA "packed data" "application/octet-stream";
  item MAGIC_OGG_DATA "Ogg data" "application/ogg";
  item MAGIC_PDF_DOCUMENT "PDF document" "application/pdf";
  item MAGIC_PGP_MESSAGE "PGP message" "application/pgp";
  item MAGIC_PGP_PUBLIC_KEY_BLOCK "PGP public key block" "application/pgp-keys";
  item MAGIC_PGP_SIGNATURE "PGP signature" "application/pgp-signature";
  item MAGIC_POSTSCRIPT_DOCUMENT_TEXT "PostScript document text" "application/postscript";
  item MAGIC_SEREAL_DATA "Sereal data" "application/sereal";
  item MAGIC_PART_OF_MULTIPART_DEBIAN_PACKAGE "part of multipart Debian package" "application/vnd.debian.binary-package";
  item MAGIC_FDF_DOCUMENT "FDF document" "application/vnd.fdf";
  item MAGIC_SPLINE_FONT_DATABASE "Spline Font Database" "application/vnd.font-fontforge-sfd";
  item MAGIC_GOOGLE_KML_DOCUMENT "Google KML document" "application/vnd.google-earth.kml+xml";
  item MAGIC_COMPRESSED_GOOGLE_KML_DOCUMENT__INCLUDING_RESOURCES_ "Compressed Google KML Document, including resources." "application/vnd.google-earth.kmz";
  item MAGIC_SUN_KCMS_ICC_PROFILE "Sun KCMS ICC Profile" "application/vnd.iccprofile";
  item MAGIC_LOTUS_WORDPRO "Lotus WordPro" "application/vnd.lotus-wordpro";
  item MAGIC_MICROSOFT_CABINET_ARCHIVE_DATA "Microsoft Cabinet archive data" "application/vnd.ms-cab-compressed";
  item MAGIC_MICROSOFT_EXCEL_WORKSHEET "Microsoft Excel Worksheet" "application/vnd.ms-excel";
  item MAGIC_EMBEDDED_OPENTYPE__EOT_ "Embedded OpenType (EOT)" "application/vnd.ms-fontobject";
  item MAGIC_OPENTYPE_FONT_DATA "OpenType font data" "application/vnd.ms-opentype";
  item MAGIC_TRANSPORT_NEUTRAL_ENCAPSULATION_FORMAT "Transport Neutral Encapsulation Format" "application/vnd.ms-tnef";
  item MAGIC_MICROSOFT_WORD_2007P "Microsoft Word 2007+" "application/vnd.openxmlformats-officedocument.wordprocessingml.document";
  item MAGIC_REALMEDIA_FILE "RealMedia file" "application/vnd.rn-realmedia";
  item MAGIC_SYMBIAN_INSTALLATION_FILE "Symbian installation file" "application/vnd.symbian.install";
  item MAGIC_TCPDUMP_CAPTURE_FILE "tcpdump capture file" "application/vnd.tcpdump.pcap";
  item MAGIC_LOTUS_1_2_3 "Lotus 1-2-3" "application/x-123";
  item MAGIC_ABOOK_ADDRESS_BOOK "abook address book" "application/x-abook-addressbook";
  item MAGIC_ARC_ARCHIVE_DATA "ARC archive data" "application/x-arc";
  item MAGIC_MIPS_ARCHIVE "MIPS archive" "application/x-archive";
  item MAGIC_ARJ_ARCHIVE_DATA "ARJ archive data" "application/x-arj";
  item MAGIC_BITTORRENT_FILE "BitTorrent file" "application/x-bittorrent";
  item MAGIC_BZIP2_COMPRESSED_DATA "bzip2 compressed data" "application/x-bzip2";
  item MAGIC_COMPRESS_D_DATA "compress'd data" "application/x-compress";
  item MAGIC_BYTE_SWAPPED_CPIO_ARCHIVE "byte-swapped cpio archive" "application/x-cpio";
  item MAGIC_BERKELEY_DB "Berkeley DB" "application/x-dbm";
  item MAGIC_WINDOWS_PROGRAM_INFORMATION_FILE "Windows Program Information File" "application/x-dosexec";
  item MAGIC_TEX_DVI_FILE "TeX DVI file" "application/x-dvi";
  item MAGIC_EET_ARCHIVE "EET archive" "application/x-eet";
  item MAGIC_EMACS__BYTE_COMPILED_LISP_DATA "Emacs  byte-compiled Lisp data" "application/x-elc";
  item MAGIC_X11_SNF_FONT_DATA__LSB_FIRST "X11 SNF font data, LSB first" "application/x-font-sfn";
  item MAGIC_TRUETYPE_FONT_DATA "TrueType font data" "application/x-font-ttf";
  item MAGIC_FREEMIND_DOCUMENT "Freemind document" "application/x-freemind";
  item MAGIC_FREEPLANE_DOCUMENT "Freeplane document" "application/x-freeplane";
  item MAGIC_GNU_DBM_OR_NDBM_DATABASE "GNU dbm or ndbm database" "application/x-gdbm";
  item MAGIC_GNUMERIC_SPREADSHEET "Gnumeric spreadsheet" "application/x-gnumeric";
  item MAGIC_GPG_KEY_PUBLIC_RING "GPG key public ring" "application/x-gnupg-keyring";
  item MAGIC_GZIP_COMPRESSED_DATA "gzip compressed data" "application/x-gzip";
  item MAGIC_HIERARCHICAL_DATA_FORMAT_DATA "Hierarchical Data Format data" "application/x-hdf";
  item MAGIC_HANGUL__KOREAN__WORD_PROCESSOR_FILE_2000 "Hangul (Korean) Word Processor File 2000" "application/x-hwp";
  item MAGIC_INTERNET_ARCHIVE_FILE "Internet Archive File" "application/x-ia-arc";
  item MAGIC_JUST_SYSTEM_WORD_PROCESSOR_ICHITARO "Just System Word Processor Ichitaro" "application/x-ichitaro4";
  item MAGIC_JUST_SYSTEM_WORD_PROCESSOR_ICHITARO_V5 "Just System Word Processor Ichitaro v5" "application/x-ichitaro5";
  item MAGIC_JUST_SYSTEM_WORD_PROCESSOR_ICHITARO_V6 "Just System Word Processor Ichitaro v6" "application/x-ichitaro6";
  item MAGIC_ISO_9660_CD_ROM_FILESYSTEM_DATA__RAW_2352_BYTE_SECTORS_ "ISO 9660 CD-ROM filesystem data (raw 2352 byte sectors)" "application/x-iso9660-image";
  item MAGIC_JAVA_APPLET "Java Applet" "application/x-java-applet";
  item MAGIC_JAVA_JCE_KEYSTORE "Java JCE KeyStore" "application/x-java-jce-keystore";
  item MAGIC_JAVA_KEYSTORE "Java KeyStore" "application/x-java-keystore";
  item MAGIC_KDE_FILE "KDE file" "application/x-kdelnk";
  item MAGIC_LHA_ARCHIVE_DATA "LHa archive data" "application/x-lha";
  item MAGIC_LHARC_1_X_ARX_ARCHIVE_DATA__LH0_ "LHarc 1.x/ARX archive data [lh0]" "application/x-lharc";
  item MAGIC_LZ4_COMPRESSED_DATA__V0_1_V0_9_ "LZ4 compressed data (v0.1-v0.9)" "application/x-lz4";
  item MAGIC_LZIP_COMPRESSED_DATA "lzip compressed data" "application/x-lzip";
  item MAGIC_LZMA_COMPRESSED_DATA_ "LZMA compressed data," "application/x-lzma";
  item MAGIC_FRAMEMAKER_FILE "FrameMaker file" "application/x-mif";
  item MAGIC_MICROSOFT_ACCESS_DATABASE "Microsoft Access Database" "application/x-msaccess";
  item MAGIC_PGP_KEY_RING "PGP key ring" "application/x-pgp-keyring";
  item MAGIC_WINDOWS_PRECOMPILED_INF "Windows Precompiled iNF" "application/x-pnf";
  item MAGIC_MOTOROLA_QUARK_EXPRESS_DOCUMENT__ENGLISH_ "Motorola Quark Express Document (English)" "application/x-quark-xpress-3";
  item MAGIC_APPLE_QUICKTIME_COMPRESSED_ARCHIVE "Apple QuickTime compressed archive" "application/x-quicktime-player";
  item MAGIC_RAR_ARCHIVE_DATA_ "RAR archive data," "application/x-rar";
  item MAGIC_RPM "RPM" "application/x-rpm";
  item MAGIC_SC_SPREADSHEET_FILE "sc spreadsheet file" "application/x-sc";
  item MAGIC_SCRIBUS_DOCUMENT "Scribus Document" "application/x-scribus";
  item MAGIC_SNAPPY_FRAMED_DATA "snappy framed data" "application/x-snappy-framed";
  item MAGIC_STUFFIT_ARCHIVE "StuffIt Archive" "application/x-stuffit";
  item MAGIC_PKG_DATASTREAM__SVR4_ "pkg Datastream (SVR4)" "application/x-svr4-package";
  item MAGIC_GNU_TAR_ARCHIVE "GNU tar archive" "application/x-tar";
  item MAGIC_TEX_FONT_METRIC_DATA "TeX font metric data" "application/x-tex-tfm";
  item MAGIC_INITIALIZATION_CONFIGURATION "INItialization configuration" "application/x-wine-extension-ini";
  item MAGIC_XZ_COMPRESSED_DATA "XZ compressed data" "application/x-xz";
  item MAGIC_ZOO_ARCHIVE_DATA "Zoo archive data" "application/x-zoo";
  item MAGIC_XML_DOCUMENT_TEXT "XML document text" "application/xml";
  item MAGIC_XML_SITEMAP_DOCUMENT_TEXT "XML Sitemap document text" "application/xml-sitemap";
  item MAGIC_ZIP_MULTI_VOLUME_ARCHIVE_DATA__AT_LEAST_PKZIP_V2_50_TO_EXTRACT "Zip multi-volume archive data, at least PKZIP v2.50 to extract" "application/zip";
  item MAGIC_STANDARD_MIDI_DATA "Standard MIDI data" "audio/midi";
  item MAGIC_MPEG_ADTS "MPEG ADTS" "audio/mpeg";
  item MAGIC_ATSC_A_52_AKA_AC_3_AKA_DOLBY_DIGITAL_STREAM_ "ATSC A/52 aka AC-3 aka Dolby Digital stream," "audio/vnd.dolby.dd-raw";
  item MAGIC_MONKEY_S_AUDIO_COMPRESSED_FORMAT "Monkey's Audio compressed format" "audio/x-ape";
  item MAGIC_FLAC_AUDIO_BITSTREAM_DATA "FLAC audio bitstream data" "audio/x-flac";
  item MAGIC_MPEG_ADIF__AAC "MPEG ADIF, AAC" "audio/x-hx-aac-adif";
  item MAGIC_MPEG_ADTS__AAC "MPEG ADTS, AAC" "audio/x-hx-aac-adts";
  item MAGIC_MODULE_SOUND_DATA "module sound data" "audio/x-mod";
  item MAGIC_MPEG_4_LOAS "MPEG-4 LOAS" "audio/x-mp4a-latm";
  item MAGIC_MUSEPACK_AUDIO "Musepack audio" "audio/x-musepack";
  item MAGIC_REALAUDIO_SOUND_FILE "RealAudio sound file" "audio/x-pn-realaudio";
  item MAGIC_UNKNOWN_AUDIO_FORMAT "Unknown audio format" "audio/x-unknown";
  item MAGIC_MBWF_RF64_AUDIO "MBWF/RF64 audio" "audio/x-wav";
  item MAGIC_PROTEIN_DATA_BANK_DATA__ID_CODE__S "Protein Data Bank data, ID Code s" "chemical/x-pdb";
  item MAGIC_GIF_IMAGE_DATA "GIF image data" "image/gif";
  item MAGIC_JPEG_2000_IMAGE "JPEG 2000 image" "image/jp2";
  item MAGIC_JPEG_IMAGE_DATA "JPEG image data" "image/jpeg";
  item MAGIC_PNG_IMAGE_DATA "PNG image data" "image/png";
  item MAGIC_SVG_SCALABLE_VECTOR_GRAPHICS_IMAGE "SVG Scalable Vector Graphics image" "image/svg+xml";
  item MAGIC_TIFF_IMAGE_DATA "TIFF image data" "image/tiff";
  item MAGIC_ADOBE_PHOTOSHOP_IMAGE "Adobe Photoshop Image" "image/vnd.adobe.photoshop";
  item MAGIC_DJVU_MULTIPLE_PAGE_DOCUMENT "DjVu multiple page document" "image/vnd.djvu";
  item MAGIC_DWG_AUTODESK_AUTOCAD_RELEASE_1_40 "DWG AutoDesk AutoCAD Release 1.40" "image/vnd.dwg";
  item MAGIC_AWARD_BIOS_LOGO__136_X_126 "Award BIOS Logo, 136 x 126" "image/x-award-bioslogo";
  item MAGIC_AWARD_BIOS_BITMAP "Award BIOS bitmap" "image/x-award-bmp";
  item MAGIC_CANON_CR2_RAW_IMAGE_DATA "Canon CR2 raw image data" "image/x-canon-cr2";
  item MAGIC_CANON_CIFF_RAW_IMAGE_DATA "Canon CIFF raw image data" "image/x-canon-crw";
  item MAGIC_CARTESIAN_PERCEPTUAL_COMPRESSION_IMAGE "Cartesian Perceptual Compression image" "image/x-cpi";
  item MAGIC_MS_WINDOWS_CURSOR_RESOURCE "MS Windows cursor resource" "image/x-cur";
  item MAGIC_DPX_IMAGE_DATA__BIG_ENDIAN_ "DPX image data, big-endian," "image/x-dpx";
  item MAGIC_OPENEXR_IMAGE_DATA_ "OpenEXR image data," "image/x-exr";
  item MAGIC_MS_WINDOWS_ICON_RESOURCE "MS Windows icon resource" "image/x-icon";
  item MAGIC_SYSLINUX__LSS16_IMAGE_DATA "SYSLINUX' LSS16 image data" "image/x-lss16";
  item MAGIC_PC_BITMAP__OS_2_1_X_FORMAT "PC bitmap, OS/2 1.x format" "image/x-ms-bmp";
  item MAGIC_NIFF_IMAGE_DATA "NIFF image data" "image/x-niff";
  item MAGIC_OLYMPUS_ORF_RAW_IMAGE_DATA__BIG_ENDIAN "Olympus ORF raw image data, big-endian" "image/x-olympus-orf";
  item MAGIC_PAINT_NET_IMAGE_DATA "Paint.NET image data" "image/x-paintnet";
  item MAGIC_PCX "PCX" "image/x-pcx";
  item MAGIC_PROGRESSIVE_GRAPHICS_IMAGE_DATA_ "Progressive Graphics image data," "image/x-pgf";
  item MAGIC_POLAR_MONITOR_BITMAP_TEXT "Polar Monitor Bitmap text" "image/x-polar-monitor-bitmap";
  item MAGIC_NETPBM_PPM_IMAGE_FILE "Netpbm PPM image file" "image/x-portable-pixmap";
  item MAGIC_APPLE_QUICKTIME_IMAGE__FAST_START_ "Apple QuickTime image (fast start)" "image/x-quicktime";
  item MAGIC_UNKNOWN_IMAGE_FORMAT "Unknown image format" "image/x-unknown";
  item MAGIC_FOVEON_X3F_RAW_IMAGE_DATA "Foveon X3F raw image data" "image/x-x3f";
  item MAGIC_GIMP_XCF_IMAGE_DATA_ "GIMP XCF image data," "image/x-xcf";
  item MAGIC_XCURSOR_DATA "Xcursor data" "image/x-xcursor";
  item MAGIC_X_PIXMAP_IMAGE_TEXT "X pixmap image text" "image/x-xpmi";
  item MAGIC_XWD_X_WINDOW_DUMP_IMAGE_DATA "XWD X Window Dump image data" "image/x-xwindowdump";
  item MAGIC_NEWS_TEXT "news text" "message/news";
  item MAGIC_MAIL_TEXT "mail text" "message/rfc822";
  item MAGIC_VRML_FILE "VRML file" "model/vrml";
  item MAGIC_X3D__EXTENSIBLE_3D__MODEL_XML_TEXT "X3D (Extensible 3D) model xml text" "model/x3d";
  item MAGIC_VCALENDAR_CALENDAR_FILE "vCalendar calendar file" "text/calendar";
  item MAGIC_HTML_DOCUMENT_TEXT "HTML document text" "text/html";
  item MAGIC_PGP_ENCRYPTED_DATA "PGP encrypted data" "text/PGP";
  item MAGIC_RICH_TEXT_FORMAT_DATA_ "Rich Text Format data," "text/rtf";
  item MAGIC_TEXMACS_DOCUMENT_TEXT "TeXmacs document text" "text/texmacs";
  item MAGIC_TROFF_OR_PREPROCESSOR_INPUT_TEXT "troff or preprocessor input text" "text/troff";
  item MAGIC_ASSEMBLER_SOURCE_TEXT "assembler source text" "text/x-asm";
  item MAGIC_AWK_SCRIPT_TEXT_EXECUTABLE "awk script text executable" "text/x-awk";
  item MAGIC_BCPL_SOURCE_TEXT "BCPL source text" "text/x-bcpl";
  item MAGIC_C_SOURCE_TEXT "C source text" "text/x-c";
  item MAGIC_CPP_SOURCE_TEXT "C++ source text" "text/x-c++";
  item MAGIC_UNIFIED_DIFF_OUTPUT_TEXT "unified diff output text" "text/x-diff";
  item MAGIC_FORTRAN_PROGRAM "FORTRAN program" "text/x-fortran";
  item MAGIC_GNU_AWK_SCRIPT_TEXT_EXECUTABLE "GNU awk script text executable" "text/x-gawk";
  item MAGIC_GNU_INFO_TEXT "GNU Info text" "text/x-info";
  item MAGIC_JAVA_SOURCE "Java source" "text/x-java";
  item MAGIC_LISP_SCHEME_PROGRAM_TEXT "Lisp/Scheme program text" "text/x-lisp";
  item MAGIC_LUA_SCRIPT_TEXT_EXECUTABLE "Lua script text executable" "text/x-lua";
  item MAGIC_M4_MACRO_PROCESSOR_SCRIPT_TEXT "M4 macro processor script text" "text/x-m4";
  item MAGIC_MAKEFILE_SCRIPT_TEXT "makefile script text" "text/x-makefile";
  item MAGIC_DOS_BATCH_FILE_TEXT "DOS batch file text" "text/x-msdos-batch";
  item MAGIC_NEW_AWK_SCRIPT_TEXT_EXECUTABLE "new awk script text executable" "text/x-nawk";
  item MAGIC_PASCAL_SOURCE_TEXT "Pascal source text" "text/x-pascal";
  item MAGIC_PERL_SCRIPT_TEXT "Perl script text" "text/x-perl";
  item MAGIC_PHP_SCRIPT_TEXT "PHP script text" "text/x-php";
  item MAGIC_GNU_GETTEXT_MESSAGE_CATALOGUE_TEXT "GNU gettext message catalogue text" "text/x-po";
  item MAGIC_PYTHON_SCRIPT_TEXT_EXECUTABLE "Python script text executable" "text/x-python";
  item MAGIC_RUBY_SOURCE_TEXT "Ruby source text" "text/x-ruby";
  item MAGIC_SHELLSCRIPT_TEXT_EXECUTABLE "Shellscript text executable" "text/x-shellscript";
  item MAGIC_TCL_TK_SCRIPT_TEXT_EXECUTABLE "Tcl/Tk script text executable" "text/x-tcl";
  item MAGIC_LATEX_FILE "LaTeX file" "text/x-tex";
  item MAGIC_TEXINFO_SOURCE_TEXT "Texinfo source text" "text/x-texinfo";
  item MAGIC_VCARD_VISITING_CARD "vCard visiting card" "text/x-vcard";
  item MAGIC_XMCD_DATABASE_FILE_FOR_KSCD "xmcd database file for kscd" "text/x-xmcd";
  item MAGIC_MPEG_SEQUENCE "MPEG sequence" "video/mpeg";
  item MAGIC_APPLE_QUICKTIME_MOVIE "Apple QuickTime movie" "video/quicktime";
  item MAGIC_WEBM "WebM" "video/webm";
  item MAGIC_FLC_ANIMATION "FLC animation" "video/x-flc";
  item MAGIC_FLI_ANIMATION__320X200X8 "FLI animation, 320x200x8" "video/x-fli";
  item MAGIC_MACROMEDIA_FLASH_VIDEO "Macromedia Flash Video" "video/x-flv";
  item MAGIC_JNG_VIDEO_DATA_ "JNG video data," "video/x-jng";
  item MAGIC_MNG_VIDEO_DATA_ "MNG video data," "video/x-mng";
  item MAGIC_MICROSOFT_ASF "Microsoft ASF" "video/x-ms-asf";
  item MAGIC_SILICON_GRAPHICS_MOVIE_FILE "Silicon Graphics movie file" "video/x-sgi-movie";
  item MAGIC_SYMBIAN_INSTALLATION_FILE__SYMBIAN_OS_9_X_ "Symbian installation file (Symbian OS 9.x)" "x-epoc/x-sisx-app"].

Section operations.
Context (bsearch : forall A, (A -> Z) -> list A -> option nat).

Definition kw_cmp (x : string) (y : magic_item) : Z := strcasecmp x (mime_type y).

Definition peak_magic_number (name : string) : option Z :=
  match bsearch _ (kw_cmp name) magic_items with
  | Some i => mime ← magic_items !! i; Some (guid mime)
  | None => Some MAGIC_PACKED_DATA
  end.

Section libmagic.
Context {magic_t : Type} (magic_buffer : magic_t -> list Z -> option string).

(** [struct peak_magic] *)
Record peak_magic := { handle : magic_t }.

Definition peak_magic_get (self : peak_magic) (buf : list Z) (len : Z) : option Z :=
  bytes ← rd_n buf 0 (Z.to_nat len);
  match magic_buffer (handle self) bytes with
  | None => Some MAGIC_PACKED_DATA
  | Some name => peak_magic_number name
  end.

(** [mem] says whether there is memory, [magic_open] yields a handle or NULL, and
    [magic_load] whether it failed.  [None] is NULL; what was made until then is freed. *)
Definition peak_magic_init (mem : bool) (magic_open : option magic_t) (magic_load : magic_t -> bool) : option peak_magic :=
  if negb mem then None else
  match magic_open with
  | None => None
  | Some handle => if magic_load handle then None else Some {| handle := handle |}
  end.

End libmagic.
End operations.

(** The inner [None] is NULL. *)
Definition peak_magic_name (number : Z) : option (option string) :=
  if MAGIC_MAX <=? number then Some None
  else item ← magic_items !! Z.to_nat number; Some (Some (mime_type item)).

Definition peak_magic_desc (number : Z) : option (option string) :=
  if MAGIC_MAX <=? number then Some None
  else item ← magic_items !! Z.to_nat number; Some (Some (description item)).

(** ** The table *)

Lemma magic_items_ascend : names_ascend lower mime_type magic_items = true.
Proof. vm_compute. reflexivity. Qed.

Lemma magic_items_guid i x : magic_items !! i = Some x -> guid x = Z.of_nat i.
Proof.
  assert (guid <$> magic_items = Z.of_nat <$> seq 0 186) as Hall by (vm_compute; reflexivity).
  intros Hx. apply (f_equal (fun l => l !! i)) in Hall. rewrite !list_lookup_fmap, Hx in Hall.
  destruct (seq 0 186 !! i) as [k|] eqn:E; [|done]. apply lookup_seq in E as [-> _]. by injection Hall as ->.
Qed.

Lemma magic_items_length : length magic_items = Z.to_nat MAGIC_MAX.
Proof. vm_compute. reflexivity. Qed.

Lemma magic_item_at n :
  0 <= n -> match magic_items !! Z.to_nat n with
  | Some x => n < MAGIC_MAX /\ guid x = n /\ peak_magic_name n = Some (Some (mime_type x)) /\
              peak_magic_desc n = Some (Some (description x))
  | None => MAGIC_MAX <= n /\ peak_magic_name n = Some None /\ peak_magic_desc n = Some None
  end.
Proof.
  intros Hn. unfold peak_magic_name, peak_magic_desc. destruct (Z.leb_spec MAGIC_MAX n).
  - rewrite lookup_ge_None_2; [done|]. rewrite magic_items_length. lia.
  - destruct (lookup_lt_is_Some_2 magic_items (Z.to_nat n)) as [x Hx]; [rewrite magic_items_length; lia|]. rewrite Hx.
    split_and!; [done| |done..]. rewrite (magic_items_guid _ _ Hx). lia.
Qed.

(** The number of a name is the one of the item with this name in any case. *)
Lemma magic_number_spec bsearch `{!Bsearch bsearch} s :
  match peak_magic_number bsearch s with
  | Some r => (exists x, magic_items !! Z.to_nat r = Some x /\ r = guid x /\ lower (mime_type x) = lower s) \/
              r = MAGIC_PACKED_DATA /\ forall x, x ∈ magic_items -> lower (mime_type x) <> lower s
  | None => False
  end.
Proof.
  unfold peak_magic_number.
  pose proof (names_search lower mime_type bsearch _ s (kw_cmp s) magic_items_ascend (fun x => strcasecmp_lower s (mime_type x))) as Hs.
  destruct (bsearch _ (kw_cmp s) magic_items) as [i|]; [|by right].
  destruct Hs as (x & Hx & E). rewrite Hx. left. exists x. by rewrite (magic_items_guid _ _ Hx), Nat2Z.id.
Qed.

(** ** Properties *)

(** Numbers and names of file types: the numbers below [MAGIC_MAX] and no others have a
    name and a description; a name in any case has its number, and a text that is no
    name, or bytes libmagic cannot name, the number of packed data; what libmagic names
    with a name of the table gets its number. *)
Theorem magic_names_roundtrip bsearch `{!Bsearch bsearch} {magic_t} (magic_buffer : magic_t -> list Z -> option string) self buf len n s :
  0 <= n -> 0 <= len <= msize buf ->
  (n < MAGIC_MAX <-> exists x, peak_magic_name n = Some (Some x)) /\
  (MAGIC_MAX <= n <-> peak_magic_name n = Some None /\ peak_magic_desc n = Some None) /\
  (forall x, peak_magic_name n = Some (Some x) -> lower s = lower x ->
     peak_magic_number bsearch s = Some n /\ exists d, peak_magic_desc n = Some (Some d)) /\
  ((forall k x, peak_magic_name k = Some (Some x) -> lower s <> lower x) -> peak_magic_number bsearch s = Some MAGIC_PACKED_DATA) /\
  exists bytes, rd_n buf 0 (Z.to_nat len) = Some bytes /\
    peak_magic_get bsearch magic_buffer self buf len =
      match magic_buffer (handle self) bytes with Some name => peak_magic_number bsearch name | None => Some MAGIC_PACKED_DATA end.
Proof.
  intros Hn Hlen. pose proof (magic_item_at n Hn) as Hi. pose proof (magic_number_spec bsearch s) as Hnum. split_and!.
  - destruct (magic_items !! Z.to_nat n); split; intros H; destruct_and?; naive_solver lia.
  - destruct (magic_items !! Z.to_nat n); split; intros H; destruct_and?; naive_solver lia.
  - intros x Hx Hs. destruct (magic_items !! Z.to_nat n) as [it|] eqn:Eit; [|destruct Hi as (_ & Hi & _); congruence].
    destruct Hi as (_ & Hg & Hname & Hd). split; [|by eexists]. assert (mime_type it = x) as Hit by congruence.
    destruct (peak_magic_number bsearch s) as [r|]; [|done].
    destruct Hnum as [(y & Hy & -> & E)|[_ Hno]]; [|exfalso; eapply Hno; [by eapply list_elem_of_lookup_2|congruence]].
    rewrite <- Hg. do 2 f_equal. assert (Z.to_nat (guid y) = Z.to_nat n) as Hk
      by (eapply (names_unique _ _ _ _ _ _ _ magic_items_ascend); [done..|congruence]). rewrite Hk in Hy. congruence.
  - intros Hno. destruct (peak_magic_number bsearch s) as [r|]; [|done]. destruct Hnum as [(y & Hy & -> & E)|[-> _]]; [|done].
    destruct (Hno (guid y) (mime_type y)); [|done]. pose proof (magic_item_at (guid y)) as H. rewrite Hy in H. apply H.
    rewrite (magic_items_guid _ _ Hy). lia.
  - unfold peak_magic_get. destruct (rd_n_is_Some buf 0 (Z.to_nat len)) as (bs & -> & _); [lia|lia|]. by exists bs.
Qed.

Lemma magic_names_roundtrip_witness :
  peak_magic_number binary_search "Application/PDF" = Some MAGIC_PDF_DOCUMENT /\
  peak_magic_get binary_search (fun (_ : unit) _ => Some "text/x-c"%string) {| handle := () |} [47; 42] 2 = Some MAGIC_C_SOURCE_TEXT.
Proof.
  destruct (magic_names_roundtrip binary_search (fun (_ : unit) _ => Some "text/x-c"%string) {| handle := () |} [47; 42] 2
    MAGIC_PDF_DOCUMENT "Application/PDF") as (_ & _ & H & _ & bs & E & G); [by vm_compute|by vm_compute|].
  split; [by apply (H "application/pdf"%string); vm_compute|]. rewrite G. vm_compute. reflexivity.
Defined.
