(* ===== verification/LiDetect.v ===== *)
(** * Application detectors

    Models the detectors of [lib/peak_li.c], one definition per [LI_DESCRIBE_APP]:
    a function of the memory and the packet that answers 0 or 1 (a [bool]).  A read
    through [packet->app] or [packet->flow] is bounds-checked against the memory;
    the structures overlaid on the payload are packed, so a member is a read at its
    offset.  [None] is an access outside the memory or through a NULL pointer. *)

From S2P Require Import Prelude Bytes Net Packet.

(** ** Access to the payload *)

Definition detector : Type := list Z -> peak_packet -> option bool.

Definition app8 (m : list Z) (packet : peak_packet) (off : Z) : option Z :=
  raw ← app_raw packet; rd m (raw + off).

(** A member read in host order. *)
Definition app16 (m : list Z) (packet : peak_packet) (off : Z) : option Z :=
  raw ← app_raw packet; peak_le16dec m (raw + off).

Definition app32 (m : list Z) (packet : peak_packet) (off : Z) : option Z :=
  raw ← app_raw packet; peak_le32dec m (raw + off).

Definition app64 (m : list Z) (packet : peak_packet) (off : Z) : option Z :=
  raw ← app_raw packet; peak_le64dec m (raw + off).

(** [be16dec], [be32dec] of a member. *)
Definition app_be16 (m : list Z) (packet : peak_packet) (off : Z) : option Z :=
  raw ← app_raw packet; peak_be16dec m (raw + off).

Definition app_be32 (m : list Z) (packet : peak_packet) (off : Z) : option Z :=
  raw ← app_raw packet; peak_be32dec m (raw + off).

(** The [n] bytes a [memcmp] with the payload looks at. *)
Definition app_bytes (m : list Z) (packet : peak_packet) (off : Z) (n : nat) : option (list Z) :=
  raw ← app_raw packet; rd_n m (raw + off) n.

Definition flow8 (m : list Z) (packet : peak_packet) (off : Z) : option Z :=
  raw ← flow_raw packet; rd m (raw + off).

Definition flow_be16 (m : list Z) (packet : peak_packet) (off : Z) : option Z :=
  raw ← flow_raw packet; peak_be16dec m (raw + off).

(** [if (c) return (0);] *)
Notation "'reject' c ;; k" := (if c then Some false else k)
  (at level 100, c at level 90, k at level 200, right associativity) : peak_scope.

(** The cases of a switch that [break]. *)
Definition one_of (x : Z) (cases : list Z) : bool := existsb (Z.eqb x) cases.

(** The characters of a C string, less the NUL. *)
Definition str (s : string) : list Z :=
  map (fun a => Z.of_N (Ascii.N_of_ascii a)) (String.list_ascii_of_string s).

Definition LI_ISDIGIT (x : Z) : bool := (48 <=? x) && (x <=? 57).

(** [LI_STRLEN] of the string at offset [off] of the payload.  The loop moves on
    by one byte while inside the payload: [app_len] iterations are enough. *)
Fixpoint li_strlen_loop (fuel : nat) (m : list Z) (packet : peak_packet) (off ret : Z) : option Z :=
  match fuel with
  | O => None
  | S fuel =>
      c ← app8 m packet (off + ret);
      if c =? 0 then Some ret
      else
        let ret := ret + 1 in
        if app_len packet <=? off + ret then Some 0
        else li_strlen_loop fuel m packet off ret
  end.

Definition LI_STRLEN (m : list Z) (packet : peak_packet) (off : Z) : option Z :=
  if (0 <=? off) && (off <? app_len packet)
  then li_strlen_loop (Z.to_nat (app_len packet)) m packet off 0
  else Some 0.

(** Whether [LI_EXCLUDE_PORT] leaves the detector. *)
Definition LI_EXCLUDE_PORT (packet : peak_packet) (prt : Z) : bool :=
  xorb (flow_sport packet =? prt) (flow_dport packet =? prt).

(** The loop of [LI_MATCH_PAYLOAD] over the keys; each [memcmp] reads [min] bytes. *)
Fixpoint match_keys (m : list Z) (packet : peak_packet) (keys : list (list Z)) (min : nat)
    : option bool :=
  match keys with
  | [] => Some false
  | key :: keys =>
      bs ← app_bytes m packet 0 min;
      if memcmp bs (take min key) =? 0 then Some true else match_keys m packet keys min
  end.

(** [LI_MATCH_PAYLOAD]: [None] of the inner option is falling through. *)
Definition LI_MATCH_PAYLOAD (m : list Z) (packet : peak_packet) (keys : list (list Z)) (min : nat)
    (k : option bool) : option bool :=
  reject app_len packet <? Z.of_nat min;;
  matched ← match_keys m packet keys min;
  if (matched : bool) then Some true else k.

(** ** Detectors *)

Definition sizeof_dns : Z := 12.

Definition peak_li_dns : detector := fun m packet =>
  let padding := if net_type packet =? IPPROTO_TCP then 2 else 0 in
  reject app_len packet <? sizeof_dns + padding;;
  len ← (if padding =? 0 then Some 0 else app_be16 m packet 0);
  reject negb (padding =? 0) && (len + 2 <? app_len packet);;
  decoded ← app_be16 m packet (padding + 2);
  reject negb (decoded .& 0x0070 =? 0);;
  reject negb (one_of (decoded .& 0x7800) [0 ≪ 11; 1 ≪ 11; 2 ≪ 11]);;
  if negb (decoded .& 0x8000 =? 0) then
    reject negb (one_of (decoded .& 0x000f) [0; 1; 3; 4; 5]);;
    Some true
  else
    reject negb (decoded .& 0x000f =? 0);;
    reject negb (decoded .& 0x0480 =? 0);;
    question_count ← app16 m packet (padding + 4);
    reject question_count =? 0;;
    answer_count ← app16 m packet (padding + 6);
    reject negb (answer_count =? 0);;
    Some true.

Definition sizeof_dhcp : Z := 236.

Definition peak_li_dhcp : detector := fun m packet =>
  reject app_len packet <? sizeof_dhcp;;
  op ← app8 m packet 0;
  reject negb (one_of op [1; 2]);;
  htype ← app8 m packet 1;
  reject negb (htype =? 1);;
  hlen ← app8 m packet 2;
  reject negb (hlen =? 6);;
  Some true.

Definition sizeof_stun : Z := 20.

Definition peak_li_stun : detector := fun m packet =>
  LI_MATCH_PAYLOAD m packet [str "RSP/"] 4
  (reject app_len packet <? sizeof_stun;;
   cookie ← app_be32 m packet 4;
   reject negb (cookie =? 0x2112A442);;
   Some true).

Definition peak_li_cvs : detector := fun m packet =>
  LI_MATCH_PAYLOAD m packet [str "BEGI"; str "I LO"; str "I HA"] 4 (Some false).

Definition sizeof_rtcp : Z := 4.

Definition peak_li_rtcp : detector := fun m packet =>
  reject app_len packet <? sizeof_rtcp;;
  v_p_count ← app8 m packet 0;
  reject negb (v_p_count ≫ 6 =? 2);;
  type ← app8 m packet 1;
  reject negb (one_of type [192; 193; 194; 195; 200; 201; 202; 203; 204; 205; 206; 207; 208; 209]);;
  Some true.

Definition sizeof_rtp : Z := 12.

Definition peak_li_rtp : detector := fun m packet =>
  reject app_len packet <? sizeof_rtp;;
  v_p_x_cc ← app8 m packet 0;
  reject negb (v_p_x_cc ≫ 6 =? 2);;
  timestamp ← app32 m packet 4;
  if timestamp =? 0 then Some true else
  m_pt ← app8 m packet 1;
  reject negb (one_of (m_pt .& 0x7f) [0; 3; 4; 5; 6; 7; 8; 9; 10; 11; 12; 13; 14; 15; 16; 17; 18;
                                      25; 26; 28; 31; 32; 33; 34]);;
  Some true.

Definition peak_li_sip : detector := fun m packet =>
  LI_MATCH_PAYLOAD m packet
    [str "SIP/"; str "INVI"; str "ACK "; str "BYE "; str "CANC"; str "OPTI"; str "REGI";
     str "PRAC"; str "SUBS"; str "NOTI"; str "PUBL"; str "INFO"; str "REFE"; str "MESS";
     str "UPDA"] 4 (Some false).

Definition peak_li_ftp : detector := fun m packet =>
  reject LI_EXCLUDE_PORT packet 110;;
  reject LI_EXCLUDE_PORT packet 25;;
  reject LI_EXCLUDE_PORT packet 465;;
  reject LI_EXCLUDE_PORT packet 587;;
  reject LI_EXCLUDE_PORT packet 194;;
  reject LI_EXCLUDE_PORT packet 6667;;
  LI_MATCH_PAYLOAD m packet [str "220 "; str "220-"; str "USER"] 4 (Some false).

Definition peak_li_ssh : detector := fun m packet =>
  LI_MATCH_PAYLOAD m packet [str "SSH-"] 4 (Some false).

Definition peak_li_imap : detector := fun m packet =>
  LI_MATCH_PAYLOAD m packet [str "* OK"] 4 (Some false).

Definition peak_li_smtp : detector := fun m packet =>
  reject LI_EXCLUDE_PORT packet 21;;
  LI_MATCH_PAYLOAD m packet [str "220 "; str "220-"; str "HELO"; str "EHLO"] 4 (Some false).

Definition peak_li_pop3 : detector := fun m packet =>
  reject LI_EXCLUDE_PORT packet 21;;
  reject LI_EXCLUDE_PORT packet 194;;
  reject LI_EXCLUDE_PORT packet 6667;;
  LI_MATCH_PAYLOAD m packet [str "+OK "; str "USER"; str "CAPA"; str "AUTH"] 4 (Some false).

Definition peak_li_telnet : detector := fun m packet =>
  reject app_len packet <? 2;;
  c0 ← app8 m packet 0;
  reject negb (c0 =? 0xFF);;
  c1 ← app8 m packet 1;
  let next := if c1 =? 0xF0 then 2 else if c1 =? 0xFA then 4 else 3 in
  if next <? app_len packet then
    c ← app8 m packet next;
    reject negb (c =? 0xFF);;
    Some true
  else Some true.

Definition sizeof_rip : Z := 24.

Definition peak_li_rip : detector := fun m packet =>
  reject app_len packet <? sizeof_rip;;
  zero ← app16 m packet 2;
  reject negb (zero =? 0);;
  version ← app8 m packet 1;
  reject negb (one_of version [1; 2]);;
  command ← app8 m packet 0;
  reject negb (one_of command [1; 2]);;
  Some true.

Definition sizeof_dtls : Z := 13.

Definition peak_li_dtls : detector := fun m packet =>
  reject app_len packet <? sizeof_dtls;;
  decoded ← app_be16 m packet 11;
  reject (decoded =? 0) || (0x4000 <? decoded);;
  version ← app_be16 m packet 1;
  reject negb (version =? 0xFEFF);;
  Some true.

Definition sizeof_tls : Z := 5.

Definition peak_li_tls : detector := fun m packet =>
  reject app_len packet <? sizeof_tls;;
  decoded ← app_be16 m packet 3;
  reject (decoded =? 0) || (0x4000 <? decoded);;
  record_type ← app8 m packet 0;
  reject negb (one_of record_type [20; 21; 22; 23]);;
  version ← app_be16 m packet 1;
  reject negb (one_of version [0x0300; 0x0301; 0x0302; 0x0303]);;
  Some true.

Definition sizeof_ike : Z := 28.

Definition peak_li_ike : detector := fun m packet =>
  reject app_len packet <? sizeof_ike;;
  initiator_cookie ← app64 m packet 0;
  reject initiator_cookie =? 0;;
  let check_length :=
    length ← app_be32 m packet 24;
    reject negb (length =? app_len packet);;
    Some true in
  version ← app8 m packet 17;
  if version ≫ 4 =? 1 then
    next_payload ← app8 m packet 16;
    reject (next_payload <? 1) || (13 <? next_payload);;
    exchange_type ← app8 m packet 18;
    reject (exchange_type <? 1) || (5 <? exchange_type);;
    check_length
  else if version ≫ 4 =? 2 then
    next_payload ← app8 m packet 16;
    reject (next_payload <? 33) || (49 <? next_payload);;
    exchange_type ← app8 m packet 18;
    reject (exchange_type <? 34) || (38 <? exchange_type);;
    check_length
  else Some false.

Definition sizeof_bgp : Z := 19.

Definition peak_li_bgp : detector := fun m packet =>
  reject app_len packet <? sizeof_bgp;;
  marker ← app_bytes m packet 0 16;
  reject negb (memcmp marker (replicate 16 0xFF) =? 0);;
  msg_length ← app_be16 m packet 16;
  reject msg_length <? sizeof_bgp;;
  msg_type ← app8 m packet 18;
  reject negb (one_of msg_type [1; 2; 3; 4; 5]);;
  Some true.

Definition peak_li_http : detector := fun m packet =>
  LI_MATCH_PAYLOAD m packet
    [str "HTTP"; str "GET "; str "HEAD"; str "POST"; str "PUT "; str "DELE"; str "TRAC";
     str "CONN"; str "OPTI"; str "PROP"; str "MKCO"; str "COPY"; str "MOVE"; str "LOCK";
     str "UNLO"; str "SOUR"] 4 (Some false).

Definition peak_li_rtsp : detector := fun m packet =>
  LI_MATCH_PAYLOAD m packet
    [str "RTSP"; str "DESC"; str "ANNO"; str "GET_"; str "OPTI"; str "PAUS"; str "PLAY";
     str "RECO"; str "REDI"; str "SETU"; str "SET_"; str "TEAR"] 4 (Some false).

Definition sizeof_netflow_v1_record : Z := 48.
Definition sizeof_netflow_v1_header : Z := 16.

Definition peak_li_netflow_v1 : detector := fun m packet =>
  reject app_len packet <? sizeof_netflow_v1_header + sizeof_netflow_v1_record;;
  decoded ← app_be16 m packet 2;
  reject (decoded =? 0) || (24 <? decoded);;
  pad1 ← app16 m packet (sizeof_netflow_v1_header + 36);
  reject negb (pad1 =? 0);;
  pad2 ← app_bytes m packet (sizeof_netflow_v1_header + 41) 3;
  reject negb (memcmp pad2 [0; 0; 0] =? 0);;
  src_addr ← app32 m packet sizeof_netflow_v1_header;
  reject src_addr =? 0;;
  dst_addr ← app32 m packet (sizeof_netflow_v1_header + 4);
  reject dst_addr =? 0;;
  reject negb (app_len packet =? sizeof_netflow_v1_header + decoded * sizeof_netflow_v1_record);;
  Some true.

Definition sizeof_netflow_v5_record : Z := 48.
Definition sizeof_netflow_v5_header : Z := 24.

Definition peak_li_netflow_v5 : detector := fun m packet =>
  reject app_len packet <? sizeof_netflow_v5_header + sizeof_netflow_v5_record;;
  decoded ← app_be16 m packet 2;
  reject (decoded =? 0) || (30 <? decoded);;
  pad1 ← app8 m packet (sizeof_netflow_v5_header + 36);
  reject negb (pad1 =? 0);;
  pad2 ← app16 m packet (sizeof_netflow_v5_header + 46);
  reject negb (pad2 =? 0);;
  src_addr ← app32 m packet sizeof_netflow_v5_header;
  reject src_addr =? 0;;
  dst_addr ← app32 m packet (sizeof_netflow_v5_header + 4);
  reject dst_addr =? 0;;
  reject negb (app_len packet =? sizeof_netflow_v5_header + decoded * sizeof_netflow_v5_record);;
  Some true.

Definition peak_li_netflow : detector := fun m packet =>
  reject app_len packet <? 2;;
  version ← app_be16 m packet 0;
  if version =? 1 then peak_li_netflow_v1 m packet
  else if version =? 5 then peak_li_netflow_v5 m packet
  else Some false.

Definition sizeof_radius : Z := 20.

Definition peak_li_radius : detector := fun m packet =>
  reject app_len packet <? sizeof_radius;;
  decoded ← app_be16 m packet 2;
  reject (decoded <? 20) || (4096 <? decoded);;
  reject negb (app_len packet =? decoded);;
  code ← app8 m packet 0;
  reject negb (one_of code [1; 2; 3; 4; 5; 11; 12; 13]);;
  Some true.

Definition peak_li_bittorrent : detector := fun m packet =>
  LI_MATCH_PAYLOAD m packet [0x13 :: str "Bit"] 4 (Some false).

Definition peak_li_gnutella : detector := fun m packet =>
  LI_MATCH_PAYLOAD m packet [str "GNUT"; str "GIV "] 4 (Some false).

Definition sizeof_netbios_name : Z := 12.

Definition peak_li_netbios_name_service : detector := fun m packet =>
  let padding := if net_type packet =? IPPROTO_TCP then 2 else 0 in
  reject app_len packet <? sizeof_netbios_name + padding;;
  decoded ← app_be16 m packet (padding + 2);
  reject negb (decoded .& 0x0060 =? 0);;
  reject negb (one_of (decoded .& 0x000F) [0x0; 0x1; 0x2; 0x3; 0x4; 0x5; 0x6; 0x7]);;
  reject negb (one_of (decoded .& 0x7800) [0 ≪ 11; 5 ≪ 11; 6 ≪ 11; 7 ≪ 11; 8 ≪ 11]);;
  Some true.

Definition sizeof_tftp : Z := 4.

(** Offset of [ptr->u.file]. *)
Definition tftp_file : Z := 2.

(** The read and write requests: a file name, then a mode. *)
Definition tftp_request : detector := fun m packet =>
  file_len ← LI_STRLEN m packet tftp_file;
  reject file_len =? 0;;
  mode_len ← LI_STRLEN m packet (tftp_file + file_len + 1);
  reject mode_len =? 0;;
  c ← app8 m packet (tftp_file + file_len + 1);
  reject negb (one_of c [79; 111; 78; 110; 77; 109]);;
  Some true.

Definition peak_li_tftp : detector := fun m packet =>
  reject app_len packet <? sizeof_tftp;;
  opcode ← app_be16 m packet 0;
  if one_of opcode [1; 2] then tftp_request m packet
  else if opcode =? 3 then
    block ← app16 m packet 2;
    reject block =? 0;;
    reject sizeof_tftp + 512 <? app_len packet;;
    Some true
  else if opcode =? 4 then
    reject sizeof_tftp <? app_len packet;;
    Some true
  else if opcode =? 5 then
    error_code ← app_be16 m packet 2;
    reject negb (one_of error_code [0; 1; 2; 3; 4; 5; 6; 7]);;
    Some true
  else Some false.

Definition sizeof_netbios_session : Z := 4.

Definition peak_li_netbios_session_service : detector := fun m packet =>
  reject negb (net_type packet =? IPPROTO_TCP);;
  reject app_len packet <? sizeof_netbios_session;;
  flags ← app8 m packet 1;
  reject negb (flags .& 0xFE =? 0);;
  type ← app8 m packet 0;
  reject negb (one_of type [0x00; 0x81; 0x82; 0x83; 0x84; 0x85]);;
  Some true.

Definition sizeof_netbios_datagram : Z := 14.

Definition peak_li_netbios_datagram_service : detector := fun m packet =>
  reject negb (net_type packet =? IPPROTO_UDP);;
  reject app_len packet <? sizeof_netbios_datagram;;
  flags ← app8 m packet 1;
  reject negb (flags .& 0xF0 =? 0);;
  source_ip ← app32 m packet 4;
  reject source_ip =? 0;;
  source_port ← app16 m packet 8;
  reject source_port =? 0;;
  msg_type ← app8 m packet 0;
  reject negb (one_of msg_type [0x10; 0x11; 0x12; 0x13; 0x14; 0x15; 0x16]);;
  Some true.

(** The or of three calls stops at the first that answers 1. *)
Definition peak_li_netbios : detector := fun m packet =>
  datagram ← peak_li_netbios_datagram_service m packet;
  if (datagram : bool) then Some true else
  session ← peak_li_netbios_session_service m packet;
  if (session : bool) then Some true else
  peak_li_netbios_name_service m packet.

Definition sizeof_pptp : Z := 8.

Definition peak_li_pptp_raw : detector := fun m packet =>
  reject app_len packet <? sizeof_pptp;;
  cookie ← app_be32 m packet 4;
  reject negb (cookie =? 0x1A2B3C4D);;
  length ← app_be16 m packet 0;
  reject length <? sizeof_pptp;;
  type ← app_be16 m packet 2;
  reject negb (one_of type [1; 2]);;
  Some true.

Definition sizeof_l2tp : Z := 12.

Definition peak_li_l2tp : detector := fun m packet =>
  reject app_len packet <? sizeof_l2tp;;
  version ← app8 m packet 1;
  reject negb (one_of version [2; 3]);;
  flags ← app8 m packet 0;
  reject flags .& 0x80 =? 0;;
  reject flags .& 0x78 =? 0;;
  reject negb (flags .& 0x37 =? 0);;
  length ← app_be16 m packet 2;
  reject negb (app_len packet =? length);;
  Some true.

Definition sizeof_ntp : Z := 48.
Definition sizeof_ntp_v2 : Z := 60.
Definition sizeof_ntp_v4 : Z := 68.

Definition peak_li_ntp : detector := fun m packet =>
  reject app_len packet <? sizeof_ntp;;
  flags ← app8 m packet 0;
  let version := flags .& 0x38 in
  if version =? 1 ≪ 3 then
    reject negb (app_len packet =? sizeof_ntp);;
    reject negb (flags .& 0x05 =? 0);;
    Some true
  else if one_of version [2 ≪ 3; 3 ≪ 3] then
    reject negb (one_of (app_len packet) [sizeof_ntp; sizeof_ntp_v2]);;
    reject flags .& 0x05 =? 0;;
    Some true
  else if version =? 4 ≪ 3 then
    reject negb (one_of (app_len packet) [sizeof_ntp; sizeof_ntp_v4]);;
    reject flags .& 0x05 =? 0;;
    Some true
  else Some false.

Definition sizeof_gre : Z := 8.

Definition peak_li_pptp_gre : detector := fun m packet =>
  reject flow_len packet <? sizeof_gre;;
  protocol ← flow_be16 m packet 2;
  reject negb (protocol =? 0x880B);;
  CRKSs_recur ← flow8 m packet 0;
  reject negb (CRKSs_recur .& 0xCF =? 0);;
  reject CRKSs_recur .& 0x20 =? 0;;
  A_flags_version ← flow8 m packet 1;
  reject negb (A_flags_version .& 0x07 =? 1);;
  reject negb (A_flags_version .& 0x78 =? 0);;
  Some true.

Definition peak_li_pptp : detector := fun m packet =>
  if net_type packet =? IPPROTO_GRE then peak_li_pptp_gre m packet
  else peak_li_pptp_raw m packet.

Definition sizeof_ldap : Z := 8.

Definition peak_li_ldap : detector := fun m packet =>
  reject app_len packet <? sizeof_ldap;;
  identifier_type ← app8 m packet 0;
  reject negb (identifier_type =? 0x30);;
  identifier_length ← app8 m packet 1;
  reject (identifier_length .& 0x80 =? 0) || negb (identifier_length .& 0x7F =? 4);;
  message_type ← app8 m packet 6;
  reject negb (message_type =? 0x02);;
  message_length ← app8 m packet 7;
  reject message_length =? 0;;
  reject app_len packet <? sizeof_ldap + message_length;;
  op_type ← app8 m packet (sizeof_ldap + message_length);
  reject negb (op_type .& 0xE0 =? 0x60);;
  reject negb (one_of (op_type .& 0x1F) [0; 1; 2; 3; 4; 5; 6; 7; 8; 9; 10; 11; 12; 13; 14; 15; 16;
                                         19; 23; 24]);;
  Some true.

Definition sizeof_snmp : Z := 7.

Definition peak_li_snmp : detector := fun m packet =>
  reject app_len packet <? sizeof_snmp;;
  identifier_type ← app8 m packet 0;
  reject negb (identifier_type =? 0x30);;
  version_type ← app8 m packet 2;
  reject negb (version_type =? 0x02);;
  version_length ← app8 m packet 3;
  reject negb (version_length =? 0x01);;
  version_value ← app8 m packet 4;
  reject negb (one_of version_value [0; 1; 3]);;
  community_type ← app8 m packet 5;
  reject negb (community_type =? 0x04);;
  community_length ← app8 m packet 6;
  reject app_len packet <? sizeof_snmp + community_length + 2;;
  pdu_value ← app8 m packet (sizeof_snmp + community_length + 2);
  reject negb (one_of pdu_value [0; 1; 2; 3; 4; 5; 6; 7; 8]);;
  Some true.

Definition sizeof_impp : Z := 4.

Definition peak_li_impp : detector := fun m packet =>
  reject app_len packet <? sizeof_impp;;
  start_byte ← app8 m packet 0;
  reject negb (start_byte =? 0x6F);;
  channel ← app8 m packet 1;
  reject negb (one_of channel [0x01; 0x02]);;
  version ← app_be16 m packet 2;
  reject negb (one_of version [6; 7; 8; 10]);;
  Some true.

Definition peak_li_xmpp : detector := fun m packet =>
  LI_MATCH_PAYLOAD m packet [str "<?xm"; str "<str"; str "<pre"] 4 (Some false).

Definition sizeof_openvpn : Z := 9.

Definition peak_li_openvpn : detector := fun m packet =>
  let padding := if net_type packet =? IPPROTO_TCP then 2 else 0 in
  reject app_len packet <? sizeof_openvpn + padding;;
  len ← (if padding =? 0 then Some 0 else app_be16 m packet 0);
  reject negb (padding =? 0) && (len + 2 <? app_len packet);;
  opcode ← app8 m packet padding;
  reject negb (one_of opcode [4 ≪ 3; 5 ≪ 3; 7 ≪ 3; 8 ≪ 3]);;
  Some true.

Definition peak_li_irc : detector := fun m packet =>
  reject LI_EXCLUDE_PORT packet 110;;
  reject LI_EXCLUDE_PORT packet 21;;
  LI_MATCH_PAYLOAD m packet
    [str "NICK"; str "PASS"; str "USER"; str ":irc"; str ":loc"; str "WHO "; str "WHOI";
     str "PING"; str "CAP "; str "JOIN"; str "PRIV"] 4 (Some false).

Definition peak_li_syslog : detector := fun m packet =>
  reject app_len packet <? 3;;
  c0 ← app8 m packet 0;
  reject negb (c0 =? 60);;
  c1 ← app8 m packet 1;
  reject negb (LI_ISDIGIT c1);;
  c2 ← app8 m packet 2;
  reject negb (LI_ISDIGIT c2) && negb (c2 =? 62);;
  Some true.

Definition peak_li_iptype : detector := fun m packet => Some true.

(** Instances are found by the detector's name, not by its body. *)
#[export] Typeclasses Opaque
  peak_li_dns peak_li_dhcp peak_li_stun peak_li_cvs peak_li_rtcp peak_li_rtp peak_li_sip
  peak_li_ftp peak_li_ssh peak_li_imap peak_li_smtp peak_li_pop3 peak_li_telnet peak_li_rip
  peak_li_dtls peak_li_tls peak_li_ike peak_li_bgp peak_li_http peak_li_rtsp
  peak_li_netflow_v1 peak_li_netflow_v5 peak_li_netflow peak_li_radius peak_li_bittorrent
  peak_li_gnutella peak_li_netbios_name_service peak_li_tftp peak_li_netbios_session_service
  peak_li_netbios_datagram_service peak_li_netbios peak_li_pptp_raw peak_li_l2tp peak_li_ntp
  peak_li_pptp_gre peak_li_pptp peak_li_ldap peak_li_snmp peak_li_impp peak_li_xmpp
  peak_li_openvpn peak_li_irc peak_li_syslog peak_li_iptype.

(** ** Reads inside the payload *)

(** The packet's application and transport data lie in the memory, with [slack]
    bytes after the application data.  The memory may end right there. *)
Record payload_in (slack : Z) (m : list Z) (packet : peak_packet) : Prop := {
  pi_bytes : bytes m;
  pi_app : 0 < app_len packet -> exists a, app_raw packet = Some a /\ 0 <= a /\
             a + app_len packet + slack <= msize m;
  pi_flow : 0 < flow_len packet -> exists f, flow_raw packet = Some f /\ 0 <= f /\
              f + flow_len packet <= msize m
}.

(** What [peak_li_get] needs of a detector: an answer, given [slack] bytes of memory
    after the payload. *)
Class Safe (slack : Z) (d : detector) : Prop :=
  safe m packet : payload_in slack m packet -> exists b, d m packet = Some b.

Section reads.
Context {slack : Z} {m : list Z} {packet : peak_packet}.
Hypothesis Hs : 0 <= slack.
Hypothesis Hp : payload_in slack m packet.

Lemma app8_in off : 0 < app_len packet -> 0 <= off < app_len packet + slack ->
  exists v, app8 m packet off = Some v /\ fits 8 v.
Proof.
  intros Ha Ho. destruct (pi_app _ _ _ Hp Ha) as (a & E & H0 & H1). unfold app8.
  rewrite E. cbn. destruct (rd_in m (a + off)) as [v Hv]; [lia|]. exists v. split; [done|].
  eapply rd_byte; [apply Hp|done].
Qed.

Lemma app_n_in n off : 0 < app_len packet -> 0 <= off -> off + Z.of_nat n <= app_len packet ->
  exists bs, app_bytes m packet off n = Some bs /\ length bs = n.
Proof.
  intros Ha Ho Hn. destruct (pi_app _ _ _ Hp Ha) as (a & E & H0 & H1). unfold app_bytes.
  rewrite E. cbn. destruct (rd_n_is_Some m (a + off) n) as (bs & -> & Hl); [lia..|eauto].
Qed.

(** Members wider than a byte. *)
Lemma app_dec_in (dec : list Z -> Z -> option Z) (val : list Z -> Z) n off :
  (forall m p, bytes m -> dec m p = val <$> rd_n m p n) ->
  (0 < n)%nat -> 0 <= off -> off + Z.of_nat n <= app_len packet ->
  exists v, (raw ← app_raw packet; dec m (raw + off)) = Some v.
Proof.
  intros Hd Hn Ho Hlen. destruct (pi_app _ _ _ Hp) as (a & E & H0 & H1); [lia|].
  rewrite E. cbn. rewrite Hd by apply Hp.
  destruct (rd_n_is_Some m (a + off) n) as (bs & -> & _); [lia..|]. by eexists.
Qed.

Lemma app16_in off : 0 <= off -> off + 2 <= app_len packet -> exists v, app16 m packet off = Some v.
Proof. intros. eapply (app_dec_in _ _ 2); eauto using le16dec_spec with lia. Qed.

Lemma app32_in off : 0 <= off -> off + 4 <= app_len packet -> exists v, app32 m packet off = Some v.
Proof. intros. eapply (app_dec_in _ _ 4); eauto using le32dec_spec with lia. Qed.

Lemma app64_in off : 0 <= off -> off + 8 <= app_len packet -> exists v, app64 m packet off = Some v.
Proof. intros. eapply (app_dec_in _ _ 8); eauto using le64dec_spec with lia. Qed.

Lemma app_be16_in off : 0 <= off -> off + 2 <= app_len packet -> exists v, app_be16 m packet off = Some v.
Proof. intros. eapply (app_dec_in _ _ 2); eauto using be16dec_spec with lia. Qed.

Lemma app_be32_in off : 0 <= off -> off + 4 <= app_len packet -> exists v, app_be32 m packet off = Some v.
Proof. intros. eapply (app_dec_in _ _ 4); eauto using be32dec_spec with lia. Qed.

Lemma flow8_in off : 0 <= off < flow_len packet -> exists v, flow8 m packet off = Some v.
Proof.
  intros Ho. destruct (pi_flow _ _ _ Hp) as (f & E & H0 & H1); [lia|]. unfold flow8.
  rewrite E. cbn. apply rd_in. lia.
Qed.

Lemma flow_be16_in off : 0 <= off -> off + 2 <= flow_len packet ->
  exists v, flow_be16 m packet off = Some v.
Proof.
  intros Ho Hl. destruct (pi_flow _ _ _ Hp) as (f & E & H0 & H1); [lia|]. unfold flow_be16.
  rewrite E. cbn. apply be16dec_in; [apply Hp|lia..].
Qed.

End reads.

Create HintDb li_sizes discriminated.
#[export] Hint Unfold sizeof_dns sizeof_dhcp sizeof_stun sizeof_rtcp sizeof_rtp sizeof_rip
  sizeof_dtls sizeof_tls sizeof_ike sizeof_bgp sizeof_netflow_v1_record sizeof_netflow_v1_header
  sizeof_netflow_v5_record sizeof_netflow_v5_header sizeof_radius sizeof_netbios_name sizeof_tftp
  tftp_file sizeof_netbios_session sizeof_netbios_datagram sizeof_pptp sizeof_l2tp sizeof_ntp
  sizeof_gre sizeof_ldap sizeof_snmp sizeof_impp sizeof_openvpn : li_sizes.

Ltac li_lia := unfold fits in *; autounfold with li_sizes in *; lia.

(** ** Keywords *)

(** The keys are compared whole. *)
Lemma match_keys_spec m packet keys n bs :
  app_bytes m packet 0 n = Some bs -> length bs = n -> Forall (fun k => length k = n) keys ->
  match_keys m packet keys n = Some (bool_decide (bs ∈ keys)).
Proof.
  intros E Hl Hk. induction Hk as [|k keys Hk _ IH]; simpl; [done|].
  rewrite E. cbn [mbind option_bind]. rewrite (firstn_all2 k) by lia.
  destruct (Z.eqb_spec (memcmp bs k) 0) as [H|H].
  - apply memcmp_eq in H; [|congruence]. subst. symmetry. f_equal. apply bool_decide_eq_true_2. left.
  - rewrite IH. f_equal. apply bool_decide_ext. rewrite elem_of_cons. split; [by right|].
    intros [->|Hin]; [|done]. exfalso. apply H. by apply memcmp_eq.
Qed.

(** [LI_MATCH_PAYLOAD]: too short is no; one of the keys is yes; otherwise go on. *)
Lemma match_payload_spec slack m packet keys n k :
  0 <= slack -> payload_in slack m packet -> (0 < n)%nat ->
  Forall (fun k => length k = n) keys ->
  (app_len packet < Z.of_nat n /\ LI_MATCH_PAYLOAD m packet keys n k = Some false) \/
  (Z.of_nat n <= app_len packet /\ exists bs, app_bytes m packet 0 n = Some bs /\
     LI_MATCH_PAYLOAD m packet keys n k = if bool_decide (bs ∈ keys) then Some true else k).
Proof.
  intros Hs Hp Hn Hk. unfold LI_MATCH_PAYLOAD. destruct (Z.ltb_spec (app_len packet) (Z.of_nat n)).
  - by left.
  - right. split; [done|]. destruct (app_n_in Hs Hp n 0) as (bs & E & Hl); [lia..|].
    exists bs. split; [done|]. by rewrite (match_keys_spec _ _ _ _ _ E Hl Hk).
Qed.

Lemma match_payload_safe slack m packet keys n k :
  0 <= slack -> payload_in slack m packet -> (0 < n)%nat ->
  Forall (fun k => length k = n) keys ->
  (Z.of_nat n <= app_len packet -> exists b, k = Some b) ->
  exists b, LI_MATCH_PAYLOAD m packet keys n k = Some b.
Proof.
  intros Hs Hp Hn Hk Hc. destruct (match_payload_spec slack m packet keys n k)
    as [[_ ->]|(Hl & bs & _ & ->)]; [done..|by eexists|].
  case_bool_decide; [by eexists|auto].
Qed.

(** ** Strings in the payload *)

(** [n] is the length of the string at [off]: a NUL ends it, inside the payload. *)
Definition ends_at (m : list Z) (packet : peak_packet) (off n : Z) : Prop :=
  0 <= n /\ 0 <= off /\ off + n < app_len packet /\ app8 m packet (off + n) = Some 0 /\
  forall i, 0 <= i < n -> app8 m packet (off + i) <> Some 0.

Lemma li_strlen_loop_spec slack m packet fuel off ret :
  0 <= slack -> payload_in slack m packet -> 0 <= off -> 0 <= ret ->
  off + ret < app_len packet -> app_len packet - off - ret <= Z.of_nat fuel ->
  (forall i, 0 <= i < ret -> app8 m packet (off + i) <> Some 0) ->
  exists n, li_strlen_loop fuel m packet off ret = Some n /\
    (ends_at m packet off n \/
     n = 0 /\ forall i, 0 <= i -> off + i < app_len packet -> app8 m packet (off + i) <> Some 0).
Proof.
  intros Hs Hp Ho. revert ret. induction fuel as [|fuel IH]; intros ret Hr Hlt Hf Hpre; [lia|].
  simpl. destruct (app8_in Hp (off + ret)) as (c & E & _); [lia..|].
  rewrite E. cbn [mbind option_bind]. destruct (Z.eqb_spec c 0) as [->|Hc].
  - exists ret. split; [done|]. left. by split_and!.
  - assert (forall i, 0 <= i < ret + 1 -> app8 m packet (off + i) <> Some 0) as Hpre'.
    { intros i Hi. destruct (decide (i = ret)) as [->|]; [congruence|]. apply Hpre. lia. }
    destruct (Z.leb_spec (app_len packet) (off + (ret + 1))).
    + exists 0. split; [done|]. right. split; [done|]. intros i Hi Hlen. apply Hpre'. lia.
    + apply IH; auto; lia.
Qed.

(** [LI_STRLEN] is the length of a terminated string, 0 when there is none. *)
Lemma li_strlen_spec slack m packet off :
  0 <= slack -> payload_in slack m packet ->
  exists n, LI_STRLEN m packet off = Some n /\
    (ends_at m packet off n \/ n = 0 /\ forall k, ~ ends_at m packet off k).
Proof.
  intros Hs Hp. unfold LI_STRLEN.
  destruct (Z.leb_spec 0 off), (Z.ltb_spec off (app_len packet)); cbn [andb].
  - destruct (li_strlen_loop_spec slack m packet (Z.to_nat (app_len packet)) off 0)
      as (n & -> & [H1|[-> H1]]); [done|done|lia..| |].
    + exists n. auto.
    + exists 0. split; [done|]. right. split; [done|]. intros k (Hk & _ & Hlt & E & _). by apply (H1 k).
  - exists 0. split; [done|]. right. split; [done|]. intros k (? & ? & ? & _). lia.
  - exists 0. split; [done|]. right. split; [done|]. intros k (? & ? & ? & _). lia.
  - exists 0. split; [done|]. right. split; [done|]. intros k (? & ? & ? & _). lia.
Qed.

(** A string has one end. *)
Lemma ends_at_unique m packet off n n' :
  ends_at m packet off n -> ends_at m packet off n' -> n = n'.
Proof.
  intros (H0 & _ & _ & E & Hn) (H0' & _ & _ & E' & Hn').
  destruct (Z.lt_trichotomy n n') as [Hlt|[->|Hlt]]; [|done|]; exfalso.
  - by apply (Hn' n).
  - by apply (Hn n').
Qed.

(** Follow a detector: take every early return, perform every read. *)
Ltac li_read lem o Hp :=
  let E := fresh "R" in
  match type of Hp with payload_in ?sl _ _ =>
    edestruct lem with (slack := sl) (off := o) as (? & E & ?) ||
    edestruct lem with (slack := sl) (off := o) as (? & E) end;
    [first [exact Hp | li_lia]..|]; rewrite E; cbn [mbind option_bind].

Ltac li_read_n k o Hp :=
  let E := fresh "R" in
  match type of Hp with payload_in ?sl _ _ =>
    destruct (app_n_in (slack := sl) ltac:(lia) Hp k o) as (? & E & ?) end;
    [li_lia..|]; rewrite E; cbn [mbind option_bind].

Ltac li_step Hp :=
  match goal with
  | |- exists _, (if ?c then Some false else _) = Some _ =>
      let C := fresh "C" in destruct c eqn:C; [by eexists|];
      try apply Z.ltb_ge in C
  | |- exists _, (if ?c then _ else _) = Some _ => let C := fresh "C" in destruct c eqn:C
  | |- exists _, (_ ← app8 _ _ ?o; _) = Some _ => li_read app8_in o Hp
  | |- exists _, (_ ← app16 _ _ ?o; _) = Some _ => li_read app16_in o Hp
  | |- exists _, (_ ← app32 _ _ ?o; _) = Some _ => li_read app32_in o Hp
  | |- exists _, (_ ← app64 _ _ ?o; _) = Some _ => li_read app64_in o Hp
  | |- exists _, (_ ← app_be16 _ _ ?o; _) = Some _ => li_read app_be16_in o Hp
  | |- exists _, (_ ← app_be32 _ _ ?o; _) = Some _ => li_read app_be32_in o Hp
  | |- exists _, (_ ← app_bytes _ _ ?o ?n; _) = Some _ => li_read_n n o Hp
  | |- exists _, (_ ← flow8 _ _ ?o; _) = Some _ => li_read flow8_in o Hp
  | |- exists _, (_ ← flow_be16 _ _ ?o; _) = Some _ => li_read flow_be16_in o Hp
  | |- exists _, LI_MATCH_PAYLOAD _ _ _ _ _ = Some _ =>
      eapply (match_payload_safe _ _ _ _ _ _); [|exact Hp|lia|repeat constructor|intros ?]; [lia|]
  | |- exists _, Some _ = Some _ => by eexists
  end.

(** [d] is the detector to unfold. *)
Ltac li_safe d :=
  let m := fresh "m" in let packet := fresh "packet" in let Hp := fresh "Hp" in
  intros m packet Hp; cbv beta zeta delta [d];
  try match goal with |- context [if net_type packet =? IPPROTO_TCP then 2 else 0] =>
    destruct (net_type packet =? IPPROTO_TCP) end;
  cbn [Z.eqb mbind option_bind negb andb];
  repeat li_step Hp; try done.

#[export] Instance dhcp_safe : Safe 0 peak_li_dhcp.
Proof. li_safe peak_li_dhcp. Qed.

#[export] Instance dns_safe : Safe 0 peak_li_dns.
Proof. li_safe peak_li_dns. Qed.

#[export] Instance stun_safe : Safe 0 peak_li_stun.
Proof. li_safe peak_li_stun. Qed.

#[export] Instance cvs_safe : Safe 0 peak_li_cvs.
Proof. li_safe peak_li_cvs. Qed.

#[export] Instance rtcp_safe : Safe 0 peak_li_rtcp.
Proof. li_safe peak_li_rtcp. Qed.

#[export] Instance rtp_safe : Safe 0 peak_li_rtp.
Proof. li_safe peak_li_rtp. Qed.

#[export] Instance sip_safe : Safe 0 peak_li_sip.
Proof. li_safe peak_li_sip. Qed.

#[export] Instance ftp_safe : Safe 0 peak_li_ftp.
Proof. li_safe peak_li_ftp. Qed.

#[export] Instance ssh_safe : Safe 0 peak_li_ssh.
Proof. li_safe peak_li_ssh. Qed.

#[export] Instance imap_safe : Safe 0 peak_li_imap.
Proof. li_safe peak_li_imap. Qed.

#[export] Instance smtp_safe : Safe 0 peak_li_smtp.
Proof. li_safe peak_li_smtp. Qed.

#[export] Instance pop3_safe : Safe 0 peak_li_pop3.
Proof. li_safe peak_li_pop3. Qed.

#[export] Instance telnet_safe : Safe 0 peak_li_telnet.
Proof.
  li_safe peak_li_telnet.
  match goal with H : ((if ?c then _ else if ?d then _ else _) <? _) = true |- _ =>
    apply Z.ltb_lt in H; destruct c, d end; repeat li_step Hp.
Qed.

#[export] Instance rip_safe : Safe 0 peak_li_rip.
Proof. li_safe peak_li_rip. Qed.

#[export] Instance dtls_safe : Safe 0 peak_li_dtls.
Proof. li_safe peak_li_dtls. Qed.

#[export] Instance tls_safe : Safe 0 peak_li_tls.
Proof. li_safe peak_li_tls. Qed.

#[export] Instance ike_safe : Safe 0 peak_li_ike.
Proof. li_safe peak_li_ike. Qed.

#[export] Instance bgp_safe : Safe 0 peak_li_bgp.
Proof. li_safe peak_li_bgp. Qed.

#[export] Instance http_safe : Safe 0 peak_li_http.
Proof. li_safe peak_li_http. Qed.

#[export] Instance rtsp_safe : Safe 0 peak_li_rtsp.
Proof. li_safe peak_li_rtsp. Qed.

#[export] Instance netflow_v1_safe : Safe 0 peak_li_netflow_v1.
Proof. li_safe peak_li_netflow_v1. Qed.

#[export] Instance netflow_v5_safe : Safe 0 peak_li_netflow_v5.
Proof. li_safe peak_li_netflow_v5. Qed.

#[export] Instance radius_safe : Safe 0 peak_li_radius.
Proof. li_safe peak_li_radius. Qed.

#[export] Instance bittorrent_safe : Safe 0 peak_li_bittorrent.
Proof. li_safe peak_li_bittorrent. Qed.

#[export] Instance gnutella_safe : Safe 0 peak_li_gnutella.
Proof. li_safe peak_li_gnutella. Qed.

#[export] Instance netbios_name_service_safe : Safe 0 peak_li_netbios_name_service.
Proof. li_safe peak_li_netbios_name_service. Qed.

#[export] Instance netbios_session_service_safe : Safe 0 peak_li_netbios_session_service.
Proof. li_safe peak_li_netbios_session_service. Qed.

#[export] Instance netbios_datagram_service_safe : Safe 0 peak_li_netbios_datagram_service.
Proof. li_safe peak_li_netbios_datagram_service. Qed.

#[export] Instance pptp_raw_safe : Safe 0 peak_li_pptp_raw.
Proof. li_safe peak_li_pptp_raw. Qed.

#[export] Instance l2tp_safe : Safe 0 peak_li_l2tp.
Proof. li_safe peak_li_l2tp. Qed.

#[export] Instance ntp_safe : Safe 0 peak_li_ntp.
Proof. li_safe peak_li_ntp. Qed.

#[export] Instance pptp_gre_safe : Safe 0 peak_li_pptp_gre.
Proof. li_safe peak_li_pptp_gre. Qed.

#[export] Instance impp_safe : Safe 0 peak_li_impp.
Proof. li_safe peak_li_impp. Qed.

#[export] Instance xmpp_safe : Safe 0 peak_li_xmpp.
Proof. li_safe peak_li_xmpp. Qed.

#[export] Instance openvpn_safe : Safe 0 peak_li_openvpn.
Proof. li_safe peak_li_openvpn. Qed.

#[export] Instance irc_safe : Safe 0 peak_li_irc.
Proof. li_safe peak_li_irc. Qed.

#[export] Instance syslog_safe : Safe 0 peak_li_syslog.
Proof. li_safe peak_li_syslog. Qed.

#[export] Instance iptype_safe : Safe 0 peak_li_iptype.
Proof. li_safe peak_li_iptype. Qed.

(** Memory beyond the payload does no harm. *)
Lemma payload_in_less s s' m packet : s <= s' -> payload_in s' m packet -> payload_in s m packet.
Proof.
  intros Hs [Hb Ha Hf]. split; [done| |done].
  intros H. destruct (Ha H) as (a & ? & ? & ?). exists a. split_and!; [done..|lia].
Qed.

Lemma safe_more s s' d : s <= s' -> Safe s d -> Safe s' d.
Proof. intros Hs Hd m packet Hp. by eapply Hd, payload_in_less. Qed.

#[export] Instance netflow_safe : Safe 0 peak_li_netflow.
Proof.
  li_safe peak_li_netflow; [by apply netflow_v1_safe|by apply netflow_v5_safe].
Qed.

#[export] Instance netbios_safe : Safe 0 peak_li_netbios.
Proof.
  intros m packet Hp. unfold peak_li_netbios.
  destruct (netbios_datagram_service_safe m packet Hp) as [b ->]. cbn.
  destruct b; [by eexists|].
  destruct (netbios_session_service_safe m packet Hp) as [b ->]. cbn.
  destruct b; [by eexists|]. by apply netbios_name_service_safe.
Qed.

#[export] Instance pptp_safe : Safe 0 peak_li_pptp.
Proof.
  intros m packet Hp. unfold peak_li_pptp. destruct (net_type packet =? IPPROTO_GRE);
    [by apply pptp_gre_safe|by apply pptp_raw_safe].
Qed.

Lemma tftp_request_spec m packet :
  payload_in 0 m packet ->
  exists b, tftp_request m packet = Some b /\
    (b = true <-> exists n k c, 0 < n /\ ends_at m packet tftp_file n /\
                    0 < k /\ ends_at m packet (tftp_file + n + 1) k /\
                    app8 m packet (tftp_file + n + 1) = Some c /\
                    one_of c [79; 111; 78; 110; 77; 109] = true).
Proof.
  intros Hp. unfold tftp_request.
  destruct (li_strlen_spec 0 m packet tftp_file) as (n & -> & Hn); [lia|done|]. cbn [mbind option_bind].
  assert (forall n', ends_at m packet tftp_file n' -> n' = n) as Hun.
  { intros n' H'. destruct Hn as [Hn|[_ Hn]]; [by eapply ends_at_unique|by apply Hn in H']. }
  destruct (Z.eqb_spec n 0) as [->|Hn0].
  { exists false. split; [done|]. split; [done|]. intros (n' & k & c & Hpos & He & _).
    apply Hun in He. lia. }
  destruct Hn as [Hn|[? _]]; [|done]. pose proof Hn as (Hn1 & _).
  destruct (li_strlen_spec 0 m packet (tftp_file + n + 1)) as (k & -> & Hk); [lia|done|]. cbn [mbind option_bind].
  assert (forall k', ends_at m packet (tftp_file + n + 1) k' -> k' = k) as Huk.
  { intros k' H'. destruct Hk as [Hk|[_ Hk]]; [by eapply ends_at_unique|by apply Hk in H']. }
  destruct (Z.eqb_spec k 0) as [->|Hk0].
  { exists false. split; [done|]. split; [done|]. intros (n' & k' & c & _ & He & Hpos & He' & _).
    apply Hun in He as ->. apply Huk in He'. lia. }
  destruct Hk as [Hk|[? _]]; [|done]. pose proof Hk as (Hk1 & Ho & Hlt & _).
  destruct (app8_in Hp (tftp_file + n + 1)) as (c & Ec & _); [lia..|]. rewrite Ec. cbn [mbind option_bind].
  exists (one_of c [79; 111; 78; 110; 77; 109]).
  destruct (one_of c [79; 111; 78; 110; 77; 109]) eqn:Eo; cbn [negb]; (split; [done|]).
  - split; [intros _|done]. exists n, k, c. split_and!; done || lia.
  - split; [done|]. intros (n' & k' & c' & _ & He & _ & _ & Ec' & Ho').
    apply Hun in He as ->. congruence.
Qed.

#[export] Instance tftp_safe : Safe 0 peak_li_tftp.
Proof.
  li_safe peak_li_tftp. destruct (tftp_request_spec m packet Hp) as (b & -> & _). by eexists.
Qed.

(** The two detectors that look one byte too far need that byte of memory. *)
#[export] Instance ldap_safe : Safe 1 peak_li_ldap.
Proof. li_safe peak_li_ldap. Qed.

#[export] Instance snmp_safe : Safe 1 peak_li_snmp.
Proof. li_safe peak_li_snmp. Qed.

(** ** Properties *)

(** Take apart a detector's equation, branch by branch. *)
Ltac li_inv H :=
  repeat match type of H with
  | _ ≫= _ = Some _ => apply bind_Some in H as (? & ? & H)
  | (if ?c then _ else _) = Some _ => let C := fresh "C" in destruct c eqn:C
  end.

(** What the branches of an accepting run say. *)
Ltac li_facts :=
  repeat match goal with
  | H : _ || _ = false |- _ => apply orb_false_iff in H as [? ?]
  | H : negb _ = false |- _ => apply negb_false_iff in H
  | H : (_ =? _) = true |- _ => apply Z.eqb_eq in H; subst
  | H : (_ =? _) = false |- _ => apply Z.eqb_neq in H
  | H : (_ <? _) = false |- _ => apply Z.ltb_ge in H
  end.

(** The one path of a detector that accepts. *)
Ltac accepted H := li_inv H; try discriminate H.

(** The first byte the detector must not look at: the end of the payload is the end
    of the memory. *)
Definition payload_ends_memory (m : list Z) (packet : peak_packet) : Prop :=
  exists a, app_raw packet = Some a /\ 0 <= a /\ a + app_len packet = msize m.

Lemma app8_end m packet : payload_ends_memory m packet -> app8 m packet (app_len packet) = None.
Proof.
  intros (a & E & H0 & H1). unfold app8. rewrite E. cbn. apply rd_out. lia.
Qed.

(** A read that succeeds, and a branch that answers no. *)
Ltac ber_read Hp off b :=
  let R := fresh "R" in let F := fresh "F" in
  destruct (app8_in Hp off) as (b & R & F); [lia|lia|]; rewrite R; cbn [mbind option_bind].

Ltac refuse :=
  split; [done|]; intros ?; destruct_and?; exfalso;
  repeat match goal with H : exists _, _ |- _ => destruct H as (? & ? & ?) end;
  simplify_eq; unfold fits in *; congruence || lia.

(** The identifier's length is in long form, of four bytes. *)
Lemma long_form b : fits 8 b ->
  (b .& 0x80 =? 0) || negb (b .& 0x7F =? 4) = negb (b =? 0x84).
Proof.
  intros Hb. apply eqb_prop. revert b Hb. apply byte_cases. by vm_compute.
Qed.

(** LDAP and SNMP look one byte past their length checks.  When the payload ends
    the memory, the LDAP detector is undefined exactly for the payloads it
    has accepted so far whose message ends the payload (the operation type would
    be the next byte), and the SNMP detector for those whose community string is
    followed by exactly two bytes; one byte more of memory and neither is. *)
Theorem ber_overread m packet :
  payload_in 0 m packet -> payload_ends_memory m packet ->
  (peak_li_ldap m packet = None <->
     sizeof_ldap <= app_len packet /\ app8 m packet 0 = Some 0x30 /\
     app8 m packet 1 = Some 0x84 /\ app8 m packet 6 = Some 0x02 /\
     app8 m packet 7 = Some (app_len packet - sizeof_ldap) /\ app_len packet <> sizeof_ldap) /\
  (peak_li_snmp m packet = None <->
     sizeof_snmp + 2 <= app_len packet /\ app8 m packet 0 = Some 0x30 /\
     app8 m packet 2 = Some 0x02 /\ app8 m packet 3 = Some 0x01 /\
     (exists v, app8 m packet 4 = Some v /\ one_of v [0; 1; 3] = true) /\
     app8 m packet 5 = Some 0x04 /\
     app8 m packet 6 = Some (app_len packet - sizeof_snmp - 2)).
Proof.
  intros Hp He. pose proof (app8_end m packet He) as Hend.
  split.
  - unfold peak_li_ldap, sizeof_ldap. destruct (Z.ltb_spec (app_len packet) 8); [refuse|].
    ber_read Hp 0 b0. destruct (Z.eqb_spec b0 0x30) as [->|]; cbn [negb]; [|refuse].
    ber_read Hp 1 b1. rewrite (long_form b1) by done.
    destruct (Z.eqb_spec b1 0x84) as [->|]; cbn [negb]; [|refuse].
    ber_read Hp 6 b6. destruct (Z.eqb_spec b6 0x02) as [->|]; cbn [negb]; [|refuse].
    ber_read Hp 7 b7. destruct (Z.eqb_spec b7 0); [refuse|].
    destruct (Z.ltb_spec (app_len packet) (8 + b7)); [refuse|].
    destruct (Z.eq_dec (app_len packet) (8 + b7)) as [Eq|].
    + rewrite <- Eq, Hend. split; [intros _|done]. split_and!; done || (f_equal; lia) || lia.
    + destruct (app8_in Hp (8 + b7)) as (c & -> & _); [unfold fits in *; lia..|].
      cbn [mbind option_bind]. repeat (case_match; try refuse).
  - unfold peak_li_snmp, sizeof_snmp. destruct (Z.ltb_spec (app_len packet) 7); [refuse|].
    ber_read Hp 0 b0. destruct (Z.eqb_spec b0 0x30) as [->|]; cbn [negb]; [|refuse].
    ber_read Hp 2 b2. destruct (Z.eqb_spec b2 0x02) as [->|]; cbn [negb]; [|refuse].
    ber_read Hp 3 b3. destruct (Z.eqb_spec b3 0x01) as [->|]; cbn [negb]; [|refuse].
    ber_read Hp 4 b4. destruct (one_of b4 [0; 1; 3]) eqn:E4; cbn [negb]; [|refuse].
    ber_read Hp 5 b5. destruct (Z.eqb_spec b5 0x04) as [->|]; cbn [negb]; [|refuse].
    ber_read Hp 6 b6.
    destruct (Z.ltb_spec (app_len packet) (7 + b6 + 2)); [refuse|].
    destruct (Z.eq_dec (app_len packet) (7 + b6 + 2)) as [Eq|].
    + rewrite <- Eq, Hend. split; [intros _|done]. unfold fits in *.
      split_and!; try done; try lia; [by exists b4|f_equal; lia].
    + destruct (app8_in Hp (7 + b6 + 2)) as (c & -> & _); [unfold fits in *; lia..|].
      cbn [mbind option_bind]. repeat (case_match; try refuse).
Qed.

(** A packet whose payload is the whole memory. *)
Definition raw_packet (net_type : Z) (payload : list Z) : peak_packet :=
  peak_packet_zero<|set_app_raw (Some 0)|><|set_app_len (msize payload)|><|set_net_type net_type|>.

Lemma raw_packet_in t payload : bytes payload -> payload_in 0 payload (raw_packet t payload).
Proof. intros Hb. split; [done| |done]. intros _. exists 0. split_and!; [done..|]. simpl. lia. Qed.

Definition ldap_payload : list Z := [0x30; 0x84; 0; 0; 0; 5; 0x02; 0x01; 0x01].

Lemma ldap_payload_bytes : bytes ldap_payload.
Proof. apply (bool_decide_unpack _). vm_compute. exact I. Qed.

Lemma ber_overread_witness :
  let p := raw_packet IPPROTO_TCP ldap_payload in
  payload_in 0 ldap_payload p /\ peak_li_ldap ldap_payload p = None.
Proof.
  assert (payload_in 0 ldap_payload (raw_packet IPPROTO_TCP ldap_payload)) as H
    by (apply raw_packet_in, ldap_payload_bytes).
  split; [exact H|].
  apply (ber_overread ldap_payload (raw_packet IPPROTO_TCP ldap_payload) H).
  - exists 0. split; [reflexivity|]. split; [lia|reflexivity].
  - vm_compute. repeat split; discriminate.
Defined.

(** Detectors of protocols that carry their length hold the packet to it: an
    accepted NetFlow packet has exactly the records it announces (at most 24 or
    30), and an accepted RADIUS, L2TP or IKE packet exactly the announced size, in
    bounds of the protocol. *)
Theorem length_fields m packet :
  payload_in 0 m packet ->
  (peak_li_netflow m packet = Some true ->
     exists v n, app_be16 m packet 0 = Some v /\ app_be16 m packet 2 = Some n /\
       (v = 1 /\ 1 <= n <= 24 /\ app_len packet = 16 + 48 * n \/
        v = 5 /\ 1 <= n <= 30 /\ app_len packet = 24 + 48 * n)) /\
  (peak_li_radius m packet = Some true ->
     app_be16 m packet 2 = Some (app_len packet) /\ 20 <= app_len packet <= 4096) /\
  (peak_li_l2tp m packet = Some true ->
     app_be16 m packet 2 = Some (app_len packet) /\ 12 <= app_len packet) /\
  (peak_li_ike m packet = Some true ->
     app_be32 m packet 24 = Some (app_len packet) /\ 28 <= app_len packet).
Proof.
  intros Hp.
  assert (forall v n, app_be16 m packet v = Some n -> fits 16 n) as Hfit.
  { intros v n H. unfold app_be16 in H. apply bind_Some in H as (a & _ & H).
    eapply be16dec_fits; [apply Hp|done]. }
  split_and!; intros H.
  - unfold peak_li_netflow in H. li_inv H; [done|..|done].
    + exists 1. unfold peak_li_netflow_v1 in H. accepted H.
      match goal with E : app_be16 m packet 2 = Some ?n |- _ =>
        exists n; pose proof (Hfit _ _ E) as F end.
      li_facts. split_and!; [done..|left; li_lia].
    + exists 5. unfold peak_li_netflow_v5 in H. accepted H.
      match goal with E : app_be16 m packet 2 = Some ?n |- _ =>
        exists n; pose proof (Hfit _ _ E) as F end.
      li_facts. split_and!; [done..|right; li_lia].
  - unfold peak_li_radius in H. accepted H. li_facts. split; [done|li_lia].
  - unfold peak_li_l2tp in H. accepted H. li_facts. split; [done|li_lia].
  - unfold peak_li_ike in H. cbv zeta in H. li_inv H; try done; li_facts; (split; [done|li_lia]).
Qed.

Definition radius_payload : list Z := [1; 7; 0; 20] ++ replicate 16 9.

Lemma length_fields_witness :
  let p := raw_packet IPPROTO_UDP radius_payload in
  peak_li_radius radius_payload p = Some true /\
  app_be16 radius_payload p 2 = Some 20.
Proof.
  assert (payload_in 0 radius_payload (raw_packet IPPROTO_UDP radius_payload)) as H.
  { apply raw_packet_in. apply (bool_decide_unpack _). vm_compute. exact I. }
  assert (peak_li_radius radius_payload (raw_packet IPPROTO_UDP radius_payload) = Some true) as A
    by (vm_compute; reflexivity).
  split; [exact A|].
  destruct (length_fields radius_payload (raw_packet IPPROTO_UDP radius_payload) H) as (_ & R & _).
  exact (proj1 (R A)).
Defined.

(** A TFTP read or write request is accepted exactly when the payload holds a
    non-empty NUL-terminated file name after the opcode and, after it, a non-empty
    NUL-terminated mode that starts like one of the three modes; the search for
    both terminators never leaves the payload. *)
Theorem tftp_requests m packet opcode :
  payload_in 0 m packet -> sizeof_tftp <= app_len packet ->
  app_be16 m packet 0 = Some opcode -> opcode = 1 \/ opcode = 2 ->
  exists b, peak_li_tftp m packet = Some b /\
    (b = true <-> exists n k c, 0 < n /\ ends_at m packet 2 n /\
                    0 < k /\ ends_at m packet (2 + n + 1) k /\
                    app8 m packet (2 + n + 1) = Some c /\
                    c ∈ str "OoNnMm").
Proof.
  intros Hp Hl Ho Hop. destruct (tftp_request_spec m packet Hp) as (b & E & Hb).
  exists b. split.
  - unfold peak_li_tftp. destruct (Z.ltb_spec (app_len packet) sizeof_tftp); [lia|].
    rewrite Ho. cbn [mbind option_bind].
    assert (one_of opcode [1; 2] = true) as -> by (by destruct Hop as [->| ->]). done.
  - rewrite Hb. unfold tftp_file.
    assert (forall c, one_of c [79; 111; 78; 110; 77; 109] = true <-> c ∈ str "OoNnMm") as Hc.
    { intros c. unfold one_of. rewrite existsb_exists. change (str "OoNnMm") with [79; 111; 78; 110; 77; 109].
      rewrite list_elem_of_In. split; [intros (x & Hx & ->%Z.eqb_eq); done|].
      intros Hx. exists c. by rewrite Z.eqb_refl. }
    by setoid_rewrite Hc.
Qed.

Definition tftp_payload : list Z := [0; 1] ++ str "boot" ++ [0] ++ str "octet" ++ [0].

Lemma tftp_requests_witness :
  let p := raw_packet IPPROTO_UDP tftp_payload in
  exists b, peak_li_tftp tftp_payload p = Some b /\
    (b = true <-> exists n k c, 0 < n /\ ends_at tftp_payload p 2 n /\
                    0 < k /\ ends_at tftp_payload p (2 + n + 1) k /\
                    app8 tftp_payload p (2 + n + 1) = Some c /\ c ∈ str "OoNnMm").
Proof.
  apply (tftp_requests tftp_payload (raw_packet IPPROTO_UDP tftp_payload) 1).
  - apply raw_packet_in. apply (bool_decide_unpack _). vm_compute. exact I.
  - vm_compute. discriminate.
  - vm_compute. reflexivity.
  - left. reflexivity.
Defined.
