(* ===== verification/Li.v ===== *)
(** * Application detection: the table and its users

    Models the rest of [lib/peak_li.c] and [lib/peak_li.h]: the table of
    applications in its order, [peak_li_get] (the first entry of the packet's
    protocol whose detector says yes), [peak_li_test], the conversions between
    numbers and names, and [peak_li_merge].  The dispatch is proved against the
    interface [Safe] of the detectors. *)

From S2P Require Import Prelude Compat Bytes Net Packet LiDetect.

(** ** Numbers *)

Definition LI_UNKNOWN : Z := 0.
Definition LI_UNDEFINED : Z := 1.
Definition LI_HTTP : Z := 2.
Definition LI_RTSP : Z := 3.
Definition LI_POP3 : Z := 4.
Definition LI_IMAP : Z := 5.
Definition LI_SMTP : Z := 6.
Definition LI_STUN : Z := 7.
Definition LI_PPTP : Z := 8.
Definition LI_TELNET : Z := 9.
Definition LI_DHCP : Z := 10.
Definition LI_SSH : Z := 11.
Definition LI_IRC : Z := 12.
Definition LI_FTP : Z := 13.
Definition LI_SIP : Z := 14.
Definition LI_DNS : Z := 15.
Definition LI_CVS : Z := 16.
Definition LI_BITTORRENT : Z := 17.
Definition LI_GNUTELLA : Z := 18.
Definition LI_NETBIOS : Z := 19.
Definition LI_RTCP : Z := 20.
Definition LI_RTP : Z := 21.
Definition LI_RIP : Z := 22.
Definition LI_BGP : Z := 23.
Definition LI_IKE : Z := 24.
Definition LI_DTLS : Z := 25.
Definition LI_TLS : Z := 26.
Definition LI_LDAP : Z := 27.
Definition LI_SNMP : Z := 28.
Definition LI_TFTP : Z := 29.
Definition LI_XMPP : Z := 30.
Definition LI_IMPP : Z := 31.
Definition LI_OPENVPN : Z := 32.
Definition LI_SYSLOG : Z := 33.
Definition LI_L2TP : Z := 34.
Definition LI_NTP : Z := 35.
Definition LI_NETFLOW : Z := 36.
Definition LI_RADIUS : Z := 37.
Definition LI_OSPF : Z := 38.
Definition LI_ICMP : Z := 39.
Definition LI_IGMP : Z := 40.

Definition IPPROTO_MAX : Z := 256.

(** [struct peak_lis] *)
Record peak_lis := PeakLis {
  function : detector;
  proto : Z * Z;
  number : Z;
  name : string;
  pretty : string;
  desc : string;
  cat : string
}.

(** The two macros that fill it in. *)
Definition LI_LIST_APP (f : detector) := fun number name p1 p2 pretty desc cat =>
  PeakLis f (p1, p2) number name pretty desc cat.

Definition LI_LIST_IPTYPE := fun number name p1 p2 pretty desc cat =>
  PeakLis peak_li_iptype (p1, p2) number name pretty desc cat.

Definition apps : list peak_lis := [
  LI_LIST_IPTYPE LI_ICMP "icmp" IPPROTO_ICMP IPPROTO_ICMPV6
    "Internet Control Message Protocol"
    "ICMP is one of the core protocols of the Internet Protocol Suite. It is chiefly used by the operating systems of networked computers to send error messages indicating, for instance, that a requested service is not available or that a host or router could not be reached. ICMP can also be used to relay query messages."
    "Networking";
  LI_LIST_IPTYPE LI_IGMP "igmp" IPPROTO_IGMP IPPROTO_MAX
    "Internet Group Management Protocol"
    "IGMP is a communications protocol used by hosts and adjacent routers on IP networks to establish multicast group memberships."
    "Networking";
  LI_LIST_IPTYPE LI_OSPF "ospf" IPPROTO_OSPFIGP IPPROTO_MAX
    "Open Shortest Path First"
    "OSPF is an interior gateway routing protocol developed for IP networks based on the shortest path first or link-state algorithm."
    "Networking";
  LI_LIST_IPTYPE LI_L2TP "l2tp" IPPROTO_L2TP IPPROTO_MAX
    "Layer 2 Tunneling Protocol"
    "L2TP is a tunneling protocol used to support virtual private networks (VPNs). It does not provide any encryption or confidentiality by itself; it relies on an encryption protocol that it passes within the tunnel to provide privacy."
    "VPN and Tunneling";
  LI_LIST_APP peak_li_pptp LI_PPTP "pptp" IPPROTO_TCP IPPROTO_GRE
    "Point-to-Point Tunneling Protocol"
    "PPTP is a method for implementing virtual private networks. It uses a control channel over TCP and a GRE tunnel operating to encapsulate PPP packets."
    "VPN and Tunneling";
  LI_LIST_APP peak_li_http LI_HTTP "http" IPPROTO_TCP IPPROTO_MAX
    "HyperText Transfer Protocol"
    "HTTP is the principal transport protocol for the World Wide Web."
    "Web Services";
  LI_LIST_APP peak_li_rtsp LI_RTSP "rtsp" IPPROTO_TCP IPPROTO_UDP
    "Real Time Streaming Protocol"
    "RTSP is used for establishing and controlling media sessions between end points."
    "Streaming Media";
  LI_LIST_APP peak_li_pop3 LI_POP3 "pop3" IPPROTO_TCP IPPROTO_MAX
    "Post Office Protocol"
    "POP is a protocol used by local e-mail clients to retrieve e-mail from a remote server."
    "Mail";
  LI_LIST_APP peak_li_imap LI_IMAP "imap" IPPROTO_TCP IPPROTO_MAX
    "Internet Message Access Protocol"
    "IMAP is an Internet standard protocol for accessing email on a remote server."
    "Mail";
  LI_LIST_APP peak_li_smtp LI_SMTP "smtp" IPPROTO_TCP IPPROTO_MAX
    "Simple Mail Transfer Protocol"
    "SMTP is an Internet standard for electronic mail (e-mail) transmission across Internet Protocol (IP) networks."
    "Mail";
  LI_LIST_APP peak_li_ftp LI_FTP "ftp" IPPROTO_TCP IPPROTO_MAX
    "File Transfer Protocol"
    "FTP is used to transfer files from a file server to a local machine."
    "File Transfer";
  LI_LIST_APP peak_li_cvs LI_CVS "cvs" IPPROTO_TCP IPPROTO_MAX
    "Concurrent Versions System"
    "CVS is a client-server free software revision control system in the field of software development."
    "Database";
  LI_LIST_APP peak_li_ssh LI_SSH "ssh" IPPROTO_TCP IPPROTO_MAX
    "Secure Shell"
    "SSH is a network protocol that allows data to be exchanged using a secure channel between two networked devices."
    "Remote Access";
  LI_LIST_APP peak_li_irc LI_IRC "irc" IPPROTO_TCP IPPROTO_MAX
    "Internet Relay Chat"
    "IRC is a popular form of real-time Internet text messaging."
    "Messaging";
  LI_LIST_APP peak_li_stun LI_STUN "stun" IPPROTO_UDP IPPROTO_TCP
    "Session Traversal Utilities for NAT"
    "STUN is used in NAT traversal for applications with real-time voice, video, messaging, and other interactive communications."
    "Networking";
  LI_LIST_APP peak_li_sip LI_SIP "sip" IPPROTO_UDP IPPROTO_TCP
    "Session Initiation Protocol"
    "SIP is a common control protocol for setting up and controlling voice and video calls."
    "Messaging";
  LI_LIST_APP peak_li_rip LI_RIP "rip" IPPROTO_UDP IPPROTO_MAX
    "Routing Information Protocol"
    "RIP is a dynamic routing protocol."
    "Networking";
  LI_LIST_APP peak_li_radius LI_RADIUS "radius" IPPROTO_UDP IPPROTO_MAX
    "Remote Authentication Dial In User Service"
    "RADIUS is a networking protocol that provides centralized Authentication, Authorization, and Accounting (AAA) management for computers to connect and use a network service."
    "Networking";
  LI_LIST_APP peak_li_bgp LI_BGP "bgp" IPPROTO_TCP IPPROTO_MAX
    "Border Gateway Protocol"
    "BGP is the protocol backing the core routing decisions on the Internet."
    "Networking";
  LI_LIST_APP peak_li_ike LI_IKE "ike" IPPROTO_UDP IPPROTO_MAX
    "Internet Key Exchange"
    "IKE is the protocol used to set up a security association (SA) in the IPsec protocol suite."
    "VPN and Tunneling";
  LI_LIST_APP peak_li_netflow LI_NETFLOW "netflow" IPPROTO_UDP IPPROTO_MAX
    "NetFlow"
    "NetFlow is a network reporting protocol developed by Cisco."
    "Networking";
  LI_LIST_APP peak_li_tftp LI_TFTP "tftp" IPPROTO_UDP IPPROTO_MAX
    "Trivial File Transfer Protocol"
    "TFTP is a file transfer protocol, with the functionality of a very basic form of FTP (File Transfer Protocol)."
    "File Transfer";
  LI_LIST_APP peak_li_dhcp LI_DHCP "dhcp" IPPROTO_UDP IPPROTO_MAX
    "Dynamic Host Configuration Protocol"
    "DHCP is an auto configuration protocol used for assigning IP addresses."
    "Networking";
  LI_LIST_APP peak_li_dtls LI_DTLS "dtls" IPPROTO_UDP IPPROTO_MAX
    "Datagram Transport Layer Security"
    "DTLS is a protocol that provides communication privacy for datagram protocols."
    "VPN and Tunneling";
  LI_LIST_APP peak_li_tls LI_TLS "tls" IPPROTO_TCP IPPROTO_MAX
    "Transport Layer Security"
    "TLS is a cryptographic protocol designed to provide communication security over the Internet."
    "VPN and Tunneling";
  LI_LIST_APP peak_li_ldap LI_LDAP "ldap" IPPROTO_TCP IPPROTO_MAX
    "Lightweight Directory Access Protocol"
    "LDAP is a protocol for reading and editing directories over an IP network."
    "Networking";
  LI_LIST_APP peak_li_snmp LI_SNMP "snmp" IPPROTO_UDP IPPROTO_MAX
    "Simple Network Management Protocol"
    "SNMP is an Internet-standard protocol for managing devices on IP networks."
    "Networking";
  LI_LIST_APP peak_li_bittorrent LI_BITTORRENT "bittorrent" IPPROTO_TCP IPPROTO_MAX
    "BitTorrent"
    "A peer-to-peer file sharing protocol used for transferring large amounts of data."
    "File Transfer";
  LI_LIST_APP peak_li_gnutella LI_GNUTELLA "gnutella" IPPROTO_TCP IPPROTO_MAX
    "Gnutella"
    "Gnutella is the protocol of the corresponding P2P network."
    "File Transfer";
  LI_LIST_APP peak_li_impp LI_IMPP "impp" IPPROTO_TCP IPPROTO_MAX
    "Instant Messaging and Presence Protocol"
    "IMPP is a protocol clients use to interact with an Instant Messaging server."
    "Messaging";
  LI_LIST_APP peak_li_xmpp LI_XMPP "xmpp" IPPROTO_TCP IPPROTO_MAX
    "Extensible Messaging and Presence Protocol"
    "XMPP is an open technology for real-time communication."
    "Messaging";
  LI_LIST_APP peak_li_syslog LI_SYSLOG "syslog" IPPROTO_UDP IPPROTO_TCP
    "Syslog"
    "Syslog is a standard for forwarding log messages in an Internet Protocol (IP) computer network."
    "Networking";
  LI_LIST_APP peak_li_l2tp LI_L2TP "l2tp" IPPROTO_UDP IPPROTO_MAX
    "Layer 2 Tunneling Protocol"
    "L2TP is a tunneling protocol used to support virtual private networks (VPNs). It does not provide any encryption or confidentiality by itself; it relies on an encryption protocol that it passes within the tunnel to provide privacy."
    "VPN and Tunneling";
  LI_LIST_APP peak_li_ntp LI_NTP "ntp" IPPROTO_UDP IPPROTO_MAX
    "Network Time Protocol"
    "NTP is used for synchronizing the clocks of computer systems over the network. Sends small packets with current date and time."
    "Networking";
  LI_LIST_APP peak_li_dns LI_DNS "dns" IPPROTO_UDP IPPROTO_TCP
    "Domain Name System"
    "DNS is a protocol to resolve domain names to IP addresses."
    "Networking";
  LI_LIST_APP peak_li_openvpn LI_OPENVPN "openvpn" IPPROTO_UDP IPPROTO_TCP
    "OpenVPN"
    "OpenVPN is a free and open source virtual private network (VPN) program for creating point-to-point or server-to-multiclient encrypted tunnels between host computers. It is capable of establishing direct links between computers across network address translators (NATs) and firewalls."
    "VPN and Tunneling";
  LI_LIST_APP peak_li_rtcp LI_RTCP "rtcp" IPPROTO_UDP IPPROTO_MAX
    "Real-Time Transport Control Protocol"
    "RTCP is a sister protocol of the Real-time Transport Protocol (RTP). RTCP provides out-of-band control information for an RTP flow."
    "Streaming Media";
  LI_LIST_APP peak_li_netbios LI_NETBIOS "netbios" IPPROTO_UDP IPPROTO_TCP
    "NetBIOS"
    "NetBIOS is an acronym for Network Basic Input/Output System. It provides services related to the session layer of the OSI model allowing applications on separate computers to communicate over a local area network."
    "Networking";
  LI_LIST_APP peak_li_telnet LI_TELNET "telnet" IPPROTO_TCP IPPROTO_MAX
    "Telnet"
    "Telnet (teletype network) is a network protocol used on the Internet or local area networks to provide a bidirectional interactive text-oriented communications facility using a virtual terminal connection."
    "Remote Access";
  LI_LIST_APP peak_li_rtp LI_RTP "rtp" IPPROTO_UDP IPPROTO_MAX
    "Real-Time Transport Protocol"
    "RTP is primarily used to deliver real-time audio and video."
    "Streaming Media";
  LI_LIST_IPTYPE LI_UNDEFINED "undefined" IPPROTO_MAX IPPROTO_MAX
    "Undefined Protocols"
    "Traffic that does not match any known patterns."
    "Networking"].

(** ** Operations *)

(** An entry is for the packet's protocol. *)
Definition proto_matches (packet : peak_packet) (a : peak_lis) : bool :=
  (fst (proto a) =? net_type packet) || (snd (proto a) =? net_type packet).

(** The loop of [peak_li_test]. *)
Fixpoint li_test_loop (l : list peak_lis) (m : list Z) (packet : peak_packet) (num : Z)
    : option bool :=
  match l with
  | [] => Some false
  | a :: l =>
      if (number a =? num) && proto_matches packet a then function a m packet
      else li_test_loop l m packet num
  end.

Definition peak_li_test (m : list Z) (packet : peak_packet) (num : Z) : option bool :=
  li_test_loop apps m packet num.

(** The loop of [peak_li_get]; [None] of the inner option is no entry. *)
Fixpoint li_get_loop (l : list peak_lis) (m : list Z) (packet : peak_packet)
    : option (option Z) :=
  match l with
  | [] => Some None
  | a :: l =>
      if proto_matches packet a then
        yes ← function a m packet;
        if (yes : bool) then Some (Some (number a)) else li_get_loop l m packet
      else li_get_loop l m packet
  end.

Definition peak_li_get (m : list Z) (packet : peak_packet) : option Z :=
  if one_of (net_type packet) [IPPROTO_TCP; IPPROTO_UDP] && (app_len packet =? 0)
  then Some LI_UNKNOWN
  else
    r ← li_get_loop apps m packet;
    match (r : option Z) with
    | Some n => Some n
    | None => Some (if negb (app_len packet =? 0) then LI_UNDEFINED else LI_UNKNOWN)
    end.

Fixpoint li_number_loop (l : list peak_lis) (nm : string) : Z :=
  match l with
  | [] => LI_UNKNOWN
  | a :: l => if strcasecmp nm (name a) =? 0 then number a else li_number_loop l nm
  end.

Definition peak_li_number (nm : string) : Z := li_number_loop apps nm.

(** [peak_li_data]: [offset] selects a member; [None] is the [panic]. *)
Fixpoint li_data_loop (l : list peak_lis) (num : Z) (offset : peak_lis -> string) : option string :=
  match l with
  | [] => None
  | a :: l => if num =? number a then Some (offset a) else li_data_loop l num offset
  end.

Definition peak_li_data (num : Z) (offset : peak_lis -> string) : option string :=
  if num =? LI_UNKNOWN then Some "unknown" else li_data_loop apps num offset.

Definition peak_li_name (num : Z) : option string := peak_li_data num name.
Definition peak_li_pretty (num : Z) : option string := peak_li_data num pretty.
Definition peak_li_desc (num : Z) : option string := peak_li_data num desc.
Definition peak_li_cat (num : Z) : option string := peak_li_data num cat.

(** The two directions of a flow. *)
Definition peak_li_merge (a0 a1 : Z) : Z :=
  let ret := a0 `max` a1 in
  if (ret =? LI_UNDEFINED) && ((a0 =? LI_UNKNOWN) || (a1 =? LI_UNKNOWN)) then LI_UNKNOWN else ret.

(** ** The dispatch, against the detectors' interface *)

(** Each detector of the table answers, given one byte of memory after the payload;
    only LDAP and SNMP need it. *)
Definition exact_number (n : Z) : bool := negb (one_of n [LI_LDAP; LI_SNMP]).

Lemma apps_safe :
  Forall (fun a => Safe 1 (function a) /\ (exact_number (number a) = true -> Safe 0 (function a))) apps.
Proof.
  unfold apps, LI_LIST_APP, LI_LIST_IPTYPE.
  repeat (apply Forall_cons_2; [split; cbn [function number];
    [apply _ || (apply (safe_more 0); [done|apply _])|intros E; apply _ || discriminate E]|]).
  constructor.
Qed.

Lemma apps_safe_1 a : a ∈ apps -> Safe 1 (function a).
Proof. intros Ha. by apply (proj1 (Forall_forall _ _) apps_safe a). Qed.

(** The entry the loop of [peak_li_get] stops at. *)
Definition first_match (m : list Z) (packet : peak_packet) (l : list peak_lis) (a : peak_lis) : Prop :=
  exists l1 l2, l = l1 ++ a :: l2 /\ proto_matches packet a = true /\
    function a m packet = Some true /\
    forall x, x ∈ l1 -> proto_matches packet x = true -> function x m packet = Some false.

Lemma first_match_cons m packet l a x :
  (proto_matches packet x = true -> function x m packet = Some false) ->
  first_match m packet l a -> first_match m packet (x :: l) a.
Proof.
  intros Hx (l1 & l2 & -> & Hp & Hf & Hl1). exists (x :: l1), l2. split_and!; [done..|].
  intros y [->|Hy]%elem_of_cons; auto.
Qed.

Lemma li_get_loop_spec l m packet :
  match li_get_loop l m packet with
  | Some (Some n) => exists a, first_match m packet l a /\ number a = n
  | Some None => forall x, x ∈ l -> proto_matches packet x = true -> function x m packet = Some false
  | None => exists a, a ∈ l /\ proto_matches packet a = true /\ function a m packet = None
  end.
Proof.
  induction l as [|a l IH]; simpl; [intros x Hx; by apply elem_of_nil in Hx|].
  assert ((proto_matches packet a = true -> function a m packet = Some false) ->
    match li_get_loop l m packet with
    | Some (Some n) => exists b, first_match m packet (a :: l) b /\ number b = n
    | Some None => forall x, x ∈ a :: l -> proto_matches packet x = true -> function x m packet = Some false
    | None => exists b, b ∈ a :: l /\ proto_matches packet b = true /\ function b m packet = None
    end) as Hgo.
  { intros Ha. destruct (li_get_loop l m packet) as [[n|]|].
    - destruct IH as (x & Hx & Hn). exists x. split; [by apply first_match_cons|done].
    - intros x [->|Hx]%elem_of_cons; auto.
    - destruct IH as (x & Hx & H). exists x. split; [by right|done]. }
  destruct (proto_matches packet a) eqn:Ep; [|by apply Hgo].
  destruct (function a m packet) as [[]|] eqn:Ef; cbn [mbind option_bind]; [| |by exists a; split; [left|]].
  - exists a. split; [|done]. exists [], l. split_and!; [done..|]. intros x Hx. by apply elem_of_nil in Hx.
  - by apply Hgo.
Qed.

(** At most one entry of a protocol has a given number. *)
Lemma li_test_loop_spec l m packet num :
  (exists l1 a l2, l = l1 ++ a :: l2 /\ number a = num /\ proto_matches packet a = true /\
     li_test_loop l m packet num = function a m packet) \/
  (li_test_loop l m packet num = Some false /\
   forall a, a ∈ l -> number a = num -> proto_matches packet a = false).
Proof.
  induction l as [|a l IH]; simpl.
  { right. split; [done|]. intros x Hx. by apply elem_of_nil in Hx. }
  destruct (Z.eqb_spec (number a) num) as [En|En]; cbn [andb].
  - destruct (proto_matches packet a) eqn:Ep.
    { left. by exists [], a, l. }
    destruct IH as [(l1 & x & l2 & -> & H)|[E H]].
    + left. exists (a :: l1), x, l2. split; [done|]. exact H.
    + right. split; [done|]. intros x [->|Hx]%elem_of_cons; auto.
  - destruct IH as [(l1 & x & l2 & -> & H)|[E H]].
    + left. exists (a :: l1), x, l2. split; [done|]. exact H.
    + right. split; [done|]. intros x [->|Hx]%elem_of_cons; [done|auto].
Qed.

(** Two entries with one number share no protocol below [IPPROTO_MAX]. *)
Definition same_number_disjoint (a b : peak_lis) : bool :=
  negb (number a =? number b) ||
  forallb (fun p => (p =? IPPROTO_MAX) || negb (one_of p [fst (proto b); snd (proto b)]))
    [fst (proto a); snd (proto a)].

Fixpoint numbers_disjoint (l : list peak_lis) : bool :=
  match l with
  | [] => true
  | a :: l => forallb (same_number_disjoint a) l && numbers_disjoint l
  end.

Lemma apps_disjoint : numbers_disjoint apps = true.
Proof. by vm_compute. Qed.

Lemma numbers_disjoint_app l1 a l2 x :
  numbers_disjoint (l1 ++ a :: l2) = true -> x ∈ l1 -> same_number_disjoint x a = true.
Proof.
  induction l1 as [|y l1 IH]; intros H Hx; [by apply elem_of_nil in Hx|]. simpl in H.
  apply andb_true_iff in H as [Hy H]. apply elem_of_cons in Hx as [->|Hx]; [|auto].
  rewrite forallb_app in Hy. apply andb_true_iff in Hy as [_ Hy]. simpl in Hy.
  by apply andb_true_iff in Hy as [Hy _].
Qed.

Lemma proto_matches_disjoint a b packet :
  net_type packet < IPPROTO_MAX -> same_number_disjoint a b = true -> number a = number b ->
  proto_matches packet a = true -> proto_matches packet b = true -> False.
Proof.
  intros Ht Hd Hn Ha Hb. unfold same_number_disjoint in Hd. rewrite Hn, Z.eqb_refl in Hd.
  cbn [negb orb forallb one_of existsb] in Hd. unfold proto_matches in *.
  apply orb_true_iff in Ha, Hb. rewrite !Z.eqb_eq in Ha, Hb.
  assert ((net_type packet =? IPPROTO_MAX) = false) as Hm by (apply Z.eqb_neq; lia).
  rewrite andb_true_r in Hd. apply andb_true_iff in Hd as [H1 H2].
  destruct Ha as [Ha|Ha]; rewrite Ha, Hm in *; cbn [orb negb] in *;
    destruct Hb as [Hb|Hb]; rewrite Hb, Z.eqb_refl, ?orb_true_r in *; done.
Qed.

(** The test of a matching entry's number runs its detector. *)
Lemma li_test_entry m packet l1 a l2 :
  apps = l1 ++ a :: l2 -> net_type packet < IPPROTO_MAX -> proto_matches packet a = true ->
  peak_li_test m packet (number a) = function a m packet.
Proof.
  intros E Ht Hp. unfold peak_li_test.
  pose proof apps_disjoint as Hd. rewrite E in Hd |- *. clear E.
  induction l1 as [|x l1 IH]; simpl.
  - by rewrite Z.eqb_refl, Hp.
  - destruct (Z.eqb_spec (number x) (number a)) as [En|En]; cbn [andb].
    + destruct (proto_matches packet x) eqn:Ex.
      * exfalso. eapply (proto_matches_disjoint x a packet); [done| |done..].
        eapply (numbers_disjoint_app (x :: l1)); [done|left].
      * apply IH.
        simpl in Hd. by apply andb_true_iff in Hd as [_ Hd].
    + apply IH.
      simpl in Hd. by apply andb_true_iff in Hd as [_ Hd].
Qed.

Lemma apps_answer m packet a :
  payload_in 1 m packet -> a ∈ apps -> exists b, function a m packet = Some b.
Proof. intros Hp Ha. by apply (apps_safe_1 a Ha). Qed.

Lemma apps_listed : Forall (fun a => 1 <= number a <= 40) apps.
Proof. apply (bool_decide_unpack _). by vm_compute. Qed.

Lemma undefined_entry a :
  a ∈ apps -> number a = LI_UNDEFINED -> proto a = (IPPROTO_MAX, IPPROTO_MAX).
Proof.
  assert (Forall (fun a => number a = LI_UNDEFINED -> proto a = (IPPROTO_MAX, IPPROTO_MAX)) apps) as H
    by (apply (bool_decide_unpack _); by vm_compute).
  intros Ha. by apply (proj1 (Forall_forall _ _) H a).
Qed.

(** ** Properties *)

(** C7.  For a payload that lies in the memory, which may end right behind it, of a packet with
    a valid protocol number: if
    [peak_li_get] gives a verdict, a detected application (neither unknown nor undefined)
    tests positive with [peak_li_test]; if the verdict is undefined no application tests
    positive; and the verdict is unknown only for a packet without payload.  It gives one
    whenever a byte follows the payload in memory, and otherwise as well unless the
    detector of LDAP or of SNMP is asked and reads that byte. *)
Theorem get_agrees_with_test m packet :
  payload_in 0 m packet -> 0 <= net_type packet < IPPROTO_MAX -> 0 <= app_len packet ->
  match peak_li_get m packet with
  | Some n =>
      0 <= n <= 40 /\
      (n <> LI_UNKNOWN -> n <> LI_UNDEFINED -> peak_li_test m packet n = Some true) /\
      (n = LI_UNDEFINED -> forall k, peak_li_test m packet k = Some false) /\
      (n = LI_UNKNOWN -> app_len packet = 0)
  | None =>
      ~ payload_in 1 m packet /\
      exists a, a ∈ apps /\ one_of (number a) [LI_LDAP; LI_SNMP] = true /\
        proto_matches packet a = true /\ function a m packet = None
  end.
Proof.
  intros Hp0 [Ht0 Ht] Hl. unfold peak_li_get.
  destruct (one_of (net_type packet) [IPPROTO_TCP; IPPROTO_UDP] && (app_len packet =? 0)) eqn:E0.
  { apply andb_true_iff in E0 as [_ E0%Z.eqb_eq]. by split_and!. }
  pose proof (li_get_loop_spec apps m packet) as Hr. destruct (li_get_loop apps m packet) as [[n|]|]; cbn [mbind option_bind].
  - destruct Hr as (a & (l1 & l2 & Ea & Hpa & Hf & _) & <-).
    assert (a ∈ apps) as Hin by (rewrite Ea; apply elem_of_app; right; left).
    pose proof (proj1 (Forall_forall _ _) apps_listed a Hin) as Hn. cbv beta in Hn. split_and!; [lia|lia|..].
    + intros _ _. by rewrite (li_test_entry m packet l1 a l2).
    + intros Hu. apply (undefined_entry a Hin) in Hu. unfold proto_matches in Hpa.
      rewrite Hu in Hpa. cbn [fst snd] in Hpa. rewrite orb_diag in Hpa. apply Z.eqb_eq in Hpa. lia.
    + intros Hu. unfold LI_UNKNOWN in Hu. lia.
  - destruct (Z.eqb_spec (app_len packet) 0); cbn [negb]; [by split_and!|]. split_and!; try done. intros _ k.
    destruct (li_test_loop_spec apps m packet k) as [(l1 & a & l2 & Ea & _ & Hpa & E)|[E _]]; [|exact E].
    unfold peak_li_test. rewrite E. apply Hr; [|done]. rewrite Ea. apply elem_of_app. right. left.
  - destruct Hr as (a & Ha & Hpa & Hn). destruct (proj1 (Forall_forall _ _) apps_safe a Ha) as [_ He]. split.
    + intros Hp1. destruct (apps_answer m packet a Hp1 Ha) as [b Hb]. congruence.
    + exists a. split_and!; [done| |done|done]. unfold exact_number in He.
      destruct (one_of (number a) [LI_LDAP; LI_SNMP]); [done|]. destruct (He eq_refl m packet Hp0) as [b Hb]. congruence.
Qed.

Definition http_payload : list Z := str "GET / HTTP/1.1".

(** A payload that ends the memory; with one that ends in an LDAP message there is no answer. *)
Lemma get_agrees_with_test_witness :
  let p := raw_packet IPPROTO_TCP http_payload in
  (peak_li_get http_payload p = Some LI_HTTP /\ peak_li_test http_payload p LI_HTTP = Some true) /\
  ~ payload_in 1 ldap_payload (raw_packet IPPROTO_TCP ldap_payload).
Proof.
  split.
  - assert (payload_in 0 http_payload (raw_packet IPPROTO_TCP http_payload)) as H
      by (apply raw_packet_in, (bool_decide_unpack _); vm_compute; exact I).
    assert (peak_li_get http_payload (raw_packet IPPROTO_TCP http_payload) = Some LI_HTTP) as E by (vm_compute; reflexivity).
    split; [exact E|].
    pose proof (get_agrees_with_test http_payload (raw_packet IPPROTO_TCP http_payload) H) as Hg. rewrite E in Hg.
    apply Hg; [vm_compute; split; [discriminate|reflexivity]|vm_compute; discriminate|discriminate|discriminate].
  - pose proof (get_agrees_with_test ldap_payload (raw_packet IPPROTO_TCP ldap_payload)) as Hg.
    assert (peak_li_get ldap_payload (raw_packet IPPROTO_TCP ldap_payload) = None) as E by (vm_compute; reflexivity).
    rewrite E in Hg. apply Hg; [apply raw_packet_in, ldap_payload_bytes|vm_compute; split; [discriminate|reflexivity]|vm_compute; discriminate].
Defined.

(** C20.  Every detector of the table stays in the payload: with one byte of memory
    after the payload all of them answer, and without it all but LDAP and SNMP. *)
Theorem detectors_in_bounds a m packet :
  a ∈ apps ->
  (payload_in 1 m packet -> exists b, function a m packet = Some b) /\
  (exact_number (number a) = true -> payload_in 0 m packet -> exists b, function a m packet = Some b).
Proof.
  intros Ha. destruct (proj1 (Forall_forall _ _) apps_safe a Ha) as [H1 H0].
  split; [apply H1|]. intros He. by apply (H0 He).
Qed.

Definition dns_entry : peak_lis :=
  LI_LIST_APP peak_li_dns LI_DNS "dns" IPPROTO_UDP IPPROTO_TCP "Domain Name System"
    "DNS is a protocol to resolve domain names to IP addresses." "Networking".

Lemma dns_entry_in : dns_entry ∈ apps.
Proof. unfold apps, dns_entry. repeat first [left | right]. Qed.

Lemma detectors_in_bounds_witness :
  exists b, peak_li_dns [0; 1; 2; 3] (raw_packet IPPROTO_TCP [0; 1; 2; 3]) = Some b.
Proof.
  apply (detectors_in_bounds dns_entry [0; 1; 2; 3] (raw_packet IPPROTO_TCP [0; 1; 2; 3]) dns_entry_in).
  - reflexivity.
  - apply raw_packet_in. apply (bool_decide_unpack _). vm_compute. exact I.
Defined.

(** Merging the verdicts of a flow's two directions: the order does not matter;
    a side without data never decides, an undefined one never hides a detected
    protocol, the flow is undefined only when both sides are, and two detected
    protocols give one of them. *)
Theorem merge_laws x y :
  0 <= x -> 0 <= y ->
  peak_li_merge x y = peak_li_merge y x /\
  (peak_li_merge x y = LI_UNDEFINED <-> x = LI_UNDEFINED /\ y = LI_UNDEFINED) /\
  (LI_UNDEFINED < x -> y <= LI_UNDEFINED -> peak_li_merge x y = x) /\
  (x <= LI_UNDEFINED -> y = LI_UNKNOWN -> peak_li_merge x y = LI_UNKNOWN) /\
  (LI_UNDEFINED < x -> LI_UNDEFINED < y -> peak_li_merge x y = x \/ peak_li_merge x y = y).
Proof.
  intros Hx Hy. unfold peak_li_merge, LI_UNDEFINED, LI_UNKNOWN.
  rewrite (Z.max_comm y x), (orb_comm (y =? 0)).
  destruct (Z.eqb_spec (x `max` y) 1), (Z.eqb_spec x 0), (Z.eqb_spec y 0); cbn [andb orb];
    split_and!; try done; try split; lia.
Qed.

Lemma merge_laws_witness :
  peak_li_merge LI_UNDEFINED LI_HTTP = LI_HTTP /\ peak_li_merge LI_UNKNOWN LI_UNDEFINED = LI_UNKNOWN.
Proof.
  split.
  - destruct (merge_laws LI_HTTP LI_UNDEFINED) as (E & _ & H & _); [discriminate..|].
    etransitivity; [symmetry; exact E|]. apply H; [reflexivity|discriminate].
  - destruct (merge_laws LI_UNDEFINED LI_UNKNOWN) as (E & _ & _ & H & _); [discriminate..|].
    etransitivity; [symmetry; exact E|]. apply H; [discriminate|reflexivity].
Defined.

(** ** Names *)

Definition names_agree (a b : peak_lis) : bool :=
  Bool.eqb (strcasecmp (name a) (name b) =? 0) (number a =? number b).

Lemma apps_names : forallb (fun a => forallb (names_agree a) apps) apps = true.
Proof. by vm_compute. Qed.

Lemma apps_not_unknown : forallb (fun a => negb (strcasecmp "unknown" (name a) =? 0)) apps = true.
Proof. by vm_compute. Qed.

Lemma li_number_loop_spec l nm :
  (exists a, a ∈ l /\ (strcasecmp nm (name a) =? 0) = true /\ li_number_loop l nm = number a) \/
  (li_number_loop l nm = LI_UNKNOWN /\ forall a, a ∈ l -> (strcasecmp nm (name a) =? 0) = false).
Proof.
  induction l as [|x l IH]; simpl.
  { right. split; [done|]. intros a Ha. by apply elem_of_nil in Ha. }
  destruct (strcasecmp nm (name x) =? 0) eqn:E.
  - left. exists x. split_and!; [left|done..].
  - destruct IH as [(a & Ha & H)|[-> H]]; [left; exists a; split; [by right|done]|right].
    split; [done|]. intros a [->|Ha]%elem_of_cons; auto.
Qed.

Lemma li_data_loop_spec l num offset :
  (exists a, a ∈ l /\ number a = num /\ li_data_loop l num offset = Some (offset a)) \/
  (li_data_loop l num offset = None /\ forall a, a ∈ l -> number a <> num).
Proof.
  induction l as [|x l IH]; simpl.
  { right. split; [done|]. intros a Ha. by apply elem_of_nil in Ha. }
  destruct (Z.eqb_spec num (number x)) as [E|E].
  - left. exists x. split_and!; [left|done..].
  - destruct IH as [(a & Ha & H)|[-> H]]; [left; exists a; split; [by right|done]|right].
    split; [done|]. intros a [->|Ha]%elem_of_cons; auto.
Qed.

Lemma apps_cover n : 1 <= n <= 40 -> exists a, a ∈ apps /\ number a = n.
Proof.
  intros Hn. assert (n ∈ map number apps) as (a & -> & Ha)%list_elem_of_fmap; [|by exists a].
  assert (Forall (fun k => Z.of_nat k ∈ map number apps) (seq 1 40)) as H
    by (apply (bool_decide_unpack _); by vm_compute).
  rewrite <- (Z2Nat.id n) by lia. apply (proj1 (Forall_forall _ _) H).
  apply elem_of_seq. lia.
Qed.

Lemma apps_names_number a b :
  a ∈ apps -> b ∈ apps -> lower (name a) = lower (name b) <-> number a = number b.
Proof.
  intros Ha Hb. pose proof apps_names as H. rewrite forallb_forall in H.
  apply list_elem_of_In in Ha, Hb. specialize (H a Ha). rewrite forallb_forall in H.
  specialize (H b Hb). unfold names_agree in H. apply eqb_prop in H.
  rewrite strcasecmp_eqb in H.
  destruct (String.eqb_spec (lower (name a)) (lower (name b))), (Z.eqb_spec (number a) (number b)); done.
Qed.

(** Names and numbers: exactly the numbers of the enumeration have a name (and a
    title, description and category), the others panic; a name in any case gives
    its number back; and a string that gives a number other than unknown is, up to
    case, that number's name. *)
Theorem names_roundtrip num nm :
  (is_Some (peak_li_name num) <-> 0 <= num <= 40) /\
  (is_Some (peak_li_name num) <-> is_Some (peak_li_pretty num)) /\
  (is_Some (peak_li_name num) <-> is_Some (peak_li_desc num)) /\
  (is_Some (peak_li_name num) <-> is_Some (peak_li_cat num)) /\
  (forall s, peak_li_name num = Some s -> (strcasecmp nm s =? 0) = true -> peak_li_number nm = num) /\
  (peak_li_number nm <> LI_UNKNOWN ->
     exists s, peak_li_name (peak_li_number nm) = Some s /\ (strcasecmp nm s =? 0) = true).
Proof.
  assert (forall off, is_Some (peak_li_data num off) <-> 0 <= num <= 40) as Hdata.
  { intros off. unfold peak_li_data, LI_UNKNOWN. destruct (Z.eqb_spec num 0) as [->|].
    - split; [lia|]. intros _. by eexists.
    - destruct (li_data_loop_spec apps num off) as [(a & Ha & <- & ->)|[-> Hno]].
      + pose proof (proj1 (Forall_forall _ _) apps_listed a Ha) as Hn. cbv beta in Hn.
        split; [lia|]. intros _. by eexists.
      + split; [by intros []|]. intros Hn. destruct (apps_cover num) as (a & Ha & E); [lia|].
        by apply Hno in Ha. }
  unfold peak_li_name, peak_li_pretty, peak_li_desc, peak_li_cat. rewrite !Hdata.
  split_and!; try done.
  - intros s Hs Hc. rewrite strcasecmp_eqb in Hc. apply String.eqb_eq in Hc.
    unfold peak_li_number. unfold peak_li_data in Hs. destruct (Z.eqb_spec num LI_UNKNOWN) as [->|].
    + injection Hs as <-. destruct (li_number_loop_spec apps nm) as [(b & Hb & E & ->)|[-> _]]; [|done].
      pose proof apps_not_unknown as H. rewrite forallb_forall in H.
      apply list_elem_of_In in Hb. specialize (H b Hb). rewrite strcasecmp_eqb in H, E.
      by rewrite <- Hc, E in H.
    + destruct (li_data_loop_spec apps num name) as [(a & Ha & <- & E)|[E _]];
        rewrite E in Hs; [|done]. injection Hs as <-.
      destruct (li_number_loop_spec apps nm) as [(b & Hb & En & ->)|[_ Hno]].
      * rewrite strcasecmp_eqb in En. apply String.eqb_eq in En. apply (apps_names_number b a); [done..|congruence].
      * specialize (Hno a Ha). by rewrite strcasecmp_eqb, Hc, String.eqb_refl in Hno.
  - intros Hne. unfold peak_li_number in *.
    destruct (li_number_loop_spec apps nm) as [(b & Hb & En & E)|[E _]]; [|done].
    rewrite E in *. unfold peak_li_data. destruct (Z.eqb_spec (number b) LI_UNKNOWN); [done|].
    destruct (li_data_loop_spec apps (number b) name) as [(a & Ha & Ea & ->)|[_ Hno]];
      [|by apply Hno in Hb]. exists (name a). split; [done|].
    rewrite strcasecmp_eqb in *. apply (apps_names_number a b Ha Hb) in Ea. by rewrite Ea.
Qed.

Lemma names_roundtrip_witness :
  peak_li_name LI_HTTP = Some "http"%string /\ peak_li_number "Http" = LI_HTTP.
Proof.
  split; [reflexivity|].
  destruct (names_roundtrip LI_HTTP "Http") as (_ & _ & _ & _ & H & _).
  apply (H "http"%string); reflexivity.
Defined.

(** ** The shared greeting *)

Lemma first_bytes_be16 m packet b0 b1 b2 b3 :
  bytes m -> app_bytes m packet 0 4 = Some [b0; b1; b2; b3] ->
  app_be16 m packet 2 = Some (be_val [b2; b3]).
Proof.
  intros Hm H. unfold app_bytes, app_be16 in *. destruct (app_raw packet) as [a|]; [|done].
  cbn [mbind option_bind] in *. rewrite be16dec_spec by done.
  assert (rd_n m (a + 2) 2 = Some [b2; b3]) as ->; [|done].
  apply rd_n_eq; [done|]. intros k Hk.
  replace (a + 2 + Z.of_nat k) with (a + 0 + Z.of_nat (2 + k)) by lia.
  rewrite <- (rd_n_lookup _ _ _ _ (2 + k) H) by lia. by destruct k as [|[|k]]; [..|lia].
Qed.

(** A keyword detector, once the first four bytes are known. *)
Lemma match_payload_first m packet keys k bs :
  4 <= app_len packet -> app_bytes m packet 0 4 = Some bs ->
  Forall (fun k => length k = 4%nat) keys ->
  LI_MATCH_PAYLOAD m packet keys 4 k = if bool_decide (bs ∈ keys) then Some true else k.
Proof.
  intros Hl E Hk. unfold LI_MATCH_PAYLOAD. destruct (Z.ltb_spec (app_len packet) (Z.of_nat 4)); [lia|].
  pose proof (rd_n_length) as Hlen.
  rewrite (match_keys_spec m packet keys 4 bs); [done|done| |done].
  unfold app_bytes in E. destruct (app_raw packet); [|done]. by eapply Hlen.
Qed.

Definition ftp_excluded : list Z := [110; 25; 465; 587; 194; 6667].

Definition banner_220 (bs : list Z) : Prop := bs = str "220 " \/ bs = str "220-".

Lemma banner_pptp m packet bs :
  payload_in 0 m packet -> app_bytes m packet 0 4 = Some bs -> banner_220 bs ->
  peak_li_pptp_raw m packet = Some false.
Proof.
  intros Hp Hb Hban. unfold peak_li_pptp_raw, sizeof_pptp.
  destruct (Z.ltb_spec (app_len packet) 8); [done|].
  destruct (app_be32_in (slack := 0) ltac:(lia) Hp 4) as [v ->]; [lia..|]. cbn [mbind option_bind].
  destruct (negb (v =? 0x1A2B3C4D)); [done|].
  destruct (app_be16_in (slack := 0) ltac:(lia) Hp 0) as [w ->]; [lia..|]. cbn [mbind option_bind].
  destruct (w <? 8); [done|].
  destruct Hban as [->| ->];
    (erewrite first_bytes_be16; [|apply Hp|exact Hb]); reflexivity.
Qed.

Lemma li_get_loop_skip m packet a l :
  proto_matches packet a = false \/ function a m packet = Some false ->
  li_get_loop (a :: l) m packet = li_get_loop l m packet.
Proof. simpl. intros [-> | ->]; [done|]. by destruct (proto_matches packet a). Qed.

Lemma li_get_loop_hit m packet a l :
  proto_matches packet a = true -> function a m packet = Some true ->
  li_get_loop (a :: l) m packet = Some (Some (number a)).
Proof. simpl. by intros -> ->. Qed.

(** Pass an entry of another protocol, or one whose detector says no ([no]). *)
Ltac skip_entry Ht no :=
  first [left; unfold proto_matches; rewrite Ht; reflexivity
        |right; cbn [function LI_LIST_APP]; no; reflexivity].

Ltac hit_entry Ht yes :=
  first [unfold proto_matches; rewrite Ht; reflexivity|cbn [function LI_LIST_APP]; yes].

(** The "220" greeting, which FTP and SMTP servers share: a TCP payload that
    starts with it is SMTP, unless exactly one of the ports is 21; then it is FTP,
    unless exactly one of them is one of FTP's excluded ports. *)
Theorem banner_220_verdict m packet bs :
  payload_in 0 m packet -> net_type packet = IPPROTO_TCP -> 4 <= app_len packet ->
  app_bytes m packet 0 4 = Some bs -> banner_220 bs ->
  (LI_EXCLUDE_PORT packet 21 = false -> peak_li_get m packet = Some LI_SMTP) /\
  (LI_EXCLUDE_PORT packet 21 = true -> Forall (fun p => LI_EXCLUDE_PORT packet p = false) ftp_excluded ->
     peak_li_get m packet = Some LI_FTP).
Proof.
  intros Hp Ht Hl Hb Hban. unfold peak_li_get. rewrite Ht.
  destruct (Z.eqb_spec (app_len packet) 0); [lia|]. rewrite andb_false_r.
  assert (forall keys, Forall (fun k => length k = 4%nat) keys ->
    LI_MATCH_PAYLOAD m packet keys 4 (Some false) = Some (bool_decide (bs ∈ keys))) as Hkw.
  { intros keys Hk. rewrite (match_payload_first _ _ _ _ bs) by done. by case_bool_decide. }
  assert (forall keys : list (list Z), bool_decide (str "220 " ∈ keys) = false -> bool_decide (str "220-" ∈ keys) = false ->
    bool_decide (bs ∈ keys) = false) as Hno by (intros keys ? ?; destruct Hban as [->| ->]; done).
  assert (peak_li_pptp m packet = Some false) as Epptp.
  { unfold peak_li_pptp. rewrite Ht. by eapply banner_pptp. }
  assert (peak_li_http m packet = Some false) as Ehttp
    by (unfold peak_li_http; rewrite Hkw by (repeat constructor); by rewrite Hno).
  assert (peak_li_rtsp m packet = Some false) as Ertsp
    by (unfold peak_li_rtsp; rewrite Hkw by (repeat constructor); by rewrite Hno).
  assert (peak_li_pop3 m packet = Some false) as Epop3
    by (unfold peak_li_pop3; rewrite Hkw by (repeat constructor); rewrite Hno by done; by repeat case_match).
  assert (peak_li_imap m packet = Some false) as Eimap
    by (unfold peak_li_imap; rewrite Hkw by (repeat constructor); by rewrite Hno).
  assert (forall keys : list (list Z), str "220 " ∈ keys -> str "220-" ∈ keys -> bool_decide (bs ∈ keys) = true) as Hyes
    by (intros keys ? ?; apply bool_decide_eq_true_2; destruct Hban as [->| ->]; done).
  unfold apps, LI_LIST_APP, LI_LIST_IPTYPE.
  split; [intros H21|intros H21 Hex].
  - assert (peak_li_smtp m packet = Some true) as Esmtp.
    { unfold peak_li_smtp. rewrite H21, Hkw by (repeat constructor).
      by rewrite Hyes by (repeat first [left|right]). }
    repeat (rewrite li_get_loop_skip by (skip_entry Ht
      ltac:(first [rewrite Epptp | rewrite Ehttp | rewrite Ertsp | rewrite Epop3 | rewrite Eimap]))).
    rewrite li_get_loop_hit by (hit_entry Ht ltac:(exact Esmtp)). done.
  - assert (peak_li_smtp m packet = Some false) as Esmtp by (unfold peak_li_smtp; by rewrite H21).
    assert (peak_li_ftp m packet = Some true) as Eftp.
    { unfold ftp_excluded in Hex. rewrite !Forall_cons in Hex. destruct_and!.
      unfold peak_li_ftp. repeat match goal with H : _ = false |- _ => rewrite H; clear H end.
      rewrite Hkw by (repeat constructor). by rewrite Hyes by (repeat first [left|right]). }
    repeat (rewrite li_get_loop_skip by (skip_entry Ht
      ltac:(first [rewrite Epptp | rewrite Ehttp | rewrite Ertsp | rewrite Epop3 | rewrite Eimap
                  | rewrite Esmtp]))).
    rewrite li_get_loop_hit by (hit_entry Ht ltac:(exact Eftp)). done.
Qed.

Lemma banner_220_verdict_witness :
  let p := (raw_packet IPPROTO_TCP (str "220 ready"))<|set_flow_sport 21|><|set_flow_dport 50000|> in
  peak_li_get (str "220 ready") p = Some LI_FTP.
Proof.
  destruct (banner_220_verdict (str "220 ready")
    ((raw_packet IPPROTO_TCP (str "220 ready"))<|set_flow_sport 21|><|set_flow_dport 50000|>)
    (str "220 ")) as [_ H].
  - split.
    + apply (bool_decide_unpack _). vm_compute. exact I.
    + intros _. exists 0. split; [reflexivity|]. split; [lia|vm_compute; discriminate].
    + simpl. lia.
  - reflexivity.
  - vm_compute. discriminate.
  - reflexivity.
  - left. reflexivity.
  - apply H; [reflexivity|]. repeat constructor.
Defined.
