(* ===== verification/Order.v ===== *)
(** * Elements ordered by a key

    What a C comparison function promises to the containers that use it ([Page],
    [Tree]): its sign is the order of two integer keys.  The lists such containers
    hold are ascending in the key. *)

From stdpp Require Export sorting.
From S2P Require Import Prelude.

(** The comparison orders the elements by a key. *)
Class KeyOrder {A} (cmp_fun : A -> A -> Z) (key : A -> Z) : Prop :=
  cmp_key x y : (cmp_fun x y ?= 0) = (key x ?= key y).

#[export] Instance Z_sub_order : KeyOrder Z.sub (fun z => z).
Proof.
  intros x y. destruct (Z.compare_spec x y); [apply Z.compare_eq_iff|apply Z.compare_lt_iff|
    apply Z.compare_gt_iff]; lia.
Qed.

Section comparisons.
Context {A : Type} {cmp_fun : A -> A -> Z} {key : A -> Z} {KO : KeyOrder cmp_fun key}.

Lemma cmp_lt x y : (cmp_fun x y <? 0) = (key x <? key y).
Proof. unfold Z.ltb. by rewrite cmp_key. Qed.

Lemma cmp_gt x y : (0 <? cmp_fun x y) = (key y <? key x).
Proof. unfold Z.ltb. by rewrite Z.compare_antisym, cmp_key, <- Z.compare_antisym. Qed.

Lemma cmp_eq x y : (cmp_fun x y =? 0) = (key x =? key y).
Proof. rewrite !Z.eqb_compare. by rewrite cmp_key. Qed.

End comparisons.

(** ** Ascending lists *)

Section keys.
Context {A : Type} {key : A -> Z}.

Definition ascending (l : list A) : Prop := StronglySorted (fun a b => key a < key b) l.

(** All keys below, all keys above. *)
Definition below (k : Z) (l : list A) : Prop := Forall (fun a => key a < k) l.
Definition above (k : Z) (l : list A) : Prop := Forall (fun a => k < key a) l.

Lemma ascending_app l r :
  ascending (l ++ r) <-> ascending l /\ ascending r /\ Forall (fun a => above (key a) r) l.
Proof.
  unfold ascending, above. induction l as [|a l IH]; simpl.
  - split; [intros H; split_and!; [constructor|done|constructor]|tauto].
  - split.
    + intros H. inversion H as [|? ? Hs Hf]; subst. apply IH in Hs as (H1 & H2 & H3).
      apply Forall_app in Hf as [Hl Hr]. split_and!; [by constructor|done|by constructor].
    + intros (H1 & H2 & H3). inversion H1 as [|? ? Hs Hf]; subst.
      apply Forall_cons in H3 as [H3 H4]. constructor; [by apply IH|].
      by apply Forall_app.
Qed.

(** A fresh element between smaller and greater ones. *)
Lemma ascending_insert l x r :
  ascending (l ++ r) -> below (key x) l -> above (key x) r -> ascending (l ++ x :: r).
Proof.
  rewrite !ascending_app. intros (H1 & H2 & H3) Hl Hr. split_and!; [done| |].
  - by constructor.
  - unfold below in Hl. rewrite Forall_forall in *. intros a Ha. constructor; [by apply Hl|by apply H3].
Qed.

(** Outside a gap, an ascending list is not affected by its size. *)
Lemma ascending_mid l a r : ascending (l ++ a :: r) -> below (key a) l /\ above (key a) r.
Proof.
  rewrite ascending_app. intros (_ & H2 & H3). split.
  - unfold below. rewrite Forall_forall in *. intros b Hb. specialize (H3 b Hb).
    by apply Forall_cons in H3 as [? _].
  - by inversion H2.
Qed.

Lemma below_le k k' l : k <= k' -> below k l -> below k' l.
Proof. intros Hk H. eapply Forall_impl; [exact H|]. simpl. lia. Qed.

Lemma above_le k k' l : k' <= k -> above k l -> above k' l.
Proof. intros Hk H. eapply Forall_impl; [exact H|]. simpl. lia. Qed.

Lemma above_cons_ascending k a l : ascending (a :: l) -> k < key a -> above k (a :: l).
Proof.
  intros H Hk. inversion H; subst. constructor; [done|]. eapply above_le; [|done]. lia.
Qed.

Lemma below_last k p a : ascending p -> last p = Some a -> key a < k -> below k p.
Proof.
  intros H Hl Hk. apply last_Some in Hl as [l ->]. apply ascending_mid in H as [H _].
  apply Forall_app. split; [eapply below_le; [|done]; lia|by repeat constructor].
Qed.

Lemma gap_fresh x l r : below (key x) l -> above (key x) r -> forall a, a ∈ l ++ r -> key a <> key x.
Proof.
  unfold below, above. rewrite !Forall_forall. intros Hl Hr a [Ha|Ha]%elem_of_app;
    [specialize (Hl a Ha)|specialize (Hr a Ha)]; lia.
Qed.

(** In an ascending list the element of a key is found by its key. *)
Lemma find_key l a : ascending l -> a ∈ l -> find (fun b => key b =? key a) l = Some a.
Proof.
  induction l as [|b l IH]; intros H Ha; [by apply elem_of_nil in Ha|]. simpl.
  inversion H as [|? ? Hs Hf]; subst. apply elem_of_cons in Ha as [->|Ha]; [by rewrite Z.eqb_refl|].
  rewrite Forall_forall in Hf. specialize (Hf a Ha). simpl in Hf.
  destruct (Z.eqb_spec (key b) (key a)); [lia|]. by apply IH.
Qed.

Lemma find_no_key l k : (forall a, a ∈ l -> key a <> k) -> find (fun b => key b =? k) l = None.
Proof.
  intros H. induction l as [|b l IH]; [done|]. simpl.
  destruct (Z.eqb_spec (key b) k) as [E|]; [exfalso; apply (H b); [left|done]|].
  apply IH. intros a Ha. apply H. by right.
Qed.

(** An element with another key is not in the way. *)
Lemma find_skip_key l a r k : key a <> k ->
  find (fun b => key b =? k) (l ++ a :: r) = find (fun b => key b =? k) (l ++ r).
Proof.
  intros H. induction l as [|b l IH]; simpl.
  - by destruct (Z.eqb_spec (key a) k).
  - by rewrite IH.
Qed.

Lemma ascending_remove l a r : ascending (l ++ a :: r) -> ascending (l ++ r).
Proof.
  rewrite !ascending_app. intros (H1 & H2 & H3). split_and!; [done|by inversion H2|].
  eapply Forall_impl; [exact H3|]. intros b Hb. by inversion Hb.
Qed.

Lemma ascending_tail a l : ascending (a :: l) -> ascending l.
Proof. by inversion 1. Qed.

(** ** The first element that satisfies a test *)

Lemma find_below (f : A -> bool) k xs : (forall b, f b = true -> k <= key b) -> below k xs -> find f xs = None.
Proof.
  intros Hf H. induction H as [|b xs Hb _ IH]; [done|]. simpl.
  destruct (f b) eqn:E; [apply Hf in E; lia|done].
Qed.

Lemma find_above (f : A -> bool) k xs : (forall b, f b = true -> key b <= k) -> above k xs -> find f xs = None.
Proof.
  intros Hf H. induction H as [|b xs Hb _ IH]; [done|]. simpl.
  destruct (f b) eqn:E; [apply Hf in E; lia|done].
Qed.

Lemma find_app_match (f : A -> bool) xs ys :
  find f (xs ++ ys) = match find f xs with Some b => Some b | None => find f ys end.
Proof. induction xs as [|b xs IH]; simpl; [done|]. by destruct (f b). Qed.

End keys.

(** Only the keys matter. *)
Lemma ascending_keys {A B} {key : A -> Z} {key' : B -> Z} l l' :
  map key l = map key' l' -> ascending (key := key) l -> ascending (key := key') l'.
Proof.
  revert l'. induction l as [|a l IH]; intros [|b l'] E H; [constructor|done..|].
  injection E as Ea El. inversion H as [|? ? Hs Hf]; subst. constructor; [by apply IH|].
  rewrite Forall_forall in Hf. apply Forall_forall. intros c Hc. rewrite <- Ea.
  assert (key' c ∈ map key l) as Hk by (rewrite El; by apply list_elem_of_fmap_2).
  apply list_elem_of_fmap in Hk as (d & Ed & Hd). rewrite Ed. by apply Hf.
Qed.
