(* ===== verification/Stash.v ===== *)
(** * Stashes

    Models [include/peak_stash.h]: a bounded stack over an array of [size] slots.
    The slots keep their values after a pop, so the array and the [index] are both
    state; the contents are the slots below the index.  [STASH_SORT] sorts them with the
    [qsort(3)] of the C library, a parameter. *)

From stdpp Require Import sorting.
From S2P Require Import Prelude Order.
Open Scope Z_scope.

Section operations.
Context {A : Type}.

(** [struct peak_stash_*]; [values] has [size] slots. *)
Record stash := Stash { index : nat; size : nat; values : list A }.

(** [STASH_DECLARE]: the slots are static storage. *)
Definition STASH_DECLARE (slots : list A) : stash := Stash 0 (length slots) slots.

Definition STASH_FULL (s : stash) : bool := (size s <=? index s)%nat.
Definition STASH_EMPTY (s : stash) : bool := (index s =? 0)%nat.
Definition STASH_COUNT (s : stash) : nat := index s.
Definition STASH_LIST (s : stash) : list A := values s.
Definition STASH_CLEAR (s : stash) : stash := Stash 0 (size s) (values s).

(** The slot that was written, or NULL. *)
Definition STASH_PUSH (x : A) (s : stash) : stash * option nat :=
  if negb (STASH_FULL s)
  then (Stash (S (index s)) (size s) (<[index s := x]> (values s)), Some (index s))
  else (s, None).

(** The slot that was left, or NULL. *)
Definition STASH_POP (s : stash) : stash * option nat :=
  if negb (STASH_EMPTY s)
  then (Stash (pred (index s)) (size s) (values s), Some (pred (index s)))
  else (s, None).

(** The slots the two loops visit, in their order. *)
Fixpoint upward (i n : nat) : list nat :=
  match n with O => [] | S n => i :: upward (S i) n end.

Fixpoint downward (n : nat) : list nat :=
  match n with O => [] | S n => n :: downward n end.

Definition STASH_FOREACH (s : stash) : list nat :=
  if negb (STASH_EMPTY s) then upward 0 (STASH_COUNT s) else [].

Definition STASH_FOREACH_REVERSE (s : stash) : list nat :=
  if negb (STASH_EMPTY s) then downward (STASH_COUNT s) else [].

(** With any [qsort(3)]. *)
Definition STASH_SORT (qsort : (A -> A -> Z) -> list A -> list A) (cmp : A -> A -> Z) (s : stash) : stash :=
  Stash (index s) (size s) (qsort cmp (take (STASH_COUNT s) (STASH_LIST s)) ++ drop (STASH_COUNT s) (STASH_LIST s)).

(** ** Specification: the contents, oldest first *)

Definition stash_ok (s : stash) : Prop := (index s <= size s)%nat /\ length (values s) = size s.

Definition contents (s : stash) : list A := take (index s) (values s).

Lemma contents_length s : stash_ok s -> length (contents s) = index s.
Proof. intros [H1 H2]. unfold contents. rewrite length_take. lia. Qed.

Lemma stash_push_spec x s :
  stash_ok s ->
  stash_ok (fst (STASH_PUSH x s)) /\
  if (index s <? size s)%nat
  then contents (fst (STASH_PUSH x s)) = contents s ++ [x] /\ snd (STASH_PUSH x s) = Some (index s)
  else STASH_PUSH x s = (s, None).
Proof.
  intros [H1 H2]. unfold STASH_PUSH, STASH_FULL.
  destruct (Nat.leb_spec (size s) (index s)), (Nat.ltb_spec (index s) (size s)); try lia; simpl.
  - done.
  - split; [split; simpl; [lia|by rewrite length_insert]|]. split; [|done].
    unfold contents. simpl. rewrite (take_S_r _ _ x) by (apply list_lookup_insert_eq; lia).
    by rewrite take_insert_ge by lia.
Qed.

Lemma stash_pop_spec s :
  stash_ok s ->
  stash_ok (fst (STASH_POP s)) /\
  match last (contents s) with
  | Some x => contents s = contents (fst (STASH_POP s)) ++ [x] /\
              exists i, snd (STASH_POP s) = Some i /\ values s !! i = Some x
  | None => STASH_POP s = (s, None)
  end.
Proof.
  intros [H1 H2]. unfold STASH_POP, STASH_EMPTY, contents.
  destruct (Nat.eqb_spec (index s) 0) as [E|E]; simpl.
  - split; [done|]. by rewrite E.
  - split; [split; simpl; lia|]. destruct (lookup_lt_is_Some_2 (values s) (pred (index s))) as [x Hx]; [lia|].
    assert (take (index s) (values s) = take (pred (index s)) (values s) ++ [x]) as Et.
    { rewrite <- (take_S_r _ _ _ Hx). f_equal. lia. }
    rewrite Et, last_snoc. split; [done|]. by exists (pred (index s)).
Qed.

Lemma upward_seq i n : upward i n = seq i n.
Proof. revert i. induction n as [|n IH]; intros i; simpl; [done|]. by rewrite IH. Qed.

Lemma downward_seq n : downward n = reverse (seq 0 n).
Proof.
  induction n as [|n IH]; [done|]. rewrite seq_S, reverse_snoc. simpl. by rewrite IH.
Qed.

(** A list is its elements by position. *)
Lemma contents_slots s : stash_ok s -> omap (fun i => values s !! i) (seq 0 (index s)) = contents s.
Proof.
  intros [H1 H2]. unfold contents. assert (index s <= length (values s))%nat as H by lia.
  clear H1 H2. induction (index s) as [|n IH]; [done|].
  rewrite seq_S, omap_app. simpl. destruct (lookup_lt_is_Some_2 (values s) n) as [x Hx]; [lia|].
  rewrite Hx. rewrite IH by lia. by rewrite (take_S_r _ _ _ Hx).
Qed.

(** Pushing one after the other. *)
Definition push_all (xs : list A) (temp : stash) : stash := foldl (fun s x => fst (STASH_PUSH x s)) temp xs.

Lemma push_all_app xs ys temp : push_all (xs ++ ys) temp = push_all ys (push_all xs temp).
Proof. apply foldl_app. Qed.

(** A stash takes what it has room for. *)
Lemma push_all_contents xs temp :
  stash_ok temp ->
  stash_ok (push_all xs temp) /\ size (push_all xs temp) = size temp /\
  contents (push_all xs temp) = contents temp ++ take (size temp - index temp) xs.
Proof.
  revert temp. induction xs as [|x xs IH]; intros temp Hok; simpl.
  { by rewrite take_nil, app_nil_r. }
  pose proof (stash_push_spec x temp Hok) as [Hok' Hp].
  destruct (IH _ Hok') as (H1 & H2 & H3). split; [done|].
  assert (size (fst (STASH_PUSH x temp)) = size temp) as Es
    by (unfold STASH_PUSH; by destruct (STASH_FULL temp)).
  split; [congruence|]. rewrite H3, Es. destruct (Nat.ltb_spec (index temp) (size temp)).
  - destruct Hp as [Hc _]. rewrite Hc, <- app_assoc. f_equal.
    assert (index (fst (STASH_PUSH x temp)) = S (index temp)) as ->.
    { unfold STASH_PUSH, STASH_FULL. destruct (Nat.leb_spec (size temp) (index temp)); [lia|done]. }
    by replace (size temp - index temp)%nat with (S (size temp - S (index temp))) by lia.
  - rewrite Hp. simpl. by replace (size temp - index temp)%nat with 0%nat by lia.
Qed.

(** The same, seen as what the whole array has room for. *)
Lemma push_all_room xs temp :
  stash_ok temp -> contents (push_all xs temp) = take (size temp) (contents temp ++ xs).
Proof.
  intros Hok. destruct (push_all_contents xs temp Hok) as (_ & _ & ->). rewrite take_app, contents_length by done.
  by rewrite (take_ge (contents temp)) by (rewrite contents_length by done; apply Hok).
Qed.

(** ** Properties *)

(** A stash is a bounded stack: a push onto a full stash changes nothing and
    yields NULL, any other push puts the value on top; a pop takes the top away
    and points to it, or changes nothing on an empty stash; popping what was
    pushed restores the contents; and the two loops visit the contents in order
    and in reverse. *)
Theorem stash_is_stack x s :
  stash_ok s ->
  (STASH_FULL s = true -> STASH_PUSH x s = (s, None)) /\
  (STASH_FULL s = false -> contents (fst (STASH_PUSH x s)) = contents s ++ [x] /\
     exists i, snd (STASH_PUSH x s) = Some i /\ values (fst (STASH_PUSH x s)) !! i = Some x /\
     contents (fst (STASH_POP (fst (STASH_PUSH x s)))) = contents s /\
     snd (STASH_POP (fst (STASH_PUSH x s))) = Some i) /\
  (STASH_EMPTY s = true -> contents s = [] /\ STASH_POP s = (s, None)) /\
  omap (fun i => values s !! i) (STASH_FOREACH s) = contents s /\
  omap (fun i => values s !! i) (STASH_FOREACH_REVERSE s) = reverse (contents s).
Proof.
  intros Hok. pose proof (stash_push_spec x s Hok) as [Hok' Hp]. split_and!.
  - unfold STASH_FULL. intros H%Nat.leb_le. destruct (Nat.ltb_spec (index s) (size s)); [lia|done].
  - unfold STASH_FULL. intros H%Nat.leb_gt. destruct (Nat.ltb_spec (index s) (size s)); [|lia].
    destruct Hp as [Hc Hi]. split; [done|]. exists (index s). split; [done|].
    pose proof (stash_pop_spec _ Hok') as [_ Hpop]. rewrite Hc, last_snoc in Hpop.
    destruct Hpop as [Hc' (i & Ei & Hx)]. apply app_inj_tail in Hc' as [Hc' _].
    assert (i = index s) as ->; [|done].
    revert Ei. unfold STASH_POP, STASH_PUSH, STASH_FULL.
    destruct (Nat.leb_spec (size s) (index s)); [lia|]. simpl. by intros [= <-].
  - unfold STASH_POP, STASH_EMPTY. intros H. rewrite H. apply Nat.eqb_eq in H.
    unfold contents. by rewrite H.
  - unfold STASH_FOREACH, STASH_EMPTY, STASH_COUNT. rewrite upward_seq, <- contents_slots by done.
    by destruct (Nat.eqb_spec (index s) 0) as [->|].
  - unfold STASH_FOREACH_REVERSE, STASH_COUNT, STASH_EMPTY. rewrite downward_seq, <- contents_slots by done.
    destruct (Nat.eqb_spec (index s) 0) as [->|]; [done|]. simpl.
    generalize (seq 0 (index s)). intros l. induction l as [|i l IH]; [done|].
    rewrite reverse_cons, omap_app, IH. simpl. destruct (values s !! i); simpl;
      [by rewrite reverse_cons|by rewrite app_nil_r].
Qed.

(** [qsort(3)] permutes the array into the order of the comparison. *)
Definition qsort_ok (qsort : (A -> A -> Z) -> list A -> list A) : Prop :=
  forall cmp key l, KeyOrder cmp key -> qsort cmp l ≡ₚ l /\ StronglySorted (fun a b => key a <= key b) (qsort cmp l).

(** Sorting permutes the contents into the order of the comparison; the slots above stay. *)
Theorem stash_sort qsort cmp key s :
  qsort_ok qsort -> KeyOrder cmp key -> stash_ok s ->
  stash_ok (STASH_SORT qsort cmp s) /\ contents (STASH_SORT qsort cmp s) ≡ₚ contents s /\
  StronglySorted (fun a b => key a <= key b) (contents (STASH_SORT qsort cmp s)) /\
  drop (index s) (values (STASH_SORT qsort cmp s)) = drop (index s) (values s).
Proof.
  intros Hq Hk Hok. destruct (Hq cmp key (contents s) Hk) as [Hp Hs]. pose proof (contents_length s Hok) as Hl.
  pose proof (Permutation_length Hp) as Hl'. destruct Hok as [H1 H2].
  assert (contents (STASH_SORT qsort cmp s) = qsort cmp (contents s)) as ->.
  { unfold contents at 1. cbn. apply take_app_length'. unfold contents, STASH_LIST, STASH_COUNT in *. lia. }
  split_and!; [|done|done|].
  - split; cbn; [done|]. unfold STASH_LIST, STASH_COUNT, contents in *. rewrite length_app, length_drop. lia.
  - cbn. apply drop_app_length'. unfold STASH_LIST, STASH_COUNT, contents in *. congruence.
Qed.

End operations.
Arguments stash : clear implicits.

#[local] Instance cmp_le_dec {A} (cmp : A -> A -> Z) : RelDecision (fun a b => cmp a b <= 0).
Proof. intros a b. apply Z_le_dec. Defined.

(** A sort that does what is asked of [qsort(3)]. *)
Definition sort {A} (cmp : A -> A -> Z) (l : list A) : list A := merge_sort (fun a b => cmp a b <= 0) l.

Lemma sort_ok {A} : qsort_ok (A := A) sort.
Proof.
  intros cmp key l Hk. split; [apply merge_sort_Permutation|].
  assert (forall a b, cmp a b <= 0 <-> key a <= key b) as Hc.
  { intros a b. pose proof (cmp_gt (cmp_fun := cmp) (key := key) a b). destruct (Z.ltb_spec 0 (cmp a b)), (Z.ltb_spec (key b) (key a)); lia || congruence. }
  assert (Total (fun a b => cmp a b <= 0)) as Ht by (intros a b; rewrite !Hc; lia).
  assert (Transitive (fun a b => cmp a b <= 0)) as Htr by (intros a b c; rewrite !Hc; lia).
  unfold sort. induction (StronglySorted_merge_sort (fun a b => cmp a b <= 0) l) as [|a r Hr IH Ha]; constructor; [done|].
  eapply Forall_impl; [exact Ha|]. intros b. apply Hc.
Qed.

Lemma stash_sort_witness : contents (STASH_SORT sort (fun x y => x - y) (Stash 3 4 [3; 1; 2; 9])) = [1; 2; 3].
Proof. vm_compute. reflexivity. Qed.

Lemma stash_is_stack_witness :
  STASH_PUSH 7 (Stash 2 2 [5; 6]) = (Stash 2 2 [5; 6], None) /\
  contents (fst (STASH_PUSH 7 (Stash 1 2 [5; 6]))) = [5; 7].
Proof.
  split.
  - apply (stash_is_stack 7 (Stash 2 2 [5; 6])); [split; simpl; lia|reflexivity].
  - destruct (stash_is_stack 7 (Stash 1 2 [5; 6])) as (_ & H & _); [split; simpl; lia|].
    destruct (H eq_refl) as [E _]. etransitivity; [exact E|reflexivity].
Defined.
