(* ===== verification/Number.v ===== *)
(** * Numbers

    Models [lib/peak_number.c]: lists of comparisons with a result each, added from their
    decimal text and searched with a text or its length, the results of the comparisons
    that hold being pushed on a [Stash].  The texts are copied with the [strlcpy] of
    [Compat]. *)

From S2P Require Import Prelude Compat Stash.

(** ** strtoll(3), base 10 *)

Definition LLONG_MAX : Z := 2 ^ 63 - 1.
Definition LLONG_MIN : Z := - 2 ^ 63.

Definition isspace (c : Z) : bool := (c =? 32) || ((9 <=? c) && (c <=? 13)).
Definition isdigit (c : Z) : bool := (48 <=? c) && (c <=? 57).

Fixpoint skip_spaces (l : list Z) : list Z :=
  match l with c :: l' => if isspace c then skip_spaces l' else l | [] => [] end.

Definition sign (l : list Z) : bool * list Z :=
  match l with
  | c :: l' => if c =? 45 then (true, l') else if c =? 43 then (false, l') else (false, l)
  | [] => (false, [])
  end.

(** The value of the leading digits and what follows them. *)
Fixpoint digits (acc : Z) (l : list Z) : Z * list Z :=
  match l with
  | c :: l' => if isdigit c then digits (acc * 10 + (c - 48)) l' else (acc, l)
  | [] => (acc, [])
  end.

(** The value, the end pointer as an index, and whether [errno] is [ERANGE]. *)
Definition strtoll (l : list Z) : Z * nat * bool :=
  let '(neg, ds) := sign (skip_spaces l) in
  let '(v, rest) := digits 0 ds in
  if (length rest =? length ds)%nat then (0, 0%nat, false)
  else
    let ep := (length l - length rest)%nat in
    let v := if neg then - v else v in
    if LLONG_MAX <? v then (LLONG_MAX, ep, true)
    else if v <? LLONG_MIN then (LLONG_MIN, ep, true)
    else (v, ep, false).

(** ** peak_number.c *)

Definition NUMBER_TYPE_MASK : Z := 0xFF00.
Definition NUMBER_OP_MASK : Z := 0x00FF.

Definition NUMBER_EQ : Z := 0.
Definition NUMBER_NE : Z := 1.
Definition NUMBER_GT : Z := 2.
Definition NUMBER_LT : Z := 3.
Definition NUMBER_LE : Z := 4.
Definition NUMBER_GE : Z := 5.
Definition NUMBER_MAX : Z := 6.

Definition NUMBER_STRING : Z := 0x0000.
Definition NUMBER_LENGTH : Z := 0x0100.

(** The [next] pointers are the order of a list. *)
Record peak_number := {
  operator : Z;
  result : Z;
  number : Z;
}.

Record peak_numbers := {
  string_list : list peak_number;
  length_list : list peak_number;
}.

Definition peak_number_init : peak_numbers := {| string_list := []; length_list := [] |}.

(** [Some] is a return of 0 with the number in [*ret]. *)
Definition peak_number_get (buf : list Z) : option Z :=
  let '(lval, ep, erange) := strtoll (cstr buf) in
  if (match cstr buf with [] => true | _ => false end) || (ep =? 0)%nat then None
  else if (erange : bool) && ((lval =? LLONG_MAX) || (lval =? LLONG_MIN)) then None
  else Some lval.

(** The [switch] over the operators. *)
Definition number_holds (node : peak_number) (n : Z) : bool :=
  if operator node =? NUMBER_GT then number node <? n
  else if operator node =? NUMBER_LT then n <? number node
  else if operator node =? NUMBER_EQ then n =? number node
  else if operator node =? NUMBER_NE then negb (n =? number node)
  else if operator node =? NUMBER_LE then n <=? number node
  else if operator node =? NUMBER_GE then number node <=? n
  else false.

Fixpoint peak_number_match (node : list peak_number) (n : Z) (temp : stash Z) : stash Z :=
  match node with
  | [] => temp
  | x :: node =>
      peak_number_match node n (if number_holds x n then fst (STASH_PUSH (result x) temp) else temp)
  end.

(** [_buf] is the memory from the pointer on. *)
Definition peak_number_find (self : peak_numbers) (_buf : list Z) (len : Z) (temp : stash Z)
    : option (stash Z) :=
  let temp := peak_number_match (length_list self) (s64 len) temp in
  if len =? 0 then Some temp else
  '(buf, _) ← compat_strlcpy (alloca (len + 1)) _buf (len + 1);
  match peak_number_get buf with
  | None => Some temp
  | Some n => Some (peak_number_match (string_list self) n temp)
  end.

(** The loop over the list: the result of an entry with the number and the operator. *)
Fixpoint number_known (temp : list peak_number) (n op : Z) : option Z :=
  match temp with
  | [] => None
  | x :: temp => if (number x =? n) && (operator x =? op) then Some (result x) else number_known temp n op
  end.

(** [mem]: [malloc] has the node. *)
Definition peak_number_add (mem : bool) (self : peak_numbers) (res : Z) (_buf : option (list Z))
    (len flags : Z) : option (peak_numbers * Z) :=
  let type := flags .& NUMBER_TYPE_MASK in
  let op := flags .& NUMBER_OP_MASK in
  match _buf with
  | None => Some (self, 0)
  | Some _buf =>
      if len =? 0 then Some (self, 0) else
      if NUMBER_MAX <=? op then Some (self, 0) else
      '(buf, _) ← compat_strlcpy (alloca (len + 1)) _buf (len + 1);
      match peak_number_get buf with
      | None => Some (self, 0)
      | Some n =>
          let root := if type =? NUMBER_LENGTH then length_list self else string_list self in
          match number_known root n op with
          | Some r => Some (self, r)
          | None =>
              if negb mem then Some (self, 0) else
              let root := {| operator := op; result := res; number := n |} :: root in
              Some (if type =? NUMBER_LENGTH
                    then {| string_list := string_list self; length_list := root |}
                    else {| string_list := root; length_list := length_list self |}, res)
          end
      end
  end.

(** The message, or NULL for a number; a pointer that is NULL is followed all the same. *)
Definition peak_number_parse (_buf : option (list Z)) (len : Z) : option (option string) :=
  let ret := match _buf with
    | None => Some "need a number"%string
    | Some _ => if len =? 0 then Some "need a number"%string else None
    end in
  src ← _buf;
  '(buf, _) ← compat_strlcpy (alloca (len + 1)) src (len + 1);
  match peak_number_get buf with
  | None => Some (Some "number conversion failed"%string)
  | Some _ => Some ret
  end.

(** ** The number of a text *)

Definition digits_value (acc : Z) (ds : list Z) : Z := foldl (fun a c => a * 10 + (c - 48)) acc ds.

(** The text begins, after white space, with a decimal number of value [v]: an optional
    sign and at least one digit, as many as there are. *)
Definition literal (t : list Z) (v : Z) : Prop :=
  exists ws sg ds rest, t = ws ++ sg ++ ds ++ rest /\
    Forall (fun c => isspace c = true) ws /\ (sg = [] \/ sg = [43] \/ sg = [45]) /\
    ds <> [] /\ Forall (fun c => isdigit c = true) ds /\
    (forall c r, rest = c :: r -> isdigit c = false) /\
    v = if decide (sg = [45]) then - digits_value 0 ds else digits_value 0 ds.

Lemma digit_cases c : isdigit c = true -> 48 <= c <= 57.
Proof. unfold isdigit. rewrite andb_true_iff, !Z.leb_le. lia. Qed.

Lemma skip_spaces_app ws l :
  Forall (fun c => isspace c = true) ws -> (forall c r, l = c :: r -> isspace c = false) -> skip_spaces (ws ++ l) = l.
Proof.
  induction 1 as [|c ws Hc _ IH]; intros Hl; simpl; [|rewrite Hc; auto].
  destruct l as [|c r]; [done|]. simpl. by rewrite (Hl c r eq_refl).
Qed.

Lemma skip_spaces_split l : exists ws, l = ws ++ skip_spaces l /\ Forall (fun c => isspace c = true) ws.
Proof.
  induction l as [|c l (ws & E & Hws)]; [by exists []|]. simpl. destruct (isspace c) eqn:Hc.
  - exists (c :: ws). simpl. rewrite <- E. by split; [|constructor].
  - by exists [].
Qed.

Lemma digits_app acc ds rest :
  Forall (fun c => isdigit c = true) ds -> (forall c r, rest = c :: r -> isdigit c = false) ->
  digits acc (ds ++ rest) = (digits_value acc ds, rest).
Proof.
  intros Hds Hr. revert acc. induction Hds as [|c ds Hc _ IH]; intros acc; simpl; [|by rewrite Hc, IH].
  destruct rest as [|c r]; [done|]. simpl. by rewrite (Hr c r eq_refl).
Qed.

Lemma digits_split acc l :
  exists ds, l = ds ++ snd (digits acc l) /\ Forall (fun c => isdigit c = true) ds /\
    fst (digits acc l) = digits_value acc ds /\ (forall c r, snd (digits acc l) = c :: r -> isdigit c = false).
Proof.
  revert acc. induction l as [|c l IH]; intros acc; simpl; [by exists []|]. destruct (isdigit c) eqn:Hc.
  - destruct (IH (acc * 10 + (c - 48))) as (ds & E & Hds & Hv & Hr). exists (c :: ds). simpl. rewrite <- E.
    by split_and!; [|constructor|..].
  - exists []. split_and!; [done..|]. simpl. by intros ? ? [= <- <-].
Qed.

Lemma sign_split l : exists sg, l = sg ++ snd (sign l) /\ (sg = [] \/ sg = [43] \/ sg = [45]) /\
  fst (sign l) = bool_decide (sg = [45]).
Proof.
  destruct l as [|c l]; [exists []; auto|]. unfold sign.
  destruct (Z.eqb_spec c 45) as [->|]; [exists [45]; auto|]. destruct (Z.eqb_spec c 43) as [->|]; [exists [43]|exists []]; auto.
Qed.

(** What [strtoll] finds. *)
Lemma strtoll_literal t v :
  literal t v ->
  exists ep, (0 < ep)%nat /\
    strtoll t = if LLONG_MAX <? v then (LLONG_MAX, ep, true) else if v <? LLONG_MIN then (LLONG_MIN, ep, true) else (v, ep, false).
Proof.
  intros (ws & sg & ds & rest & -> & Hws & Hsg & Hne & Hds & Hr & ->).
  assert (exists d ds', ds = d :: ds' /\ 48 <= d <= 57) as (d & ds' & Ed & Hd).
  { destruct Hds as [|d ds' Hd _]; [done|]. exists d, ds'. split; [done|by apply digit_cases]. }
  unfold strtoll. rewrite skip_spaces_app; [|done|].
  2: { intros c r E. unfold isspace. destruct Hsg as [->|[->| ->]]; rewrite ?Ed in E; simpl in E; injection E as <- _;
         [destruct (Z.eqb_spec d 32), (Z.leb_spec 9 d), (Z.leb_spec d 13); simpl; lia|done..]. }
  assert (sign (sg ++ ds ++ rest) = (bool_decide (sg = [45]), ds ++ rest)) as ->.
  { destruct Hsg as [->|[->| ->]]; [|done..]. rewrite Ed. simpl.
    destruct (Z.eqb_spec d 45), (Z.eqb_spec d 43); lia || done. }
  rewrite digits_app by done.
  destruct (Nat.eqb_spec (length rest) (length (ds ++ rest))) as [E|_]; [rewrite Ed, length_app in E; simpl in E; lia|].
  exists (length (ws ++ sg ++ ds ++ rest) - length rest)%nat.
  split; [rewrite !length_app, Ed; simpl; lia|]. case_bool_decide; by case_decide.
Qed.

Lemma strtoll_none t : (forall v, ~ literal t v) -> strtoll t = (0, 0%nat, false).
Proof.
  intros Hno. unfold strtoll. destruct (skip_spaces_split t) as (ws & Et & Hws).
  destruct (sign_split (skip_spaces t)) as (sg & Es & Hsg & Hneg).
  destruct (sign (skip_spaces t)) as [neg ds] eqn:E1. simpl in Es, Hneg.
  destruct (digits_split 0 ds) as (ds' & Ed & Hds & Hv & Hr). destruct (digits 0 ds) as [v rest]. simpl in Ed, Hv, Hr.
  destruct (Nat.eqb_spec (length rest) (length ds)) as [|Hne]; [done|]. exfalso.
  eapply Hno. exists ws, sg, ds', rest. split_and!; [by rewrite Et, Es, Ed at 1|done|done| |done|done|done].
  intros ->. simpl in Ed. by subst.
Qed.

Definition llong (v : Z) : Prop := LLONG_MIN <= v <= LLONG_MAX.
#[export] Instance llong_dec v : Decision (llong v).
Proof. unfold llong. apply _. Defined.

Lemma literal_ok t : (exists v, literal t v) \/ (forall v, ~ literal t v).
Proof.
  destruct (skip_spaces_split t) as (ws & Et & Hws). destruct (sign_split (skip_spaces t)) as (sg & Es & Hsg & _).
  destruct (digits_split 0 (snd (sign (skip_spaces t)))) as (ds & Ed & Hds & _ & Hr).
  destruct (decide (ds = [])) as [->|Hne].
  - right. intros v Hl. destruct (strtoll_literal t v Hl) as (ep & Hep & E).
    unfold strtoll in E. destruct (sign (skip_spaces t)) as [neg l]. simpl in *. destruct (digits 0 l) as [v' rest]. simpl in *.
    rewrite <- Ed, Nat.eqb_refl in E. by destruct (LLONG_MAX <? v), (v <? LLONG_MIN); simplify_eq; lia.
  - left. eexists. exists ws, sg, ds, (snd (digits 0 (snd (sign (skip_spaces t))))). split_and!; [|done..].
    by rewrite Et, Es, Ed at 1.
Qed.

Lemma number_get_spec m v : peak_number_get m = Some v <-> literal (cstr m) v /\ llong v.
Proof.
  unfold peak_number_get, llong. destruct (literal_ok (cstr m)) as [[w Hw]|Hno].
  - destruct (strtoll_literal _ _ Hw) as (ep & Hep & E). rewrite E.
    assert (cstr m <> []) as Hne by (destruct Hw as ([|? ?] & [|? ?] & [|? ?] & ? & -> & _ & _ & ? & _); done).
    assert (literal (cstr m) v -> llong v -> v = w /\ llong w) as Hdet.
    { intros Hv [Hlo Hhi]. destruct (strtoll_literal _ _ Hv) as (ep' & _ & E'). rewrite E in E'.
      destruct (Z.ltb_spec LLONG_MAX v), (Z.ltb_spec v LLONG_MIN); try lia. unfold llong.
      destruct (Z.ltb_spec LLONG_MAX w), (Z.ltb_spec w LLONG_MIN); simplify_eq; done || lia. }
    assert ((match cstr m with [] => true | _ => false end) || false = false) as Hcs by (by destruct (cstr m)).
    clear E. destruct (Z.ltb_spec LLONG_MAX w) as [Hmax|Hmax]; [|destruct (Z.ltb_spec w LLONG_MIN) as [Hmin|Hmin]];
      (destruct (Nat.eqb_spec ep 0) as [|_]; [lia|]); rewrite Hcs; cbn [andb Z.eqb].
    + rewrite Z.eqb_refl. cbn [orb]. split; [done|]. intros [Hl Hr]. destruct (Hdet Hl Hr) as [_ []]. lia.
    + rewrite Z.eqb_refl, orb_true_r. split; [done|]. intros [Hl Hr]. destruct (Hdet Hl Hr) as [_ []]. lia.
    + split; [by intros [= <-]|]. intros [Hl Hr]. destruct (Hdet Hl Hr) as [-> _]. done.
  - rewrite strtoll_none by done. rewrite orb_true_r. split; [done|]. intros [Hl _]. by destruct (Hno v).
Qed.

(** ** The lists *)

(** What the operators say: the number that is looked up compares so with the one of the entry. *)
Inductive compares : Z -> Z -> Z -> Prop :=
  | compares_eq n : compares NUMBER_EQ n n
  | compares_ne n k : n <> k -> compares NUMBER_NE n k
  | compares_gt n k : k < n -> compares NUMBER_GT n k
  | compares_lt n k : n < k -> compares NUMBER_LT n k
  | compares_le n k : n <= k -> compares NUMBER_LE n k
  | compares_ge n k : k <= n -> compares NUMBER_GE n k.

Lemma number_holds_compares x n : number_holds x n = true <-> compares (operator x) n (number x).
Proof.
  destruct x as [op r k]. unfold number_holds. cbn [operator number]. split.
  - repeat match goal with |- context [op =? ?c] => destruct (Z.eqb_spec op c) as [->|] end; [..|done].
    all: rewrite ?negb_true_iff, ?Z.ltb_lt, ?Z.leb_le, ?Z.eqb_eq, ?Z.eqb_neq; intros H; subst; by constructor.
  - destruct 1; cbn; rewrite ?negb_true_iff, ?Z.ltb_lt, ?Z.leb_le, ?Z.eqb_eq, ?Z.eqb_neq; done.
Qed.

#[export] Instance compares_dec op n k : Decision (compares op n k).
Proof.
  refine (cast_if (decide (number_holds {| operator := op; result := 0; number := k |} n = true)));
    by rewrite <- (number_holds_compares {| operator := op; result := 0; number := k |} n).
Defined.

(** The results of the comparisons that hold, in the order of the list. *)
Definition matching (l : list peak_number) (n : Z) : list Z := result <$> filter (fun x => compares (operator x) n (number x)) l.

(** A stash takes what it has room for. *)
Lemma number_match_pushes l n temp : peak_number_match l n temp = push_all (matching l n) temp.
Proof.
  revert temp. induction l as [|x l IH]; intros temp; [done|]. cbn [peak_number_match]. unfold matching. rewrite filter_cons.
  pose proof (number_holds_compares x n) as Hx. destruct (number_holds x n); [rewrite decide_True by (by apply Hx)|rewrite decide_False by (by rewrite <- Hx)]; apply IH.
Qed.

Lemma number_match_spec l n temp :
  stash_ok temp ->
  stash_ok (peak_number_match l n temp) /\ size (peak_number_match l n temp) = size temp /\
  contents (peak_number_match l n temp) = take (size temp) (contents temp ++ matching l n).
Proof.
  intros Hok. rewrite number_match_pushes. destruct (push_all_contents (matching l n) temp Hok) as (H1 & H2 & _).
  split; [done|]. split; [done|by apply push_all_room].
Qed.

(** No two comparisons of a list are the same, and each has an operator. *)
Definition rules_ok (l : list peak_number) : Prop :=
  NoDup ((fun x => (number x, operator x)) <$> l) /\ Forall (fun x => 0 <= operator x < NUMBER_MAX) l.

Definition numbers_ok (self : peak_numbers) : Prop := rules_ok (string_list self) /\ rules_ok (length_list self).

Definition rules (self : peak_numbers) (type : Z) : list peak_number :=
  if type =? NUMBER_LENGTH then length_list self else string_list self.

Lemma number_known_none l n op : number_known l n op = None -> (n, op) ∉ (fun x => (number x, operator x)) <$> l.
Proof.
  induction l as [|x l IH]; simpl; [intros _; by apply not_elem_of_nil|].
  destruct (Z.eqb_spec (number x) n), (Z.eqb_spec (operator x) op); simpl; try done;
    intros H; apply not_elem_of_cons; (split; [congruence|by apply IH]).
Qed.

(** The text in the first [len] characters. *)
Definition text (m : list Z) (len : Z) : list Z := take (Z.to_nat len) (cstr m).

(** The copy and the conversion. *)
Lemma number_copy m len :
  has_nul m -> 0 <= len ->
  exists buf r, compat_strlcpy (alloca (len + 1)) m (len + 1) = Some (buf, r) /\ cstr buf = text m len.
Proof.
  intros Hm Hlen. destruct (strlcpy_spec (alloca (len + 1)) m len Hm Hlen) as (buf & E & Hb).
  { unfold alloca, msize. rewrite length_replicate. lia. }
  by exists buf, (msize (cstr m)).
Qed.

Lemma number_get_text buf t v : cstr buf = t -> peak_number_get buf = Some v <-> literal t v /\ llong v.
Proof. intros <-. apply number_get_spec. Qed.

Lemma take_take_app {A} n (l r : list A) : take n (take n l ++ r) = take n (l ++ r).
Proof. rewrite !take_app, take_take, length_take, Nat.min_id. do 2 f_equal. lia. Qed.

Lemma literal_nil v : ~ literal [] v.
Proof. intros (ws & sg & ds & rest & E & _ & _ & Hne & _). by destruct ws, sg, ds. Qed.

(** Storing a list. *)
Definition with_rules (self : peak_numbers) (type : Z) (l : list peak_number) : peak_numbers :=
  if type =? NUMBER_LENGTH
  then {| string_list := string_list self; length_list := l |}
  else {| string_list := l; length_list := length_list self |}.

Lemma rules_with self type l : rules (with_rules self type l) type = l.
Proof. unfold rules, with_rules. by destruct (type =? NUMBER_LENGTH). Qed.

Lemma with_rules_ok self type l : numbers_ok self -> rules_ok l -> numbers_ok (with_rules self type l).
Proof. intros [] Hl. unfold with_rules. by destruct (type =? NUMBER_LENGTH). Qed.

Lemma rules_cons_ok l x :
  rules_ok l -> 0 <= operator x < NUMBER_MAX -> number_known l (number x) (operator x) = None -> rules_ok (x :: l).
Proof.
  intros [Hnd Hop] Hx Hk. split; [|by constructor]. simpl. constructor; [by apply number_known_none|done].
Qed.

(** ** Properties *)

(** The numbers of texts: [peak_number_get] succeeds exactly on the texts that begin,
    after white space, with a decimal number of a [long long], and yields its value;
    [peak_number_parse] accepts exactly these, looking at the first [len] characters.  It
    follows a pointer that is NULL, in spite of its check. *)
Theorem number_texts m len :
  has_nul m -> 0 <= len ->
  (forall v, peak_number_get m = Some v <-> literal (cstr m) v /\ llong v) /\
  (peak_number_parse (Some m) len = Some None <-> exists v, literal (text m len) v /\ llong v) /\
  peak_number_parse (Some m) len <> None /\
  peak_number_parse None len = None.
Proof.
  intros Hm Hlen. split; [intros; apply number_get_spec|]. unfold peak_number_parse. cbn [mbind option_bind].
  destruct (number_copy m len Hm Hlen) as (buf & r & -> & Hb). cbn [mbind option_bind].
  pose proof (fun v => number_get_text buf _ v Hb) as Hget.
  destruct (peak_number_get buf) as [v|] eqn:E; (split; [|done]).
  - destruct (proj1 (Hget v) eq_refl) as [Hl Hr]. destruct (Z.eqb_spec len 0) as [->|]; [by apply literal_nil in Hl|].
    split; [|done]. intros _. by exists v.
  - split; [done|]. intros (v & Hv). by apply Hget in Hv.
Qed.

(** C38.  A search pushes, as far as there is room, the results of the comparisons of
    lengths that hold of [len] and then, if the text begins with a number, of the
    comparisons of numbers that hold of it.  A text that is not terminated by a NUL
    is read past its end, whatever [len] says. *)
Theorem number_find_reports self m len temp :
  fits 63 len -> stash_ok temp ->
  (has_nul m ->
   exists temp', peak_number_find self m len temp = Some temp' /\ stash_ok temp' /\
     (forall v, literal (text m len) v -> llong v ->
        contents temp' = take (size temp) (contents temp ++ matching (length_list self) len ++ matching (string_list self) v)) /\
     ((forall v, literal (text m len) v -> ~ llong v) ->
        contents temp' = take (size temp) (contents temp ++ matching (length_list self) len))) /\
  (~ has_nul m -> 0 < len -> peak_number_find self m len temp = None).
Proof.
  intros Hlen Hok. unfold fits in Hlen. unfold peak_number_find.
  assert (s64 len = len) as ->.
  { unfold swrap. rewrite wrap_small by (unfold fits; lia). destruct (Z.ltb_spec len (2 ^ (64 - 1))); [done|lia]. }
  destruct (number_match_spec (length_list self) len temp Hok) as (Hok1 & Hs1 & Hc1).
  set (t1 := peak_number_match (length_list self) len temp) in *. split.
  - intros Hm. destruct (Z.eqb_spec len 0) as [->|Hne].
    { exists t1. split_and!; [done|done|intros v Hv; by apply literal_nil in Hv|done]. }
    destruct (number_copy m len Hm ltac:(lia)) as (buf & r & -> & Hb). cbn [mbind option_bind].
    pose proof (fun v => number_get_text buf _ v Hb) as Hget. destruct (peak_number_get buf) as [n|].
    + destruct (number_match_spec (string_list self) n t1 Hok1) as (Hok2 & _ & Hc2).
      eexists. split_and!; [done|done| |].
      * intros v Hv Hr. assert (n = v) as -> by (pose proof (proj2 (Hget v) (conj Hv Hr)); congruence).
        by rewrite Hc2, Hs1, Hc1, take_take_app, <- app_assoc.
      * intros Hno. destruct (proj1 (Hget n) eq_refl) as [Hl Hr]. by destruct (Hno n).
    + exists t1. split_and!; [done|done| |done]. intros v Hv Hr. by pose proof (proj2 (Hget v) (conj Hv Hr)).
  - intros Hm Hp. destruct (Z.eqb_spec len 0); [lia|]. by rewrite strlcpy_over.
Qed.

(** Adding a comparison: with a bad operator or a text without a number nothing
    changes and the result is 0.  Otherwise the result is the one stored for the
    comparison, which is the old one if there was one, and else the new one if there is
    memory; other comparisons keep theirs, and the new one is the first to be tried. *)
Theorem number_add_stores mem self res m len flags :
  has_nul m -> 0 <= len -> numbers_ok self -> 0 <= flags ->
  let op := flags .& NUMBER_OP_MASK in let type := flags .& NUMBER_TYPE_MASK in
  exists self' r, peak_number_add mem self res (Some m) len flags = Some (self', r) /\ numbers_ok self' /\
    (op >= NUMBER_MAX \/ (forall v, literal (text m len) v -> ~ llong v) -> self' = self /\ r = 0) /\
    (forall v, op < NUMBER_MAX -> literal (text m len) v -> llong v ->
       match number_known (rules self type) v op with
       | Some old => self' = self /\ r = old
       | None =>
           if mem then
             r = res /\ number_known (rules self' type) v op = Some res /\
             (forall n o, (n, o) <> (v, op) -> number_known (rules self' type) n o = number_known (rules self type) n o) /\
             (forall n, matching (rules self' type) n =
                (if decide (compares op n v) then [res] else []) ++
                matching (rules self type) n)
           else self' = self /\ r = 0
       end).
Proof.
  intros Hm Hlen Hok Hf op type. unfold peak_number_add. fold op. fold type.
  assert (0 <= op) as Hop by (apply Z.land_nonneg; by right).
  destruct (Z.eqb_spec len 0) as [->|Hne].
  { exists self, 0. split_and!; [done..|]. intros v _ Hv. by apply literal_nil in Hv. }
  destruct (Z.leb_spec NUMBER_MAX op) as [|Hop6]; [exists self, 0; split_and!; [done..|lia]|].
  destruct (number_copy m len Hm Hlen) as (buf & r & -> & Hb). cbn [mbind option_bind].
  pose proof (fun v => number_get_text buf _ v Hb) as Hget. destruct (peak_number_get buf) as [n|].
  2: { exists self, 0. split_and!; [done..|]. intros v _ Hv Hr. by pose proof (proj2 (Hget v) (conj Hv Hr)). }
  fold (rules self type). destruct (proj1 (Hget n) eq_refl) as [Hl Hr].
  assert (forall v, literal (text m len) v -> llong v -> v = n) as Hdet
    by (intros v Hv Hrv; pose proof (proj2 (Hget v) (conj Hv Hrv)); congruence).
  assert (op >= NUMBER_MAX \/ (forall v, literal (text m len) v -> ~ llong v) -> False) as Hbad
    by (intros [|Hno]; [lia|by apply (Hno n)]).
  destruct (number_known (rules self type) n op) as [old|] eqn:Eknown.
  { exists self, old. split_and!; [done|done|by intros []%Hbad|]. intros v _ Hv Hrv. rewrite (Hdet v Hv Hrv), Eknown. done. }
  destruct mem; cbn [negb].
  2: { exists self, 0. split_and!; [done..|]. intros v _ Hv Hrv. rewrite (Hdet v Hv Hrv), Eknown. done. }
  set (node := {| operator := op |}). exists (with_rules self type (node :: rules self type)), res.
  split; [done|]. split.
  { apply with_rules_ok; [done|]. apply rules_cons_ok; [|done..]. destruct Hok. unfold rules. by destruct (_ =? _). }
  split; [by intros []%Hbad|]. intros v _ Hv Hrv. rewrite (Hdet v Hv Hrv), Eknown, rules_with. cbn [number_known].
  split_and!; [done| | |].
  - cbn [node number operator]. by rewrite !Z.eqb_refl.
  - intros n' o Hne'. cbn [node number operator result].
    destruct (Z.eqb_spec n n') as [<-|]; [|done]. destruct (Z.eqb_spec op o) as [<-|]; [congruence|done].
  - intros k. unfold matching. rewrite filter_cons. subst node. cbn [operator number]. by destruct (decide (compares op k n)).
Qed.

(** " -17" and a length of at least 2. *)
Definition sample_numbers : peak_numbers :=
  {| string_list := [{| operator := NUMBER_LT; result := 7; number := 0 |}; {| operator := NUMBER_EQ; result := 8; number := -17 |}];
     length_list := [{| operator := NUMBER_GE; result := 9; number := 2 |}] |}.

Definition sample_text : list Z := [32; 45; 49; 55; 0].

Lemma sample_numbers_ok : numbers_ok sample_numbers.
Proof.
  split; (split; [|repeat constructor; vm_compute; done]); apply (bool_decide_unpack _); vm_compute; exact I.
Qed.

Lemma number_texts_witness :
  (forall v, peak_number_get sample_text = Some v <-> literal (cstr sample_text) v /\ llong v) /\
  (peak_number_parse (Some sample_text) 4 = Some None <-> exists v, literal (text sample_text 4) v /\ llong v) /\
  peak_number_parse (Some sample_text) 4 <> None /\
  peak_number_parse None 4 = None.
Proof.
  apply (number_texts sample_text 4); [|lia]. apply (bool_decide_unpack _). vm_compute. exact I.
Defined.

Lemma number_find_reports_witness :
  exists temp', peak_number_find sample_numbers sample_text 4 (STASH_DECLARE [0; 0; 0; 0]) = Some temp' /\
    contents temp' = [9; 7; 8].
Proof.
  assert (fits 63 4) as H4 by (split; [lia|reflexivity]).
  assert (stash_ok (STASH_DECLARE [0; 0; 0; 0])) as Hs by (split; [apply le_0_n|reflexivity]).
  assert (has_nul sample_text) as Hn by (apply (bool_decide_unpack _); vm_compute; exact I).
  destruct (number_find_reports sample_numbers sample_text 4 _ H4 Hs) as [H _].
  destruct (H Hn) as (temp' & E & _ & Hv & _). exists temp'. split; [exact E|].
  rewrite (Hv (-17)); [reflexivity| |split; discriminate].
  exists [32], [45], [49; 55], []. split; [reflexivity|]. split; [repeat constructor|]. split; [right; right; reflexivity|].
  split; [discriminate|]. split; [repeat constructor|]. split; [discriminate|reflexivity].
Defined.

Lemma number_add_stores_witness :
  exists self' r, peak_number_add true sample_numbers 5 (Some sample_text) 4 NUMBER_NE = Some (self', r) /\ numbers_ok self'.
Proof.
  assert (has_nul sample_text) as Hn by (apply (bool_decide_unpack _); vm_compute; exact I).
  assert (0 <= 4) as H4 by lia. assert (0 <= NUMBER_NE) as H0 by discriminate.
  destruct (number_add_stores true sample_numbers 5 sample_text 4 NUMBER_NE Hn H4 sample_numbers_ok H0)
    as (self' & r & E & Hok & _). exists self', r. split; [exact E|exact Hok].
Defined.
