(* ===== verification/Netmap.v ===== *)
(** * Packet transfer over netmap

    Models [lib/peak_netmap.c] and [lib/peak_netmap.h], and the structures of
    [include/peak_transfer.h]: devices whose rings of packet slots are shared with the
    kernel, received packets that stay in their slot until they are released, and release
    by dropping, by forwarding to the host, or by sending, which swaps the buffers of two
    slots instead of copying.

    netmap(4) is a parameter ([NetmapApi]): its constants, where the rings of an interface
    are, and the two functions that walk a ring, with the slots that are the program's
    ([avail], from [cur] on) as the documented meaning.  Of a ring and a slot there are the
    members the code uses.  System calls are arguments with what they return; rings live
    in a store under their addresses, which changes when the kernel is called.  There is
    one thread.  A panic, a NULL pointer and an access to memory that is not mapped are
    undefined. *)

From S2P Require Import Prelude Compat Clock Packet Number.

(** ** The interface of netmap *)

Record netmap_slot := Slot { buf_idx : Z; s_len : Z; s_flags : Z }.

(** [rest] is what the code does not use itself. *)
Record netmap_ring {R : Type} := Ring {
  head : Z;
  cur : Z;
  r_flags : Z;
  r_ts : peak_timeval;
  slot : list netmap_slot;
  rest : R;
}.
Arguments netmap_ring R : clear implicits.
Arguments Ring {R}.

Definition set_slots {R} (v : list netmap_slot) (r : netmap_ring R) : netmap_ring R :=
  Ring (head r) (cur r) (r_flags r) (r_ts r) v (rest r).
Definition set_pos {R} (v : Z) (r : netmap_ring R) : netmap_ring R := Ring v v (r_flags r) (r_ts r) (slot r) (rest r).
Definition set_rflags {R} (v : Z) (r : netmap_ring R) : netmap_ring R := Ring (head r) (cur r) v (r_ts r) (slot r) (rest r).

(** [struct nmreq] *)
Record nmreq := { nr_version : Z; nr_flags : Z; nr_name : list Z; nr_ringid : Z; nr_arg1 : Z }.

(** [netmap_if] are the mapped interfaces, [M] the mappings and [in_map] their addresses. *)
Class NetmapApi (R netmap_if M : Type) := {
  NETMAP_API : Z;
  NETMAP_RING_MASK : Z;
  NR_REG_ALL_NIC : Z;
  NR_REG_PIPE_MASTER : Z;
  NR_REG_PIPE_SLAVE : Z;
  NS_FORWARD : Z;
  NS_BUF_CHANGED : Z;
  NR_FORWARD : Z;
  NR_TIMESTAMP : Z;
  POLLIN : Z;
  POLLERR : Z;
  IFF_UP : Z;
  IFF_PPROMISC : Z;
  IFCAP_HWCSUM : Z;
  IFCAP_TSO : Z;
  IFCAP_TOE : Z;
  NETMAP_IF : M -> Z -> netmap_if;
  NETMAP_RXRING : netmap_if -> Z -> Z;
  NETMAP_TXRING : netmap_if -> Z -> Z;
  NETMAP_BUF : Z -> Z -> Z;
  in_map : M -> Z -> bool;
  nm_ring_empty : netmap_ring R -> bool;
  nm_ring_next : netmap_ring R -> Z -> Z;
  avail : netmap_ring R -> list Z;
  reg_distinct : NoDup [NR_REG_ALL_NIC; NR_REG_PIPE_MASTER; NR_REG_PIPE_SLAVE];
  avail_empty r : nm_ring_empty r = true <-> avail r = [];
  avail_cur r i l : avail r = i :: l -> cur r = i /\ 0 <= i /\ is_Some (slot r !! Z.to_nat i);
  avail_next r i l : avail r = i :: l -> avail (set_pos (nm_ring_next r i) r) = l;
  avail_slots r l : length l = length (slot r) -> avail (set_slots l r) = avail r;
  avail_rflags r f : avail (set_rflags f r) = avail r;
  rings_distinct n i m j : NETMAP_RXRING n i <> NETMAP_TXRING m j;
  rings_in_map m off j : in_map m (NETMAP_RXRING (NETMAP_IF m off) j) = true /\ in_map m (NETMAP_TXRING (NETMAP_IF m off) j) = true;
  maps_apart m m' a : in_map m a = true -> in_map m' a = true -> m = m';
}.

(** ** peak_netmap.h, peak_transfer.h *)

Definition NETMAP_DFLT : Z := 0.
Definition NETMAP_WIRE : Z := 1.
Definition NETMAP_HOST : Z := 2.
Definition NETMAP_PIPE : Z := 3.

(** [ifname] points to the name of a device of the table, which is its index, and
    [private_data] to [netmap_priv] or nowhere. *)
Record peak_transfer := {
  ts : peak_timeval;
  ifname : option Z;
  private_data : bool;
  type : Z;
  len : Z;
  ll : Z;
  id : Z;
  buf : option Z;
}.

Definition transfer_zero : peak_transfer :=
  {| ts := {| tv_sec := 0; tv_usec := 0 |}; ifname := None; private_data := false; type := 0; len := 0; ll := 0; id := 0; buf := None |}.

(** What is used where there is no netmap: nothing ever works. *)
Section stubs.
Context {St : Type}.

Definition peak_transfer_send (s : St) (x : peak_transfer) (y : option (list Z)) (z : Z) : St * peak_transfer * Z := (s, x, 1).
Definition peak_transfer_recv (s : St) (x : peak_transfer) (y : Z) (z : option (list Z)) (a : Z) : St * peak_transfer * bool := (s, x, false).
Definition peak_transfer_forward (s : St) (x : peak_transfer) : St * peak_transfer * Z := (s, x, 1).
Definition peak_transfer_master (s : St) (x : list Z) : St * Z := (s, 1).
Definition peak_transfer_slave (s : St) (x : list Z) : St * Z := (s, 1).
Definition peak_transfer_attach (s : St) (x : list Z) : St * Z := (s, 1).
Definition peak_transfer_detach (s : St) (x : list Z) : St * Z := (s, 1).
Definition peak_transfer_unlock (s : St) : St := s.
Definition peak_transfer_lock (s : St) : St := s.

End stubs.

(** ** peak_netmap.c *)

Definition NETMAP_MAX : Z := 64.
Definition IFNAMSIZ : Z := 16.

Record peak_netmap := { ring : option Z; used : Z; i : Z }.

Definition netmap_zero : peak_netmap := {| ring := None; used := 0; i := 0 |}.

Record pollfd := { fd : Z; events : Z; revents : Z }.

Section netmap.
Context {R netmap_if M : Type} {API : NetmapApi R netmap_if M}.

Abbreviation rings_t := (gmap Z (netmap_ring R)).

Record peak_netmap_dev := {
  dev_name : list Z;
  nifp : option netmap_if;
  mem : option M;
  dev_fd : Z;
  dev_type : Z;
  memsize : Z;
  begin : Z;
  end_ : Z;
}.

Definition dev_zero : peak_netmap_dev :=
  {| dev_name := replicate (Z.to_nat IFNAMSIZ) 0; nifp := None; mem := None; dev_fd := 0; dev_type := 0; memsize := 0; begin := 0; end_ := 0 |}.

Record peak_netmaps := { count : Z; last : Z; dev : list peak_netmap_dev; fds : list pollfd }.

(** The table, the rings, the packet that is claimed, the last time stamp, the mutex. *)
Record state := State {
  self : peak_netmaps;
  rings : rings_t;
  netmap_priv : peak_netmap;
  netmap_ts : peak_timeval;
  netmap_mutex : bool;
}.

Definition with_self (t : peak_netmaps) (m : rings_t) (s : state) : state :=
  State t m (netmap_priv s) (netmap_ts s) (netmap_mutex s).
Definition set_rings (v : rings_t) (s : state) : state := State (self s) v (netmap_priv s) (netmap_ts s) (netmap_mutex s).
Definition set_priv (v : peak_netmap) (s : state) : state := State (self s) (rings s) v (netmap_ts s) (netmap_mutex s).
Definition set_ts (v : peak_timeval) (s : state) : state := State (self s) (rings s) (netmap_priv s) v (netmap_mutex s).
Definition set_last (v : Z) (s : state) : state :=
  State {| count := count (self s); last := v; dev := dev (self s); fds := fds (self s) |}
    (rings s) (netmap_priv s) (netmap_ts s) (netmap_mutex s).

(** The rings of the two loops. *)
Definition NR_FOREACH_WIRE (d : peak_netmap_dev) : list Z := seqZ (begin d) (end_ d - begin d).
Definition NR_FOREACH_HOST (d : peak_netmap_dev) : list Z := [end_ d].

(** *** Receiving *)

(** [strcmp] of the C string [ifname] and a member, which is terminated. *)
Definition name_is (ifname : list Z) (d : peak_netmap_dev) : bool := bool_decide (ifname = cstr (dev_name d)).

Fixpoint find_loop (n : nat) (ifname : list Z) (ignore : Z) (l : list peak_netmap_dev) (i : Z) : option Z :=
  match n with
  | O => Some i
  | S n =>
      d ← l !! Z.to_nat i;
      if negb (ignore =? NR_REG_ALL_NIC) && (ignore =? dev_type d) then find_loop n ifname ignore l (i + 1)
      else if name_is ifname d then Some i
      else find_loop n ifname ignore l (i + 1)
  end.

Definition peak_netmap_find (t : peak_netmaps) (ifname : option (list Z)) (ignore : Z) : option Z :=
  match ifname with
  | None => Some (count t)
  | Some ifname => find_loop (Z.to_nat (count t)) ifname ignore (dev t) 0
  end.

(** The time stamp of the next packet. *)
Definition next_ts (ring_ts last_ts : peak_timeval) : peak_timeval :=
  if (tv_sec last_ts <? tv_sec ring_ts) || (3 <=? tv_sec last_ts - tv_sec ring_ts)
  then {| tv_sec := tv_sec ring_ts; tv_usec := tv_usec ring_ts |} else last_ts.

(** The ring [a] with the number [rx] of the device [j]; whether there was a packet. *)
Definition ___peak_netmap_recv (s : state) (packet : peak_transfer) (j a rx : Z) : option (state * peak_transfer * bool) :=
  d ← dev (self s) !! Z.to_nat j;
  r ← rings s !! a;
  if nm_ring_empty r then Some (s, packet, false) else
  let i := cur r in
  sl ← slot r !! Z.to_nat i;
  let idx := buf_idx sl in
  if idx <? 2 then None else
  let s := set_priv {| ring := Some a; used := 1; i := i |} s in
  let s := set_ts (next_ts (r_ts r) (netmap_ts s)) s in
  Some (s, {| ts := netmap_ts s; buf := Some (NETMAP_BUF a idx); len := s_len sl; ll := LINKTYPE_ETHERNET;
              ifname := Some j; private_data := true; id := idx;
              type := if dev_type d =? NR_REG_PIPE_SLAVE then NETMAP_PIPE
                      else if negb (rx =? end_ d) then NETMAP_WIRE else NETMAP_HOST |}, true).

(** The loop over the receive rings [l] of an interface. *)
Fixpoint recv_loop (s : state) (packet : peak_transfer) (j : Z) (nif : netmap_if) (l : list Z) : option (state * peak_transfer * bool) :=
  match l with
  | [] => Some (s, packet, false)
  | rx :: l =>
      '(s, packet, found) ← ___peak_netmap_recv s packet j (NETMAP_RXRING nif rx) rx;
      if (found : bool) then Some (s, packet, true) else recv_loop s packet j nif l
  end.

Definition __peak_netmap_recv (s : state) (packet : peak_transfer) (j mode : Z) : option (state * peak_transfer * bool) :=
  d ← dev (self s) !! Z.to_nat j;
  if dev_type d =? NR_REG_PIPE_MASTER then Some (s, packet, false) else
  nif ← nifp d;
  if ((mode =? NETMAP_DFLT) || (mode =? NETMAP_HOST)) && negb (dev_type d =? NR_REG_PIPE_SLAVE) then
    '(s, packet, found) ← recv_loop s packet j nif (NR_FOREACH_HOST d);
    if (found : bool) then Some (s, packet, true)
    else if mode =? NETMAP_HOST then Some (s, packet, false)
    else recv_loop s packet j nif (NR_FOREACH_WIRE d)
  else recv_loop s packet j nif (NR_FOREACH_WIRE d).

(** [n] more devices, the one after [j] next. *)
Fixpoint any_loop (n : nat) (s : state) (packet : peak_transfer) (mode j : Z) : option (state * peak_transfer * bool) :=
  match n with
  | O => Some (s, packet, false)
  | S n =>
      let j := u32 (j + 1) mod count (self s) in
      '(s, packet, found) ← __peak_netmap_recv s packet j mode;
      if (found : bool) then Some (set_last j s, packet, true) else any_loop n s packet mode j
  end.

Definition _peak_netmap_recv (s : state) (packet : peak_transfer) (mode : Z) : option (state * peak_transfer * bool) :=
  any_loop (Z.to_nat (count (self s))) s packet mode (last (self s)).

(** What a call of [poll(2)] did: its result, the events of the devices it was asked for
    (none if it did not succeed), and the rings as they are then. *)
Record polled := { poll_ret : Z; poll_revents : list Z; poll_rings : rings_t }.

(** The devices in order, from [i] on: the first one with an event. *)
Fixpoint ready_loop (l : list Z) (s : state) (packet : peak_transfer) (mode i : Z) : option (state * peak_transfer * bool) :=
  match l with
  | [] => Some (s, packet, false)
  | re :: l =>
      if negb (re .& POLLIN =? 0) then __peak_netmap_recv (set_last i s) packet i mode
      else ready_loop l s packet mode (i + 1)
  end.

(** The device [i] was polled, with these events. *)
Definition set_events (i re : Z) (t : peak_netmaps) : option peak_netmaps :=
  p ← fds t !! Z.to_nat i;
  Some {| count := count t; last := last t; dev := dev t;
          fds := <[Z.to_nat i := {| fd := fd p; events := POLLIN; revents := re |}]> (fds t) |}.

(** The first [count] devices were polled. *)
Fixpoint set_all_events (res : list Z) (i : Z) (t : peak_netmaps) : option peak_netmaps :=
  match res with
  | [] => Some t
  | re :: res => t ← set_events i re t; set_all_events res (i + 1) t
  end.

(** Whether a packet was received; otherwise the result is NULL. *)
Definition peak_netmap_recv (s : state) (packet : peak_transfer) (poll : polled) (ifname : option (list Z)) (mode : Z)
    : option (state * peak_transfer * bool) :=
  if negb (used (netmap_priv s) =? 0) then Some (s, packet, false) else
  match ifname with
  | Some name =>
      i ← peak_netmap_find (self s) (Some name) NR_REG_PIPE_MASTER;
      if count (self s) <=? i then Some (s, packet, false) else
      '(s, packet, found) ← __peak_netmap_recv s packet i mode;
      if (found : bool) then Some (s, packet, true) else
      re ← poll_revents poll !! 0%nat;
      t ← set_events i re (self s);
      let s := with_self t (poll_rings poll) s in
      if poll_ret poll <=? 0 then Some (s, packet, false) else
      if negb (re .& POLLIN =? 0) then __peak_netmap_recv s packet i mode else Some (s, packet, false)
  | None =>
      '(s, packet, found) ← _peak_netmap_recv s packet mode;
      if (found : bool) then Some (s, packet, true) else
      if negb (Z.of_nat (length (poll_revents poll)) =? count (self s)) then None else
      t ← set_all_events (poll_revents poll) 0 (self s);
      let s := with_self t (poll_rings poll) s in
      if poll_ret poll <=? 0 then Some (s, packet, false) else
      ready_loop (poll_revents poll) s packet mode 0
  end.

(** *** Releasing *)

Definition upd_slot (a i : Z) (f : netmap_slot -> netmap_slot) (m : rings_t) : option rings_t :=
  r ← m !! a; sl ← slot r !! Z.to_nat i; Some (<[a := set_slots (<[Z.to_nat i := f sl]> (slot r)) r]> m).

(** [ring->head = ring->cur = nm_ring_next(ring, ring->cur)] *)
Definition advance (a : Z) (m : rings_t) : option rings_t :=
  r ← m !! a; Some (<[a := set_pos (nm_ring_next r (cur r)) r]> m).

Definition or_flags (v : Z) (sl : netmap_slot) : netmap_slot := Slot (buf_idx sl) (s_len sl) (s_flags sl .| v).
Definition clear_flags (v : Z) (sl : netmap_slot) : netmap_slot := Slot (buf_idx sl) (s_len sl) (Z.ldiff (s_flags sl) v).
Definition set_buf (v : Z) (sl : netmap_slot) : netmap_slot := Slot v (s_len sl) (s_flags sl).
Definition set_slot_len (v : Z) (sl : netmap_slot) : netmap_slot := Slot (buf_idx sl) v (s_flags sl).

(** Both end with an empty packet. *)
Definition release (flag : netmap_slot -> netmap_slot) (s : state) (packet : peak_transfer) : option (state * peak_transfer * Z) :=
  if negb (private_data packet) then None else
  a ← ring (netmap_priv s);
  m ← upd_slot a (i (netmap_priv s)) flag (rings s);
  m ← advance a m;
  Some (set_priv netmap_zero (set_rings m s), transfer_zero, 0).

Definition peak_netmap_forward (s : state) (packet : peak_transfer) : option (state * peak_transfer * Z) :=
  release (or_flags NS_FORWARD) s packet.

Definition peak_netmap_drop (s : state) (packet : peak_transfer) : option (state * peak_transfer * Z) :=
  release (clear_flags NS_FORWARD) s packet.

(** The transmit ring [a]. *)
Definition _peak_netmap_send (s : state) (packet : peak_transfer) (a : Z) : option (state * peak_transfer * Z) :=
  curr ← ring (netmap_priv s);
  let pi := i (netmap_priv s) in
  r ← rings s !! a;
  if nm_ring_empty r then Some (s, packet, 1) else
  let i := cur r in
  rc ← rings s !! curr;
  rs ← slot rc !! Z.to_nat pi;
  ts ← slot r !! Z.to_nat i;
  m ← upd_slot a i (set_buf (buf_idx rs)) (rings s);
  m ← upd_slot curr pi (set_buf (buf_idx ts)) m;
  m ← upd_slot a i (set_slot_len (s_len rs)) m;
  m ← upd_slot a i (or_flags NS_BUF_CHANGED) m;
  m ← upd_slot curr pi (or_flags NS_BUF_CHANGED) m;
  m ← upd_slot curr pi (clear_flags NS_FORWARD) m;
  m ← advance curr m;
  m ← advance a m;
  Some (set_priv netmap_zero (set_rings m s), transfer_zero, 0).

(** The loop over the transmit rings [l]; [sync] is what the [ioctl] makes of the rings. *)
Fixpoint send_loop (s : state) (packet : peak_transfer) (sync : rings_t -> rings_t) (nif : netmap_if) (l : list Z)
    : option (state * peak_transfer * Z) :=
  match l with
  | [] => Some (s, packet, 1)
  | tx :: l =>
      '(s, packet, ret) ← _peak_netmap_send s packet (NETMAP_TXRING nif tx);
      if ret =? 0 then Some (set_rings (sync (rings s)) s, packet, 0) else send_loop s packet sync nif l
  end.

Definition peak_netmap_send (s : state) (packet : peak_transfer) (sync : rings_t -> rings_t) (ifname : option (list Z)) (mode : Z)
    : option (state * peak_transfer * Z) :=
  if negb (private_data packet) || (used (netmap_priv s) =? 0) then Some (s, packet, 1) else
  match ifname with
  | None => '(s, packet, _) ← peak_netmap_drop s packet; Some (s, packet, 0)
  | Some name =>
      i ← peak_netmap_find (self s) (Some name) NR_REG_PIPE_SLAVE;
      if count (self s) <=? i then Some (s, packet, 1) else
      d ← dev (self s) !! Z.to_nat i;
      nif ← nifp d;
      send_loop s packet sync nif (if mode =? NETMAP_HOST then NR_FOREACH_HOST d else NR_FOREACH_WIRE d)
  end.

(** *** Attaching and detaching *)

(** What the system calls return: [open], the two flags and capabilities of the interface
    and whether they could be set, the registration (size of the memory, offset of the
    interface, number of receive rings) and the mapping with its rings. *)
Record system := {
  sys_open : Z;
  sys_getflags : option Z;
  sys_setflags : Z -> bool;
  sys_getcap : option Z;
  sys_setcap : Z -> bool;
  sys_regif : nmreq -> option (Z * Z * Z);
  sys_mmap : Z -> option (M * rings_t);
}.

(** The interface's name is the one of the device. *)
Definition __peak_netmap_init (os : system) : bool :=
  match sys_getflags os with
  | None => false
  | Some flags =>
      if negb (sys_setflags os (flags .| (IFF_UP .| IFF_PPROMISC))) then false else
      match sys_getcap os with
      | None => false
      | Some curcap => sys_setcap os (Z.ldiff curcap ((IFCAP_HWCSUM .| IFCAP_TSO) .| IFCAP_TOE))
      end
  end.

(** [atoi(3)] stored in 16 bits. *)
Definition ringid (name : list Z) : Z := u16 (fst (fst (strtoll name))).

(** [*dev] with what was opened and mapped. *)
Definition opened (d : peak_netmap_dev) (fd : Z) : peak_netmap_dev :=
  {| dev_name := dev_name d; nifp := nifp d; mem := mem d; dev_fd := fd; dev_type := dev_type d; memsize := memsize d;
     begin := begin d; end_ := end_ d |}.
Definition mapped (d : peak_netmap_dev) (m : M) (offset size rx_rings : Z) : peak_netmap_dev :=
  {| dev_name := dev_name d; nifp := Some (NETMAP_IF m offset); mem := Some m; dev_fd := dev_fd d; dev_type := dev_type d;
     memsize := size; begin := 0; end_ := rx_rings |}.

(** The rings that were mapped, or the inner [None] for an error, and the device then (but
    for the size and the result of a mapping that failed). *)
Definition _peak_netmap_init (os : system) (d : peak_netmap_dev) : option (peak_netmap_dev * option rings_t) :=
  let d := opened d (sys_open os) in
  if sys_open os <? 0 then Some (d, None) else
  if (dev_type d =? NR_REG_ALL_NIC) && negb (__peak_netmap_init os) then Some (d, None) else
  let pipe := (dev_type d =? NR_REG_PIPE_MASTER) || (dev_type d =? NR_REG_PIPE_SLAVE) in
  '(name, _) ← compat_strlcpy (replicate (Z.to_nat IFNAMSIZ) 0)
    (if pipe then [118; 97; 108; 101; 0] else dev_name d) IFNAMSIZ;
  let id := if pipe then ringid (cstr (dev_name d)) else 0 in
  if pipe && (NETMAP_RING_MASK <=? id) then Some (d, None) else
  let req := {| nr_version := NETMAP_API; nr_flags := dev_type d; nr_name := name; nr_ringid := id;
                nr_arg1 := if pipe then 16 else 0 |} in
  match sys_regif os req with
  | None => Some (d, None)
  | Some (size, offset, rx_rings) =>
      match sys_mmap os size with
      | None => Some (d, None)
      | Some (m, new) => Some (mapped d m offset size rx_rings, Some new)
      end
  end.

(** [ring->flags |= NR_FORWARD | NR_TIMESTAMP] for the receive rings [l]. *)
Fixpoint configure_loop (nif : netmap_if) (l : list Z) (m : rings_t) : option rings_t :=
  match l with
  | [] => Some m
  | rx :: l =>
      r ← m !! NETMAP_RXRING nif rx;
      configure_loop nif l (<[NETMAP_RXRING nif rx := set_rflags ((r_flags r .| NR_FORWARD) .| NR_TIMESTAMP) r]> m)
  end.

Definition peak_netmap_configure (d : peak_netmap_dev) (m : rings_t) : option rings_t :=
  nif ← nifp d;
  m ← configure_loop nif (NR_FOREACH_WIRE d) m;
  configure_loop nif (NR_FOREACH_HOST d) m.

Definition attach_ignore (type : Z) : Z :=
  if type =? NR_REG_PIPE_MASTER then NR_REG_PIPE_SLAVE
  else if type =? NR_REG_PIPE_SLAVE then NR_REG_PIPE_MASTER else type.

Definition _peak_netmap_attach (os : system) (s : state) (ifname : list Z) (type : Z) : option (state * Z) :=
  if netmap_mutex s then Some (s, 1) else
  let t := self s in
  i ← peak_netmap_find t (Some ifname) (attach_ignore type);
  if i <? count t then Some (s, 1) else
  if NETMAP_MAX <=? count t then Some (s, 1) else
  let i := count t in
  '(name, _) ← compat_strlcpy (dev_name dev_zero) (ifname ++ [0]) IFNAMSIZ;
  let d := {| dev_name := name; nifp := None; mem := None; dev_fd := 0; dev_type := type; memsize := 0; begin := 0; end_ := 0 |} in
  '(d, new) ← _peak_netmap_init os d;
  let devs := <[Z.to_nat i := d]> (dev t) in
  match (new : option rings_t) with
  | None => Some (with_self {| count := count t; last := last t; dev := devs; fds := fds t |} (rings s) s, 1)
  | Some new =>
      m ← peak_netmap_configure d (new ∪ rings s);
      p ← fds t !! Z.to_nat i;
      let p := {| fd := dev_fd d; events := events p; revents := revents p |} in
      Some (with_self {| count := count t + 1; last := last t; dev := devs; fds := <[Z.to_nat i := p]> (fds t) |} m s, 0)
  end.

Definition peak_netmap_master os s pipeid := _peak_netmap_attach os s pipeid NR_REG_PIPE_MASTER.
Definition peak_netmap_slave os s pipeid := _peak_netmap_attach os s pipeid NR_REG_PIPE_SLAVE.
Definition peak_netmap_attach os s ifname := _peak_netmap_attach os s ifname NR_REG_ALL_NIC.

(** [munmap(2)]: the rings outside the mapping are left. *)
Definition munmap (m : M) (rings : rings_t) : rings_t := filter (fun p => in_map m (fst p) = false) rings.

Definition peak_netmap_detach (s : state) (ifname : list Z) : option (state * Z) :=
  if netmap_mutex s then Some (s, 1) else
  let t := self s in
  i ← peak_netmap_find t (Some ifname) NR_REG_ALL_NIC;
  if count t <=? i then Some (s, 1) else
  d ← dev t !! Z.to_nat i;
  let m := match mem d with Some mem => munmap mem (rings s) | None => rings s end in
  t ← (if i <? count t - 1 then
         d ← dev t !! Z.to_nat (count t - 1); p ← fds t !! Z.to_nat (count t - 1);
         Some {| count := count t; last := last t; dev := <[Z.to_nat i := d]> (dev t); fds := <[Z.to_nat i := p]> (fds t) |}
       else Some t);
  Some (with_self {| count := count t - 1; last := last t; dev := dev t; fds := fds t |} m s, 0).

Definition set_mutex (v : bool) (s : state) : state := State (self s) (rings s) (netmap_priv s) (netmap_ts s) v.

(** Locking a mutex that is held, and unlocking one that is not, is undefined for one thread. *)
Definition peak_netmap_lock (s : state) : option state := if netmap_mutex s then None else Some (set_mutex true s).
Definition peak_netmap_unlock (s : state) : option state := if netmap_mutex s then Some (set_mutex false s) else None.

(** ** Receiving *)

(** The receive rings of a device in the order they are tried. *)
Definition sources (d : peak_netmap_dev) (mode : Z) : list Z :=
  if dev_type d =? NR_REG_PIPE_MASTER then []
  else if ((mode =? NETMAP_DFLT) || (mode =? NETMAP_HOST)) && negb (dev_type d =? NR_REG_PIPE_SLAVE)
  then NR_FOREACH_HOST d ++ (if mode =? NETMAP_HOST then [] else NR_FOREACH_WIRE d)
  else NR_FOREACH_WIRE d.

(** The first ring with a packet. *)
Fixpoint first_waiting (m : rings_t) (nif : netmap_if) (l : list Z) : option (Z * Z * netmap_ring R) :=
  match l with
  | [] => None
  | rx :: l =>
      match m !! NETMAP_RXRING nif rx with
      | Some r => if nm_ring_empty r then first_waiting m nif l else Some (rx, NETMAP_RXRING nif rx, r)
      | None => first_waiting m nif l
      end
  end.

Definition picked (m : rings_t) (d : peak_netmap_dev) (mode : Z) : option (Z * Z * netmap_ring R) :=
  nif ← nifp d; first_waiting m nif (sources d mode).

(** Its packet, claimed. *)
Definition cur_slot (r : netmap_ring R) : netmap_slot := default (Slot 0 0 0) (slot r !! Z.to_nat (cur r)).

Definition take_ring (s : state) (a : Z) (r : netmap_ring R) : state :=
  set_ts (next_ts (r_ts r) (netmap_ts s)) (set_priv {| ring := Some a; used := 1; i := cur r |} s).

Definition describe (s : state) (j : Z) (d : peak_netmap_dev) (rx a : Z) (r : netmap_ring R) : peak_transfer :=
  {| ts := next_ts (r_ts r) (netmap_ts s); buf := Some (NETMAP_BUF a (buf_idx (cur_slot r))); len := s_len (cur_slot r);
     ll := LINKTYPE_ETHERNET; ifname := Some j; private_data := true; id := buf_idx (cur_slot r);
     type := if dev_type d =? NR_REG_PIPE_SLAVE then NETMAP_PIPE else if negb (rx =? end_ d) then NETMAP_WIRE else NETMAP_HOST |}.

Definition outcome (s : state) (packet : peak_transfer) (j : Z) (d : peak_netmap_dev) (o : option (Z * Z * netmap_ring R))
    : state * peak_transfer * bool :=
  match o with
  | Some (rx, a, r) => (take_ring s a r, describe s j d rx a r, true)
  | None => (s, packet, false)
  end.

(** A device whose rings are mapped. *)
Definition dev_ok (m : rings_t) (d : peak_netmap_dev) : Prop :=
  begin d = 0 /\ 0 <= end_ d /\
  exists nif, nifp d = Some nif /\
    forall x, 0 <= x <= end_ d -> is_Some (m !! NETMAP_RXRING nif x) /\ is_Some (m !! NETMAP_TXRING nif x).

(** The slots of the program have buffers, of which the first two are the kernel's. *)
Definition bufs_ok (m : rings_t) : Prop :=
  forall a r x, m !! a = Some r -> x ∈ avail r -> exists sl, slot r !! Z.to_nat x = Some sl /\ 2 <= buf_idx sl.

Lemma wire_in d x : begin d = 0 -> x ∈ NR_FOREACH_WIRE d -> 0 <= x < end_ d.
Proof. unfold NR_FOREACH_WIRE. intros -> H%elem_of_seqZ. lia. Qed.

Lemma host_in d x : x ∈ NR_FOREACH_HOST d -> x = end_ d.
Proof. unfold NR_FOREACH_HOST. by intros ?%list_elem_of_singleton. Qed.

Lemma sources_in d mode x : begin d = 0 -> 0 <= end_ d -> x ∈ sources d mode -> 0 <= x <= end_ d.
Proof.
  intros Hb He. unfold sources. destruct (_ =? _); [by intros ?%elem_of_nil|].
  destruct (_ && _); [|intros ?%wire_in; [lia|done]].
  rewrite elem_of_app. intros [->%host_in|H]; [lia|]. destruct (_ =? _); [by apply elem_of_nil in H|]. apply wire_in in H; [lia|done].
Qed.

Lemma avail_next_cons r : nm_ring_empty r = false -> exists l, avail r = cur r :: l.
Proof.
  intros He. destruct (avail r) as [|x l] eqn:E; [apply avail_empty in E; congruence|].
  destruct (avail_cur _ _ _ E) as [-> _]. by exists l.
Qed.

Lemma recv_ring_spec s packet j d a rx r :
  dev (self s) !! Z.to_nat j = Some d -> rings s !! a = Some r -> bufs_ok (rings s) ->
  ___peak_netmap_recv s packet j a rx = Some (outcome s packet j d (if nm_ring_empty r then None else Some (rx, a, r))).
Proof.
  intros Hd Hr Hb. unfold ___peak_netmap_recv. rewrite Hd. cbn [mbind option_bind]. rewrite Hr. cbn [mbind option_bind].
  destruct (nm_ring_empty r) eqn:He; [done|]. destruct (avail_next_cons r He) as [l Hl].
  destruct (Hb a r (cur r) Hr) as (sl & Hsl & Hidx); [rewrite Hl; left|]. rewrite Hsl. cbn [mbind option_bind].
  destruct (Z.ltb_spec (buf_idx sl) 2); [lia|]. unfold outcome, describe, cur_slot. by rewrite Hsl.
Qed.

Lemma recv_loop_spec s packet j d nif l :
  dev (self s) !! Z.to_nat j = Some d -> bufs_ok (rings s) ->
  (forall x, x ∈ l -> is_Some (rings s !! NETMAP_RXRING nif x)) ->
  recv_loop s packet j nif l = Some (outcome s packet j d (first_waiting (rings s) nif l)).
Proof.
  intros Hd Hb. induction l as [|rx l IH]; intros Hin; [done|]. cbn [recv_loop first_waiting].
  destruct (Hin rx) as [r Hr]; [left|]. rewrite (recv_ring_spec s packet j d _ rx r), Hr by done. cbn [mbind option_bind].
  destruct (nm_ring_empty r); cbn [outcome]; [|done]. apply IH. intros x Hx. apply Hin. by right.
Qed.

Lemma first_waiting_app m nif l k :
  first_waiting m nif (l ++ k) = match first_waiting m nif l with Some x => Some x | None => first_waiting m nif k end.
Proof.
  induction l as [|x l IH]; [done|]. cbn [app first_waiting]. destruct (m !! _) as [r|]; [|apply IH].
  destruct (nm_ring_empty r); [apply IH|done].
Qed.

(** A device yields the packet of its first ring that has one. *)
Lemma recv_dev_spec s packet j d mode :
  dev (self s) !! Z.to_nat j = Some d -> dev_ok (rings s) d -> bufs_ok (rings s) ->
  __peak_netmap_recv s packet j mode = Some (outcome s packet j d (picked (rings s) d mode)).
Proof.
  intros Hd (Hb & He & nif & Hnif & Hrings) Hbufs. unfold __peak_netmap_recv, picked. rewrite Hd. cbn [mbind option_bind]. rewrite !Hnif. cbn [mbind option_bind].
  assert (forall l, (forall x, x ∈ l -> 0 <= x <= end_ d) ->
    recv_loop s packet j nif l = Some (outcome s packet j d (first_waiting (rings s) nif l))) as Hloop.
  { intros l Hl. apply recv_loop_spec; [done..|]. intros x Hx. by apply Hrings, Hl. }
  pose proof (fun x => sources_in d mode x Hb He) as Hin. unfold sources in *. destruct (dev_type d =? NR_REG_PIPE_MASTER); [done|].
  destruct (_ && _) eqn:E; [|by apply Hloop]. rewrite first_waiting_app, Hloop by (intros x Hx%host_in; lia). cbn [mbind option_bind].
  destruct (first_waiting (rings s) nif (NR_FOREACH_HOST d)) as [[[rx a] r]|]; [done|]. cbn [outcome].
  destruct (mode =? NETMAP_HOST); [done|]. apply Hloop. intros x Hx%wire_in; [lia|done].
Qed.

(** *** Turns of the devices *)

(** The devices of the table. *)
Definition active (t : peak_netmaps) : list peak_netmap_dev := take (Z.to_nat (count t)) (dev t).

(** The table has room and its places are in range. *)
Definition table_ok (t : peak_netmaps) : Prop :=
  length (dev t) = Z.to_nat NETMAP_MAX /\ length (fds t) = Z.to_nat NETMAP_MAX /\
  0 <= count t <= NETMAP_MAX /\ 0 <= last t < NETMAP_MAX.

Definition devs_ok (m : rings_t) (t : peak_netmaps) : Prop := Forall (dev_ok m) (active t).

Lemma active_lookup t j : table_ok t -> 0 <= j < count t -> exists d, dev t !! Z.to_nat j = Some d /\ active t !! Z.to_nat j = Some d.
Proof.
  intros (Hd & _ & Hc & _) Hj. destruct (lookup_lt_is_Some_2 (dev t) (Z.to_nat j)) as [d Hl]; [lia|].
  exists d. split; [done|]. unfold active. by rewrite lookup_take_lt by lia.
Qed.

Lemma active_dev m t j d : table_ok t -> devs_ok m t -> 0 <= j < count t -> dev t !! Z.to_nat j = Some d -> dev_ok m d.
Proof.
  intros Ht Hok Hj Hd. destruct (active_lookup t j Ht Hj) as (d' & Hd' & Ha). assert (d' = d) as -> by congruence.
  unfold devs_ok in Hok. rewrite Forall_lookup in Hok. by eapply Hok.
Qed.

(** The first of the [n] devices after [j] that has a packet. *)
Fixpoint first_device (n : nat) (t : peak_netmaps) (m : rings_t) (mode j : Z) : option (Z * peak_netmap_dev * (Z * Z * netmap_ring R)) :=
  match n with
  | O => None
  | S n =>
      let j := (j + 1) mod count t in
      match dev t !! Z.to_nat j with
      | Some d => match picked m d mode with Some x => Some (j, d, x) | None => first_device n t m mode j end
      | None => None
      end
  end.

Lemma any_loop_spec n s packet mode j :
  table_ok (self s) -> devs_ok (rings s) (self s) -> bufs_ok (rings s) -> 0 <= j < NETMAP_MAX -> ((0 < n)%nat -> 0 < count (self s)) ->
  any_loop n s packet mode j = Some (match first_device n (self s) (rings s) mode j with
    | Some (j', d, x) => let '(s', p, b) := outcome s packet j' d (Some x) in (set_last j' s', p, b)
    | None => (s, packet, false)
    end).
Proof.
  intros Ht Hd Hb. revert j. induction n as [|n IH]; intros j Hj Hc; [done|]. cbn [any_loop first_device].
  assert (u32 (j + 1) = j + 1) as -> by (apply wrap_small; unfold fits, NETMAP_MAX in *; lia).
  assert (0 < count (self s)) as Hpos by (apply Hc; lia). assert (0 <= (j + 1) mod count (self s) < count (self s)) as Hm by (by apply Z.mod_pos_bound).
  destruct (active_lookup _ _ Ht Hm) as (d & Hdj & _). rewrite Hdj.
  rewrite (recv_dev_spec s packet _ d mode Hdj (active_dev _ _ _ _ Ht Hd Hm Hdj) Hb). cbn [mbind option_bind].
  destruct (picked (rings s) d mode) as [[[rx a] r]|]; [done|]. cbn [outcome]. apply IH; [|lia].
  destruct Ht as (_ & _ & Hcount & _). lia.
Qed.

Lemma mod_next j k c : 0 < c -> ((j + 1) mod c + k) mod c = (j + (k + 1)) mod c.
Proof. intros Hc. rewrite Zplus_mod_idemp_l. f_equal. lia. Qed.

(** It is the nearest one. *)
Lemma first_device_spec n t m mode j :
  table_ok t -> 0 < count t ->
  match first_device n t m mode j with
  | Some (j', d, x) =>
      exists k, 1 <= k <= Z.of_nat n /\ j' = (j + k) mod count t /\ dev t !! Z.to_nat j' = Some d /\ picked m d mode = Some x /\
        forall k' d', 1 <= k' < k -> dev t !! Z.to_nat ((j + k') mod count t) = Some d' -> picked m d' mode = None
  | None => forall k' d', 1 <= k' <= Z.of_nat n -> dev t !! Z.to_nat ((j + k') mod count t) = Some d' -> picked m d' mode = None
  end.
Proof.
  intros Ht Hc. revert j. induction n as [|n IH]; intros j; cbn [first_device]; [intros; lia|].
  assert (0 <= (j + 1) mod count t < count t) as Hm by (by apply Z.mod_pos_bound).
  destruct (active_lookup _ _ Ht Hm) as (d & Hdj & _). rewrite Hdj. destruct (picked m d mode) as [x|] eqn:Hx.
  - exists 1. split_and!; [lia|lia|done..|intros; lia].
  - specialize (IH ((j + 1) mod count t)). destruct (first_device n t m mode ((j + 1) mod count t)) as [[[j' d0] x]|].
    + destruct IH as (k & Hk & -> & Hd' & Hp & Hbefore). exists (k + 1). rewrite mod_next in * by done. split_and!; [lia|lia|done..|].
      intros k' d' Hk' Hd''. destruct (decide (k' = 1)) as [->|]; [congruence|].
      apply (Hbefore (k' - 1)); [lia|]. rewrite mod_next by done. by replace (k' - 1 + 1) with k' by lia.
    + intros k' d' Hk' Hd''. destruct (decide (k' = 1)) as [->|]; [congruence|].
      apply (IH (k' - 1)); [lia|]. rewrite mod_next by done. by replace (k' - 1 + 1) with k' by lia.
Qed.

(** *** What holds between the calls *)

(** The claimed packet is still in its slot, which is the next one of its ring; the
    descriptor of the user tells which one that is, and of which device. *)
Definition claimed (s : state) (a : Z) (r : netmap_ring R) (l : list Z) : Prop :=
  ring (netmap_priv s) = Some a /\ used (netmap_priv s) = 1 /\ rings s !! a = Some r /\ avail r = i (netmap_priv s) :: l /\
  exists nif rx, a = NETMAP_RXRING nif rx.

Definition describes (s : state) (packet : peak_transfer) (r : netmap_ring R) (a : Z) : Prop :=
  exists sl, slot r !! Z.to_nat (i (netmap_priv s)) = Some sl /\ buf packet = Some (NETMAP_BUF a (buf_idx sl)) /\
    len packet = s_len sl /\ id packet = buf_idx sl /\ private_data packet = true /\
    exists j d nif rx, ifname packet = Some j /\ 0 <= j < count (self s) /\ dev (self s) !! Z.to_nat j = Some d /\
      nifp d = Some nif /\ a = NETMAP_RXRING nif rx.

Definition netmap_ok (s : state) : Prop :=
  table_ok (self s) /\ devs_ok (rings s) (self s) /\ bufs_ok (rings s) /\
  (netmap_priv s = netmap_zero \/ exists a r l, claimed s a r l).

(** What the kernel may do to the rings: make more slots available behind those that are,
    with buffers. *)
Definition kernel (m m' : rings_t) : Prop :=
  bufs_ok m' /\
  forall a r, m !! a = Some r -> exists r' more, m' !! a = Some r' /\ avail r' = avail r ++ more /\
    forall x, x ∈ avail r -> slot r' !! Z.to_nat x = slot r !! Z.to_nat x.

Lemma kernel_dev_ok m m' d : kernel m m' -> dev_ok m d -> dev_ok m' d.
Proof.
  intros [_ Hk] (Hb & He & nif & Hn & Hr). split; [done|]. split; [done|]. exists nif. split; [done|]. intros x Hx.
  destruct (Hr x Hx) as [[r1 H1] [r2 H2]]. destruct (Hk _ _ H1) as (r1' & _ & -> & _), (Hk _ _ H2) as (r2' & _ & -> & _). by split.
Qed.

Lemma kernel_ok s m : netmap_ok s -> kernel (rings s) m -> netmap_ok (set_rings m s).
Proof.
  intros (Ht & Hd & Hb & Hp) Hk. split; [done|]. split; [|split; [apply Hk|]].
  - eapply Forall_impl; [exact Hd|]. intros d. by apply kernel_dev_ok.
  - destruct Hp as [Hp|(a & r & l & H1 & H2 & H3 & H4 & H5)]; [by left|right].
    destruct Hk as [_ Hk]. destruct (Hk _ _ H3) as (r' & more & Hr' & Ha & _). exists a, r', (l ++ more).
    split_and!; [done..|by rewrite Ha, H4|done].
Qed.

(** A device the search stops at. *)
Definition hit (name : list Z) (ignore : Z) (d : peak_netmap_dev) : bool :=
  negb (negb (ignore =? NR_REG_ALL_NIC) && (ignore =? dev_type d)) && name_is name d.

Lemma find_device_spec n name ignore l i :
  0 <= i -> (Z.to_nat i + n <= length l)%nat ->
  exists i', find_loop n name ignore l i = Some i' /\ i <= i' <= i + Z.of_nat n /\
    (i' < i + Z.of_nat n -> exists d, l !! Z.to_nat i' = Some d /\ hit name ignore d = true) /\
    forall k d, i <= k < i' -> l !! Z.to_nat k = Some d -> hit name ignore d = false.
Proof.
  revert i. induction n as [|n IH]; intros i Hi Hl; cbn [find_loop]; [exists i; split_and!; [done|lia..]|].
  destruct (lookup_lt_is_Some_2 l (Z.to_nat i)) as [d Hd]; [lia|]. rewrite Hd. cbn [mbind option_bind].
  assert (hit name ignore d = false -> exists i', find_loop n name ignore l (i + 1) = Some i' /\ i <= i' <= i + Z.of_nat (S n) /\
    (i' < i + Z.of_nat (S n) -> exists d, l !! Z.to_nat i' = Some d /\ hit name ignore d = true) /\
    forall k d, i <= k < i' -> l !! Z.to_nat k = Some d -> hit name ignore d = false) as Hnext.
  { intros Hh. destruct (IH (i + 1)) as (i' & E & Hi' & Hhit & Hno); [lia..|]. exists i'. split_and!; [done|lia|lia| |].
    - intros H. apply Hhit. lia.
    - intros k d' Hk Hd'. destruct (decide (k = i)) as [->|]; [congruence|]. apply (Hno k); [lia|done]. }
  unfold hit in Hnext. destruct (negb (ignore =? NR_REG_ALL_NIC) && (ignore =? dev_type d)) eqn:E1; cbn [negb andb] in Hnext; [by apply Hnext|].
  destruct (name_is name d) eqn:E2; [|by apply Hnext]. exists i. split_and!; [done|lia|lia| |lia].
  intros _. exists d. split; [done|]. unfold hit. by rewrite E1, E2.
Qed.

Lemma find_spec t name ignore :
  table_ok t ->
  exists i, peak_netmap_find t (Some name) ignore = Some i /\ 0 <= i <= count t /\
    (i < count t -> exists d, dev t !! Z.to_nat i = Some d /\ hit name ignore d = true) /\
    forall k d, 0 <= k < i -> dev t !! Z.to_nat k = Some d -> hit name ignore d = false.
Proof.
  intros (Hd & _ & Hc & _). unfold peak_netmap_find.
  destruct (find_device_spec (Z.to_nat (count t)) name ignore (dev t) 0) as (i & E & Hi & H1 & H2); [lia..|].
  exists i. replace (0 + Z.of_nat (Z.to_nat (count t))) with (count t) in * by lia. split_and!; [done|lia|lia|done|done].
Qed.

(** Noting the events changes nothing else. *)
Definition same_devices (t t' : peak_netmaps) : Prop :=
  count t' = count t /\ last t' = last t /\ dev t' = dev t /\ length (fds t') = length (fds t).

Lemma set_events_spec i re t :
  (Z.to_nat i < length (fds t))%nat -> exists t', set_events i re t = Some t' /\ same_devices t t'.
Proof.
  intros Hi. unfold set_events. destruct (lookup_lt_is_Some_2 (fds t) (Z.to_nat i) Hi) as [p ->]. cbn [mbind option_bind].
  eexists. split; [done|]. by split_and!; [..|apply length_insert].
Qed.

Lemma set_all_events_spec res i t :
  0 <= i -> (Z.to_nat i + length res <= length (fds t))%nat -> exists t', set_all_events res i t = Some t' /\ same_devices t t'.
Proof.
  revert i t. induction res as [|re res IH]; intros i t Hi Hl; simpl in Hl; cbn [set_all_events]; [by exists t|].
  destruct (set_events_spec i re t) as (t1 & -> & Hc & Hla & Hd & Hf); [lia|]. cbn [mbind option_bind].
  destruct (IH (i + 1) t1) as (t2 & -> & Hc2 & Hla2 & Hd2 & Hf2); [lia..|]. exists t2. split; [done|]. split_and!; congruence.
Qed.

Lemma table_last t j : table_ok t -> 0 <= j < NETMAP_MAX -> table_ok {| count := count t; last := j; dev := dev t; fds := fds t |}.
Proof. by intros (? & ? & ? & _). Qed.

Lemma set_last_ok s j : netmap_ok s -> 0 <= j < NETMAP_MAX -> netmap_ok (set_last j s).
Proof. intros (Ht & Hd & Hb & Hp) Hj. split; [by apply table_last|]. by split_and!. Qed.

Lemma polled_ok s t m : netmap_ok s -> same_devices (self s) t -> kernel (rings s) m -> netmap_ok (with_self t m s).
Proof.
  intros Hok (Hc & Hl & Hd & Hf) Hk. destruct (kernel_ok s m Hok Hk) as ((H1 & H2 & H3 & H4) & Hdevs & Hb & Hp).
  cbn [self set_rings rings] in *. split; [|split; [|by split]].
  - cbn [self with_self]. unfold table_ok. by rewrite Hc, Hl, Hd, Hf.
  - unfold devs_ok, active in *. cbn [self with_self rings]. by rewrite Hc, Hd.
Qed.

Lemma picked_spec m d mode rx a r :
  picked m d mode = Some (rx, a, r) ->
  exists nif, nifp d = Some nif /\ a = NETMAP_RXRING nif rx /\ m !! a = Some r /\ exists l, avail r = cur r :: l.
Proof.
  unfold picked. destruct (nifp d) as [nif|]; cbn [mbind option_bind]; [|done]. induction (sources d mode) as [|x l IH]; [done|].
  cbn [first_waiting]. destruct (m !! NETMAP_RXRING nif x) as [r'|] eqn:Hr; [|done]. destruct (nm_ring_empty r') eqn:He; [done|].
  intros [= <- <- <-]. exists nif. split_and!; [done..|by apply avail_next_cons].
Qed.

(** Taking the packet that was picked. *)
Lemma take_ok s j d mode rx a r :
  netmap_ok s -> 0 <= j < count (self s) -> dev (self s) !! Z.to_nat j = Some d -> picked (rings s) d mode = Some (rx, a, r) ->
  netmap_ok (take_ring s a r) /\ exists l, claimed (take_ring s a r) a r l /\ describes (take_ring s a r) (describe s j d rx a r) r a.
Proof.
  intros (Ht & Hd & Hb & _) Hj Hdj (nif & Hn & -> & Hr & l & Hl)%picked_spec.
  assert (claimed (take_ring s (NETMAP_RXRING nif rx) r) (NETMAP_RXRING nif rx) r l) as Hcl by (split_and!; [done..|by exists nif, rx]).
  split; [split_and!; [done..|right; by eexists _, _, _]|]. exists l. split; [done|].
  destruct (Hb _ r (cur r) Hr) as (sl & Hsl & _); [rewrite Hl; left|]. exists sl. unfold describe, cur_slot. cbn. rewrite Hsl. cbn.
  split_and!; [done..|]. by exists j, d, nif, rx.
Qed.

(** The same devices. *)
Definition same_table (t t' : peak_netmaps) : Prop := count t' = count t /\ dev t' = dev t.

(** What a reception that does not look further makes of a device, or of the first one of some. *)
Definition recv_result (s : state) (packet : peak_transfer) (s' : state) (p : peak_transfer) (found : bool) : Prop :=
  netmap_ok s' /\ same_table (self s) (self s') /\ rings s' = rings s /\
  (found = true -> exists a r l, claimed s' a r l /\ describes s' p r a) /\
  (found = false -> netmap_priv s' = netmap_priv s /\ p = packet) /\ netmap_mutex s' = netmap_mutex s.

Lemma recv_dev_result s packet j mode :
  netmap_ok s -> 0 <= j < count (self s) ->
  exists d s' p found, dev (self s) !! Z.to_nat j = Some d /\ __peak_netmap_recv s packet j mode = Some (s', p, found) /\
    recv_result s packet s' p found /\ found = bool_decide (is_Some (picked (rings s) d mode)) /\ (found = true -> ifname p = Some j) /\
    (found = false -> s' = s).
Proof.
  intros Hok Hj. pose proof Hok as (Ht & Hd & Hb & _). destruct (active_lookup _ _ Ht Hj) as (d & Hdj & _).
  rewrite (recv_dev_spec s packet j d mode Hdj (active_dev _ _ _ _ Ht Hd Hj Hdj) Hb). exists d.
  destruct (picked (rings s) d mode) as [[[rx a] r]|] eqn:Hp; cbn [outcome].
  - destruct (take_ok s j d mode rx a r Hok Hj Hdj Hp) as (Hok' & l & Hcl & Hdesc). eexists _, _, _.
    split; [done|]. split; [done|]. split; [|by split_and!]. split_and!; [done..| |done|done]. intros _. by exists a, r, l.
  - exists s, packet, false. split; [done|]. split; [done|]. split; [by split_and!|]. split_and!; [|done..].
    symmetry. apply bool_decide_eq_false_2. by intros [].
Qed.

Lemma recv_any_result s packet mode :
  netmap_ok s ->
  exists s' p found, _peak_netmap_recv s packet mode = Some (s', p, found) /\ recv_result s packet s' p found /\
    (found = false -> s' = s) /\
    forall k d, 1 <= k <= count (self s) -> dev (self s) !! Z.to_nat ((last (self s) + k) mod count (self s)) = Some d ->
      is_Some (picked (rings s) d mode) ->
      found = true /\ exists k', 1 <= k' <= k /\ last (self s') = (last (self s) + k') mod count (self s) /\ ifname p = Some (last (self s')).
Proof.
  intros Hok. pose proof Hok as (Ht & Hd & Hb & _). pose proof Ht as (_ & _ & Hc & Hl). unfold _peak_netmap_recv.
  rewrite any_loop_spec by (done || lia). destruct (decide (count (self s) = 0)) as [E0|Hpos].
  { rewrite E0. exists s, packet, false. split; [done|]. split; [by split_and!|]. split; [done|lia]. }
  pose proof (first_device_spec (Z.to_nat (count (self s))) (self s) (rings s) mode (last (self s)) Ht ltac:(lia)) as Hf.
  rewrite Z2Nat.id in Hf by lia. destruct (first_device _ _ _ _ _) as [[[j d] [[rx a] r]]|].
  - destruct Hf as (k & Hk & -> & Hdj & Hp & Hno). cbn [outcome]. set (j := (last (self s) + k) mod count (self s)) in *.
    assert (0 <= j < count (self s)) as Hj by (apply Z.mod_pos_bound; lia).
    destruct (take_ok s j d mode rx a r Hok Hj Hdj Hp) as (Hok' & l & Hcl & Hdesc).
    eexists _, _, true. split; [done|]. split; [|split; [done|]].
    + split_and!; [apply set_last_ok; [done|lia]|done..| |done|done]. intros _. exists a, r, l. by split.
    + intros k' d' Hk' Hd' [x Hx]. split; [done|]. exists k. split_and!; [lia| |done..].
      destruct (decide (k' < k)); [|lia]. rewrite (Hno k' d') in Hx by (done || lia). done.
  - exists s, packet, false. split; [done|]. split; [by split_and!|]. split; [done|].
    intros k d Hk Hd' [x Hx]. by rewrite (Hf k d Hk Hd') in Hx.
Qed.

Lemma ready_result l s packet mode i :
  netmap_ok s -> 0 <= i -> i + Z.of_nat (length l) = count (self s) ->
  exists s' p found, ready_loop l s packet mode i = Some (s', p, found) /\ recv_result s packet s' p found.
Proof.
  intros Hok. revert i. induction l as [|re l IH]; intros i Hi Hl; cbn [ready_loop].
  - exists s, packet, false. split; [done|]. by split_and!.
  - simpl in Hl. destruct (negb _); [|apply IH; lia]. pose proof Hok as ((_ & _ & Hc & _) & _).
    assert (netmap_ok (set_last i s)) as Hok' by (apply set_last_ok; [done|lia]).
    destruct (recv_dev_result (set_last i s) packet i mode Hok') as (d & s' & p & found & _ & E & Hr & _); [cbn; lia|]. by exists s', p, found.
Qed.

(** What a reception leaves, of which a poll may have been part. *)
Definition recv_post (s : state) (packet : peak_transfer) (poll : polled) (s' : state) (p : peak_transfer) (found : bool) : Prop :=
  netmap_ok s' /\ same_table (self s) (self s') /\ (rings s' = rings s \/ rings s' = poll_rings poll) /\
  (found = true -> exists a r l, claimed s' a r l /\ describes s' p r a) /\
  (found = false -> netmap_priv s' = netmap_priv s /\ p = packet) /\ netmap_mutex s' = netmap_mutex s.

Lemma result_post s packet poll s' p found : recv_result s packet s' p found -> recv_post s packet poll s' p found.
Proof. intros (H1 & H2 & H3 & H4). split; [done|]. split; [done|]. split; [by left|done]. Qed.

Lemma polled_post s t packet poll s' p found :
  same_devices (self s) t -> recv_result (with_self t (poll_rings poll) s) packet s' p found -> recv_post s packet poll s' p found.
Proof.
  intros (Hc & _ & Hd & _) (H1 & [H2 H3] & H4 & H5). cbn [self with_self] in *. split; [done|]. split; [split; congruence|]. split; [by right|done].
Qed.

Lemma nothing_result s packet : netmap_ok s -> recv_result s packet s packet false.
Proof. intros H. by split_and!. Qed.

Lemma recv_named_post s packet poll nm mode :
  netmap_ok s -> kernel (rings s) (poll_rings poll) -> length (poll_revents poll) = 1%nat -> used (netmap_priv s) = 0 ->
  exists s' p found, peak_netmap_recv s packet poll (Some nm) mode = Some (s', p, found) /\ recv_post s packet poll s' p found /\
    forall j d, peak_netmap_find (self s) (Some nm) NR_REG_PIPE_MASTER = Some j -> j < count (self s) ->
      dev (self s) !! Z.to_nat j = Some d -> is_Some (picked (rings s) d mode) -> found = true /\ rings s' = rings s /\ ifname p = Some j.
Proof.
  intros Hok Hk Hlen Hu. pose proof Hok as (Ht & _). pose proof Ht as (_ & Hfds & Hc & _). unfold peak_netmap_recv. rewrite Hu. cbn [negb Z.eqb].
  destruct (find_spec (self s) nm NR_REG_PIPE_MASTER Ht) as (j & Ej & Hj & _). rewrite Ej. cbn [mbind option_bind].
  pose proof (nothing_result s packet Hok) as Hnone. destruct (Z.leb_spec (count (self s)) j).
  { exists s, packet, false. split; [done|]. split; [by apply result_post|]. intros j' d [= <-] Hlt. lia. }
  destruct (recv_dev_result s packet j mode Hok) as (d & s1 & p1 & found & Hdj & -> & Hr & Hfound & Hif & Hs1); [lia|]. cbn [mbind option_bind].
  destruct found.
  - exists s1, p1, true. split; [done|]. split; [by apply result_post|]. intros j' d' [= <-] _ _ _. split_and!; [done|apply Hr|by apply Hif].
  - destruct (proj1 (proj2 (proj2 (proj2 (proj2 Hr)))) eq_refl) as [_ ->]. rewrite (Hs1 eq_refl).
    destruct (poll_revents poll) as [|re [|]]; try done. cbn [lookup list_lookup mbind option_bind].
    destruct (set_events_spec j re (self s)) as (t & -> & Hsame); [lia|]. cbn [mbind option_bind].
    pose proof (polled_ok s t _ Hok Hsame Hk) as Hok2. set (s2 := with_self t (poll_rings poll) s) in *.
    assert (exists s' p found, (if poll_ret poll <=? 0 then Some (s2, packet, false)
        else if negb (re .& POLLIN =? 0) then __peak_netmap_recv s2 packet j mode else Some (s2, packet, false)) = Some (s', p, found) /\
        recv_result s2 packet s' p found) as (s' & p & found & -> & Hres).
    { pose proof (nothing_result s2 packet Hok2). destruct (poll_ret poll <=? 0); [by exists s2, packet, false|].
      destruct (negb _); [|by exists s2, packet, false].
      destruct (recv_dev_result s2 packet j mode Hok2) as (d2 & s' & p & found & _ & E & Hr2 & _); [|by exists s', p, found].
      destruct Hsame as (Hcs & _). cbn [self s2 with_self]. rewrite Hcs. lia. }
    exists s', p, found. split; [done|]. split; [by eapply polled_post|]. intros j' d' [= <-] _ Hd' Hs. assert (d' = d) as -> by congruence.
    symmetry in Hfound. by apply bool_decide_eq_false in Hfound.
Qed.

Lemma recv_turn_post s packet poll mode :
  netmap_ok s -> kernel (rings s) (poll_rings poll) -> Z.of_nat (length (poll_revents poll)) = count (self s) -> used (netmap_priv s) = 0 ->
  exists s' p found, peak_netmap_recv s packet poll None mode = Some (s', p, found) /\ recv_post s packet poll s' p found /\
    forall k d, 1 <= k <= count (self s) -> dev (self s) !! Z.to_nat ((last (self s) + k) mod count (self s)) = Some d ->
      is_Some (picked (rings s) d mode) ->
      found = true /\ rings s' = rings s /\
      exists k', 1 <= k' <= k /\ last (self s') = (last (self s) + k') mod count (self s) /\ ifname p = Some (last (self s')).
Proof.
  intros Hok Hk Hlen Hu. pose proof Hok as (Ht & _). pose proof Ht as (_ & Hfds & Hc & _). unfold peak_netmap_recv. rewrite Hu. cbn [negb Z.eqb].
  destruct (recv_any_result s packet mode Hok) as (s1 & p1 & found & -> & Hr & Hs1 & Hturn). cbn [mbind option_bind]. destruct found.
  - exists s1, p1, true. split; [done|]. split; [by apply result_post|].
    intros k d Hk1 Hd Hp. destruct (Hturn k d Hk1 Hd Hp) as (_ & Ht'). split_and!; [done|apply Hr|done].
  - destruct (proj1 (proj2 (proj2 (proj2 (proj2 Hr)))) eq_refl) as [_ ->]. rewrite (Hs1 eq_refl) in *. rewrite Hlen, Z.eqb_refl. cbn [negb].
    destruct (set_all_events_spec (poll_revents poll) 0 (self s)) as (t & -> & Hsame); [lia|unfold NETMAP_MAX in *; lia|]. cbn [mbind option_bind].
    pose proof (polled_ok s t _ Hok Hsame Hk) as Hok2. set (s2 := with_self t (poll_rings poll) s) in *.
    assert (exists s' p found, (if poll_ret poll <=? 0 then Some (s2, packet, false)
        else ready_loop (poll_revents poll) s2 packet mode 0) = Some (s', p, found) /\
        recv_result s2 packet s' p found) as (s' & p & found & -> & Hres).
    { destruct (poll_ret poll <=? 0); [exists s2, packet, false; split; [done|by apply nothing_result]|].
      apply ready_result; [done..|]. destruct Hsame as (Hcs & _). cbn [self s2 with_self]. rewrite Hcs. lia. }
    exists s', p, found. split; [done|]. split; [by eapply polled_post|].
    intros k d Hk1 Hd Hp. by destruct (Hturn k d Hk1 Hd Hp).
Qed.

(** C13.  Receiving: while a packet is claimed nothing happens; else the packet that is
    received is the next one of its ring and is claimed, described by its buffer, its
    length and a device of the table, and if there is none nothing is claimed.  Without
    a name the devices take turns: the [k]-th one after the last one that was served
    waits for at most [k - 1] packets of others.  A device that is named is served if
    it has a packet. *)
Theorem netmap_recv_next s packet poll name mode :
  netmap_ok s -> kernel (rings s) (poll_rings poll) ->
  Z.of_nat (length (poll_revents poll)) = (match name with Some _ => 1 | None => count (self s) end) ->
  exists s' p found, peak_netmap_recv s packet poll name mode = Some (s', p, found) /\ netmap_ok s' /\
    same_table (self s) (self s') /\ (rings s' = rings s \/ rings s' = poll_rings poll) /\
    (used (netmap_priv s) <> 0 -> s' = s /\ p = packet /\ found = false) /\
    (used (netmap_priv s) = 0 -> found = true -> exists a r l, claimed s' a r l /\ describes s' p r a) /\
    (found = false -> netmap_priv s' = netmap_priv s /\ p = packet) /\
    (used (netmap_priv s) = 0 ->
     match name with
     | None => forall k d, 1 <= k <= count (self s) -> dev (self s) !! Z.to_nat ((last (self s) + k) mod count (self s)) = Some d ->
         is_Some (picked (rings s) d mode) ->
         found = true /\ rings s' = rings s /\
         exists k', 1 <= k' <= k /\ last (self s') = (last (self s) + k') mod count (self s) /\ ifname p = Some (last (self s'))
     | Some _ => forall j d, peak_netmap_find (self s) name NR_REG_PIPE_MASTER = Some j -> j < count (self s) ->
         dev (self s) !! Z.to_nat j = Some d -> is_Some (picked (rings s) d mode) ->
         found = true /\ rings s' = rings s /\ ifname p = Some j
     end).
Proof.
  intros Hok Hk Hlen. destruct (decide (used (netmap_priv s) = 0)) as [Hu|Hu].
  - destruct name as [nm|].
    + destruct (recv_named_post s packet poll nm mode Hok Hk ltac:(lia) Hu) as (s' & p & found & E & (H1 & H2 & H3 & H4 & H5 & _) & H6).
      exists s', p, found. by split_and!.
    + destruct (recv_turn_post s packet poll mode Hok Hk Hlen Hu) as (s' & p & found & E & (H1 & H2 & H3 & H4 & H5 & _) & H6).
      exists s', p, found. by split_and!.
  - exists s, packet, false. unfold peak_netmap_recv. destruct (Z.eqb_spec (used (netmap_priv s)) 0); [done|]. split; [done|]. split; [done|].
    split; [done|]. split; [by left|]. by split_and!.
Qed.

(** ** Releasing *)

(** The ring with another content in its next slot, which is given back. *)
Definition stepped (r : netmap_ring R) (sl : netmap_slot) : netmap_ring R :=
  let r := set_slots (<[Z.to_nat (cur r) := sl]> (slot r)) r in set_pos (nm_ring_next r (cur r)) r.

Lemma stepped_avail r sl l : avail r = cur r :: l -> avail (stepped r sl) = l.
Proof.
  intros Ha. unfold stepped. apply avail_next. rewrite avail_slots; [done|apply length_insert].
Qed.

Lemma stepped_bufs_ok m a r sl l :
  bufs_ok m -> m !! a = Some r -> avail r = cur r :: l -> 2 <= buf_idx sl -> bufs_ok (<[a := stepped r sl]> m).
Proof.
  intros Hb Hr Ha Hsl a' r' x. destruct (decide (a = a')) as [<-|Hne]; [|rewrite lookup_insert_ne by done; apply Hb].
  rewrite lookup_insert_eq. intros [= <-]. rewrite (stepped_avail _ _ _ Ha). intros Hx.
  destruct (Hb a r x Hr) as (sl' & Hsl' & H2); [rewrite Ha; by right|]. cbn [stepped set_slots set_pos slot].
  destruct (decide (Z.to_nat (cur r) = Z.to_nat x)) as [->|Hxc]; [|exists sl'; by rewrite list_lookup_insert_ne].
  exists sl. split; [|done]. apply list_lookup_insert_eq. by eapply lookup_lt_Some.
Qed.

Lemma insert_dev_ok m a r d : is_Some (m !! a) -> dev_ok m d -> dev_ok (<[a := r]> m) d.
Proof.
  intros Ha (Hb & He & nif & Hn & Hr). split; [done|]. split; [done|]. exists nif. split; [done|]. intros x Hx.
  split; apply lookup_insert_is_Some'; right; by apply Hr.
Qed.

Lemma insert_devs_ok m a r t : is_Some (m !! a) -> devs_ok m t -> devs_ok (<[a := r]> m) t.
Proof. intros Ha H. eapply Forall_impl; [exact H|]. intros d. by apply insert_dev_ok. Qed.

(** The store with two of its rings in sight. *)
Definition two (m : rings_t) (a : Z) (ra : netmap_ring R) (c : Z) (rc : netmap_ring R) : rings_t := <[a := ra]> (<[c := rc]> m).

Lemma upd_slot_eq m a r x sl f :
  m !! a = Some r -> slot r !! Z.to_nat x = Some sl ->
  upd_slot a x f m = Some (<[a := set_slots (<[Z.to_nat x := f sl]> (slot r)) r]> m).
Proof. intros Hr Hs. unfold upd_slot. rewrite Hr. cbn [mbind option_bind]. by rewrite Hs. Qed.

Lemma upd_two_l m a ra c rc x sl f :
  slot ra !! Z.to_nat x = Some sl ->
  upd_slot a x f (two m a ra c rc) = Some (two m a (set_slots (<[Z.to_nat x := f sl]> (slot ra)) ra) c rc).
Proof. intros Hs. rewrite (upd_slot_eq _ a ra x sl) by (done || apply lookup_insert_eq). unfold two. by rewrite insert_insert_eq. Qed.

Lemma upd_two_r m a ra c rc x sl f :
  a <> c -> slot rc !! Z.to_nat x = Some sl ->
  upd_slot c x f (two m a ra c rc) = Some (two m a ra c (set_slots (<[Z.to_nat x := f sl]> (slot rc)) rc)).
Proof.
  intros Hac Hs. rewrite (upd_slot_eq _ c rc x sl) by (done || (unfold two; by rewrite lookup_insert_ne, lookup_insert_eq)).
  unfold two. by rewrite insert_insert_ne, insert_insert_eq.
Qed.

Lemma set_slots_again l (r : netmap_ring R) x sl : set_slots (<[x := sl]> l) (set_slots l r) = set_slots (<[x := sl]> l) r.
Proof. done. Qed.

(** The slots after the buffers were swapped. *)
Definition sent_slot (rs ts : netmap_slot) : netmap_slot := Slot (buf_idx rs) (s_len rs) (s_flags ts .| NS_BUF_CHANGED).
Definition back_slot (rs ts : netmap_slot) : netmap_slot :=
  Slot (buf_idx ts) (s_len rs) (Z.ldiff (s_flags rs .| NS_BUF_CHANGED) NS_FORWARD).

Lemma advance_eq m a r : m !! a = Some r -> advance a m = Some (<[a := set_pos (nm_ring_next r (cur r)) r]> m).
Proof. intros Hr. unfold advance. by rewrite Hr. Qed.

Lemma send_ring_spec s packet c rc l a r rs :
  claimed s c rc l -> a <> c -> rings s !! a = Some r -> slot rc !! Z.to_nat (cur rc) = Some rs ->
  _peak_netmap_send s packet a =
    match slot r !! Z.to_nat (cur r) with
    | Some ts =>
        if nm_ring_empty r then Some (s, packet, 1)
        else Some (set_priv netmap_zero (set_rings (two (rings s) a (stepped r (sent_slot rs ts)) c (stepped rc (back_slot rs ts))) s), transfer_zero, 0)
    | None => if nm_ring_empty r then Some (s, packet, 1) else None
    end.
Proof.
  intros (Hring & _ & Hc & Ha & _) Hac Hr Hrs. destruct (avail_cur _ _ _ Ha) as (Hcur & _). unfold _peak_netmap_send.
  rewrite Hring. cbn [mbind option_bind]. rewrite <- Hcur. rewrite Hr. cbn [mbind option_bind].
  destruct (nm_ring_empty r); [by destruct (slot r !! _)|]. rewrite Hc. cbn [mbind option_bind]. rewrite Hrs. cbn [mbind option_bind].
  destruct (slot r !! Z.to_nat (cur r)) as [ts|] eqn:Hts; cbn [mbind option_bind]; [|done].
  assert (rings s = two (rings s) a r c rc) as E0 by (unfold two; by rewrite !insert_id by (done || by rewrite insert_id)).
  assert (forall l (sl : netmap_slot) x, l !! x = Some sl -> forall sl' : netmap_slot, <[x := sl']> l !! x = Some sl') as Hins
    by (intros l' sl x Hx sl'; apply list_lookup_insert_eq; by eapply lookup_lt_Some).
  rewrite E0 at 1. rewrite (upd_two_l _ _ _ _ _ _ ts) by done. cbn [mbind option_bind].
  rewrite (upd_two_r _ _ _ _ _ _ rs) by done. cbn [mbind option_bind].
  do 2 (erewrite upd_two_l by (cbn [slot set_slots]; by eapply Hins); cbn [mbind option_bind slot set_slots]; rewrite list_insert_insert_eq).
  do 2 (erewrite upd_two_r by (done || (cbn [slot set_slots]; by eapply Hins)); cbn [mbind option_bind slot set_slots]; rewrite list_insert_insert_eq).
  erewrite advance_eq by (unfold two; rewrite lookup_insert_ne by done; by rewrite lookup_insert_eq). cbn [mbind option_bind].
  unfold two at 1. erewrite advance_eq by (rewrite lookup_insert_ne by done; by rewrite lookup_insert_eq). cbn [mbind option_bind].
  unfold two. rewrite (insert_insert_ne _ c a) by done. rewrite insert_insert_eq. rewrite insert_insert_eq. done.
Qed.

Lemma release_spec s packet c rc l rs flag :
  claimed s c rc l -> slot rc !! Z.to_nat (cur rc) = Some rs -> private_data packet = true ->
  release flag s packet = Some (set_priv netmap_zero (set_rings (<[c := stepped rc (flag rs)]> (rings s)) s), transfer_zero, 0).
Proof.
  intros (Hring & _ & Hc & Ha & _) Hrs Hp. destruct (avail_cur _ _ _ Ha) as (Hcur & _). unfold release. rewrite Hp, Hring. cbn [negb mbind option_bind].
  rewrite <- Hcur, (upd_slot_eq _ c rc (cur rc) rs) by done. cbn [mbind option_bind].
  erewrite advance_eq by apply lookup_insert_eq. cbn [mbind option_bind]. by rewrite insert_insert_eq.
Qed.

Lemma released_ok s m :
  netmap_ok s -> devs_ok m (self s) -> bufs_ok m -> netmap_ok (set_priv netmap_zero (set_rings m s)).
Proof. intros (Ht & _) Hd Hb. split_and!; [apply Ht..|done|done|by left]. Qed.

(** All the buffers of all the rings. *)
Definition buffers (m : rings_t) : list Z := flat_map (fun p => buf_idx <$> slot (snd p)) (map_to_list m).

Lemma buffers_delete m a r : m !! a = Some r -> buffers m ≡ₚ (buf_idx <$> slot r) ++ buffers (delete a m).
Proof. intros Hr. unfold buffers. rewrite <- (map_to_list_delete m a r Hr). done. Qed.

Lemma insert_Permutation {A} (l : list A) x y z : l !! x = Some y -> y :: <[x := z]> l ≡ₚ z :: l.
Proof.
  intros Hx. pose proof (list_lookup_insert_eq l x z (lookup_lt_Some _ _ _ Hx)) as Hx'.
  rewrite (delete_Permutation _ _ _ Hx'). rewrite (delete_Permutation _ _ _ Hx) at 2.
  assert (delete x (<[x := z]> l) = delete x l) as ->; [|apply Permutation_swap].
  apply list_eq. intros k. destruct (decide (k < x)%nat) as [H|H].
  - rewrite !list_lookup_delete_lt, list_lookup_insert_ne by lia. done.
  - rewrite !list_lookup_delete_ge, list_lookup_insert_ne by lia. done.
Qed.

Lemma bufs_insert (l : list netmap_slot) x sl sl' :
  l !! x = Some sl -> buf_idx sl :: (buf_idx <$> <[x := sl']> l) ≡ₚ buf_idx sl' :: (buf_idx <$> l).
Proof. intros Hx. rewrite <- !(fmap_cons buf_idx). by apply fmap_Permutation, insert_Permutation. Qed.

Lemma buffers_swap m a ra c rc ts rs :
  a <> c -> m !! a = Some ra -> m !! c = Some rc ->
  slot ra !! Z.to_nat (cur ra) = Some ts -> slot rc !! Z.to_nat (cur rc) = Some rs ->
  buffers (two m a (stepped ra (sent_slot rs ts)) c (stepped rc (back_slot rs ts))) ≡ₚ buffers m.
Proof.
  intros Hac Ha Hc Hts Hrs. unfold two.
  rewrite (buffers_delete _ a (stepped ra (sent_slot rs ts))) by apply lookup_insert_eq. rewrite delete_insert_eq, delete_insert_ne by done.
  rewrite (buffers_delete _ c (stepped rc (back_slot rs ts))) by apply lookup_insert_eq. rewrite delete_insert_eq.
  rewrite (buffers_delete m a ra Ha), (buffers_delete (delete a m) c rc) by (by rewrite lookup_delete_ne).
  rewrite !app_assoc. apply Permutation_app_tail. unfold stepped. cbn [slot set_pos set_slots].
  pose proof (bufs_insert _ _ _ (sent_slot rs ts) Hts) as H1. pose proof (bufs_insert _ _ _ (back_slot rs ts) Hrs) as H2.
  apply (Permutation_app_inv_l [buf_idx ts; buf_idx rs]). cbn [buf_idx sent_slot back_slot] in *.
  transitivity ((buf_idx ts :: (buf_idx <$> <[Z.to_nat (cur ra) := sent_slot rs ts]> (slot ra))) ++
    (buf_idx rs :: (buf_idx <$> <[Z.to_nat (cur rc) := back_slot rs ts]> (slot rc)))); [solve_Permutation|].
  rewrite H1, H2. solve_Permutation.
Qed.

(** The transmit rings of a mode, and the first of some with room. *)
Definition targets (d : peak_netmap_dev) (mode : Z) : list Z := if mode =? NETMAP_HOST then NR_FOREACH_HOST d else NR_FOREACH_WIRE d.

Lemma targets_in d mode x : begin d = 0 -> 0 <= end_ d -> x ∈ targets d mode -> 0 <= x <= end_ d.
Proof. intros Hb He. unfold targets. destruct (mode =? NETMAP_HOST); [intros ->%host_in|intros H%wire_in]; [lia|lia|done]. Qed.

Fixpoint first_room (m : rings_t) (nif : netmap_if) (l : list Z) : option (Z * netmap_ring R) :=
  match l with
  | [] => None
  | tx :: l =>
      match m !! NETMAP_TXRING nif tx with
      | Some r => if nm_ring_empty r then first_room m nif l else Some (NETMAP_TXRING nif tx, r)
      | None => first_room m nif l
      end
  end.

(** The rings after the claimed packet of the ring [c] went out on the ring [a]. *)
Definition swapped (m : rings_t) (c : Z) (rc : netmap_ring R) (a : Z) (r : netmap_ring R) : rings_t :=
  two m a (stepped r (sent_slot (cur_slot rc) (cur_slot r))) c (stepped rc (back_slot (cur_slot rc) (cur_slot r))).

Lemma first_room_spec m nif l a r :
  first_room m nif l = Some (a, r) -> (exists tx, tx ∈ l /\ a = NETMAP_TXRING nif tx) /\ m !! a = Some r /\ exists k, avail r = cur r :: k.
Proof.
  induction l as [|tx l IH]; cbn [first_room]; [done|]. destruct (m !! NETMAP_TXRING nif tx) as [r'|] eqn:Hr.
  - destruct (nm_ring_empty r') eqn:He.
    + intros H. destruct (IH H) as ((tx' & Htx & ->) & H'). split; [|done]. exists tx'. split; [by right|done].
    + intros [= <- <-]. split; [exists tx; split; [left|done]|]. split; [done|by apply avail_next_cons].
  - intros H. destruct (IH H) as ((tx' & Htx & ->) & H'). split; [|done]. exists tx'. split; [by right|done].
Qed.

Lemma cur_slot_spec m a r k : bufs_ok m -> m !! a = Some r -> avail r = cur r :: k ->
  slot r !! Z.to_nat (cur r) = Some (cur_slot r) /\ 2 <= buf_idx (cur_slot r).
Proof. intros Hb Hr Ha. destruct (Hb a r (cur r) Hr) as (sl & Hsl & H2); [rewrite Ha; left|]. unfold cur_slot. by rewrite Hsl. Qed.

Lemma send_loop_spec s packet c rc k sync nif l :
  bufs_ok (rings s) -> claimed s c rc k -> (forall x, x ∈ l -> is_Some (rings s !! NETMAP_TXRING nif x)) ->
  send_loop s packet sync nif l = Some (match first_room (rings s) nif l with
    | Some (a, r) => (set_priv netmap_zero (set_rings (sync (swapped (rings s) c rc a r)) s), transfer_zero, 0)
    | None => (s, packet, 1)
    end).
Proof.
  intros Hb Hcl. pose proof Hcl as (_ & _ & Hc & Ha & nifc & rx & Erx). destruct (avail_cur _ _ _ Ha) as (Hcur & _).
  destruct (cur_slot_spec _ c rc k Hb Hc) as [Hrs _]; [by rewrite Ha, Hcur|].
  induction l as [|tx l IH]; intros Hin; cbn [send_loop first_room]; [done|]. destruct (Hin tx) as [r Hr]; [left|]. rewrite Hr.
  assert (NETMAP_TXRING nif tx <> c) as Hac by (rewrite Erx; intros E; by apply (rings_distinct nifc rx nif tx)).
  rewrite (send_ring_spec s packet c rc k _ r _ Hcl Hac Hr Hrs). destruct (nm_ring_empty r) eqn:He.
  - assert (match slot r !! Z.to_nat (cur r) with Some _ => Some (s, packet, 1) | None => Some (s, packet, 1) end = Some (s, packet, 1)) as ->
      by (by destruct (slot r !! _)). cbn [mbind option_bind Z.eqb]. apply IH. intros x Hx. apply Hin. by right.
  - destruct (avail_next_cons r He) as [l' Hl']. destruct (cur_slot_spec _ _ r l' Hb Hr Hl') as [-> _]. cbn [mbind option_bind Z.eqb].
    done.
Qed.

Lemma swapped_ok s c rc k a r l :
  netmap_ok s -> claimed s c rc k -> a <> c -> rings s !! a = Some r -> avail r = cur r :: l ->
  netmap_ok (set_priv netmap_zero (set_rings (swapped (rings s) c rc a r) s)) /\
  avail (stepped rc (back_slot (cur_slot rc) (cur_slot r))) = k /\ avail (stepped r (sent_slot (cur_slot rc) (cur_slot r))) = l /\
  buffers (swapped (rings s) c rc a r) ≡ₚ buffers (rings s).
Proof.
  intros Hok (_ & _ & Hc & Hac & _) Hne Hr Ha. pose proof Hok as (_ & Hd & Hb & _). destruct (avail_cur _ _ _ Hac) as (Hcur & _).
  rewrite <- Hcur in Hac. destruct (cur_slot_spec _ _ _ _ Hb Hc Hac) as [Hrs Hrs2]. destruct (cur_slot_spec _ _ _ _ Hb Hr Ha) as [Hts Hts2].
  split_and!; [|by apply stepped_avail|by apply stepped_avail|by apply buffers_swap]. apply released_ok; [done|..]; unfold swapped, two.
  - apply insert_devs_ok; [by rewrite lookup_insert_ne|]. by apply insert_devs_ok.
  - eapply stepped_bufs_ok; [|by rewrite lookup_insert_ne|done|done]. by eapply stepped_bufs_ok.
Qed.

(** A slot of the claimed packet's ring that is given back with its buffer. *)
Lemma step_claimed s c rc k sl :
  netmap_ok s -> claimed s c rc k -> buf_idx sl = buf_idx (cur_slot rc) ->
  let s' := set_priv netmap_zero (set_rings (<[c := stepped rc sl]> (rings s)) s) in
  avail (stepped rc sl) = k /\ netmap_ok s' /\ buffers (rings s') ≡ₚ buffers (rings s).
Proof.
  intros Hok (_ & _ & Hc & Ha & _) Hsl s'. pose proof Hok as (Ht & Hd & Hb & _). destruct (avail_cur _ _ _ Ha) as (Hcur & _). rewrite <- Hcur in Ha.
  destruct (cur_slot_spec _ _ _ _ Hb Hc Ha) as [Hrs Hrs2]. split_and!.
  - by apply stepped_avail.
  - apply released_ok; [done|by apply insert_devs_ok|]. eapply stepped_bufs_ok; [done..|]. by rewrite Hsl.
  - unfold s'. cbn [rings set_priv set_rings]. rewrite (buffers_delete (<[c := stepped rc sl]> (rings s)) c (stepped rc sl)) by apply lookup_insert_eq.
    rewrite (buffers_delete (rings s) c rc Hc), delete_insert_eq. unfold stepped. cbn [slot set_pos set_slots].
    by rewrite list_fmap_insert, Hsl, list_insert_id by (by rewrite list_lookup_fmap, Hrs).
Qed.

Lemma send_null s packet c rc k sync mode :
  netmap_ok s -> claimed s c rc k -> private_data packet = true ->
  peak_netmap_send s packet sync None mode =
    Some (set_priv netmap_zero (set_rings (<[c := stepped rc (clear_flags NS_FORWARD (cur_slot rc))]> (rings s)) s), transfer_zero, 0).
Proof.
  intros (_ & _ & Hb & _) Hcl Hp. pose proof Hcl as (_ & Hu & Hc & Ha & _). destruct (avail_cur _ _ _ Ha) as (Hcur & _). rewrite <- Hcur in Ha.
  destruct (cur_slot_spec _ _ _ _ Hb Hc Ha) as [Hrs _]. unfold peak_netmap_send, peak_netmap_drop. rewrite Hp, Hu. cbn [negb orb Z.eqb].
  by rewrite (release_spec s packet c rc k _ _ Hcl Hrs Hp).
Qed.

(** Sending to a device. *)
Lemma send_named s packet c rc k sync nm mode :
  netmap_ok s -> claimed s c rc k -> private_data packet = true -> (forall m, bufs_ok m -> kernel m (sync m)) ->
  let done_with m := set_priv netmap_zero (set_rings m s) in
  exists j, peak_netmap_find (self s) (Some nm) NR_REG_PIPE_SLAVE = Some j /\
    match (if j <? count (self s) then d ← dev (self s) !! Z.to_nat j; nif ← nifp d; first_room (rings s) nif (targets d mode) else None) with
    | Some (a, r) =>
        let m := swapped (rings s) c rc a r in
        peak_netmap_send s packet sync (Some nm) mode = Some (done_with (sync m), transfer_zero, 0) /\
        netmap_ok (done_with (sync m)) /\ buffers m ≡ₚ buffers (rings s) /\
        (exists l, avail r = cur r :: l /\ m !! a = Some (stepped r (sent_slot (cur_slot rc) (cur_slot r))) /\
           avail (stepped r (sent_slot (cur_slot rc) (cur_slot r))) = l) /\
        m !! c = Some (stepped rc (back_slot (cur_slot rc) (cur_slot r))) /\
        avail (stepped rc (back_slot (cur_slot rc) (cur_slot r))) = k
    | None => peak_netmap_send s packet sync (Some nm) mode = Some (s, packet, 1)
    end.
Proof.
  intros Hok Hcl Hp Hsync done_with. pose proof Hok as (Ht & Hd & Hb & _). pose proof Hcl as (_ & Hu & Hc & Ha & nifc & rx & Erx).
  unfold peak_netmap_send. rewrite Hp, Hu. cbn [negb orb Z.eqb].
  destruct (find_spec (self s) nm NR_REG_PIPE_SLAVE Ht) as (j & Ej & Hj & _). exists j. split; [done|]. rewrite Ej. cbn [mbind option_bind].
  destruct (Z.leb_spec (count (self s)) j), (Z.ltb_spec j (count (self s))); try lia; [done|].
  destruct (active_lookup _ _ Ht (conj (proj1 Hj) H0)) as (d & Hdj & _). destruct (active_dev _ _ _ _ Ht Hd (conj (proj1 Hj) H0) Hdj) as (Hbg & He & nif & Hn & Hr).
  rewrite Hdj. cbn [mbind option_bind]. rewrite Hn. cbn [mbind option_bind]. fold (targets d mode).
  rewrite (send_loop_spec s packet c rc k sync nif _ Hb Hcl).
  2: { intros x Hx. by apply Hr, (targets_in d mode). }
  destruct (first_room (rings s) nif (targets d mode)) as [[a r]|] eqn:Ef; [|done].
  destruct (first_room_spec _ _ _ _ _ Ef) as ((tx & _ & Etx) & Hra & l & Hl).
  assert (a <> c) as Hac by (rewrite Etx, Erx; intros E; by apply (rings_distinct nifc rx nif tx)).
  destruct (swapped_ok s c rc k a r l Hok Hcl Hac Hra Hl) as (Hok' & H1 & H2 & H3). split; [done|]. split_and!; [|done| |..|done].
  - pose proof Hok' as (_ & _ & Hb' & _). by apply (kernel_ok _ (sync _) Hok'), Hsync.
  - exists l. split_and!; [done| |done]. apply lookup_insert_eq.
  - unfold swapped, two. by rewrite lookup_insert_ne, lookup_insert_eq.
Qed.

(** C14.  Releasing a claimed packet gives its slot back to the kernel, the next one of its
    ring and no other, and nothing is claimed any more: [peak_netmap_forward] has it
    forwarded to the host, sending to NULL drops it, and sending to a device swaps its
    buffer with the one of the first free slot of the rings asked for, which goes out
    with the length of the packet.  All buffers are still there.  Without such a device
    or a free slot the packet stays claimed and nothing changes. *)
Theorem netmap_release s packet c rc k sync nm mode :
  netmap_ok s -> claimed s c rc k -> private_data packet = true -> (forall m, bufs_ok m -> kernel m (sync m)) ->
  let done_with m := set_priv netmap_zero (set_rings m s) in
  let fwd := stepped rc (or_flags NS_FORWARD (cur_slot rc)) in
  let drp := stepped rc (clear_flags NS_FORWARD (cur_slot rc)) in
  (peak_netmap_forward s packet = Some (done_with (<[c := fwd]> (rings s)), transfer_zero, 0) /\
     avail fwd = k /\ netmap_ok (done_with (<[c := fwd]> (rings s)))) /\
  (peak_netmap_send s packet sync None mode = Some (done_with (<[c := drp]> (rings s)), transfer_zero, 0) /\
     avail drp = k /\ netmap_ok (done_with (<[c := drp]> (rings s)))) /\
  exists j, peak_netmap_find (self s) (Some nm) NR_REG_PIPE_SLAVE = Some j /\
    match (if j <? count (self s) then d ← dev (self s) !! Z.to_nat j; nif ← nifp d; first_room (rings s) nif (targets d mode) else None) with
    | Some (a, r) =>
        let m := swapped (rings s) c rc a r in
        peak_netmap_send s packet sync (Some nm) mode = Some (done_with (sync m), transfer_zero, 0) /\
        netmap_ok (done_with (sync m)) /\ buffers m ≡ₚ buffers (rings s) /\
        (exists l, avail r = cur r :: l /\ m !! a = Some (stepped r (sent_slot (cur_slot rc) (cur_slot r))) /\
           avail (stepped r (sent_slot (cur_slot rc) (cur_slot r))) = l) /\
        m !! c = Some (stepped rc (back_slot (cur_slot rc) (cur_slot r))) /\
        avail (stepped rc (back_slot (cur_slot rc) (cur_slot r))) = k
    | None => peak_netmap_send s packet sync (Some nm) mode = Some (s, packet, 1)
    end.
Proof.
  intros Hok Hcl Hp Hsync done_with fwd drp. pose proof Hok as (_ & _ & Hb & _). pose proof Hcl as (_ & _ & Hc & Ha & _).
  destruct (avail_cur _ _ _ Ha) as (Hcur & _). rewrite <- Hcur in Ha. destruct (cur_slot_spec _ _ _ _ Hb Hc Ha) as [Hrs _].
  pose proof (fun f => release_spec s packet c rc k _ f Hcl Hrs Hp) as Hrel.
  split; [|split; [|by apply send_named]].
  - destruct (step_claimed s c rc k (or_flags NS_FORWARD (cur_slot rc)) Hok Hcl eq_refl) as (H1 & H2 & _). split; [by apply Hrel|done].
  - destruct (step_claimed s c rc k (clear_flags NS_FORWARD (cur_slot rc)) Hok Hcl eq_refl) as (H1 & H2 & _).
    split; [by apply send_null with k|done].
Qed.

(** ** Attaching and detaching *)

(** Devices with the same name are the two ends of a pipe. *)
Definition pipe_ends (d d' : peak_netmap_dev) : Prop :=
  dev_type d = NR_REG_PIPE_MASTER /\ dev_type d' = NR_REG_PIPE_SLAVE \/ dev_type d = NR_REG_PIPE_SLAVE /\ dev_type d' = NR_REG_PIPE_MASTER.

Definition name_of (d : peak_netmap_dev) : list Z := cstr (dev_name d).

(** Devices that are in the table together. *)
Definition apart (d d' : peak_netmap_dev) : Prop := mem d <> mem d' /\ (name_of d = name_of d' -> pipe_ends d d').

Definition mapped_dev (d : peak_netmap_dev) : Prop := exists m off, mem d = Some m /\ nifp d = Some (NETMAP_IF m off).

Definition devices_ok (l : list peak_netmap_dev) : Prop := Forall mapped_dev l /\ ForallOrdPairs apart l.

Lemma apart_sym d d' : apart d d' -> apart d' d.
Proof. intros [H1 H2]. split; [congruence|]. intros E. destruct (H2 (eq_sym E)); [right|left]; tauto. Qed.

(** Lists whose elements are pairwise related. *)
Section pairs.
Context {D : Type} (P : D -> D -> Prop) (P_sym : forall d d', P d d' -> P d' d).

Lemma pairs_perm l l' : l ≡ₚ l' -> ForallOrdPairs P l -> ForallOrdPairs P l'.
Proof using P_sym.
  induction 1 as [|x l l' Hp IH|x y l|l l' l'' _ IH1 _ IH2]; intros H; [done|..|by apply IH2, IH1].
  - inversion H as [|? ? Hx Hl]; subst. constructor; [by rewrite <- Hp|by apply IH].
  - inversion H as [|? ? Hy Hl]; subst. inversion Hl as [|? ? Hx Hl']; subst. inversion Hy; subst.
    constructor; [constructor; [by apply P_sym|done]|by constructor].
Qed.

Lemma pairs_lookup l x y d d' : ForallOrdPairs P l -> l !! x = Some d -> l !! y = Some d' -> x <> y -> P d d'.
Proof using P_sym.
  intros H. revert x y. induction H as [|a l Ha _ IH]; intros [|x] [|y] Hx Hy Hne; simpl in *; simplify_eq; try done.
  - rewrite Forall_forall in Ha. by apply Ha, list_elem_of_lookup_2 with y.
  - rewrite Forall_forall in Ha. apply P_sym, Ha. by apply list_elem_of_lookup_2 with x.
  - apply (IH x y); [done..|]. congruence.
Qed.

Lemma pairs_snoc l d : ForallOrdPairs P l -> Forall (fun d' => P d' d) l -> ForallOrdPairs P (l ++ [d]).
Proof using.
  induction 1 as [|x l Hx _ IH]; intros Hd; [repeat constructor|]. apply Forall_cons in Hd as [H1 H2]. cbn [app].
  constructor; [apply Forall_app; split; [done|by constructor]|by apply IH].
Qed.
End pairs.

Lemma devices_perm l l' : l ≡ₚ l' -> devices_ok l -> devices_ok l'.
Proof. intros Hp [H1 H2]. split; [by rewrite <- Hp|by eapply (pairs_perm apart apart_sym)]. Qed.

(** The state between the calls, and what the system may do. *)
Definition netmap_inv (s : state) : Prop := netmap_ok s /\ devices_ok (active (self s)).

Definition system_ok (os : system) (s : state) : Prop :=
  forall req size off n m new, sys_regif os req = Some (size, off, n) -> sys_mmap os size = Some (m, new) ->
    0 <= n /\ bufs_ok new /\ new ##ₘ rings s /\ (forall d, d ∈ active (self s) -> mem d <> Some m) /\
    forall x, 0 <= x <= n -> is_Some (new !! NETMAP_RXRING (NETMAP_IF m off) x) /\ is_Some (new !! NETMAP_TXRING (NETMAP_IF m off) x).

Lemma kernel_trans m m1 m2 : kernel m m1 -> kernel m1 m2 -> kernel m m2.
Proof.
  intros [_ H1] [Hb H2]. split; [done|]. intros b q Hq. destruct (H1 b q Hq) as (q1 & l1 & Hq1 & Ha1 & Hs1).
  destruct (H2 b q1 Hq1) as (q2 & l2 & Hq2 & Ha2 & Hs2). exists q2, (l1 ++ l2). split; [done|]. split; [by rewrite Ha2, Ha1, app_assoc|].
  intros y Hy. rewrite Hs2, Hs1; [done|done|]. rewrite Ha1. apply elem_of_app. by left.
Qed.

(** Flags of rings do not matter to the program. *)
Lemma configure_loop_kernel nif l m :
  bufs_ok m -> (forall x, x ∈ l -> is_Some (m !! NETMAP_RXRING nif x)) ->
  exists m', configure_loop nif l m = Some m' /\ kernel m m'.
Proof.
  revert m. induction l as [|x l IH]; intros m Hb Hin; cbn [configure_loop].
  { exists m. split; [done|]. split; [done|]. intros a r Hr. exists r, []. by rewrite app_nil_r. }
  destruct (Hin x) as [r Hr]; [left|]. rewrite Hr. cbn [mbind option_bind]. set (a := NETMAP_RXRING nif x) in *.
  set (r' := set_rflags _ r). assert (kernel m (<[a := r']> m)) as [Hb1 Hk1].
  { split.
    - intros b q y. destruct (decide (a = b)) as [<-|Hne]; [|rewrite lookup_insert_ne by done; apply Hb].
      rewrite lookup_insert_eq. intros [= <-]. unfold r'. rewrite avail_rflags. exact (Hb a r y Hr).
    - intros b q Hq. destruct (decide (a = b)) as [<-|Hne].
      + exists r', []. rewrite lookup_insert_eq, app_nil_r. assert (q = r) as -> by congruence. split; [done|]. split; [apply avail_rflags|done].
      + exists q, []. by rewrite lookup_insert_ne, app_nil_r by done. }
  destruct (IH (<[a := r']> m)) as (m' & -> & Hb' & Hk'); [done| |].
  { intros y Hy. apply lookup_insert_is_Some'. right. apply Hin. by right. }
  exists m'. split; [done|]. by apply (kernel_trans _ (<[a := r']> m)).
Qed.

Lemma configure_spec d m : dev_ok m d -> bufs_ok m -> exists m', peak_netmap_configure d m = Some m' /\ kernel m m'.
Proof.
  intros (Hbg & He & nif & Hn & Hr) Hb. unfold peak_netmap_configure. rewrite Hn. cbn [mbind option_bind].
  destruct (configure_loop_kernel nif (NR_FOREACH_WIRE d) m) as (m1 & -> & Hk1); [done|intros x Hx; apply wire_in in Hx; [apply Hr; lia|done]|]. cbn [mbind option_bind].
  destruct (configure_loop_kernel nif (NR_FOREACH_HOST d) m1) as (m2 & -> & Hk2); [apply Hk1| |exists m2; split; [done|by eapply kernel_trans]].
  intros x ->%host_in. destruct (Hr (end_ d)) as [[r Hx] _]; [lia|]. destruct Hk1 as [_ Hk1]. destruct (Hk1 _ _ Hx) as (r' & _ & -> & _). by eexists.
Qed.

(** The C string of a name that fits. *)
Definition fitting (name : list Z) : Prop := Forall (fun c => c <> 0) name /\ (length name < Z.to_nat IFNAMSIZ)%nat.

Lemma name_copied name :
  Forall (fun c => c <> 0) name ->
  exists m r, compat_strlcpy (dev_name dev_zero) (name ++ [0]) IFNAMSIZ = Some (m, r) /\ cstr m = take 15 name /\ has_nul m.
Proof.
  intros Hnz. assert (has_nul (name ++ [0])) as Hn by (unfold has_nul; set_solver).
  destruct (strlcpy_spec (dev_name dev_zero) (name ++ [0]) 15 Hn ltac:(lia) eq_refl) as (m & E & Hm). change (15 + 1) with IFNAMSIZ in E.
  rewrite cstr_app in Hm, E by done. simpl in Hm. rewrite app_nil_r in Hm, E. change (Z.to_nat 15) with 15%nat in Hm.
  eexists _, _. split; [done|]. split; [done|]. apply short_has_nul. rewrite Hm, (strlcpy_length _ _ _ _ _ E). cbn [dev_name dev_zero].
  rewrite length_take, length_replicate. change (Z.to_nat IFNAMSIZ) with 16%nat. lia.
Qed.

Lemma name_copy name :
  fitting name -> exists m r, compat_strlcpy (dev_name dev_zero) (name ++ [0]) IFNAMSIZ = Some (m, r) /\ cstr m = name /\ has_nul m.
Proof.
  intros [Hnz Hl]. destruct (name_copied name Hnz) as (m & r & E & Hm & Hn). exists m, r. split; [done|]. split; [|done].
  rewrite Hm. apply take_ge. change (Z.to_nat IFNAMSIZ) with 16%nat in Hl. lia.
Qed.

Lemma init_spec os d :
  has_nul (dev_name d) ->
  exists d' o, _peak_netmap_init os d = Some (d', o) /\ dev_name d' = dev_name d /\ dev_type d' = dev_type d /\
    match o with
    | Some new => exists req size off n m, sys_regif os req = Some (size, off, n) /\ sys_mmap os size = Some (m, new) /\
        d' = mapped (opened d (sys_open os)) m off size n
    | None => True
    end.
Proof.
  intros Hn. unfold _peak_netmap_init. set (d0 := opened d (sys_open os)).
  assert (exists d' o, Some (d0, @None rings_t) = Some (d', o) /\ dev_name d' = dev_name d /\ dev_type d' = dev_type d /\
    match o with
    | Some new => exists req size off n m, sys_regif os req = Some (size, off, n) /\ sys_mmap os size = Some (m, new) /\
        d' = mapped (opened d (sys_open os)) m off size n
    | None => True
    end) as Hfail by by exists d0, None.
  destruct (_ <? 0); [done|]. destruct (_ && negb _); [done|]. set (pipe := _ || _). set (src := if pipe then [118; 97; 108; 101; 0] else dev_name d0).
  assert (has_nul src) as Hs by (unfold src; destruct pipe; [unfold has_nul; set_solver|done]).
  destruct (strlcpy_spec (replicate (Z.to_nat IFNAMSIZ) 0) src 15 Hs ltac:(lia) eq_refl) as (nm & E & _). change (15 + 1) with IFNAMSIZ in E.
  rewrite E. cbn [mbind option_bind]. destruct (pipe && _); [done|]. set (req := Build_nmreq _ _ _ _ _).
  destruct (sys_regif os req) as [[[size off] n]|] eqn:Er; [|done]. destruct (sys_mmap os size) as [[m new]|] eqn:Em; [|done].
  eexists _, _. split; [done|]. split; [done|]. split; [done|]. by exists req, size, off, n, m.
Qed.

Definition a_type (type : Z) : Prop := type ∈ [NR_REG_ALL_NIC; NR_REG_PIPE_MASTER; NR_REG_PIPE_SLAVE].

(** What the search of an attachment passes by. *)
Lemma no_hit_apart name type d d' :
  a_type type -> hit name (attach_ignore type) d = false -> dev_type d' = type -> name_of d' = name -> name_of d = name_of d' -> pipe_ends d d'.
Proof.
  intros Ht Hh <- Hn E. unfold hit, name_is in Hh. fold (name_of d) in Hh. rewrite E, Hn, bool_decide_eq_true_2, andb_true_r in Hh by done.
  pose proof reg_distinct as Hd. apply NoDup_cons in Hd as [H1 Hd]. apply NoDup_cons in Hd as [H2 _].
  unfold pipe_ends, attach_ignore, a_type in *. set_unfold.
  destruct (Z.eqb_spec (dev_type d') NR_REG_PIPE_MASTER) as [E1|E1]; [|destruct (Z.eqb_spec (dev_type d') NR_REG_PIPE_SLAVE) as [E2|E2]].
  - right. destruct (Z.eqb_spec NR_REG_PIPE_SLAVE NR_REG_ALL_NIC), (Z.eqb_spec NR_REG_PIPE_SLAVE (dev_type d)); simpl in Hh; try done; naive_solver.
  - left. destruct (Z.eqb_spec NR_REG_PIPE_MASTER NR_REG_ALL_NIC), (Z.eqb_spec NR_REG_PIPE_MASTER (dev_type d)); simpl in Hh; try done; naive_solver.
  - exfalso. assert (dev_type d' = NR_REG_ALL_NIC) as E3 by naive_solver. rewrite E3, Z.eqb_refl in Hh. done.
Qed.

Lemma active_insert t d : length (dev t) = Z.to_nat NETMAP_MAX -> 0 <= count t < NETMAP_MAX -> forall fds' la,
  active {| count := count t + 1; last := la; dev := <[Z.to_nat (count t) := d]> (dev t); fds := fds' |} = active t ++ [d].
Proof.
  intros Hd Hc fds' la. unfold active. cbn [count dev]. replace (Z.to_nat (count t + 1)) with (S (Z.to_nat (count t))) by lia.
  rewrite (take_S_r _ _ d) by (apply list_lookup_insert_eq; lia). by rewrite take_insert_ge by lia.
Qed.

(** The rings of a new mapping do not touch the others. *)
Lemma union_kernel (new m : rings_t) : new ##ₘ m -> bufs_ok new -> bufs_ok m -> kernel m (new ∪ m).
Proof.
  intros Hdis Hn Hm. split.
  - intros a r x [Hr|[_ Hr]]%lookup_union_Some_raw; [by apply (Hn a)|by apply (Hm a)].
  - intros a r Hr. exists r, []. rewrite app_nil_r. by rewrite lookup_union_r by (by eapply map_disjoint_Some_r).
Qed.

(** What an attachment does. *)
Definition attached (s : state) (name : list Z) (type : Z) (s' : state) (ret : Z) : Prop :=
  (netmap_priv s' = netmap_priv s /\ netmap_mutex s' = netmap_mutex s) /\
  (ret = 1 /\ active (self s') = active (self s) /\ rings s' = rings s \/
   ret = 0 /\ netmap_mutex s = false /\ count (self s) < NETMAP_MAX /\ kernel (rings s) (rings s') /\
   exists d, active (self s') = active (self s) ++ [d] /\ name_of d = name /\ dev_type d = type /\
     forall d', d' ∈ active (self s) -> name_of d' = name -> pipe_ends d' d).

Lemma attach_spec os s name type :
  netmap_inv s -> system_ok os s -> fitting name -> a_type type ->
  exists s' ret, _peak_netmap_attach os s name type = Some (s', ret) /\ netmap_inv s' /\ attached s name type s' ret.
Proof.
  intros Hinv Hos Hname Hty. pose proof Hinv as [Hok Hdev]. pose proof Hok as (Ht & Hds & Hb & Hp). pose proof Ht as (Hlen & Hfds & Hc & Hla).
  assert (exists s' ret, Some (s, 1) = Some (s', ret) /\ netmap_inv s' /\ attached s name type s' ret) as Hsame
    by (exists s, 1; split; [done|]; split; [done|]; split; [done|]; by left).
  unfold _peak_netmap_attach. destruct (netmap_mutex s) eqn:Hmu; [done|].
  destruct (find_spec (self s) name (attach_ignore type) Ht) as (j & -> & Hj & _ & Hno). cbn [mbind option_bind].
  destruct (Z.ltb_spec j (count (self s))); [done|]. assert (j = count (self s)) as -> by lia.
  destruct (Z.leb_spec NETMAP_MAX (count (self s))); [done|].
  destruct (name_copy name Hname) as (nm & r & -> & Hnm & Hnul). cbn [mbind option_bind]. set (d0 := Build_peak_netmap_dev nm _ _ _ _ _ _ _).
  destruct (init_spec os d0 Hnul) as (d & o & -> & Hdn & Hdt & Ho). cbn [mbind option_bind].
  assert (table_ok {| count := count (self s); last := last (self s); dev := <[Z.to_nat (count (self s)) := d]> (dev (self s)); fds := fds (self s) |} /\
    active {| count := count (self s); last := last (self s); dev := <[Z.to_nat (count (self s)) := d]> (dev (self s)); fds := fds (self s) |} = active (self s))
    as [Hfail1 Hfail2] by (split; [unfold table_ok; cbn [dev fds count last]; by rewrite length_insert|unfold active; cbn [dev count]; by rewrite take_insert_ge by lia]).
  destruct o as [new|].
  2: { eexists _, 1. split; [done|]. split; [|split; [done|by left]].
    split; [|cbn [self with_self]; by rewrite Hfail2]. split; [done|]. split; [unfold devs_ok; cbn [self with_self rings]; by rewrite Hfail2|by split]. }
  destruct Ho as (req & size & off & n & m & Hreg & Hmap & Hd). destruct (Hos _ _ _ _ _ _ Hreg Hmap) as (Hn & Hbn & Hdis & Hfresh & Hrings).
  pose proof (union_kernel new (rings s) Hdis Hbn Hb) as Hk1.
  assert (dev_ok (new ∪ rings s) d) as Hdok.
  { rewrite Hd. split; [done|]. split; [done|]. exists (NETMAP_IF m off). split; [done|]. intros x Hx. destruct (Hrings x Hx) as [[r1 H1] [r2 H2]].
    split; [exists r1|exists r2]; by apply lookup_union_Some_l. }
  destruct (configure_spec d (new ∪ rings s) Hdok ltac:(apply Hk1)) as (m' & -> & Hk2). cbn [mbind option_bind].
  destruct (lookup_lt_is_Some_2 (fds (self s)) (Z.to_nat (count (self s)))) as [p ->]; [lia|]. cbn [mbind option_bind].
  pose proof (kernel_trans _ _ _ Hk1 Hk2) as Hk. pose proof (kernel_ok s m' Hok Hk) as (_ & Hds' & Hb' & Hp').
  assert (forall d', d' ∈ active (self s) -> name_of d' = name -> pipe_ends d' d) as Hpipe.
  { intros d' (k & Hk')%list_elem_of_lookup E. assert (k < Z.to_nat (count (self s)))%nat as Hlt
      by (apply lookup_lt_Some in Hk'; unfold active in Hk'; rewrite length_take in Hk'; lia).
    unfold active in Hk'. rewrite lookup_take_lt in Hk' by done.
    assert (name_of d = name) as Hnd by (unfold name_of; rewrite Hdn; exact Hnm).
    apply (no_hit_apart name type); [done| |by rewrite Hdt|done|congruence].
    apply (Hno (Z.of_nat k)); [lia|by rewrite Nat2Z.id]. }
  eexists _, 0. split; [done|]. split; [|split; [done|right]].
  - split; [split; [|split; [|split; [exact Hb'|exact Hp']]]|].
    + cbn [self with_self]. unfold table_ok. cbn [dev fds count last]. rewrite !length_insert. split_and!; [done..|lia|lia|lia|lia].
    + unfold devs_ok. cbn [self with_self rings]. rewrite active_insert by (done || lia). apply Forall_app. split; [exact Hds'|].
      constructor; [by apply (kernel_dev_ok _ _ _ Hk2)|constructor].
    + cbn [self with_self]. rewrite active_insert by (done || lia). destruct Hdev as [Hm1 Hm2]. split.
      * apply Forall_app. split; [done|]. constructor; [|constructor]. exists m, off. by rewrite Hd.
      * apply (pairs_snoc apart); [done|]. apply Forall_forall. intros d' Hd'. split; [rewrite Hd; by apply Hfresh|].
        intros E. apply Hpipe; [done|]. rewrite E. unfold name_of. rewrite Hdn. exact Hnm.
  - split; [done|]. split; [done|]. split; [done|]. split; [exact Hk|]. exists d. cbn [self with_self]. rewrite active_insert by (done || lia).
    split; [done|]. split; [unfold name_of; rewrite Hdn; exact Hnm|]. by split.
Qed.

(** The table without its device [i]. *)
Lemma active_removed t i d t' :
  0 <= i < count t -> dev t !! Z.to_nat i = Some d ->
  (if i <? count t - 1 then
     d ← dev t !! Z.to_nat (count t - 1); p ← fds t !! Z.to_nat (count t - 1);
     Some {| count := count t; last := last t; dev := <[Z.to_nat i := d]> (dev t); fds := <[Z.to_nat i := p]> (fds t) |}
   else Some t) = Some t' ->
  (count t' = count t /\ last t' = last t /\ length (dev t') = length (dev t) /\ length (fds t') = length (fds t)) /\
  active t ≡ₚ d :: active {| count := count t' - 1; last := last t'; dev := dev t'; fds := fds t' |}.
Proof.
  intros Hi Hd. unfold active. cbn [count dev]. set (k := Z.to_nat (count t - 1)).
  replace (Z.to_nat (count t)) with (S k) by lia. destruct (Z.ltb_spec i (count t - 1)) as [Hlt|Hge].
  - intros H. apply bind_Some in H as (dl & Hdl & H). apply bind_Some in H as (p & _ & H). injection H as <-. cbn [dev fds count last]. split.
    { by rewrite !length_insert. }
    rewrite (take_S_r _ _ _ Hdl), take_insert, decide_True by lia. rewrite <- Permutation_cons_append. symmetry. apply insert_Permutation.
    by rewrite lookup_take_lt by lia.
  - intros [= <-]. split; [done|].
    assert (Z.to_nat i = k) as Hik by lia. rewrite Hik in Hd. by rewrite (take_S_r _ _ _ Hd), <- Permutation_cons_append.
Qed.

Lemma active_remove t i d t' :
  table_ok t -> 0 <= i < count t -> dev t !! Z.to_nat i = Some d ->
  (if i <? count t - 1 then
     d ← dev t !! Z.to_nat (count t - 1); p ← fds t !! Z.to_nat (count t - 1);
     Some {| count := count t; last := last t; dev := <[Z.to_nat i := d]> (dev t); fds := <[Z.to_nat i := p]> (fds t) |}
   else Some t) = Some t' ->
  let t'' := {| count := count t' - 1; last := last t'; dev := dev t'; fds := fds t' |} in
  table_ok t'' /\ active t ≡ₚ d :: active t''.
Proof.
  intros (Hl & Hf & Hc & Hla) Hi Hd E. destruct (active_removed t i d t' Hi Hd E) as [(E1 & E2 & E3 & E4) Hp]. split; [|done].
  unfold table_ok. cbn [count last dev fds]. rewrite E1, E2, E3, E4. split_and!; try done; lia.
Qed.

Lemma munmap_ok m (rs : rings_t) d d' : mem d = Some m -> apart d d' -> mapped_dev d' -> dev_ok rs d' -> dev_ok (munmap m rs) d'.
Proof.
  intros Hm [Hne _] (m' & off & Hm' & Hn') (Hb & He & nif & Hn & Hr). split; [done|]. split; [done|]. exists nif. split; [done|].
  assert (nif = NETMAP_IF m' off) as -> by congruence. intros x Hx. destruct (Hr x Hx) as [[r1 H1] [r2 H2]].
  destruct (rings_in_map m' off x) as [I1 I2].
  assert (forall a, in_map m' a = true -> in_map m a = false) as Hout.
  { intros a Ha. destruct (in_map m a) eqn:E; [|done]. destruct Hne. rewrite Hm, Hm'. f_equal. by eapply maps_apart. }
  split; [exists r1|exists r2]; apply map_lookup_filter_Some; (split; [done|by apply Hout]).
Qed.

(** What a detachment does. *)
Definition detached (s : state) (name : list Z) (s' : state) (ret : Z) : Prop :=
  (netmap_priv s' = netmap_priv s /\ netmap_mutex s' = netmap_mutex s) /\
  (ret = 1 /\ s' = s /\ (netmap_mutex s = false -> forall d, d ∈ active (self s) -> name_of d <> name) \/
   ret = 0 /\ exists d, name_of d = name /\ active (self s) ≡ₚ d :: active (self s')).

(** The claimed packet, if there is one, is not of a device with this name. *)
Definition unclaimed (s : state) (name : list Z) : Prop :=
  forall a d m, ring (netmap_priv s) = Some a -> d ∈ active (self s) -> name_of d = name -> mem d = Some m -> in_map m a = false.

Lemma detach_spec s name :
  netmap_inv s -> unclaimed s name ->
  exists s' ret, peak_netmap_detach s name = Some (s', ret) /\ netmap_inv s' /\ detached s name s' ret.
Proof.
  intros Hinv Hun. pose proof Hinv as [Hok [Hmap Hpairs]]. pose proof Hok as (Ht & Hds & Hb & Hp).
  unfold peak_netmap_detach. destruct (netmap_mutex s) eqn:Hmu; [exists s, 1; split; [done|]; split; [done|]; split; [done|]; left; by rewrite Hmu|].
  destruct (find_spec (self s) name NR_REG_ALL_NIC Ht) as (j & -> & Hj & Hhit & Hno). cbn [mbind option_bind].
  assert (forall d, hit name NR_REG_ALL_NIC d = name_is name d) as Hh by (intros d; unfold hit; by rewrite Z.eqb_refl).
  destruct (Z.leb_spec (count (self s)) j) as [Hge|Hlt].
  { exists s, 1. split; [done|]. split; [done|]. split; [done|]. left. split; [done|]. split; [done|]. intros _ d (k & Hk)%list_elem_of_lookup E.
    pose proof (lookup_lt_Some _ _ _ Hk) as Hkl. unfold active in Hk, Hkl. rewrite length_take in Hkl. rewrite lookup_take_lt in Hk by lia.
    assert (hit name NR_REG_ALL_NIC d = false) as Hd by (apply (Hno (Z.of_nat k)); [lia|by rewrite Nat2Z.id]).
    rewrite Hh in Hd. unfold name_is in Hd. apply bool_decide_eq_false in Hd. done. }
  destruct (Hhit Hlt) as (d & Hdj & Hd). rewrite Hh in Hd. unfold name_is in Hd. apply bool_decide_eq_true in Hd. rewrite Hdj. cbn [mbind option_bind].
  assert (d ∈ active (self s)) as Hin by (destruct (active_lookup _ _ Ht (conj (proj1 Hj) Hlt)) as (d' & H1 & H2); assert (d' = d) as -> by congruence; by eapply list_elem_of_lookup_2).
  rewrite Forall_forall in Hmap. destruct (Hmap d Hin) as (m & off & Hm & Hnif). rewrite Hm.
  assert (exists t', (if j <? count (self s) - 1 then
     d ← dev (self s) !! Z.to_nat (count (self s) - 1); p ← fds (self s) !! Z.to_nat (count (self s) - 1);
     Some {| count := count (self s); last := last (self s); dev := <[Z.to_nat j := d]> (dev (self s)); fds := <[Z.to_nat j := p]> (fds (self s)) |}
   else Some (self s)) = Some t') as [t' Et].
  { destruct Ht as (Hl & Hf & Hc & _). destruct (_ <? _); [|by eexists].
    destruct (lookup_lt_is_Some_2 (dev (self s)) (Z.to_nat (count (self s) - 1))) as [d1 ->]; [lia|].
    destruct (lookup_lt_is_Some_2 (fds (self s)) (Z.to_nat (count (self s) - 1))) as [p1 ->]; [lia|]. by eexists. }
  pose proof (active_remove _ _ _ _ Ht (conj (proj1 Hj) Hlt) Hdj Et) as [Ht' Hperm]. rewrite Et. cbn [mbind option_bind]. eexists _, 0. split; [done|].
  split; [|split; [done|right; split; [done|]; exists d; split; [by rewrite Hd|exact Hperm]]].
  assert (ForallOrdPairs apart (d :: active {| count := count t' - 1; last := last t'; dev := dev t'; fds := fds t' |})) as Hpairs'
    by (by eapply (pairs_perm apart apart_sym)). inversion Hpairs' as [|? ? Hap Hrest]; subst.
  assert (forall d', d' ∈ active {| count := count t' - 1; last := last t'; dev := dev t'; fds := fds t' |} -> d' ∈ active (self s)) as Hsub
    by (intros d' Hd'; rewrite Hperm; by right).
  split; [split; [done|split; [|split]]|].
  - unfold devs_ok in *. cbn [self with_self rings]. apply Forall_forall. intros d' Hd'. rewrite Forall_forall in Hap, Hds.
    apply (munmap_ok m _ d); [done|by apply Hap|by apply Hmap, Hsub|by apply Hds, Hsub].
  - intros a r x [Hr _]%map_lookup_filter_Some. by apply (Hb a).
  - destruct Hp as [Hp|(a & r & l & H1 & H2 & H3 & H4 & H5)]; [by left|right]. exists a, r, l. split_and!; [done..| |done|done].
    apply map_lookup_filter_Some. split; [done|]. by apply (Hun a d).
  - split; [|done]. apply Forall_forall. intros d' Hd'. by apply Hmap, Hsub.
Qed.

(** ** Sequences of calls *)

Definition netmap_init : state :=
  State {| count := 0; last := 0; dev := replicate (Z.to_nat NETMAP_MAX) dev_zero;
           fds := replicate (Z.to_nat NETMAP_MAX) {| fd := 0; events := 0; revents := 0 |} |}
    ∅ netmap_zero {| tv_sec := 0; tv_usec := 0 |} false.

(** Which call is made; names matter for two of them. *)
Inductive call := Attach (name : list Z) | Detach (name : list Z) | Other.

(** A call that returns, with what the system owes it, or the kernel.  Names are C strings of
    any length, and a device can be detached at any time. *)
Inductive step : call -> state -> state -> Prop :=
  | step_recv s packet poll name mode s' p found :
      kernel (rings s) (poll_rings poll) ->
      Z.of_nat (length (poll_revents poll)) = (match name with Some _ => 1 | None => count (self s) end) ->
      peak_netmap_recv s packet poll name mode = Some (s', p, found) -> step Other s s'
  | step_forward s packet s' p ret : peak_netmap_forward s packet = Some (s', p, ret) -> step Other s s'
  | step_drop s packet s' p ret : peak_netmap_drop s packet = Some (s', p, ret) -> step Other s s'
  | step_send s packet sync name mode s' p ret :
      (forall m, bufs_ok m -> kernel m (sync m)) ->
      peak_netmap_send s packet sync name mode = Some (s', p, ret) -> step Other s s'
  | step_attach os s name type s' ret :
      system_ok os s -> Forall (fun c => c <> 0) name -> a_type type -> _peak_netmap_attach os s name type = Some (s', ret) ->
      step (Attach name) s s'
  | step_detach s name s' ret : peak_netmap_detach s name = Some (s', ret) -> step (Detach name) s s'
  | step_lock s s' : peak_netmap_lock s = Some s' -> step Other s s'
  | step_unlock s s' : peak_netmap_unlock s = Some s' -> step Other s s'
  | step_kernel s m : kernel (rings s) m -> step Other s (set_rings m s).

Definition any_step (s s' : state) : Prop := exists c, step c s s'.

(** Names that fit into a device, and no device is detached while a packet of it is claimed;
    the code sees to neither. *)
Definition careful (s s' : state) : Prop :=
  exists c, step c s s' /\
    match c with
    | Attach name => (length name < Z.to_nat IFNAMSIZ)%nat
    | Detach name => unclaimed s name
    | Other => True
    end.

(** *** Any calls *)

(** What is left of [apart] where names are cut. *)
Definition apart_short (d d' : peak_netmap_dev) : Prop :=
  mem d <> mem d' /\ (name_of d = name_of d' -> (length (name_of d) < 15)%nat -> pipe_ends d d').

Lemma apart_short_sym d d' : apart_short d d' -> apart_short d' d.
Proof. intros [H1 H2]. split; [congruence|]. intros E Hl. destruct (H2 (eq_sym E)); [by rewrite <- E|right|left]; tauto. Qed.

Definition table_inv (t : peak_netmaps) : Prop :=
  length (dev t) = Z.to_nat NETMAP_MAX /\ 0 <= count t <= NETMAP_MAX /\
  Forall mapped_dev (active t) /\ ForallOrdPairs apart_short (active t).

Lemma same_table_kept t t' : same_table t t' -> table_inv t -> table_inv t'.
Proof. unfold table_inv, active. by intros [-> ->]. Qed.

Lemma same_table_trans t t1 t2 : same_table t t1 -> same_table t1 t2 -> same_table t t2.
Proof. intros [H1 H2] [H3 H4]. split; congruence. Qed.

Lemma ring_recv_self s packet j a rx s' p f : ___peak_netmap_recv s packet j a rx = Some (s', p, f) -> self s' = self s.
Proof.
  unfold ___peak_netmap_recv. intros H. destruct (dev (self s) !! _); [|done]. destruct (rings s !! a) as [r|]; [|done]. cbn [mbind option_bind] in H.
  destruct (nm_ring_empty r); [by injection H as <- <- <-|]. destruct (slot r !! _); [|done]. cbn [mbind option_bind] in H.
  destruct (_ <? 2); [done|]. by injection H as <- <- <-.
Qed.

Lemma recv_loop_self l s packet j nif s' p f : recv_loop s packet j nif l = Some (s', p, f) -> self s' = self s.
Proof.
  revert s packet. induction l as [|x l IH]; intros s packet; cbn [recv_loop]; [by intros [= <- <- <-]|].
  destruct (___peak_netmap_recv _ _ _ _ _) as [[[s1 p1] f1]|] eqn:E; [|done]. apply ring_recv_self in E. cbn [mbind option_bind].
  destruct f1; [by intros [= <- <- <-]|]. intros H%IH. congruence.
Qed.

Lemma dev_recv_self s packet j mode s' p f : __peak_netmap_recv s packet j mode = Some (s', p, f) -> self s' = self s.
Proof.
  unfold __peak_netmap_recv. destruct (dev (self s) !! _) as [d|]; [|done]. cbn [mbind option_bind].
  destruct (_ =? _); [by intros [= <- <- <-]|]. destruct (nifp d) as [nif|]; [|done]. cbn [mbind option_bind].
  destruct (_ && _); [|apply recv_loop_self].
  destruct (recv_loop _ _ _ _ _) as [[[s1 p1] f1]|] eqn:E; [|done]. apply recv_loop_self in E. cbn [mbind option_bind].
  destruct f1; [by intros [= <- <- <-]|]. destruct (_ =? _); [by intros [= <- <- <-]|]. intros H%recv_loop_self. congruence.
Qed.

Lemma any_loop_table n s packet mode j s' p f : any_loop n s packet mode j = Some (s', p, f) -> same_table (self s) (self s').
Proof.
  revert s packet j. induction n as [|n IH]; intros s packet j; cbn [any_loop]; [by intros [= <- <- <-]|].
  destruct (__peak_netmap_recv _ _ _ _) as [[[s1 p1] f1]|] eqn:E; [|done]. apply dev_recv_self in E. cbn [mbind option_bind].
  destruct f1; [intros [= <- <- <-]; unfold same_table; cbn [self set_last count dev]; by rewrite E|]. intros H%IH. by rewrite <- E.
Qed.

Lemma ready_loop_table l s packet mode i s' p f : ready_loop l s packet mode i = Some (s', p, f) -> same_table (self s) (self s').
Proof.
  revert i. induction l as [|re l IH]; intros i; cbn [ready_loop]; [by intros [= <- <- <-]|].
  destruct (negb _); [|apply IH]. intros H%dev_recv_self. unfold same_table. by rewrite H.
Qed.

Lemma set_events_table i re t t' : set_events i re t = Some t' -> same_table t t'.
Proof. unfold set_events. destruct (fds t !! _); [|done]. cbn. by intros [= <-]. Qed.

Lemma set_all_events_table res i t t' : set_all_events res i t = Some t' -> same_table t t'.
Proof.
  revert i t. induction res as [|re res IH]; intros i t; cbn [set_all_events]; [by intros [= <-]|].
  destruct (set_events i re t) as [t1|] eqn:E; [|done]. apply set_events_table in E. cbn [mbind option_bind]. intros H%IH. by eapply same_table_trans.
Qed.

Lemma recv_table s packet poll name mode s' p f : peak_netmap_recv s packet poll name mode = Some (s', p, f) -> same_table (self s) (self s').
Proof.
  unfold peak_netmap_recv. destruct (negb _); [by intros [= <- <- <-]|]. destruct name as [nm|]; [destruct (peak_netmap_find _ _ _) as [i|]; [|done]|]; cbn [mbind option_bind].
  - destruct (_ <=? _); [by intros [= <- <- <-]|]. destruct (__peak_netmap_recv _ _ _ _) as [[[s1 p1] f1]|] eqn:E1; [|done]. apply dev_recv_self in E1. cbn [mbind option_bind].
    destruct f1; [intros [= <- <- <-]; by rewrite E1|]. destruct (poll_revents poll !! 0%nat) as [re|]; [|done]. cbn [mbind option_bind].
    destruct (set_events i re (self s1)) as [t|] eqn:Et; [|done]. apply set_events_table in Et. rewrite E1 in Et. cbn [mbind option_bind].
    destruct (_ <=? 0); [by intros [= <- <- <-]|]. destruct (negb _); [|by intros [= <- <- <-]]. intros H%dev_recv_self. by rewrite H.
  - unfold _peak_netmap_recv. destruct (any_loop _ _ _ _ _) as [[[s1 p1] f1]|] eqn:E1; [|done]. apply any_loop_table in E1. cbn [mbind option_bind].
    destruct f1; [by intros [= <- <- <-]|]. destruct (negb _); [done|].
    destruct (set_all_events _ _ _) as [t|] eqn:Et; [|done]. apply set_all_events_table in Et. cbn [mbind option_bind].
    destruct (_ <=? 0); [intros [= <- <- <-]; by eapply same_table_trans|]. intros H%ready_loop_table.
    eapply same_table_trans; [exact E1|]. by eapply same_table_trans.
Qed.

Lemma release_self flag s packet s' p ret : release flag s packet = Some (s', p, ret) -> self s' = self s.
Proof.
  unfold release. destruct (negb _); [done|]. destruct (ring _); [|done]. cbn [mbind option_bind].
  destruct (upd_slot _ _ _ _); [|done]. cbn [mbind option_bind]. destruct (advance _ _); [|done]. by intros [= <- <- <-].
Qed.

Lemma ring_send_self s packet a s' p ret : _peak_netmap_send s packet a = Some (s', p, ret) -> self s' = self s.
Proof.
  unfold _peak_netmap_send. destruct (ring _); [|done]. cbn [mbind option_bind]. destruct (rings s !! a) as [r|]; [|done]. cbn [mbind option_bind].
  destruct (nm_ring_empty r); [by intros [= <- <- <-]|].
  repeat (match goal with |- (?x ≫= _) = _ -> _ => destruct x; cbn [mbind option_bind]; [|done] end). by intros [= <- <- <-].
Qed.

Lemma send_loop_self l s packet sync nif s' p ret : send_loop s packet sync nif l = Some (s', p, ret) -> self s' = self s.
Proof.
  revert s packet. induction l as [|x l IH]; intros s packet; cbn [send_loop]; [by intros [= <- <- <-]|].
  destruct (_peak_netmap_send _ _ _) as [[[s1 p1] r1]|] eqn:E; [|done]. apply ring_send_self in E. cbn [mbind option_bind].
  destruct (r1 =? 0); [intros [= <- <- <-]; exact E|]. intros H%IH. congruence.
Qed.

Lemma send_self s packet sync name mode s' p ret : peak_netmap_send s packet sync name mode = Some (s', p, ret) -> self s' = self s.
Proof.
  unfold peak_netmap_send. destruct (_ || _); [by intros [= <- <- <-]|]. destruct name as [nm|].
  - destruct (peak_netmap_find _ _ _) as [i|]; [|done]. cbn [mbind option_bind]. destruct (_ <=? _); [by intros [= <- <- <-]|].
    destruct (dev (self s) !! _) as [d|]; [|done]. cbn [mbind option_bind]. destruct (nifp d); [|done]. cbn [mbind option_bind]. apply send_loop_self.
  - destruct (peak_netmap_drop s packet) as [[[s1 p1] r1]|] eqn:E; [|done]. apply release_self in E. cbn [mbind option_bind]. by intros [= <- <- <-].
Qed.

(** Attaching a name of any length. *)
Lemma attach_table os s name type s' ret :
  system_ok os s -> Forall (fun c => c <> 0) name -> a_type type -> _peak_netmap_attach os s name type = Some (s', ret) ->
  table_inv (self s) -> table_inv (self s').
Proof.
  intros Hos Hname Hty E Hinv. pose proof Hinv as (Hlen & Hc & Hmap & Hpairs). unfold _peak_netmap_attach, peak_netmap_find in E.
  destruct (netmap_mutex s); [by injection E as <- <-|].
  destruct (find_device_spec (Z.to_nat (count (self s))) name (attach_ignore type) (dev (self s)) 0) as (j & Ej & Hj & _ & Hno); [lia..|].
  rewrite Ej in E. cbn [mbind option_bind] in E. destruct (Z.ltb_spec j (count (self s))); [by injection E as <- <-|].
  destruct (Z.leb_spec NETMAP_MAX (count (self s))); [by injection E as <- <-|].
  destruct (name_copied name Hname) as (nm & r & En & Hnm & Hnul). rewrite En in E. cbn [mbind option_bind] in E.
  set (d0 := Build_peak_netmap_dev nm _ _ _ _ _ _ _) in E. destruct (init_spec os d0 Hnul) as (d & o & Ei & Hdn & Hdt & Ho). rewrite Ei in E. cbn [mbind option_bind] in E.
  destruct o as [new|].
  2: { injection E as <- <-. unfold table_inv, active in *. cbn [self with_self dev count]. rewrite length_insert, take_insert_ge by lia. done. }
  destruct Ho as (req & size & off & n & m & Hreg & Hmm & Hd). destruct (Hos _ _ _ _ _ _ Hreg Hmm) as (_ & _ & _ & Hfresh & _).
  destruct (peak_netmap_configure _ _) as [m'|]; [|done]. cbn [mbind option_bind] in E. destruct (fds (self s) !! _) as [q|]; [|done]. injection E as <- <-.
  unfold table_inv. cbn [self with_self]. rewrite active_insert by (done || lia). cbn [dev count]. rewrite length_insert. split_and!; [done|lia|lia|..].
  - apply Forall_app. split; [done|]. constructor; [|constructor]. exists m, off. by rewrite Hd.
  - apply pairs_snoc; [done|]. apply Forall_forall. intros d' Hd'. split; [rewrite Hd; by apply Hfresh|]. intros E Hshort.
    assert (name_of d = take 15 name) as Hnd by (unfold name_of; rewrite Hdn; exact Hnm).
    assert (name_of d = name) as Hnd' by (rewrite E, Hnd, length_take in Hshort; rewrite Hnd; apply take_ge; lia).
    apply list_elem_of_lookup in Hd' as (k & Hk). pose proof (lookup_lt_Some _ _ _ Hk) as Hkl. unfold active in Hk, Hkl. rewrite length_take in Hkl.
    rewrite lookup_take_lt in Hk by lia.
    apply (no_hit_apart name type); [done| |by rewrite Hdt|done|done]. apply (Hno (Z.of_nat k)); [lia|by rewrite Nat2Z.id].
Qed.

Lemma detach_table s name s' ret : peak_netmap_detach s name = Some (s', ret) -> table_inv (self s) -> table_inv (self s').
Proof.
  intros E Hinv. pose proof Hinv as (Hlen & Hc & Hmap & Hpairs). unfold peak_netmap_detach, peak_netmap_find in E.
  destruct (netmap_mutex s); [by injection E as <- <-|].
  destruct (find_device_spec (Z.to_nat (count (self s))) name NR_REG_ALL_NIC (dev (self s)) 0) as (j & Ej & Hj & _ & _); [lia..|].
  rewrite Ej in E. cbn [mbind option_bind] in E. destruct (Z.leb_spec (count (self s)) j); [by injection E as <- <-|].
  destruct (dev (self s) !! Z.to_nat j) as [d|] eqn:Ed; [|done]. cbn [mbind option_bind] in E.
  apply bind_Some in E as (t' & Et & E). injection E as <- <-. cbn [self with_self].
  destruct (active_removed (self s) j d t' ltac:(lia) Ed Et) as [(E1 & E2 & E3 & E4) Hp].
  unfold table_inv. cbn [dev count]. rewrite E3. split_and!; [done|lia|lia|..].
  - rewrite Hp in Hmap. by apply Forall_cons in Hmap as [_ ?].
  - apply (pairs_perm apart_short apart_short_sym) with (1 := Hp) in Hpairs. by inversion Hpairs.
Qed.

Lemma step_table c s s' : step c s s' -> table_inv (self s) -> table_inv (self s').
Proof.
  intros Hs. destruct Hs as [s packet poll name mode s' p found H1 H2 E|s packet s' p ret E|s packet s' p ret E|s packet sync name mode s' p ret H E
    |os s name type s' ret H1 H2 H3 E|s name s' ret E|s s' E|s s' E|s m H]; intros Hinv.
  - eapply same_table_kept; [by eapply recv_table|done].
  - apply release_self in E. by rewrite E.
  - apply release_self in E. by rewrite E.
  - apply send_self in E. by rewrite E.
  - by eapply attach_table.
  - by eapply detach_table.
  - unfold peak_netmap_lock in E. destruct (netmap_mutex s); [done|]. by injection E as <-.
  - unfold peak_netmap_unlock in E. destruct (netmap_mutex s); [|done]. by injection E as <-.
  - done.
Qed.

(** *** Careful calls *)

Lemma netmap_init_inv : netmap_inv netmap_init.
Proof.
  split; [|split; constructor]. split; [by split_and!|]. split; [constructor|]. split; [|by left]. intros a r x H. done.
Qed.

(** Devices do not change but by attachments and detachments. *)
Lemma same_table_inv s s' : netmap_ok s' -> same_table (self s) (self s') -> netmap_inv s -> netmap_inv s'.
Proof. intros Hok [Hc Hd] [_ H]. split; [done|]. unfold active in *. by rewrite Hc, Hd. Qed.

Lemma recv_inv s packet poll name mode s' p found :
  netmap_inv s -> kernel (rings s) (poll_rings poll) ->
  Z.of_nat (length (poll_revents poll)) = (match name with Some _ => 1 | None => count (self s) end) ->
  peak_netmap_recv s packet poll name mode = Some (s', p, found) -> netmap_inv s'.
Proof.
  intros Hinv Hk Hlen E. pose proof (proj1 Hinv) as Hok. destruct (decide (used (netmap_priv s) = 0)) as [Hu|Hu].
  - assert (recv_post s packet poll s' p found) as (H1 & H2 & _).
    { destruct name as [nm|]; [destruct (recv_named_post s packet poll nm mode Hok Hk ltac:(lia) Hu) as (s1 & p1 & f1 & E1 & H & _)|
        destruct (recv_turn_post s packet poll mode Hok Hk Hlen Hu) as (s1 & p1 & f1 & E1 & H & _)];
        rewrite E1 in E; by injection E as <- <- <-. }
    by apply (same_table_inv s).
  - unfold peak_netmap_recv in E. destruct (Z.eqb_spec (used (netmap_priv s)) 0); [done|]. by injection E as <- <- <-.
Qed.

Lemma release_inv s packet flag s' p ret :
  netmap_inv s -> (forall sl, buf_idx (flag sl) = buf_idx sl) -> release flag s packet = Some (s', p, ret) -> netmap_inv s'.
Proof.
  intros Hinv Hflag E. pose proof (proj1 Hinv) as Hok. pose proof Hok as (_ & Hd & Hb & Hp).
  destruct (private_data packet) eqn:Hpd; [|unfold release in E; by rewrite Hpd in E].
  destruct Hp as [Hz|(c & rc & k & Hcl)]; [unfold release in E; rewrite Hpd, Hz in E; done|].
  pose proof Hcl as (_ & _ & Hc & Ha & _). destruct (avail_cur _ _ _ Ha) as (Hcur & _). rewrite <- Hcur in Ha.
  destruct (cur_slot_spec _ _ _ _ Hb Hc Ha) as [Hrs Hrs2]. rewrite (release_spec s packet c rc k _ _ Hcl Hrs Hpd) in E. injection E as <- <- <-.
  apply (same_table_inv s); [|done|done]. apply released_ok; [done|by apply insert_devs_ok|]. eapply stepped_bufs_ok; [done..|]. by rewrite Hflag.
Qed.

Lemma send_inv s packet sync name mode s' p ret :
  netmap_inv s -> (forall m, bufs_ok m -> kernel m (sync m)) -> peak_netmap_send s packet sync name mode = Some (s', p, ret) -> netmap_inv s'.
Proof.
  intros Hinv Hsync E. pose proof (proj1 Hinv) as Hok. pose proof Hok as (Ht & Hd & Hb & Hp). unfold peak_netmap_send in E.
  destruct (negb _ || _) eqn:Hg; [by injection E as <- <- <-|]. apply orb_false_iff in Hg as [_ Hu].
  destruct Hp as [Hz|(c & rc & k & Hcl)]; [by rewrite Hz in Hu|]. destruct name as [nm|].
  2: { apply bind_Some in E as ([[s1 p1] r1] & E1 & E). injection E as <- <- <-. by apply (release_inv s packet (clear_flags NS_FORWARD) _ _ _ Hinv (fun sl => eq_refl) E1). }
  destruct (find_spec (self s) nm NR_REG_PIPE_SLAVE Ht) as (j & Ej & Hj & _). rewrite Ej in E. cbn [mbind option_bind] in E.
  destruct (Z.leb_spec (count (self s)) j) as [_|Hlt]; [by injection E as <- <- <-|].
  destruct (active_lookup _ _ Ht (conj (proj1 Hj) Hlt)) as (d & Hdj & _).
  destruct (active_dev _ _ _ _ Ht Hd (conj (proj1 Hj) Hlt) Hdj) as (Hbg & He & nif & Hn & Hr).
  rewrite Hdj in E. cbn [mbind option_bind] in E. rewrite Hn in E. cbn [mbind option_bind] in E. fold (targets d mode) in E.
  rewrite (send_loop_spec s packet c rc k sync nif _ Hb Hcl) in E by (intros x Hx; by apply Hr, (targets_in d mode)).
  destruct (first_room _ _ _) as [[a r]|] eqn:Ef; [|by injection E as <- <- <-]. injection E as <- <- <-.
  destruct (first_room_spec _ _ _ _ _ Ef) as ((tx & _ & Etx) & Hra & l & Hl). pose proof Hcl as (_ & _ & _ & _ & nifc & rx & Erx).
  assert (a <> c) as Hac by (rewrite Etx, Erx; intros E; by apply (rings_distinct nifc rx nif tx)).
  destruct (swapped_ok s c rc k a r l Hok Hcl Hac Hra Hl) as (Hok' & _). pose proof Hok' as (_ & _ & Hb' & _).
  apply (same_table_inv s); [|done|done]. by apply (kernel_ok _ (sync _) Hok'), Hsync.
Qed.

Lemma careful_inv s s' : netmap_inv s -> careful s s' -> netmap_inv s'.
Proof.
  intros Hinv (c & Hs & Hc). destruct Hs as [s packet poll name mode s' p found H1 H2 E|s packet s' p ret E|s packet s' p ret E|s packet sync name mode s' p ret H E
    |os s name type s' ret H1 H2 H3 E|s name s' ret E|s s' E|s s' E|s m H].
  - by eapply recv_inv.
  - by apply (release_inv s packet (or_flags NS_FORWARD) _ _ _ Hinv (fun sl => eq_refl) E).
  - by apply (release_inv s packet (clear_flags NS_FORWARD) _ _ _ Hinv (fun sl => eq_refl) E).
  - by eapply send_inv.
  - destruct (attach_spec os s name type Hinv H1 (conj H2 Hc) H3) as (s1 & r1 & E1 & H & _). rewrite E1 in E. by injection E as <- <-.
  - destruct (detach_spec s name Hinv Hc) as (s1 & r1 & E1 & H' & _). rewrite E1 in E. by injection E as <- <-.
  - unfold peak_netmap_lock in E. destruct (netmap_mutex s); [done|]. by injection E as <-.
  - unfold peak_netmap_unlock in E. destruct (netmap_mutex s); [|done]. by injection E as <-.
  - apply (same_table_inv s); [apply kernel_ok; [apply Hinv|done]|done|done].
Qed.

(** C15.  Whatever sequence of receptions, releases, attachments and detachments a program
    makes, with the kernel at work between and during the calls, in every state it reaches
    there are at most 64 devices in the table, which are mapped, no two at the same place,
    and two of them have the same name, if it is shorter than the 15 characters to which
    names are cut, only as the two ends of a pipe.

    If moreover the program attaches names of at most 15 characters and does not detach a
    device while a packet of it is claimed, two devices have the same name only as the ends
    of a pipe, whatever its length, and at most one packet is claimed, which is still the
    next one of its ring, so that it can be released.  The code sees to neither condition:
    [long_name_twice], [detached_claim]. *)
Theorem netmap_reachable s :
  (rtc any_step netmap_init s ->
     0 <= count (self s) <= NETMAP_MAX /\ Forall mapped_dev (active (self s)) /\
     forall x y d d', active (self s) !! x = Some d -> active (self s) !! y = Some d' -> x <> y ->
       mem d <> mem d' /\ (name_of d = name_of d' -> (length (name_of d) < 15)%nat -> pipe_ends d d')) /\
  (rtc careful netmap_init s ->
     netmap_inv s /\
     (forall x y d d', active (self s) !! x = Some d -> active (self s) !! y = Some d' -> x <> y ->
        mem d <> mem d' /\ (name_of d = name_of d' -> pipe_ends d d')) /\
     (used (netmap_priv s) <> 0 -> exists a r l, claimed s a r l /\
        forall packet, private_data packet = true -> exists s', peak_netmap_forward s packet = Some (s', transfer_zero, 0) /\ used (netmap_priv s') = 0)).
Proof.
  split; intros Hr.
  - assert (table_inv (self s)) as (_ & Hc & Hmap & Hpairs).
    { revert Hr. apply (rtc_ind_r (fun s => table_inv (self s))); [|intros x y _ [c Hs] Hx; by eapply step_table].
      split; [done|]. split; [done|]. split; constructor. }
    split_and!; [lia|lia|done|]. intros x y d d' Hx Hy Hne. by apply (pairs_lookup apart_short apart_short_sym (active (self s)) x y).
  - assert (netmap_inv s) as Hinv.
    { revert Hr. apply (rtc_ind_r netmap_inv); [apply netmap_init_inv|]. intros x y _ Hs Hx. by eapply careful_inv. }
    split; [done|]. pose proof Hinv as [(Ht & _ & Hb & Hp) [_ Hpairs]]. split.
    + intros x y d d' Hx Hy Hne. by apply (pairs_lookup apart apart_sym (active (self s)) x y).
    + intros Hu. destruct Hp as [Hz|(a & r & l & Hcl)]; [by rewrite Hz in Hu|]. exists a, r, l. split; [done|]. intros packet Hpd.
      pose proof Hcl as (_ & _ & Hc & Ha & _). destruct (avail_cur _ _ _ Ha) as (Hcur & _). rewrite <- Hcur in Ha.
      destruct (cur_slot_spec _ _ _ _ Hb Hc Ha) as [Hrs _]. eexists. split; [by eapply release_spec|done].
Qed.

(** The table: an attachment fails without an effect on the devices, or adds one at
    the end, which is possible if the name is in use only by the other end of a pipe; a
    detachment removes the device with the name, and fails if there is none.  Both refuse
    while the mutex is locked, and both return with the state in order. *)
Theorem netmap_table os s name type :
  netmap_inv s ->
  (system_ok os s -> fitting name -> a_type type ->
   exists s' ret, _peak_netmap_attach os s name type = Some (s', ret) /\ netmap_inv s' /\ attached s name type s' ret /\
     (netmap_mutex s = true -> ret = 1 /\ s' = s)) /\
  (unclaimed s name ->
   exists s' ret, peak_netmap_detach s name = Some (s', ret) /\ netmap_inv s' /\ detached s name s' ret /\
     (netmap_mutex s = true -> ret = 1 /\ s' = s)).
Proof.
  intros Hinv. split.
  - intros H1 H2 H3. destruct (attach_spec os s name type Hinv H1 H2 H3) as (s' & ret & E & H). exists s', ret. split; [done|].
    split; [apply H|]. split; [apply H|]. intros Hm. unfold _peak_netmap_attach in E. rewrite Hm in E. by injection E as <- <-.
  - intros H1. destruct (detach_spec s name Hinv H1) as (s' & ret & E & H). exists s', ret. split; [done|].
    split; [apply H|]. split; [apply H|]. intros Hm. unfold peak_netmap_detach in E. rewrite Hm in E. by injection E as <- <-.
Qed.

(** *** Checks for concrete rings *)

Lemma kernel_refl m : bufs_ok m -> kernel m m.
Proof. intros Hb. split; [done|]. intros a r Hr. exists r, []. by rewrite app_nil_r. Qed.

Lemma bufs_check m :
  forallb (fun p => forallb (fun x => match slot (snd p) !! Z.to_nat x with Some sl => 2 <=? buf_idx sl | None => false end) (avail (snd p)))
    (map_to_list m) = true -> bufs_ok m.
Proof.
  rewrite <- Is_true_true, forallb_True, Forall_forall. intros H a r x Hr Hx. specialize (H (a, r)). apply elem_of_map_to_list, H in Hr. cbn [snd] in Hr.
  apply forallb_True in Hr. rewrite Forall_forall in Hr. specialize (Hr x Hx). destruct (slot r !! _) as [sl|]; [|done].
  exists sl. split; [done|]. by apply Z.leb_le, Is_true_true.
Qed.

End netmap.

(** ** Rings as the documentation of netmap has them *)

(** The slots from [cur] to [tail] are the program's. *)
Definition cyclic_next (n c : Z) : Z := if c + 1 =? n then 0 else c + 1.

Fixpoint cyclic_slots (n c : Z) (k : nat) : list Z :=
  match k with O => [] | S k => c :: cyclic_slots n (cyclic_next n c) k end.

Definition cyclic_avail (r : netmap_ring Z) : list Z :=
  let n := Z.of_nat (length (slot r)) in
  if (0 <=? cur r) && (cur r <? n) then cyclic_slots n (cur r) (Z.to_nat ((rest r - cur r) mod n)) else [].

Lemma cyclic_avail_cons r i l :
  cyclic_avail r = i :: l ->
  let n := Z.of_nat (length (slot r)) in
  cur r = i /\ 0 <= i < n /\ exists k, (rest r - cur r) mod n = 1 + Z.of_nat k /\ l = cyclic_slots n (cyclic_next n i) k.
Proof.
  unfold cyclic_avail. destruct (_ && _) eqn:Hg; [|done]. apply andb_true_iff in Hg as [H1%Z.leb_le H2%Z.ltb_lt].
  destruct (Z.to_nat _) as [|k] eqn:Ek; simpl; [done|]. intros [= <- <-]. split; [done|]. split; [done|]. exists k. split; [lia|done].
Qed.

#[local] Program Instance cyclic_api : NetmapApi Z bool bool := {|
  NETMAP_API := 11; NETMAP_RING_MASK := 4095; NR_REG_ALL_NIC := 1; NR_REG_PIPE_MASTER := 5; NR_REG_PIPE_SLAVE := 6;
  NS_FORWARD := 4; NS_BUF_CHANGED := 1; NR_FORWARD := 4; NR_TIMESTAMP := 2; POLLIN := 1; POLLERR := 8;
  IFF_UP := 1; IFF_PPROMISC := 131072; IFCAP_HWCSUM := 3; IFCAP_TSO := 768; IFCAP_TOE := 49152;
  NETMAP_IF m _ := m;
  NETMAP_RXRING m j := 4 * j + 2 * Z.b2z m;
  NETMAP_TXRING m j := 4 * j + 2 * Z.b2z m + 1;
  NETMAP_BUF a idx := 65536 * idx;
  in_map m a := bool_decide (a / 2 mod 2 = Z.b2z m);
  nm_ring_empty r := bool_decide (cyclic_avail r = []);
  nm_ring_next r i := cyclic_next (Z.of_nat (length (slot r))) i;
  avail := cyclic_avail;
|}.
Next Obligation. repeat constructor; set_solver. Qed.
Next Obligation. intros r. by rewrite bool_decide_eq_true. Qed.
Next Obligation.
  intros r i l H. destruct (cyclic_avail_cons r i l H) as (H1 & H2 & _). split; [done|]. split; [lia|]. apply lookup_lt_is_Some. lia.
Qed.
Next Obligation.
  intros r i l H. destruct (cyclic_avail_cons r i l H) as (H1 & H2 & k & Hk & ->). unfold cyclic_avail. cbn [set_pos cur slot rest].
  set (n := Z.of_nat (length (slot r))) in *. assert (0 <= cyclic_next n i < n) as Hr by (unfold cyclic_next; destruct (Z.eqb_spec (i + 1) n); lia).
  assert (((rest r - cyclic_next n i) mod n) = Z.of_nat k) as ->.
  { pose proof (Z.div_mod (rest r - cur r) n ltac:(lia)) as Hd. pose proof (Z.mod_pos_bound (rest r - cur r) n ltac:(lia)).
    rewrite Hk in *. unfold cyclic_next. symmetry.
    destruct (Z.eqb_spec (i + 1) n); [apply Z.mod_unique_pos with ((rest r - cur r) / n + 1)|apply Z.mod_unique_pos with ((rest r - cur r) / n)]; lia. }
  rewrite Nat2Z.id. destruct (Z.leb_spec 0 (cyclic_next n i)), (Z.ltb_spec (cyclic_next n i) n); [done|lia..].
Qed.
Next Obligation. intros r l H. unfold cyclic_avail. cbn [set_slots cur slot rest]. by rewrite H. Qed.
Next Obligation. done. Qed.
Next Obligation. intros n i m j. destruct n, m; cbn [Z.b2z]; lia. Qed.
Next Obligation.
  intros m off j. assert (forall c, 0 <= c < 2 -> (4 * j + 2 * Z.b2z m + c) / 2 mod 2 = Z.b2z m) as H.
  { intros c Hc. replace (4 * j + 2 * Z.b2z m + c) with (c + (Z.b2z m + j * 2) * 2) by lia.
    rewrite Z.div_add, Z.div_small, Z.add_0_l, Z.mod_add by lia. by destruct m. }
  split; apply bool_decide_eq_true_2; [rewrite <- (Z.add_0_r (4 * j + _))|]; by apply H.
Qed.
Next Obligation. intros m m' a H1%bool_decide_eq_true H2%bool_decide_eq_true. rewrite H1 in H2. by apply Z.b2z_inj. Qed.

(** ** A device with one wire and a packet *)

Definition w_ring (tail b1 b2 len : Z) : netmap_ring Z :=
  Ring 0 0 0 {| tv_sec := 7; tv_usec := 8 |} [Slot b1 len 0; Slot b2 0 0] tail.

Definition w_rings : gmap Z (netmap_ring Z) :=
  list_to_map [(0, w_ring 1 2 3 60); (1, w_ring 1 4 5 0); (4, w_ring 0 6 7 0); (5, w_ring 1 8 9 0)].

Definition w_os : system := {|
  sys_open := 3; sys_getflags := Some 0; sys_setflags _ := true; sys_getcap := Some 0; sys_setcap _ := true;
  sys_regif _ := Some (4096, 0, 1); sys_mmap _ := Some (false, w_rings) |}.

(** em0, and a name that is not attached *)
Definition w_name : list Z := [101; 109; 48].
Definition w_other : list Z := [101; 109; 49].

Definition w_start : state (R := Z) (netmap_if := bool) (M := bool) := netmap_init.
Definition w_attached : state := match peak_netmap_attach w_os w_start w_name with Some (s, _) => s | None => w_start end.
Definition w_polled : polled := {| poll_ret := 0; poll_revents := [0]; poll_rings := rings w_attached |}.
Definition w_received : state * peak_transfer :=
  match peak_netmap_recv w_attached transfer_zero w_polled None NETMAP_DFLT with
  | Some (s, p, _) => (s, p) | None => (w_attached, transfer_zero) end.

Example w_received_packet :
  len (snd w_received) = 60 /\ id (snd w_received) = 2 /\ type (snd w_received) = NETMAP_WIRE /\ private_data (snd w_received) = true.
Proof. vm_compute. by split_and!. Qed.

Lemma w_os_ok : system_ok w_os w_start.
Proof.
  intros req size off n m new [= <- <- <-] [= <- <-]. split; [lia|]. split; [by apply bufs_check; vm_compute|].
  split; [apply map_disjoint_empty_r|]. split; [by intros d Hd%elem_of_nil|].
  intros x Hx. assert (x = 0 \/ x = 1) as [-> | ->] by lia; split; vm_compute; by eexists.
Qed.

Lemma w_fitting : fitting w_name.
Proof. split; [by repeat constructor|vm_compute; lia]. Qed.

Lemma w_attach : careful w_start w_attached.
Proof.
  exists (Attach w_name). split; [|apply w_fitting].
  eapply (step_attach w_os _ w_name 1 _ 0); [apply w_os_ok|apply w_fitting|vm_compute; left|by vm_compute].
Qed.

Lemma w_attached_inv : netmap_inv w_attached.
Proof. eapply careful_inv; [apply netmap_init_inv|apply w_attach]. Qed.

Lemma w_kernel : kernel (rings w_attached) (poll_rings w_polled).
Proof. apply kernel_refl. by apply bufs_check; vm_compute. Qed.

Lemma w_receive : careful w_attached (fst w_received).
Proof. exists Other. split; [|done]. eapply (step_recv _ transfer_zero w_polled None NETMAP_DFLT _ (snd w_received) true); [apply w_kernel|done|by vm_compute]. Qed.

Lemma w_received_inv : netmap_inv (fst w_received).
Proof. eapply careful_inv; [apply w_attached_inv|apply w_receive]. Qed.

Definition w_claimed_ring : netmap_ring Z := default (w_ring 0 0 0 0) (rings (fst w_received) !! 0).

Lemma w_claimed : claimed (fst w_received) 0 w_claimed_ring [].
Proof. split_and!; [by vm_compute..|]. by exists false, 0. Qed.

Lemma netmap_recv_next_witness :
  exists s' p found, peak_netmap_recv w_attached transfer_zero w_polled None NETMAP_DFLT = Some (s', p, found) /\ netmap_ok s' /\ found = true.
Proof.
  destruct (netmap_recv_next w_attached transfer_zero w_polled None NETMAP_DFLT (proj1 w_attached_inv) w_kernel eq_refl)
    as (s' & p & found & E & Hok & _ & _ & _ & _ & _ & H).
  exists s', p, found. split; [exact E|]. split; [exact Hok|].
  destruct (H eq_refl 1 (default dev_zero (dev (self w_attached) !! 0%nat)) ltac:(vm_compute; done) ltac:(by vm_compute) ltac:(vm_compute; by eexists)) as [-> _].
  reflexivity.
Defined.

Lemma netmap_release_witness :
  exists s', peak_netmap_send (fst w_received) (snd w_received) (fun m => m) (Some w_name) NETMAP_WIRE = Some (s', transfer_zero, 0) /\
    buf_idx <$> (r ← rings s' !! 1; slot r !! 0%nat) = Some 2 /\ buf_idx <$> (r ← rings s' !! 0; slot r !! 0%nat) = Some 4.
Proof.
  destruct (netmap_release (fst w_received) (snd w_received) 0 w_claimed_ring [] (fun m => m) w_name NETMAP_WIRE
    (proj1 w_received_inv) w_claimed eq_refl kernel_refl) as (_ & _ & j & Ej & H).
  assert (j = 0) as -> by (vm_compute in Ej; congruence). destruct H as [H _].
  eexists. split; [exact H|]. by split.
Defined.

(** The device is detached with the packet claimed, which then cannot be released. *)
Definition w_detached : state := match peak_netmap_detach (fst w_received) w_name with Some (s, _) => s | None => w_start end.

Example detached_claim :
  peak_netmap_detach (fst w_received) w_name = Some (w_detached, 0) /\ used (netmap_priv w_detached) = 1 /\
  peak_netmap_forward w_detached (snd w_received) = None.
Proof. by vm_compute. Qed.

(** The same sixteen characters are attached twice, to two mappings. *)
Definition w_long : list Z := repeat 97 16.

Definition w_os2 : system := {|
  sys_open := 4; sys_getflags := Some 0; sys_setflags _ := true; sys_getcap := Some 0; sys_setcap _ := true;
  sys_regif _ := Some (4096, 0, 1);
  sys_mmap _ := Some (true, list_to_map [(2, w_ring 0 10 11 0); (3, w_ring 1 12 13 0); (6, w_ring 0 14 15 0); (7, w_ring 1 16 17 0)]) |}.

Example long_name_twice :
  (s ← fst <$> peak_netmap_attach w_os w_start w_long; '(s, ret) ← peak_netmap_attach w_os2 s w_long;
   Some (ret, name_of <$> active (self s), dev_type <$> active (self s))) = Some (0, [repeat 97 15; repeat 97 15], [1; 1]).
Proof. by vm_compute. Qed.

Lemma netmap_reachable_witness : netmap_inv (fst w_received) /\ used (netmap_priv (fst w_received)) = 1.
Proof.
  destruct (netmap_reachable (fst w_received)) as [_ H].
  destruct H as [H _]; [|by split].
  eapply rtc_l; [apply w_attach|]. eapply rtc_once, w_receive.
Defined.

Lemma netmap_table_witness :
  (exists s' d, peak_netmap_attach w_os w_start w_name = Some (s', 0) /\ active (self s') = [d] /\ name_of d = w_name) /\
  exists s', peak_netmap_detach w_attached w_name = Some (s', 0) /\ active (self s') = [].
Proof.
  split.
  - destruct (netmap_table w_os w_start w_name NR_REG_ALL_NIC netmap_init_inv) as [H _].
    destruct (H w_os_ok w_fitting ltac:(left)) as (s' & ret & E & _ & [_ [[-> _]|(-> & _ & _ & _ & d & Hd & Hn & _)]] & _); [vm_compute in E; congruence|].
    exists s', d. split; [exact E|]. split; [exact Hd|exact Hn].
  - destruct (netmap_table w_os w_attached w_name NR_REG_ALL_NIC w_attached_inv) as [_ H].
    destruct H as (s' & ret & E & _ & [_ [[-> _]|(-> & d & _ & Hp)]] & _); [intros a d m Ha; vm_compute in Ha; congruence|vm_compute in E; congruence|].
    exists s'. split; [exact E|]. apply Permutation_length in Hp. destruct (active (self s')); [reflexivity|]. vm_compute in Hp. congruence.
Defined.
