(* ===== verification/Regex.v ===== *)
(** * Regular expressions

    Models [lib/peak_regex.c], a list of compiled expressions with a result each.  PCRE is a
    parameter: a compiler that yields an expression or a message, the study of an
    expression, which may yield nothing without that being an error, and the match of a
    subject, which is negative if there is none.  The expressions are compared by their
    texts and flags; patterns are copied with the [strlcpy] of [Compat]. *)

From S2P Require Import Prelude Compat Stash.

Definition REGEX_NOCASE : Z := 0x01.

Section regex.
Context {pcre pcre_extra : Type}.
Context (PCRE_CASELESS PCRE_ERROR_BADLENGTH : Z).
Context (pcre_compile : list Z -> Z -> pcre + string).
Context (pcre_study : pcre -> option pcre_extra * option string).
Context (pcre_exec : pcre -> option pcre_extra -> list Z -> Z).

Record peak_regex := {
  result : Z;
  flags : Z;
  pextra : option pcre_extra;
  pattern : list Z;
  regex : pcre;
}.

(** The nodes from [head] on. *)
Abbreviation peak_regexes := (list peak_regex).

(** [pcre_exec(3)] with a length that is an [int]. *)
Definition exec (node : peak_regex) (buf : list Z) (len : Z) : option Z :=
  if s32 len <? 0 then Some PCRE_ERROR_BADLENGTH
  else subject ← rd_n buf 0 (Z.to_nat (s32 len)); Some (pcre_exec (regex node) (pextra node) subject).

(** [while (node)]; the stash holds [int]s. *)
Fixpoint regex_find_loop (node : peak_regexes) (buf : list Z) (len : Z) (temp : stash Z) : option (stash Z) :=
  match node with
  | [] => Some temp
  | x :: node =>
      matches ← exec x buf len;
      regex_find_loop node buf len (if 0 <=? matches then fst (STASH_PUSH (s32 (result x)) temp) else temp)
  end.

Definition peak_regex_find (root : peak_regexes) (buf : list Z) (len : Z) (temp : stash Z) : option (stash Z) :=
  if len =? 0 then Some temp else regex_find_loop root buf len temp.

Definition regex_flags (flags : Z) : Z := if negb (flags .& REGEX_NOCASE =? 0) then 0 .| PCRE_CASELESS else 0.

(** [while (temp)]: the result of an expression with this text and these flags. *)
Fixpoint regex_known (temp : peak_regexes) (buf : list Z) (pcre_flags : Z) : option Z :=
  match temp with
  | [] => None
  | x :: temp =>
      if bool_decide (pattern x = buf) && (pcre_flags =? flags x) then Some (result x) else regex_known temp buf pcre_flags
  end.

Definition study_failed (study : option pcre_extra * option string) : bool :=
  match study with (None, Some _) => true | _ => false end.

(** [mem] and [dup] say whether [malloc] and [strdup] have memory. *)
Definition peak_regex_add (mem dup : bool) (root : peak_regexes) (result : Z) (_buf : option (list Z)) (len flags : Z)
    : option (peak_regexes * Z) :=
  match _buf with
  | None => Some (root, 0)
  | Some _buf =>
      if len =? 0 then Some (root, 0) else
      let pcre_flags := regex_flags flags in
      '(buf, _) ← compat_strlcpy (alloca (len + 1)) _buf (len + 1);
      let buf := cstr buf in
      match regex_known root buf pcre_flags with
      | Some r => Some (root, s32 r)
      | None =>
          if negb mem then Some (root, 0) else
          match pcre_compile buf pcre_flags with
          | inr _ => Some (root, 0)
          | inl regex =>
              let study := pcre_study regex in
              if study_failed study then Some (root, 0) else
              if negb dup then Some (root, 0) else
              Some ({| result := result; flags := pcre_flags; pextra := fst study; pattern := buf; regex := regex |} :: root,
                    s32 result)
          end
      end
  end.

(** The message, or NULL for an expression. *)
Definition peak_regex_parse (buf : option (list Z)) (len flags : Z) : option (option string) :=
  match buf with
  | None => Some (Some "empty regular expression"%string)
  | Some buf =>
      if len =? 0 then Some (Some "empty regular expression"%string) else
      if negb (bool_decide (0 ∈ buf)) then None else
      match pcre_compile (cstr buf) (regex_flags flags) with
      | inr error => Some (Some error)
      | inl regex => let study := pcre_study regex in Some (if study_failed study then snd study else None)
      end
  end.

Definition peak_regex_init (mem : bool) : option peak_regexes := if mem then Some [] else None.

(** ** What the list holds *)

(** A valid expression. *)
Definition compiles (text : list Z) (pcre_flags : Z) : option pcre :=
  match pcre_compile text pcre_flags with
  | inl regex => if study_failed (pcre_study regex) then None else Some regex
  | inr _ => None
  end.

(** Whether a valid expression has a match in the subject. *)
Definition occurs (text : list Z) (pcre_flags : Z) (subject : list Z) : bool :=
  match compiles text pcre_flags with
  | Some regex => 0 <=? pcre_exec regex (fst (pcre_study regex)) subject
  | None => false
  end.

(** The expressions with their flags and results, the last one added first. *)
Definition entries (root : peak_regexes) : list (list Z * Z * Z) := (fun x => (pattern x, flags x, result x)) <$> root.

Definition regexes_ok (root : peak_regexes) : Prop :=
  Forall (fun x => compiles (pattern x) (flags x) = Some (regex x) /\ pextra x = fst (pcre_study (regex x))) root /\
  NoDup (fst <$> entries root).

(** The results of the expressions that match. *)
Definition found (es : list (list Z * Z * Z)) (subject : list Z) : list Z :=
  omap (fun '(text, pcre_flags, r) => if occurs text pcre_flags subject then Some (s32 r) else None) es.

Lemma s32_len len : fits 31 len -> s32 len = len.
Proof. by apply (swrap_small 32). Qed.

Lemma regex_find_pushes root buf len subject temp :
  regexes_ok root -> fits 31 len -> rd_n buf 0 (Z.to_nat len) = Some subject ->
  regex_find_loop root buf len temp = Some (push_all (found (entries root) subject) temp).
Proof.
  intros [Hok _] Hlen Hs. revert temp. induction Hok as [|x root [Hc He] _ IH]; intros temp; [done|].
  cbn [regex_find_loop]. unfold exec. rewrite (s32_len len), Hs by done. unfold fits in Hlen. destruct (Z.ltb_spec len 0); [lia|].
  cbn [mbind option_bind]. rewrite IH. f_equal. unfold found, entries. rewrite fmap_cons. cbn [omap list_omap]. unfold occurs at 2. rewrite Hc, He.
  by destruct (0 <=? _).
Qed.

Lemma regex_known_spec root text f :
  match regex_known root text f with
  | Some r => (text, f, r) ∈ entries root
  | None => (text, f) ∉ fst <$> entries root
  end.
Proof.
  induction root as [|x root IH]; cbn [regex_known]; [apply not_elem_of_nil|]. unfold entries. rewrite !fmap_cons. cbn [fst].
  destruct (bool_decide_reflect (pattern x = text)) as [<-|Hp]; cbn [andb]; [destruct (Z.eqb_spec f (flags x)) as [->|Hf]; [left|]|].
  all: destruct (regex_known root _ _); [by right|]; apply not_elem_of_cons; split; [congruence|done].
Qed.

(** ** Properties *)

(** A search reads the [len] bytes of its subject only and pushes on the stash, as far
    as there is room, the results of exactly the expressions that match it, the last one
    added first; of an empty subject none. *)
Theorem regex_find_reports root buf len temp :
  regexes_ok root -> fits 31 len -> len <= msize buf -> stash_ok temp ->
  exists subject temp', rd_n buf 0 (Z.to_nat len) = Some subject /\ peak_regex_find root buf len temp = Some temp' /\
    stash_ok temp' /\ size temp' = size temp /\
    contents temp' = take (size temp) (contents temp ++ if len =? 0 then [] else found (entries root) subject).
Proof.
  intros Hok Hlen Hm Ht. pose proof Hlen as Hl. unfold fits in Hl. destruct (rd_n_is_Some buf 0 (Z.to_nat len)) as (subject & Hs & _); [lia|lia|].
  unfold peak_regex_find. destruct (Z.eqb_spec len 0) as [->|].
  - exists subject, temp. split_and!; [done..|]. rewrite app_nil_r, take_ge; [done|]. rewrite contents_length by done. apply Ht.
  - destruct (push_all_contents (found (entries root) subject) temp Ht) as (H1 & H2 & _).
    exists subject, (push_all (found (entries root) subject) temp).
    split_and!; [done|by apply regex_find_pushes|done|done|by apply push_all_room].
Qed.

(** Adding the expression in the first [len] characters: its old result if the list
    has it with these flags, otherwise it is in front with its result if it is valid and
    there is memory, and nothing else changes; without any of that the result is 0.
    [peak_regex_parse] accepts exactly the valid expressions, among those that end at
    [len].  A text without a NUL is read past its end. *)
Theorem regex_add_stores mem dup root result m len flags :
  regexes_ok root -> 0 < len ->
  let text := take (Z.to_nat len) (cstr m) in
  let f := regex_flags flags in
  (has_nul m ->
   exists root' r, peak_regex_add mem dup root result (Some m) len flags = Some (root', r) /\ regexes_ok root' /\
     match regex_known root text f with
     | Some old => (text, f, old) ∈ entries root /\ root' = root /\ r = s32 old
     | None =>
         if mem && dup && bool_decide (is_Some (compiles text f))
         then entries root' = (text, f, result) :: entries root /\ r = s32 result
         else root' = root /\ r = 0
     end /\
     (exists msg, peak_regex_parse (Some m) len flags = Some msg /\
        (length (cstr m) <= Z.to_nat len -> msg = None <-> is_Some (compiles text f))%nat)) /\
  (~ has_nul m -> peak_regex_add mem dup root result (Some m) len flags = None /\ peak_regex_parse (Some m) len flags = None).
Proof.
  intros Hok Hlen text f. unfold peak_regex_add, peak_regex_parse. destruct (Z.eqb_spec len 0); [lia|]. fold f. split.
  2: { intros Hn. rewrite strlcpy_over by done. split; [done|]. by rewrite bool_decide_eq_false_2. }
  intros Hm. destruct (strlcpy_spec (alloca (len + 1)) m len Hm ltac:(lia)) as (buf & -> & Hb).
  { unfold alloca, msize. rewrite length_replicate. lia. }
  cbn [mbind option_bind]. rewrite Hb. fold text. pose proof (regex_known_spec root text f) as Hk.
  assert (exists msg, (if negb (bool_decide (0 ∈ m)) then None else
      match pcre_compile (cstr m) f with
      | inl regex => Some (if study_failed (pcre_study regex) then snd (pcre_study regex) else None)
      | inr error => Some (Some error)
      end) = Some msg /\ (length (cstr m) <= Z.to_nat len -> msg = None <-> is_Some (compiles text f))%nat) as Hparse.
  { rewrite bool_decide_eq_true_2 by done. cbn [negb]. unfold compiles. destruct (pcre_compile (cstr m) f) as [re|e] eqn:E.
    - eexists. split; [done|]. intros Hle. unfold text. rewrite take_ge, E by done. unfold study_failed.
      destruct (pcre_study re) as [[|] [|]]; simpl; (split; [done||by eexists|by intros []||done]).
    - eexists. split; [done|]. intros Hle. unfold text. rewrite take_ge, E by done. split; [done|by intros []]. }
  destruct (regex_known root text f) as [old|]; [by exists root, (s32 old)|].
  destruct mem; cbn [negb andb]; [|by exists root, 0].
  destruct (compiles text f) as [re|] eqn:Ec.
  - rewrite (bool_decide_eq_true_2 (is_Some _)) by by eexists. rewrite andb_true_r. pose proof Ec as Ec'. unfold compiles in Ec'.
    destruct (pcre_compile text f) as [re'|] eqn:E; [|done]. destruct (study_failed (pcre_study re')) eqn:Es; [done|].
    injection Ec' as ->. destruct dup; cbn [negb]; [|by exists root, 0]. eexists _, _. split; [done|]. split; [|done].
    destruct Hok as [H1 H2]. split; [by constructor|]. unfold entries. rewrite !fmap_cons. by constructor.
  - rewrite (bool_decide_eq_false_2 (is_Some _)) by by intros []. rewrite andb_false_r. unfold compiles in Ec.
    exists root, 0. destruct (pcre_compile text f) as [re|]; [|done]. destruct (study_failed (pcre_study re)); done.
Qed.

End regex.

(** Expressions that are texts, without a single parenthesis, and match at the start. *)
Definition sample_compile (text : list Z) (_ : Z) : list Z + string :=
  if bool_decide (text = [40]) then inr "missing )"%string else inl text.
Definition sample_study (_ : list Z) : option unit * option string := (None, None).
Definition sample_exec (regex : list Z) (_ : option unit) (subject : list Z) : Z :=
  if bool_decide (regex = take (length regex) subject) then 0 else -1.

Definition sample_regexes : list (@peak_regex (list Z) unit) :=
  [ {| result := 7; flags := 0; pextra := None; pattern := [103; 101]; regex := [103; 101] |};
    {| result := 8; flags := 0; pextra := None; pattern := [120]; regex := [120] |} ].

Lemma sample_regexes_ok : regexes_ok sample_compile sample_study sample_regexes.
Proof. split; [by repeat constructor|]. by apply (bool_decide_unpack _); vm_compute. Qed.

Lemma regex_find_reports_witness :
  exists temp', peak_regex_find (-32) sample_exec sample_regexes [103; 101; 116] 3 (Stash 0 2 [0; 0]) = Some temp' /\
    contents temp' = [7].
Proof.
  destruct (regex_find_reports (-32) sample_compile sample_study sample_exec sample_regexes [103; 101; 116] 3 (Stash 0 2 [0; 0]))
    as (subject & temp' & Hs & E & _ & _ & Hc); [apply sample_regexes_ok|by vm_compute|done|by split; simpl; [lia|]|].
  exists temp'. split; [exact E|]. vm_compute in Hs. injection Hs as <-. exact Hc.
Defined.

Lemma regex_add_stores_witness :
  exists root' r, peak_regex_add 1 sample_compile sample_study true true sample_regexes 9 (Some [98; 99; 0]) 2 0 = Some (root', r) /\
    entries root' = ([98; 99], 0, 9) :: entries sample_regexes /\ r = 9.
Proof.
  destruct (regex_add_stores 1 sample_compile sample_study true true sample_regexes 9 [98; 99; 0] 2 0) as [H _];
    [apply sample_regexes_ok|lia|].
  destruct H as (root' & r & E & _ & Hr & _); [by apply (bool_decide_unpack _); vm_compute|]. exists root', r. split; [exact E|exact Hr].
Defined.
