(* ===== verification/Page.v ===== *)
(** * Paged sorted lists

    Models [include/peak_page.h]: a list of pages of at most [num] elements each,
    kept sorted across pages by a comparison.  A chain of pages is the list of
    their element lists ([count] is the length), [moar] is the tail, a NULL root is
    the empty list; a pointer to an element is its page and its position.  [None]
    is a read of an element of an empty page. *)

From S2P Require Import Prelude Order.

Open Scope Z_scope.

(** A pointer to an element. *)
Abbreviation elem_ptr := (nat * nat)%type.

Section operations.
Context {A : Type} (cmp_fun : A -> A -> Z) (num : nat).

(** [struct name]: the elements of one page. *)
Abbreviation page := (list A).

Definition page_get (pages : list page) (ptr : elem_ptr) : option A :=
  p ← pages !! fst ptr; p !! snd ptr.

Definition PAGE_MIN (root : list page) : option elem_ptr :=
  match root with [] => None | _ => Some (0%nat, 0%nat) end.

(** The last element; [count - 1] of the last page. *)
Definition PAGE_MAX (root : list page) : option elem_ptr :=
  match last root with
  | None => None
  | Some p => Some (pred (length root), pred (length p))
  end.

Definition PAGE_NEXT (root : list page) (ptr : elem_ptr) : option elem_ptr :=
  match root !! fst ptr with
  | None => None
  | Some p =>
      if (snd ptr <? pred (length p))%nat then Some (fst ptr, S (snd ptr))
      else if (S (fst ptr) <? length root)%nat then Some (S (fst ptr), 0%nat)
      else None
  end.

(** The elements [PAGE_FOREACH] visits from [ptr] on, in order; every iteration
    moves on by one element. *)
Fixpoint foreach_loop (fuel : nat) (root : list page) (ptr : option elem_ptr) : option (list A) :=
  match ptr with
  | None => Some []
  | Some ptr =>
      match fuel with
      | O => None
      | S fuel =>
          x ← page_get root ptr;
          xs ← foreach_loop fuel root (PAGE_NEXT root ptr);
          Some (x :: xs)
      end
  end.

Definition PAGE_FOREACH (root : list page) : option (list A) :=
  foreach_loop (length (concat root)) root (PAGE_MIN root).

(** The first position whose element compares equal. *)
Fixpoint find_equal (x : A) (p : page) (i : nat) : option nat :=
  match p with
  | [] => None
  | a :: p => if cmp_fun x a =? 0 then Some i else find_equal x p (S i)
  end.

(** The loop of [PAGE_FIND]; [k] is the number of the first page. *)
Fixpoint find_loop (pages : list page) (k : nat) (x : A) : option (option elem_ptr) :=
  match pages with
  | [] => Some None
  | p :: pages =>
      first ← head p;
      if cmp_fun x first <? 0 then Some None
      else
        final ← last p;
        if 0 <? cmp_fun x final then find_loop pages (S k) x
        else Some (pair k <$> find_equal x p 0)
  end.

Definition PAGE_FIND (root : list page) (x : A) : option (option elem_ptr) := find_loop root 0 x.

(** Where [PAGE_INSERT] stops: at an equal element, in front of the first greater
    one, or past the end. *)
Inductive location :=
  | Found (i : nat)
  | Before (i : nat)
  | PastEnd.

Fixpoint scan_page (x : A) (p : page) (i : nat) : location :=
  match p with
  | [] => PastEnd
  | a :: p =>
      if cmp_fun x a =? 0 then Found i
      else if cmp_fun x a <? 0 then Before i
      else scan_page x p (S i)
  end.

Fixpoint locate_loop (pages : list page) (k : nat) (x : A) : option (nat * location) :=
  match pages with
  | [] => Some (k, PastEnd)
  | p :: pages =>
      first ← head p;
      if cmp_fun x first <? 0 then Some (k, Before 0)
      else
        final ← last p;
        if 0 <? cmp_fun x final then locate_loop pages (S k) x
        else Some (k, scan_page x p 0)
  end.

(** [memmove] of the tail and the store. *)
Definition insert_elem (p : page) (pos : nat) (x : A) : page := take pos p ++ x :: drop pos p.

(** Insertion at position [pos] of page [k], splitting a full page in two. *)
Definition place (root : list page) (k pos : nat) (x : A) (alloc : bool)
    : option (list page * option elem_ptr) :=
  p ← root !! k;
  if (length p =? num)%nat then
    if alloc then
      let split := ((num + 1) / 2)%nat in
      if (split <=? pos)%nat then
        Some (take k root ++ take split p :: insert_elem (drop split p) (pos - split) x :: drop (S k) root,
              Some (S k, pos - split)%nat)
      else
        let count := (length p - split)%nat in
        Some (take k root ++ insert_elem (take count p) pos x :: drop count p :: drop (S k) root,
              Some (k, pos))
    else Some (root, None)
  else Some (take k root ++ insert_elem p pos x :: drop (S k) root, Some (k, pos)).

(** [alloc] says whether the allocation succeeds; the result is the root and the
    pointer the macro yields. *)
Definition PAGE_INSERT (root : list page) (x : A) (alloc : bool)
    : option (list page * option elem_ptr) :=
  loc ← locate_loop root 0 x;
  match loc with
  | (k, Found i) => Some (root, Some (k, i))
  | (k, Before i) => place root k i x alloc
  | (_, PastEnd) =>
      match PAGE_MAX root with
      | Some (k, i) => place root k (S i) x alloc
      | None => if alloc then Some ([[x]], Some (0%nat, 0%nat)) else Some (root, None)
      end
  end.

(** [PAGE_COLLAPSE] frees every page: the pages freed, and the new root. *)
Definition PAGE_COLLAPSE (root : list page) : list page * list page := (root, []).

End operations.

(** ** Laws *)

Section laws.
Context {A : Type} {cmp_fun : A -> A -> Z} {key : A -> Z} {KO : KeyOrder cmp_fun key}.
Context {num : nat} (Hnum : (0 < num)%nat).

Abbreviation ascending := (Order.ascending (key := key)).
Abbreviation below := (Order.below (key := key)).
Abbreviation above := (Order.above (key := key)).

(** Well-formed: no empty page, none overfull, sorted without repetition. *)
Definition pages_ok (pages : list (list A)) : Prop :=
  Forall (fun p => (0 < length p <= num)%nat) pages /\ ascending (concat pages).

(** ** The scans *)

Lemma find_equal_spec x p i :
  match find_equal cmp_fun x p i with
  | Some j => exists k a, j = (i + k)%nat /\ p !! k = Some a /\ key a = key x
  | None => forall a, a ∈ p -> key a <> key x
  end.
Proof.
  revert i. induction p as [|a p IH]; intros i; simpl; [intros a Ha; by apply elem_of_nil in Ha|].
  rewrite cmp_eq. destruct (Z.eqb_spec (key x) (key a)).
  - exists 0%nat, a. split_and!; [lia|done|done].
  - specialize (IH (S i)). destruct (find_equal cmp_fun x p (S i)) as [j|].
    + destruct IH as (k & b & -> & Hb & E). exists (S k), b. split_and!; [lia|done|done].
    + intros b [->|Hb]%elem_of_cons; auto.
Qed.

(** A position that splits a page around [x]. *)
Definition gap (x : A) (p : list A) (i : nat) : Prop :=
  (i <= length p)%nat /\ below (key x) (take i p) /\ above (key x) (drop i p).

Lemma scan_page_spec x p i :
  ascending p ->
  match scan_page cmp_fun x p i with
  | Found j => exists k a, j = (i + k)%nat /\ p !! k = Some a /\ key a = key x
  | Before j => exists k, j = (i + k)%nat /\ (k < length p)%nat /\ gap x p k
  | PastEnd => below (key x) p
  end.
Proof.
  revert i. induction p as [|a p IH]; intros i Hp; simpl; [constructor|].
  rewrite cmp_eq, cmp_lt. destruct (Z.eqb_spec (key x) (key a)).
  - exists 0%nat, a. split_and!; [lia|done|done].
  - destruct (Z.ltb_spec (key x) (key a)).
    + exists 0%nat. split_and!; [lia|simpl; lia|]. split_and!; [lia|constructor|].
      by apply above_cons_ascending.
    + assert (ascending p) as Hp' by (by inversion Hp). specialize (IH (S i) Hp').
      destruct (scan_page cmp_fun x p (S i)) as [j|j|].
      * destruct IH as (k & b & -> & Hb & E). exists (S k), b. split_and!; [lia|done|done].
      * destruct IH as (k & -> & Hk & Hle & Hb & Hab). exists (S k). split_and!; [lia|simpl; lia|].
        split_and!; [simpl; lia| |done]. constructor; [lia|done].
      * constructor; [lia|done].
Qed.

(** A page of a well-formed list has a first and a last element. *)
Lemma page_ends (p : list A) : (0 < length p)%nat ->
  exists a z l l', p = a :: l /\ p = l' ++ [z] /\ head p = Some a /\ last p = Some z.
Proof.
  intros Hp. destruct p as [|a l]; simpl in Hp; [lia|].
  destruct (last (a :: l)) as [z|] eqn:E; [|by apply last_None in E].
  destruct (proj1 (last_Some _ _) E) as [l' El]. by exists a, z, l, l'.
Qed.

Lemma pages_ok_cons p ps : pages_ok (p :: ps) ->
  (0 < length p <= num)%nat /\ ascending p /\ pages_ok ps /\
  Forall (fun a => above (key a) (concat ps)) p.
Proof.
  intros [[Hp Hps]%Forall_cons H]. simpl in H. apply ascending_app in H as (H1 & H2 & H3).
  split_and!; try done; lia.
Qed.

Lemma above_concat p ps z k :
  Forall (fun a => above (key a) (concat ps)) p -> last p = Some z -> k <= key z ->
  above k (concat ps).
Proof.
  intros H Hz Hk. apply last_Some in Hz as [l ->]. apply Forall_app in H as [_ [H _]%Forall_cons].
  by eapply above_le.
Qed.

Lemma find_loop_spec (pages : list (list A)) k x :
  pages_ok pages ->
  exists r, find_loop cmp_fun pages k x = Some r /\
    match r with
    | Some (i, j) => exists i' a, i = (k + i')%nat /\ page_get pages (i', j) = Some a /\ key a = key x
    | None => forall a, a ∈ concat pages -> key a <> key x
    end.
Proof.
  revert k. induction pages as [|p ps IH]; intros k Hok; simpl.
  { exists None. split; [done|]. intros a Ha. by apply elem_of_nil in Ha. }
  apply pages_ok_cons in Hok as (Hlen & Hp & Hps & Hab).
  destruct (page_ends p) as (a & z & l & l' & Ea & Ez & -> & Hz); [lia|]. rewrite Hz.
  cbn [mbind option_bind]. rewrite cmp_lt, cmp_gt.
  destruct (Z.ltb_spec (key x) (key a)); [|destruct (Z.ltb_spec (key z) (key x))].
  - exists None. split; [done|]. rewrite Ea in Hp.
    pose proof (above_cons_ascending (key x) a l Hp ltac:(done)) as Hx. rewrite <- Ea in Hx.
    assert (above (key x) (concat ps)) as Hx'.
    { eapply above_concat; [exact Hab|exact Hz|].
      apply last_Some_elem_of in Hz. eapply Forall_forall in Hx; [|exact Hz]. simpl in Hx. lia. }
    intros b [Hb|Hb]%elem_of_app.
    + eapply Forall_forall in Hx; [|exact Hb]. simpl in Hx. lia.
    + eapply Forall_forall in Hx'; [|exact Hb]. simpl in Hx'. lia.
  - destruct (IH (S k) Hps) as (r & -> & Hr). exists r. split; [done|].
    destruct r as [[i j]|].
    + destruct Hr as (i' & b & -> & Hb & E). exists (S i'), b. split_and!; [lia|done|done].
    + intros b [Hb|Hb]%elem_of_app; [|auto].
      pose proof (below_last (key x) p z Hp Hz ltac:(done)) as Hx.
      eapply Forall_forall in Hx; [|exact Hb]. simpl in Hx. lia.
  - pose proof (find_equal_spec x p 0) as Hf. destruct (find_equal cmp_fun x p 0) as [j|].
    + destruct Hf as (j' & b & -> & Hb & E). eexists. split; [done|].
      exists 0%nat, b. split_and!; [lia|done|done].
    + exists None. split; [done|]. intros b [Hb|Hb]%elem_of_app; [auto|].
      assert (above (key x) (concat ps)) as Hx' by (eapply above_concat; done).
      eapply Forall_forall in Hx'; [|exact Hb]. simpl in Hx'. lia.
Qed.

Lemma locate_loop_spec (pages : list (list A)) k x :
  pages_ok pages ->
  exists k' loc, locate_loop cmp_fun pages k x = Some (k', loc) /\
    match loc with
    | Found i => exists n a, k' = (k + n)%nat /\ page_get pages (n, i) = Some a /\ key a = key x
    | Before i => exists P1 p P2, pages = P1 ++ p :: P2 /\ k' = (k + length P1)%nat /\
                    gap x p i /\ below (key x) (concat P1) /\ above (key x) (concat P2)
    | PastEnd => below (key x) (concat pages)
    end.
Proof.
  revert k. induction pages as [|p ps IH]; intros k Hok; simpl.
  { exists k, PastEnd. split; [done|constructor]. }
  apply pages_ok_cons in Hok as (Hlen & Hp & Hps & Hab).
  destruct (page_ends p) as (a & z & l & l' & Ea & Ez & -> & Hz); [lia|]. rewrite Hz.
  cbn [mbind option_bind]. rewrite cmp_lt, cmp_gt.
  destruct (Z.ltb_spec (key x) (key a)) as [Hlt|Hge]; [|destruct (Z.ltb_spec (key z) (key x))].
  - exists k, (Before 0). split; [done|]. exists [], p, ps. simpl.
    assert (above (key x) p) as Hx by (rewrite Ea in Hp |- *; by apply above_cons_ascending).
    split_and!; [done|lia|split_and!; [lia|constructor|done]|constructor|].
    eapply above_concat; [exact Hab|exact Hz|].
    apply last_Some_elem_of in Hz. eapply Forall_forall in Hx; [|exact Hz]. simpl in Hx. lia.
  - destruct (IH (S k) Hps) as (k' & loc & -> & Hloc). exists k', loc. split; [done|].
    pose proof (below_last (key x) p z Hp Hz ltac:(done)) as Hx. destruct loc as [i|i|].
    + destruct Hloc as (n & b & -> & Hb & E). exists (S n), b. split_and!; [lia|done|done].
    + destruct Hloc as (P1 & q & P2 & -> & -> & Hg & Hb & Ha). exists (p :: P1), q, P2.
      split_and!; [done|simpl; lia|done|by apply Forall_app|done].
    + by apply Forall_app.
  - assert (above (key x) (concat ps)) as Hx' by (eapply above_concat; done).
    pose proof (scan_page_spec x p 0 Hp) as Hs. exists k, (scan_page cmp_fun x p 0).
    split; [done|]. destruct (scan_page cmp_fun x p 0) as [i|i|].
    + destruct Hs as (n & b & -> & Hb & E). exists 0%nat, b. split_and!; [lia|done|done].
    + destruct Hs as (n & -> & Hn & Hg). exists [], p, ps. simpl. split_and!; [done|lia|done|constructor|done].
    + exfalso. apply last_Some_elem_of in Hz. eapply Forall_forall in Hs; [|exact Hz]. simpl in Hs. lia.
Qed.

Lemma insert_elem_length (p : list A) pos x : length (insert_elem p pos x) = S (length p).
Proof.
  unfold insert_elem. rewrite length_app, length_take. simpl. rewrite length_drop. lia.
Qed.

Lemma insert_elem_lookup (p : list A) pos x : (pos <= length p)%nat -> insert_elem p pos x !! pos = Some x.
Proof.
  intros Hp. unfold insert_elem. rewrite lookup_app_r; rewrite length_take; [|lia].
  by replace (pos - pos `min` length p)%nat with 0%nat by lia.
Qed.

Lemma page_get_mid (P1 P2 : list (list A)) p pos :
  page_get (P1 ++ p :: P2) (length P1, pos) = p !! pos.
Proof. unfold page_get. simpl. by rewrite list_lookup_middle. Qed.

(** Inserting into one half of a page is inserting into the page. *)
Lemma insert_elem_right (p : list A) split pos x :
  (split <= pos)%nat -> take split p ++ insert_elem (drop split p) (pos - split) x = insert_elem p pos x.
Proof.
  intros H. unfold insert_elem. rewrite drop_drop. replace (split + (pos - split))%nat with pos by lia.
  rewrite app_assoc. f_equal. rewrite <- (take_drop split (take pos p)) at 1.
  rewrite take_take, Nat.min_l by done. f_equal. by rewrite skipn_firstn_comm.
Qed.

Lemma insert_elem_left (p : list A) count pos x :
  (pos <= count)%nat -> insert_elem (take count p) pos x ++ drop count p = insert_elem p pos x.
Proof.
  intros H. unfold insert_elem. rewrite take_take, Nat.min_l by done.
  rewrite <- app_assoc. f_equal. simpl. f_equal.
  rewrite <- (take_drop (count - pos) (drop pos p)), drop_drop.
  rewrite (skipn_firstn_comm pos count). f_equal. f_equal. lia.
Qed.

Lemma take_mid (P1 P2 : list (list A)) p : take (length P1) (P1 ++ p :: P2) = P1.
Proof. apply take_app_length. Qed.

Lemma drop_mid (P1 P2 : list (list A)) p : drop (S (length P1)) (P1 ++ p :: P2) = P2.
Proof. by rewrite cons_middle, app_assoc, drop_app_length' by (rewrite length_app; simpl; lia). Qed.

(** [place] inserts at the position it is given, whether or not it splits. *)
Lemma place_spec P1 p P2 pos x alloc :
  Forall (fun p => (0 < length p <= num)%nat) (P1 ++ p :: P2) -> (pos <= length p)%nat ->
  exists (root' : list (list A)) (r : option elem_ptr), place num (P1 ++ p :: P2) (length P1) pos x alloc = Some (root', r) /\
    match r with
    | Some ptr =>
        concat root' = concat P1 ++ take pos p ++ x :: drop pos p ++ concat P2 /\
        Forall (fun p => (0 < length p <= num)%nat) root' /\ page_get root' ptr = Some x
    | None => alloc = false /\ root' = P1 ++ p :: P2
    end.
Proof.
  intros Hsz Hpos. apply Forall_app in Hsz as [H1 [Hp H2]%Forall_cons].
  unfold place. rewrite list_lookup_middle by done. cbn [mbind option_bind].
  rewrite take_mid, drop_mid. 
  destruct (Nat.eqb_spec (length p) num) as [Hfull|Hroom].
  - destruct alloc; [|by do 2 eexists]. set (split := ((num + 1) / 2)%nat).
    assert (2 * split <= num + 1 /\ num <= 2 * split)%nat as Hsplit.
    { unfold split. pose proof (Nat.div_mod (num + 1) 2 ltac:(lia)).
      pose proof (Nat.mod_upper_bound (num + 1) 2 ltac:(lia)). lia. }
    destruct (Nat.leb_spec split pos); do 2 eexists; (split; [done|]); split_and!.
    + rewrite concat_app. cbn [concat]. rewrite (app_assoc (take split p)), insert_elem_right by done.
      unfold insert_elem. by rewrite <- !app_assoc.
    + apply Forall_app. split; [done|]. rewrite !Forall_cons, length_take, insert_elem_length, length_drop.
      split_and!; [lia..|done].
    + replace (S (length P1)) with (length (P1 ++ [take split p])) by (rewrite length_app; simpl; lia).
      rewrite cons_middle, app_assoc, page_get_mid. apply insert_elem_lookup. rewrite length_drop. lia.
    + rewrite concat_app. cbn [concat]. rewrite (app_assoc _ (drop _ p)), insert_elem_left by lia.
      unfold insert_elem. by rewrite <- !app_assoc.
    + apply Forall_app. split; [done|]. rewrite !Forall_cons, length_drop, insert_elem_length, length_take.
      split_and!; [lia..|done].
    + rewrite page_get_mid. apply insert_elem_lookup. rewrite length_take. lia.
  - do 2 eexists. split; [done|]. split_and!.
    + rewrite concat_app. cbn [concat]. unfold insert_elem. by rewrite <- !app_assoc.
    + apply Forall_app. split; [done|]. rewrite Forall_cons, insert_elem_length. split; [lia|done].
    + rewrite page_get_mid. by apply insert_elem_lookup.
Qed.

(** ** Traversal *)

Lemma foreach_loop_spec n (P1 : list (list A)) p P2 j :
  Forall (fun p => (0 < length p)%nat) (p :: P2) -> (j < length p)%nat ->
  n = length (drop j p ++ concat P2) ->
  foreach_loop n (P1 ++ p :: P2) (Some (length P1, j)) = Some (drop j p ++ concat P2).
Proof.
  revert P1 p P2 j. induction n as [|n IH]; intros P1 p P2 j Hne Hj Hn.
  { rewrite length_app, length_drop in Hn. lia. }
  destruct (drop j p) as [|x q] eqn:Ed; [apply (f_equal length) in Ed; rewrite length_drop in Ed; simpl in Ed; lia|].
  cbn [foreach_loop]. rewrite page_get_mid.
  assert (p !! j = Some x) as -> by (by rewrite <- (Nat.add_0_r j), <- lookup_drop, Ed).
  assert (drop (S j) p = q) as Eq by (by rewrite <- Nat.add_1_r, <- drop_drop, Ed).
  cbn [mbind option_bind]. unfold PAGE_NEXT. cbn [fst snd]. rewrite list_lookup_middle by done.
  simpl in Hn. destruct (Nat.ltb_spec j (pred (length p))).
  - rewrite (IH P1 p P2 (S j)); [by rewrite Eq|done|lia|rewrite Eq; lia].
  - assert (q = []) as -> by (apply nil_length_inv; rewrite <- Eq, length_drop; lia).
    destruct P2 as [|p2 P2].
    + rewrite length_app. simpl. destruct (Nat.ltb_spec (S (length P1)) (length P1 + 1)); [lia|].
      by destruct n.
    + rewrite length_app. simpl. destruct (Nat.ltb_spec (S (length P1)) (length P1 + S (S (length P2)))); [|lia].
      apply Forall_cons in Hne as [_ Hne].
      pose proof (IH (P1 ++ [p]) p2 P2 0%nat Hne) as E.
      replace (length (P1 ++ [p])) with (S (length P1)) in E by (rewrite length_app; simpl; lia).
      rewrite <- app_assoc in E. simpl in E. rewrite E; [done| |by injection Hn].
      by apply Forall_cons in Hne as [? _].
Qed.

Lemma page_foreach_concat (pages : list (list A)) :
  Forall (fun p => (0 < length p)%nat) pages -> PAGE_FOREACH pages = Some (concat pages).
Proof.
  intros Hne. destruct pages as [|p pages]; [done|]. unfold PAGE_FOREACH, PAGE_MIN.
  apply (foreach_loop_spec _ [] p pages 0); [done| |done]. by apply Forall_cons in Hne as [? _].
Qed.

Lemma pages_ok_nonempty (pages : list (list A)) : pages_ok pages -> Forall (fun p => (0 < length p)%nat) pages.
Proof. intros [H _]. eapply Forall_impl; [exact H|]. simpl. lia. Qed.

Lemma page_get_concat (pages : list (list A)) ptr a : page_get pages ptr = Some a -> a ∈ concat pages.
Proof.
  unfold page_get. intros (p & Hp & Ha)%bind_Some. apply list_elem_of_In, in_concat. exists p.
  split; apply list_elem_of_In; by eapply list_elem_of_lookup_2.
Qed.

(** The root the last page of which is given. *)
Lemma page_max_last (P1 : list (list A)) p : (0 < length p)%nat ->
  PAGE_MAX (P1 ++ [p]) = Some (length P1, pred (length p)).
Proof. intros _. unfold PAGE_MAX. rewrite last_snoc, length_app. simpl. by rewrite Nat.add_1_r. Qed.

(** What [PAGE_INSERT] of [x] may do to a chain: yield the element with its key, add
    [x] in order, or fail for want of memory. *)
Definition inserted (pages : list (list A)) (x : A) (alloc : bool)
    (root : list (list A)) (r : option elem_ptr) : Prop :=
  match r with
  | Some ptr => exists a, page_get root ptr = Some a /\ key a = key x /\ pages_ok root /\
      (root = pages /\ a ∈ concat pages \/
       a = x /\ exists l r, concat pages = l ++ r /\ concat root = l ++ x :: r /\
                            below (key x) l /\ above (key x) r)
  | None => alloc = false /\ root = pages /\ forall a, a ∈ concat pages -> key a <> key x
  end.

Lemma place_inserted (P1 : list (list A)) p P2 pos x alloc :
  pages_ok (P1 ++ p :: P2) -> gap x p pos -> below (key x) (concat P1) -> above (key x) (concat P2) ->
  exists root r, place num (P1 ++ p :: P2) (length P1) pos x alloc = Some (root, r) /\
    inserted (P1 ++ p :: P2) x alloc root r.
Proof.
  intros [Hsz Hasc] (Hpos & Hb & Ha) Hb1 Ha2.
  destruct (place_spec P1 p P2 pos x alloc Hsz Hpos) as (root & r & Ep & Hr).
  exists root, r. split; [done|].
  assert (concat (P1 ++ p :: P2) = (concat P1 ++ take pos p) ++ drop pos p ++ concat P2) as Ec.
  { rewrite concat_app. simpl. rewrite <- (take_drop pos p) at 1. by rewrite <- !app_assoc. }
  assert (below (key x) (concat P1 ++ take pos p)) as HB by (by apply Forall_app).
  assert (above (key x) (drop pos p ++ concat P2)) as HA by (by apply Forall_app).
  destruct r as [ptr|].
  - destruct Hr as (Ecr & Hsz' & Hget). exists x. rewrite app_assoc in Ecr.
    split_and!; [done|done|split; [done|]|].
    + rewrite Ecr. apply ascending_insert; [|done..]. by rewrite <- Ec.
    + right. split; [done|]. do 2 eexists. split_and!; [exact Ec|exact Ecr|done..].
  - destruct Hr as [-> ->]. split_and!; [done..|]. rewrite Ec. by apply gap_fresh.
Qed.

(** [PAGE_INSERT], on every path. *)
Lemma page_insert_spec (pages : list (list A)) x alloc :
  pages_ok pages ->
  exists root r, PAGE_INSERT cmp_fun num pages x alloc = Some (root, r) /\
    inserted pages x alloc root r.
Proof.
  intros Hok. unfold PAGE_INSERT.
  destruct (locate_loop_spec pages 0 x Hok) as (k & loc & -> & Hloc).
  cbn [mbind option_bind]. destruct loc as [i|i|].
  - destruct Hloc as (n & a & -> & Ha & E). do 2 eexists. split; [done|]. exists a.
    split_and!; [done..|]. left. split; [done|]. by eapply page_get_concat.
  - destruct Hloc as (P1 & p & P2 & -> & -> & Hg & Hb & Ha). by apply place_inserted.
  - destruct pages as [|p P1 _] using rev_ind.
    + simpl. destruct alloc; do 2 eexists; (split; [done|]).
      * exists x. split_and!; [done..| |].
        -- split; [repeat constructor; simpl; lia|]. repeat constructor.
        -- right. split; [done|]. exists [], []. split_and!; [done..|constructor|constructor].
      * split_and!; [done..|]. intros a Ha. by apply elem_of_nil in Ha.
    + pose proof Hok as [Hsz _]. apply Forall_app in Hsz as [_ [Hp _]%Forall_cons].
      rewrite page_max_last by lia. replace (S (pred (length p))) with (length p) by lia.
      rewrite concat_app in Hloc. apply Forall_app in Hloc as [Hb1 Hb2]. simpl in Hb2.
      rewrite app_nil_r in Hb2. apply (place_inserted P1 p []); [done| |done|constructor].
      split_and!; [lia|by rewrite firstn_all|by rewrite drop_all; constructor].
Qed.

(** [PAGE_FIND], on every path. *)
Lemma page_find_spec (pages : list (list A)) x :
  pages_ok pages ->
  exists r, PAGE_FIND cmp_fun pages x = Some r /\
    match r with
    | Some ptr => exists a, page_get pages ptr = Some a /\ key a = key x
    | None => forall a, a ∈ concat pages -> key a <> key x
    end.
Proof.
  intros Hok. unfold PAGE_FIND. destruct (find_loop_spec pages 0 x Hok) as (r & -> & Hr).
  exists r. split; [done|]. destruct r as [[i j]|]; [|done].
  destruct Hr as (i' & a & -> & Ha & E). by exists a.
Qed.

(** Inserting the elements of a list one after the other, with memory to spare. *)
Fixpoint insert_all (root : list (list A)) (xs : list A) : option (list (list A)) :=
  match xs with
  | [] => Some root
  | x :: xs => r ← PAGE_INSERT cmp_fun num root x true; insert_all (fst r) xs
  end.

Lemma pages_ok_nil : pages_ok [].
Proof. split; constructor. Qed.

Lemma insert_all_spec root xs :
  pages_ok root ->
  exists root', insert_all root xs = Some root' /\ pages_ok root' /\
    forall k, k ∈ map key (concat root') <-> k ∈ map key (concat root) \/ k ∈ map key xs.
Proof.
  revert root. induction xs as [|x xs IH]; intros root Hok; simpl.
  { exists root. split_and!; [done..|]. intros k. rewrite elem_of_nil. tauto. }
  destruct (page_insert_spec root x true Hok) as (root1 & r & -> & Hr). cbn [mbind option_bind fst].
  destruct r as [ptr|]; [|by destruct Hr].
  destruct Hr as (a & _ & Ea & Hok1 & Hcase).
  destruct (IH root1 Hok1) as (root2 & -> & Hok2 & Hk). exists root2. split_and!; [done..|].
  intros k. rewrite Hk, elem_of_cons.
  assert (k ∈ map key (concat root1) <-> k ∈ map key (concat root) \/ k = key x) as ->; [|tauto].
  destruct Hcase as [[-> Ha]|[-> (l & r & El & Er & _)]].
  - rewrite <- Ea. split; [by left|]. intros [H| ->]; [done|]. by apply list_elem_of_fmap_2.
  - rewrite El, Er, !map_app, !elem_of_app. simpl. rewrite elem_of_cons. tauto.
Qed.

(** ** Properties *)

(** [PAGE_FIND] on a well-formed chain reads no empty page and is membership: it
    yields a pointer to an element with the key it was asked for, and NULL only if
    there is none. *)
Theorem page_find_correct (pages : list (list A)) x :
  pages_ok pages ->
  exists r, PAGE_FIND cmp_fun pages x = Some r /\
    match r with
    | Some ptr => exists a, page_get pages ptr = Some a /\ key a = key x
    | None => forall a, a ∈ concat pages -> key a <> key x
    end.
Proof. apply page_find_spec. Qed.

(** C12.  [PAGE_INSERT] keeps a chain well-formed (pages not empty, at most [num]
    elements, keys strictly ascending across pages, split or not) and adds at most
    the new element, in order: with a key already present the chain is unchanged and
    the pointer is to the present element; with a fresh one it is to the new
    element; and it fails only for want of memory, leaving the chain unchanged. *)
Theorem page_insert_correct (pages : list (list A)) x alloc :
  pages_ok pages ->
  exists root r, PAGE_INSERT cmp_fun num pages x alloc = Some (root, r) /\ pages_ok root /\
    match r with
    | Some ptr => exists a, page_get root ptr = Some a /\ key a = key x /\
        (root = pages /\ a ∈ concat pages \/
         a = x /\ (forall b, b ∈ concat pages -> key b <> key x) /\
         exists l r, concat pages = l ++ r /\ concat root = l ++ x :: r)
    | None => alloc = false /\ root = pages /\ forall a, a ∈ concat pages -> key a <> key x
    end.
Proof.
  intros Hok. destruct (page_insert_spec pages x alloc Hok) as (root & r & E & Hr).
  exists root, r. split; [done|]. destruct r as [ptr|].
  - destruct Hr as (a & Hg & Ea & Hok' & Hcase). split; [done|]. exists a. split_and!; [done..|].
    destruct Hcase as [?|[-> (l & r & El & Er & Hb & Ha)]]; [by left|right].
    split_and!; [done| |by exists l, r]. rewrite El. by apply gap_fresh.
  - by destruct Hr as (-> & -> & Hf).
Qed.

(** Any sequence of insertions into an empty chain followed by [PAGE_FOREACH]
    visits the inserted keys, each once, in ascending order. *)
Theorem page_sorts xs :
  exists root l, insert_all [] xs = Some root /\ PAGE_FOREACH root = Some l /\
    ascending l /\ forall k, k ∈ map key l <-> k ∈ map key xs.
Proof.
  destruct (insert_all_spec [] xs pages_ok_nil) as (root & E & Hok & Hk).
  exists root, (concat root). split_and!; [done| |apply Hok|].
  - by apply page_foreach_concat, pages_ok_nonempty.
  - intros k. rewrite Hk. simpl. rewrite elem_of_nil. tauto.
Qed.

End laws.

(** The integers by value, in pages of five. *)
Definition sample_pages : list (list Z) := [[1; 3]; [5; 7; 9]].

Lemma sample_pages_ok : pages_ok (key := fun z => z) (num := 3) sample_pages.
Proof. split; repeat constructor; simpl; lia. Qed.

Lemma page_find_correct_witness :
  exists r, PAGE_FIND Z.sub sample_pages 7 = Some r /\ r = Some (1, 1)%nat.
Proof.
  destruct (page_find_correct (num := 3) ltac:(lia) sample_pages 7 sample_pages_ok) as (r & E & _).
  exists r. split; [exact E|]. assert (Some r = Some (Some (1, 1)%nat)) as H
    by (etransitivity; [symmetry; exact E|reflexivity]). injection H as H. exact H.
Defined.

Lemma page_insert_correct_witness :
  exists root r, PAGE_INSERT Z.sub 3 sample_pages 6 true = Some (root, r) /\
    pages_ok (key := fun z => z) (num := 3) root.
Proof.
  destruct (page_insert_correct (num := 3) ltac:(lia) sample_pages 6 true sample_pages_ok)
    as (root & r & E & Hok & _).
  exists root, r. split; [exact E|exact Hok].
Defined.

Lemma page_sorts_witness :
  exists root l, insert_all (cmp_fun := Z.sub) (num := 5) [] [5; 3; 9; 3] = Some root /\
    PAGE_FOREACH root = Some l /\ ascending (key := fun z => z) l /\
    forall k, k ∈ map (fun z => z) l <-> k ∈ map (fun z => z) [5; 3; 9; 3].
Proof. apply (page_sorts (num := 5)). lia. Defined.
