(* ===== verification/Strings.v ===== *)
(** * Multi-pattern string search

    Models [lib/peak_string.c]: a trie whose nodes keep their children in paged
    sorted lists ([Page]) ordered by character, the insertion of a pattern with
    wildcards, escapes and case folding, and the search that pushes the results of
    the patterns it meets onto a stash ([Stash]).  Children are stored inside the
    pages, so a node is a tree and an insertion below it updates the page in place.
    Buffers are the list of their bytes. *)

From S2P Require Import Prelude Order Page Stash.

(** ** Data *)

Definition STRING_METHOD_FLOATING : nat := 0.
Definition STRING_METHOD_LEFT : nat := 1.
Definition STRING_METHOD_RIGHT : nat := 2.
Definition STRING_METHOD_EXACT : nat := 3.
Definition STRING_METHOD_MAX : nat := 4.

Definition STRING_LEFT : Z := 0x01.
Definition STRING_RIGHT : Z := 0x02.
Definition STRING_NOCASE : Z := 0x04.

Definition STRING_WILDCARD : Z := 256.

(** The table: both cases of a letter share a code, anything else is 0. *)
Definition string_nocase (c : Z) : Z :=
  if (97 <=? c) && (c <=? 122) then c - 97 + 257
  else if (65 <=? c) && (c <=? 90) then c - 65 + 257
  else 0.

(** [struct peak_strings]; [_peak_strings] is a page of five. *)
Inductive peak_strings := Node (next : list (list peak_strings)) (result : list Z) (character : Z).

Definition next (n : peak_strings) := let 'Node x _ _ := n in x.
Definition result (n : peak_strings) := let 'Node _ r _ := n in r.
Definition character (n : peak_strings) := let 'Node _ _ c := n in c.

Definition page_num : nat := 5.

Definition STRING_CMP (x y : peak_strings) : Z := character x - character y.

Definition no_results : list Z := replicate STRING_METHOD_MAX 0.

(** [ref] after its [memset]. *)
Definition string_ref (c : Z) : peak_strings := Node [] no_results c.

Definition peak_string_init : peak_strings := string_ref 0.

(** ** Search *)

(** [if (v) STASH_PUSH(&v, temp)] for a method whose condition holds. *)
Definition push_result (node : peak_strings) (method : nat) (cond : bool) (temp : stash Z) : stash Z :=
  let v := nth method (result node) 0 in
  if negb (v =? 0) && cond then fst (STASH_PUSH v temp) else temp.

(** The stash, and whether the input is used up. *)
Definition peak_string_match (node : peak_strings) (len : nat) (start : bool) (temp : stash Z)
    : stash Z * bool :=
  let at_end := (len =? 0)%nat in
  let temp := push_result node STRING_METHOD_FLOATING true temp in
  let temp := push_result node STRING_METHOD_LEFT start temp in
  let temp := push_result node STRING_METHOD_RIGHT at_end temp in
  let temp := push_result node STRING_METHOD_EXACT (start && at_end) temp in
  (temp, at_end).

(** [buf] are the remaining bytes, at least one.  Each of the three searches either
    finds nothing and goes on with [k], or visits the child it found. *)
Fixpoint _peak_string_find (buf : list Z) (node : peak_strings) (start : bool) (temp : stash Z)
    : option (stash Z) :=
  match buf with
  | [] => None
  | b :: rest =>
      let visit c (k : stash Z -> option (stash Z)) temp :=
        found ← PAGE_FIND STRING_CMP (next node) (string_ref c);
        match (found : option elem_ptr) with
        | None => k temp
        | Some ptr =>
            child ← page_get (next node) ptr;
            let '(temp, at_end) := peak_string_match child (length rest) start temp in
            if at_end then Some temp
            else temp ← _peak_string_find rest child start temp; k temp
        end in
      visit b (visit STRING_WILDCARD (fun temp =>
        let c := string_nocase b in
        if negb (c =? 0) then visit c Some temp else Some temp)) temp
  end.

(** The loop over the start offsets. *)
Fixpoint find_loop (buf : list Z) (root : peak_strings) (start : bool) (temp : stash Z)
    : option (stash Z) :=
  match buf with
  | [] => Some temp
  | _ :: rest =>
      temp ← _peak_string_find buf root start temp;
      find_loop rest root false temp
  end.

Definition peak_string_find (root : peak_strings) (buf : list Z) (temp : stash Z) : option (stash Z) :=
  let '(temp, at_end) := peak_string_match root (length buf) true temp in
  if at_end then Some temp else find_loop buf root true temp.

(** ** Insertion *)

Definition set_elem (pages : list (list peak_strings)) (ptr : elem_ptr) (n : peak_strings)
    : list (list peak_strings) :=
  alter (fun p => <[snd ptr := n]> p) (fst ptr) pages.

(** [ref->character] of a byte that stands for itself. *)
Definition literal_character (flags b : Z) : Z :=
  if negb (flags .& STRING_NOCASE =? 0) then
    let nocase := string_nocase b in
    if negb (nocase =? 0) then nocase else b
  else b.

Definition string_method (flags : Z) : nat :=
  let left := negb (flags .& STRING_LEFT =? 0) in
  let right := negb (flags .& STRING_RIGHT =? 0) in
  if left && right then STRING_METHOD_EXACT
  else if left then STRING_METHOD_LEFT
  else if right then STRING_METHOD_RIGHT
  else STRING_METHOD_FLOATING.

(** The end of the function: the node, and the return value, an int. *)
Definition set_result (node : peak_strings) (method : nat) (v : Z) : peak_strings * Z :=
  let results := if nth method (result node) 0 =? 0 then <[method := v]> (result node) else result node in
  (Node (next node) results (character node), s32 (nth method results 0)).

(** One step of the loop: find or make the child for [c], and go on below it.
    [alloc] says whether a page can be allocated if one is needed. *)
Definition descend (c : Z) (alloc : bool) (node : peak_strings)
    (k : peak_strings -> option (peak_strings * Z)) : option (peak_strings * Z) :=
  r ← PAGE_INSERT STRING_CMP page_num (next node) (string_ref c) alloc;
  match (r : list (list peak_strings) * option elem_ptr) with
  | (pages, None) => Some (Node pages (result node) (character node), 0)
  | (pages, Some ptr) =>
      child ← page_get pages ptr;
      r ← k child;
      Some (Node (set_elem pages ptr (fst r)) (result node) (character node), snd r)
  end.

(** The loop of [peak_string_add] over the pattern, then its end.  [alloc n] is the
    allocation of the [n]-th step. *)
Fixpoint add_loop (buf : list Z) (v flags : Z) (alloc : nat -> bool) (n : nat) (node : peak_strings)
    : option (peak_strings * Z) :=
  match buf with
  | [] => Some (set_result node (string_method flags) v)
  | b :: rest =>
      if b =? 63 then descend STRING_WILDCARD (alloc n) node (add_loop rest v flags alloc (S n))
      else
        match rest with
        | b' :: rest' =>
            if (b =? 92) && ((b' =? 63) || (b' =? 92))
            then descend (literal_character flags b') (alloc n) node (add_loop rest' v flags alloc (S n))
            else descend (literal_character flags b) (alloc n) node (add_loop rest v flags alloc (S n))
        | [] => descend (literal_character flags b) (alloc n) node (add_loop rest v flags alloc (S n))
        end
  end.

(** [buf] may be NULL. *)
Definition peak_string_add (root : peak_strings) (v : Z) (buf : option (list Z)) (flags : Z)
    (alloc : nat -> bool) : option (peak_strings * Z) :=
  match buf with
  | None => Some (root, 0)
  | Some buf => add_loop buf v flags alloc 0 root
  end.

(** Patterns: "a?" (result 1), "ab" (result 2). *)
Definition sample_strings : option peak_strings :=
  r ← peak_string_add peak_string_init 1 (Some [97; 63]) 0 (fun _ => true);
  r ← peak_string_add (fst r) 2 (Some [97; 98]) 0 (fun _ => true);
  Some (fst r).

Example sample_find_ac :
  (root ← sample_strings; t ← peak_string_find root [97; 99] (Stash 0 4 [0; 0; 0; 0]); Some (contents t))
  = Some [1].
Proof. reflexivity. Qed.

(** The last character: the literal alternative hides the wildcard. *)
Example sample_find_ab :
  (root ← sample_strings; t ← peak_string_find root [97; 98] (Stash 0 4 [0; 0; 0; 0]); Some (contents t))
  = Some [2].
Proof. reflexivity. Qed.

(** ** The trie as a table of results by path *)

#[export] Instance string_order : KeyOrder STRING_CMP character.
Proof. intros x y. unfold STRING_CMP. apply (Z_sub_order (character x) (character y)). Qed.

Abbreviation nodes_ok := (pages_ok (key := character) (num := page_num)).

Definition find_child (l : list peak_strings) (c : Z) : option peak_strings :=
  find (fun n => character n =? c) l.

Fixpoint lookup_path (n : peak_strings) (path : list Z) : option peak_strings :=
  match path with
  | [] => Some n
  | c :: path => child ← find_child (concat (next n)) c; lookup_path child path
  end.

(** Specification: the results stored for a path; none where there is no node. *)
Definition results_at (n : peak_strings) (path : list Z) : list Z :=
  default no_results (result <$> lookup_path n path).

(** Well-formed nodes, all the way down. *)
Inductive string_ok : peak_strings -> Prop :=
  | node_ok pages res c :
      nodes_ok pages -> length res = STRING_METHOD_MAX ->
      (forall n, n ∈ concat pages -> string_ok n) -> string_ok (Node pages res c).

Lemma string_ref_ok c : string_ok (string_ref c).
Proof.
  constructor; [apply pages_ok_nil|done|]. intros n Hn. by apply elem_of_nil in Hn.
Qed.

Lemma results_at_ref c path : results_at (string_ref c) path = no_results.
Proof. by destruct path. Qed.

(** [PAGE_FIND] of a character is the child with that character. *)
Lemma page_find_child pages c :
  nodes_ok pages ->
  exists r, PAGE_FIND STRING_CMP pages (string_ref c) = Some r /\
    match r with
    | Some ptr => exists child, page_get pages ptr = Some child /\ find_child (concat pages) c = Some child
    | None => find_child (concat pages) c = None
    end.
Proof.
  intros Hok. destruct (page_find_spec (num := page_num) ltac:(unfold page_num; lia) pages (string_ref c) Hok)
    as (r & -> & Hr). exists r. split; [done|]. destruct r as [ptr|].
  - destruct Hr as (a & Ha & E). exists a. split; [done|]. simpl in E. subst.
    apply find_key; [apply Hok|by eapply page_get_concat].
  - by apply find_no_key.
Qed.

(** Storing a node in place of another with its character. *)
Lemma set_elem_concat pages ptr a n :
  page_get pages ptr = Some a ->
  exists l r, concat pages = l ++ a :: r /\ concat (set_elem pages ptr n) = l ++ n :: r /\
    map length (set_elem pages ptr n) = map length pages.
Proof.
  unfold page_get, set_elem. destruct ptr as [i j]. simpl. intros (p & Hp & Ha)%bind_Some.
  pose proof (take_drop_middle _ _ _ Hp) as E. pose proof (take_drop_middle _ _ _ Ha) as Ep.
  exists (concat (take i pages) ++ take j p), (drop (S j) p ++ concat (drop (S i) pages)).
  assert (length (take i pages) = i) as Hi
    by (rewrite length_take; apply lookup_lt_Some in Hp; lia).
  assert (length (take j p) = j) as Hj by (rewrite length_take; apply lookup_lt_Some in Ha; lia).
  split_and!.
  - rewrite <- E at 1. rewrite concat_app. simpl. rewrite <- Ep at 1. by rewrite <- !app_assoc.
  - rewrite <- E at 1. rewrite <- Hi at 1. rewrite alter_app_r_alt by lia. rewrite Nat.sub_diag. simpl.
    rewrite concat_app. simpl. rewrite <- Ep at 1. rewrite <- Hj at 1.
    rewrite insert_app_r_alt by lia. rewrite Nat.sub_diag. simpl. by rewrite <- !app_assoc.
  - rewrite <- E at 1 2. rewrite <- Hi at 1. rewrite alter_app_r_alt by lia.
    rewrite Nat.sub_diag, !map_app. simpl. by rewrite length_insert.
Qed.

Lemma sizes_by_length (ps : list (list peak_strings)) :
  Forall (fun p => (0 < length p <= page_num)%nat) ps <->
  Forall (fun n => (0 < n <= page_num)%nat) (map length ps).
Proof. induction ps as [|p ps IH]; simpl; [done|]. rewrite !Forall_cons. tauto. Qed.

Lemma nodes_ok_replace pages pages' l a b r :
  nodes_ok pages -> concat pages = l ++ a :: r -> concat pages' = l ++ b :: r ->
  map length pages' = map length pages -> character b = character a -> nodes_ok pages'.
Proof.
  intros [Hsz Hasc] E E' Hl Hc. split.
  - apply sizes_by_length. rewrite Hl. by apply sizes_by_length.
  - rewrite E'. apply (ascending_keys (key := character) (concat pages)); [|exact Hasc].
    rewrite E, !map_app. simpl. by rewrite Hc.
Qed.

Lemma find_child_replace l a b r c :
  ascending (key := character) (l ++ b :: r) -> character a = character b ->
  find_child (l ++ b :: r) c = if decide (c = character b) then Some b else find_child (l ++ a :: r) c.
Proof.
  intros H Hc. unfold find_child. case_decide as E; subst.
  - apply find_key; [done|]. apply elem_of_app. right. left.
  - by rewrite !find_skip_key by congruence.
Qed.

(** ** Insertion along a path *)

(** The characters of a pattern. *)
Fixpoint pattern_path (flags : Z) (buf : list Z) : list Z :=
  match buf with
  | [] => []
  | b :: rest =>
      if b =? 63 then STRING_WILDCARD :: pattern_path flags rest
      else
        match rest with
        | b' :: rest' =>
            if (b =? 92) && ((b' =? 63) || (b' =? 92))
            then literal_character flags b' :: pattern_path flags rest'
            else literal_character flags b :: pattern_path flags rest
        | [] => [literal_character flags b]
        end
  end.

Fixpoint add_path (path : list Z) (v : Z) (method : nat) (alloc : nat -> bool) (n : nat)
    (node : peak_strings) : option (peak_strings * Z) :=
  match path with
  | [] => Some (set_result node method v)
  | c :: path => descend c (alloc n) node (add_path path v method alloc (S n))
  end.

(** What is stored at a path already stays. *)
Definition set_once (method : nat) (v : Z) (old : list Z) : list Z :=
  if nth method old 0 =? 0 then <[method := v]> old else old.

Definition added (node node' : peak_strings) (path : list Z) (method : nat) (v ret : Z) : Prop :=
  ret = s32 (nth method (set_once method v (results_at node path)) 0) /\
  forall p, results_at node' p =
    if decide (p = path) then set_once method v (results_at node path) else results_at node p.

Lemma descend_ext c alloc node k k' :
  (forall n, k n = k' n) -> descend c alloc node k = descend c alloc node k'.
Proof.
  intros H. unfold descend. destruct (PAGE_INSERT _ _ _ _ _) as [[pages [ptr|]]|]; cbn; [|done..].
  destruct (page_get pages ptr); cbn; [|done]. by rewrite H.
Qed.

Lemma add_loop_path buf v flags alloc n node :
  add_loop buf v flags alloc n node =
    add_path (pattern_path flags buf) v (string_method flags) alloc n node.
Proof.
  remember (length buf) as k eqn:Hk. revert buf n node Hk.
  induction k as [k IH] using lt_wf_ind. intros buf n node ->.
  destruct buf as [|b rest]; [done|].
  assert (forall r n node, (length r <= length rest)%nat -> add_loop r v flags alloc n node =
    add_path (pattern_path flags r) v (string_method flags) alloc n node) as IH'.
  { intros r m nd Hr. apply (IH (length r)); [simpl; lia|done]. }
  cbn [add_loop pattern_path]. destruct (b =? 63).
  { cbn [add_path]. apply descend_ext. intros nd. by apply IH'. }
  destruct rest as [|b' rest'].
  { cbn [add_path]. by apply descend_ext. }
  destruct ((b =? 92) && ((b' =? 63) || (b' =? 92))); cbn [add_path]; apply descend_ext; intros nd;
    apply IH'; simpl; lia.
Qed.

Lemma results_at_cons pages res c0 c path :
  results_at (Node pages res c0) (c :: path) =
    match find_child (concat pages) c with
    | Some child => results_at child path
    | None => no_results
    end.
Proof. unfold results_at. simpl. by destruct (find_child (concat pages) c). Qed.

Lemma set_result_spec node method v :
  string_ok node ->
  string_ok (fst (set_result node method v)) /\
  character (fst (set_result node method v)) = character node /\
  added node (fst (set_result node method v)) [] method v (snd (set_result node method v)).
Proof.
  intros [pages res c Hp Hl Hch]. unfold set_result. simpl. split_and!.
  - constructor; [done| |done]. by destruct (nth method res 0 =? 0); rewrite ?length_insert.
  - done.
  - split; [done|]. intros p. case_decide; subst; [done|]. by destruct p.
Qed.

(** The chain after the insertion and the update below it, whichever way the
    insertion went: [pages] had at most the child for [c], [root] has it. *)
Lemma descend_child pages res c0 c alloc root ptr :
  string_ok (Node pages res c0) ->
  inserted (key := character) (num := page_num) pages (string_ref c) alloc root (Some ptr) ->
  exists child, page_get root ptr = Some child /\ string_ok child /\ character child = c /\
    (forall p, results_at child p = results_at (Node pages res c0) (c :: p)) /\
    forall child', string_ok child' -> character child' = c ->
      string_ok (Node (set_elem root ptr child') res c0) /\
      forall c' p, results_at (Node (set_elem root ptr child') res c0) (c' :: p) =
        if decide (c' = c) then results_at child' p else results_at (Node pages res c0) (c' :: p).
Proof.
  intros Hok (a & Hget & Ea & Hroot & Hcase). inversion Hok as [? ? ? Hp Hl Hch]; subst. simpl in Ea.
  exists a. split; [done|].
  assert (string_ok a) as Hoka.
  { destruct Hcase as [[_ Ha]|[-> _]]; [by apply Hch|apply string_ref_ok]. }
  assert (forall x, x ∈ concat root -> string_ok x) as Hchr.
  { intros x Hx. destruct Hcase as [[-> _]|[-> (l & r & El & Er & _)]]; [by apply Hch|].
    rewrite Er in Hx. apply elem_of_app in Hx as [Hx|[->|Hx]%elem_of_cons];
      [|apply string_ref_ok|]; apply Hch; rewrite El, elem_of_app; auto. }
  assert (forall c' p, c' <> c -> results_at (Node root res c0) (c' :: p) =
    results_at (Node pages res c0) (c' :: p)) as Hother.
  { intros c' p Hne. destruct Hcase as [[-> _]|[-> (l & r & El & Er & _)]]; [done|].
    rewrite !results_at_cons. unfold find_child. rewrite El, Er, find_skip_key; [done|]. simpl. congruence. }
  split_and!; [done|done| |].
  - intros p. rewrite results_at_cons. destruct Hcase as [[-> Ha]|[-> (l & r & El & _ & Hb & Hab)]].
    + unfold find_child. rewrite <- Ea, (find_key _ a); [done|apply Hp|done].
    + unfold find_child. rewrite find_no_key, results_at_ref; [done|].
      rewrite El. intros x Hx. exact (gap_fresh (string_ref c) l r Hb Hab x Hx).
  - intros child' Hok' Hc'. destruct (set_elem_concat root ptr a child' Hget) as (l & r & E & E' & Hlen).
    assert (nodes_ok (set_elem root ptr child')) as Hset.
    { eapply nodes_ok_replace; [exact Hroot|exact E|exact E'|done|congruence]. }
    split.
    + constructor; [done|done|]. intros x. rewrite E', elem_of_app, elem_of_cons.
      intros [Hx|[->|Hx]]; [|done|]; apply Hchr; rewrite E, elem_of_app, elem_of_cons; auto.
    + intros c' p. rewrite results_at_cons. rewrite E', (find_child_replace l a child' r) by
        (rewrite <- ?E'; try apply Hset; congruence).
      rewrite Hc'. case_decide; [done|]. rewrite <- Hother by done.
      by rewrite results_at_cons, E.
Qed.

(** [add_path]: the trie stays well-formed; the result of the path is set unless it
    was; nothing else changes.  Without memory it returns 0 and stores nothing. *)
Lemma add_path_spec path v method alloc n node :
  string_ok node ->
  exists node' ret, add_path path v method alloc n node = Some (node', ret) /\
    string_ok node' /\ character node' = character node /\
    (added node node' path method v ret \/
     ret = 0 /\ (exists k, alloc k = false) /\ forall p, results_at node' p = results_at node p).
Proof.
  revert n node. induction path as [|c path IH]; intros n node Hok; cbn [add_path].
  { destruct (set_result node method v) as [node' ret] eqn:E.
    pose proof (set_result_spec node method v Hok) as H. rewrite E in H. simpl in H.
    exists node', ret. split; [done|]. destruct H as (? & ? & ?). auto. }
  destruct node as [pages res c0]. inversion Hok as [? ? ? Hp Hl Hch]; subst. unfold descend. simpl next.
  destruct (page_insert_spec (num := page_num) ltac:(unfold page_num; lia) pages (string_ref c) (alloc n) Hp)
    as (root & r & -> & Hr). cbn [mbind option_bind]. destruct r as [ptr|].
  - destruct (descend_child pages res c0 c (alloc n) root ptr Hok Hr)
      as (child & -> & Hokc & Hc & Hres & Hset). cbn [mbind option_bind].
    destruct (IH (S n) child Hokc) as (child' & ret & -> & Hok' & Hc' & Hcase).
    cbn [mbind option_bind fst snd]. rewrite Hc in Hc'. destruct (Hset child' Hok' Hc') as [Hnok Hat].
    do 2 eexists. split; [done|]. split_and!; [done..|].
    destruct Hcase as [[-> Hadd]|(-> & Hk & Hsame)]; [left|right].
    + unfold added. rewrite Hres. split; [done|]. intros [|c' p]; [done|].
      rewrite Hat. destruct (decide (c' = c)) as [->|].
      * rewrite Hadd, !Hres. repeat case_decide; congruence.
      * rewrite decide_False by congruence. done.
    + split_and!; [done..|]. intros [|c' p]; [done|]. rewrite Hat. case_decide; subst; [|done].
      by rewrite Hsame, Hres.
  - destruct Hr as (Ha & -> & _). do 2 eexists. split; [done|]. split_and!; [done..|].
    right. split_and!; [done|by exists n|done].
Qed.

(** ** The search as a list of hits *)

(** The four pushes of [peak_string_match]. *)
Definition method_ok (method : nat) (start at_end : bool) : bool :=
  match method with
  | 0%nat => true
  | 1%nat => start
  | 2%nat => at_end
  | _ => start && at_end
  end.

Definition match_list (node : peak_strings) (start at_end : bool) : list Z :=
  omap (fun method =>
    let v := nth method (result node) 0 in
    if negb (v =? 0) && method_ok method start at_end then Some v else None)
  [STRING_METHOD_FLOATING; STRING_METHOD_LEFT; STRING_METHOD_RIGHT; STRING_METHOD_EXACT].

Definition is_nil (l : list Z) : bool := (length l =? 0)%nat.

(** What [_peak_string_find] pushes. *)
Fixpoint hits (buf : list Z) (node : peak_strings) (start : bool) : list Z :=
  match buf with
  | [] => []
  | b :: rest =>
      let visit c k :=
        match find_child (concat (next node)) c with
        | None => k
        | Some child =>
            match_list child start (is_nil rest) ++
            if is_nil rest then [] else hits rest child start ++ k
        end in
      visit b (visit STRING_WILDCARD
        (if negb (string_nocase b =? 0) then visit (string_nocase b) [] else []))
  end.

Fixpoint hits_from (buf : list Z) (root : peak_strings) (start : bool) : list Z :=
  match buf with
  | [] => []
  | _ :: rest => hits buf root start ++ hits_from rest root false
  end.

Definition all_hits (root : peak_strings) (buf : list Z) : list Z :=
  match_list root true (is_nil buf) ++ hits_from buf root true.

Lemma match_pushes node len start temp :
  peak_string_match node len start temp =
    (push_all (match_list node start (len =? 0)%nat) temp, (len =? 0)%nat).
Proof.
  unfold peak_string_match, match_list, push_result, method_ok, push_all.
  cbv delta [STRING_METHOD_FLOATING STRING_METHOD_LEFT STRING_METHOD_RIGHT STRING_METHOD_EXACT].
  cbn [omap list_omap].
  destruct (nth 0 (result node) 0 =? 0), (nth 1 (result node) 0 =? 0),
    (nth 2 (result node) 0 =? 0), (nth 3 (result node) 0 =? 0), start, (len =? 0)%nat; reflexivity.
Qed.

Lemma child_ok node c child :
  string_ok node -> find_child (concat (next node)) c = Some child -> string_ok child.
Proof.
  intros [pages res c0 _ _ Hch] H. apply Hch. apply find_some in H as [H _].
  by apply list_elem_of_In.
Qed.

Lemma find_pushes buf node start temp :
  buf <> [] -> string_ok node ->
  _peak_string_find buf node start temp = Some (push_all (hits buf node start) temp).
Proof.
  revert node start temp. induction buf as [|b rest IH]; intros node start temp Hne Hok; [done|].
  cbn [_peak_string_find hits].
  assert (forall c k l temp, (forall temp, k temp = Some (push_all l temp)) ->
    (found ← PAGE_FIND STRING_CMP (next node) (string_ref c);
     match found with
     | None => k temp
     | Some ptr =>
         child ← page_get (next node) ptr;
         let '(temp, at_end) := peak_string_match child (length rest) start temp in
         if at_end then Some temp
         else temp ← _peak_string_find rest child start temp; k temp
     end) =
    Some (push_all
      match find_child (concat (next node)) c with
      | None => l
      | Some child =>
          match_list child start (is_nil rest) ++
          if is_nil rest then [] else hits rest child start ++ l
      end temp)) as Hvisit.
  { intros c k l temp' Hk. inversion Hok as [pages res c0 Hp _ Hch]; subst. simpl next.
    destruct (page_find_child pages c Hp) as (r & -> & Hr). cbn [mbind option_bind].
    destruct r as [ptr|]; [|by rewrite Hr, Hk].
    destruct Hr as (child & -> & Hfc). rewrite Hfc. cbn [mbind option_bind]. rewrite match_pushes.
    unfold is_nil. destruct (length rest =? 0)%nat eqn:E; [by rewrite app_nil_r|].
    rewrite IH; [|by intros ->|by eapply (child_ok (Node pages res c0))].
    cbn [mbind option_bind]. by rewrite Hk, !push_all_app. }
  apply Hvisit. intros temp1. apply Hvisit. intros temp2.
  destruct (string_nocase b =? 0); cbn [negb]; [done|]. by apply Hvisit.
Qed.

Lemma find_loop_pushes buf root start temp :
  string_ok root -> find_loop buf root start temp = Some (push_all (hits_from buf root start) temp).
Proof.
  intros Hok. revert start temp. induction buf as [|b rest IH]; intros start temp; [done|].
  cbn [find_loop hits_from]. rewrite find_pushes by done. cbn [mbind option_bind].
  by rewrite IH, push_all_app.
Qed.

Lemma string_find_pushes root buf temp :
  string_ok root -> peak_string_find root buf temp = Some (push_all (all_hits root buf) temp).
Proof.
  intros Hok. unfold peak_string_find, all_hits. rewrite match_pushes, push_all_app. unfold is_nil.
  destruct (length buf =? 0)%nat eqn:E; [|by apply find_loop_pushes].
  apply Nat.eqb_eq, nil_length_inv in E. by subst.
Qed.

(** ** What a search finds *)

(** The characters a byte of the input stands for, in the order they are tried. *)
Definition alternatives (b : Z) : list Z :=
  b :: STRING_WILDCARD :: if negb (string_nocase b =? 0) then [string_nocase b] else [].

Definition char_match (c b : Z) : Prop := c ∈ alternatives b.

(** At the last byte of the input only the first alternative that has a node counts. *)
Definition preferred (node : peak_strings) (path : list Z) (b : Z) : Prop :=
  forall prefix c, path = prefix ++ [c] ->
    exists l r, alternatives b = l ++ c :: r /\
      forall c', c' ∈ l -> lookup_path node (prefix ++ [c']) = None.

(** A pattern stored below [node] matches at the front of [buf]. *)
Definition prefix_match (node : peak_strings) (start : bool) (buf : list Z) (v : Z) (path : list Z) : Prop :=
  exists mid post method, buf = mid ++ post /\ Forall2 char_match path mid /\
    (method < STRING_METHOD_MAX)%nat /\ nth method (results_at node path) 0 = v /\ v <> 0 /\
    method_ok method start (is_nil post) = true /\
    (post = [] -> forall b, last mid = Some b -> preferred node path b).

Section branches.
Variables (rest : list Z) (node : peak_strings) (start : bool).

Fixpoint branch (cs : list Z) : list Z :=
  match cs with
  | [] => []
  | c :: cs =>
      match find_child (concat (next node)) c with
      | None => branch cs
      | Some child =>
          match_list child start (is_nil rest) ++
          if is_nil rest then [] else hits rest child start ++ branch cs
      end
  end.

Lemma in_branch v cs :
  v ∈ branch cs <->
  exists l c r child, cs = l ++ c :: r /\ find_child (concat (next node)) c = Some child /\
    (rest = [] -> forall c', c' ∈ l -> find_child (concat (next node)) c' = None) /\
    (v ∈ match_list child start (is_nil rest) \/ rest <> [] /\ v ∈ hits rest child start).
Proof.
  induction cs as [|c cs IH]; cbn [branch].
  { split; [by intros ?%elem_of_nil|]. intros (l & c & r & ? & E & _). by destruct l. }
  assert (is_nil rest = true <-> rest = []) as Hnil
    by (unfold is_nil; rewrite Nat.eqb_eq; by destruct rest).
  split.
  - intros Hv. destruct (find_child _ c) as [child|] eqn:Ec.
    + assert (v ∈ match_list child start (is_nil rest) \/
        rest <> [] /\ v ∈ hits rest child start \/ rest <> [] /\ v ∈ branch cs) as [H|[H|[Hr H]]].
      { destruct (is_nil rest) eqn:En; [rewrite app_nil_r in Hv; by left|].
        assert (rest <> []) by (intros Hr; apply Hnil in Hr; congruence).
        rewrite !elem_of_app in Hv. tauto. }
      * exists [], c, cs, child. repeat split; [done| |by left]. intros _ c' Hc'. by apply elem_of_nil in Hc'.
      * exists [], c, cs, child. repeat split; [done| |by right]. intros _ c' Hc'. by apply elem_of_nil in Hc'.
      * apply IH in H as (l & d & r & ch & -> & Hd & _ & Hin). exists (c :: l), d, r, ch. by repeat split.
    + apply IH in Hv as (l & d & r & ch & -> & Hd & Hl & Hin). exists (c :: l), d, r, ch.
      repeat split; [done| |done]. intros Hr c' [->|Hc']%elem_of_cons; [done|]. by apply Hl.
  - intros (l & d & r & ch & E & Hd & Hl & Hin). destruct l as [|c' l]; simplify_eq/=.
    + rewrite Hd. destruct (is_nil rest) eqn:En; rewrite ?elem_of_app; [|tauto].
      destruct Hin as [|[Hr _]]; [tauto|]. destruct Hr. by apply Hnil.
    + destruct (find_child _ c') as [child|] eqn:Ec.
      * destruct (is_nil rest) eqn:En.
        { rewrite Hl in Ec; [done|by apply Hnil|left]. }
        rewrite !elem_of_app. right. right. apply IH. exists l, d, r, ch.
        repeat split; [done| |done]. intros Hr. apply Hnil in Hr. congruence.
      * apply IH. exists l, d, r, ch. repeat split; [done| |done]. intros Hr c'' Hc''. apply Hl; [done|by right].
Qed.

End branches.

Lemma hits_branch b rest node start :
  hits (b :: rest) node start = branch rest node start (alternatives b).
Proof.
  cbn [hits]. unfold alternatives. cbn [branch].
  destruct (negb (string_nocase b =? 0)); cbn [branch]; [|done]. done.
Qed.

Lemma in_match_list v node s e :
  v ∈ match_list node s e <->
  v <> 0 /\ exists method, (method < STRING_METHOD_MAX)%nat /\ nth method (result node) 0 = v /\
    method_ok method s e = true.
Proof.
  unfold match_list. rewrite list_elem_of_omap. split.
  - intros (m & Hm & H). destruct (_ && _) eqn:E; [|done]. injection H as <-.
    apply andb_prop in E as [E1 E2]. apply negb_true_iff, Z.eqb_neq in E1. split; [done|].
    exists m. repeat split; [|done]. rewrite !elem_of_cons, elem_of_nil in Hm.
    unfold STRING_METHOD_MAX, STRING_METHOD_FLOATING, STRING_METHOD_LEFT, STRING_METHOD_RIGHT,
      STRING_METHOD_EXACT in *. lia.
  - intros (Hv & m & Hm & Hn & Hok). exists m. split.
    + unfold STRING_METHOD_MAX, STRING_METHOD_FLOATING, STRING_METHOD_LEFT, STRING_METHOD_RIGHT,
        STRING_METHOD_EXACT in *. rewrite !elem_of_cons, elem_of_nil. lia.
    + cbv zeta. rewrite Hn, Hok. by destruct (Z.eqb_spec v 0).
Qed.

Lemma results_child node c path m :
  nth m (results_at node (c :: path)) 0 =
    match find_child (concat (next node)) c with
    | Some child => nth m (results_at child path) 0
    | None => 0
    end.
Proof.
  destruct node as [pages res c0]. rewrite results_at_cons. simpl.
  destruct (find_child (concat pages) c); [done|]. by do 5 (destruct m as [|m]; [done|]).
Qed.

Lemma preferred_cons node c child d path b :
  find_child (concat (next node)) c = Some child ->
  preferred node (c :: d :: path) b <-> preferred child (d :: path) b.
Proof.
  intros Hc. split.
  - intros H prefix e E. destruct (H (c :: prefix) e) as (l & r & Hl & Hn); [simpl; by rewrite E|].
    exists l, r. split; [done|]. intros c' Hc'. specialize (Hn c' Hc'). simpl in Hn. by rewrite Hc in Hn.
  - intros H prefix e E. destruct prefix as [|c'' prefix]; [done|]. injection E as <- E.
    destruct (H prefix e E) as (l & r & Hl & Hn). exists l, r. split; [done|].
    intros c' Hc'. simpl. rewrite Hc. by apply Hn.
Qed.

Lemma preferred_single node c b :
  preferred node [c] b <->
  exists l r, alternatives b = l ++ c :: r /\ forall c', c' ∈ l -> find_child (concat (next node)) c' = None.
Proof.
  assert (forall c', lookup_path node ([] ++ [c']) = None <-> find_child (concat (next node)) c' = None) as Hp.
  { intros c'. simpl. by destruct (find_child (concat (next node)) c'). }
  split.
  - intros H. destruct (H [] c eq_refl) as (l & r & E & Hl). exists l, r. split; [done|].
    intros c' Hc'. by apply Hp, Hl.
  - intros (l & r & E & Hl) prefix d Ed. destruct prefix as [|x prefix]; [|by destruct prefix].
    injection Ed as <-. exists l, r. split; [done|]. intros c' Hc'. by apply Hp, Hl.
Qed.

(** One more byte in front of a match. *)
Lemma prefix_match_cons node start b rest v c path :
  prefix_match node start (b :: rest) v (c :: path) <->
  exists child, find_child (concat (next node)) c = Some child /\ char_match c b /\
    prefix_match child start rest v path /\
    (path = [] -> rest = [] -> preferred node [c] b).
Proof.
  unfold prefix_match. split.
  - intros (mid & post & m & E & HF & Hm & Hr & Hv & Hok & Hp).
    destruct mid as [|b' mid]; [by inversion HF|]. injection E as <- E. apply Forall2_cons in HF as [Hc HF].
    rewrite results_child in Hr. destruct (find_child _ c) as [child|] eqn:Hch; [|congruence].
    exists child. split_and!; [done|done| |].
    + exists mid, post, m. split_and!; try done. intros Hpost b'' Hb''.
      destruct path as [|d path]; inversion HF as [|? b1]; subst; [done|].
      apply (preferred_cons node c child d path b'' Hch). by apply Hp.
    + intros -> ->. inversion HF; subst. destruct post; [|done]. by apply Hp.
  - intros (child & Hch & Hc & (mid & post & m & -> & HF & Hm & Hr & Hv & Hok & Hp) & Hpref).
    exists (b :: mid), post, m. split_and!; try done.
    + by constructor.
    + by rewrite results_child, Hch.
    + intros -> b'' Hb''. destruct path as [|d path]; inversion HF as [|? b1]; subst.
      * injection Hb'' as <-. by apply Hpref.
      * apply (preferred_cons node c child d path b'' Hch). by apply Hp.
Qed.

Lemma prefix_match_nil node start buf v :
  prefix_match node start buf v [] <->
  v <> 0 /\ exists m, (m < STRING_METHOD_MAX)%nat /\ nth m (result node) 0 = v /\
    method_ok m start (is_nil buf) = true.
Proof.
  unfold prefix_match. split.
  - intros (mid & post & m & -> & HF & Hm & Hr & Hv & Hok & _). inversion HF; subst. split; [done|]. by exists m.
  - intros (Hv & m & Hm & Hr & Hok). exists [], buf, m. split_and!; done.
Qed.

Lemma in_hits v buf node start :
  v ∈ hits buf node start <-> exists path, path <> [] /\ prefix_match node start buf v path.
Proof.
  revert node. induction buf as [|b rest IH]; intros node.
  { split; [by intros ?%elem_of_nil|]. intros (path & Hne & mid & post & m & E & HF & _).
    symmetry in E. apply app_nil in E as [-> ->]. by inversion HF; subst. }
  rewrite hits_branch, in_branch. split.
  - intros (l & c & r & child & E & Hc & Hl & Hin).
    assert (char_match c b) as Hcm by (unfold char_match; rewrite E, elem_of_app; right; left).
    destruct Hin as [Hin|[Hr (path & Hne & Hm)%IH]].
    + exists [c]. split; [done|]. apply prefix_match_cons. exists child. split_and!; [done..| |].
      * apply prefix_match_nil. by apply in_match_list.
      * intros _ Hr. apply preferred_single. exists l, r. split; [done|]. by apply Hl.
    + exists (c :: path). split; [done|]. apply prefix_match_cons. by exists child.
  - intros (path & Hne & Hm). destruct path as [|c path]; [done|].
    apply prefix_match_cons in Hm as (child & Hc & Hcm & Hm & Hp). destruct path as [|d path].
    + assert (exists l r, alternatives b = l ++ c :: r /\
        (rest = [] -> forall c', c' ∈ l -> find_child (concat (next node)) c' = None)) as (l & r & E & Hl).
      { destruct rest as [|x rest].
        - destruct (proj1 (preferred_single node c b) (Hp eq_refl eq_refl)) as (l & r & E & Hl). by exists l, r.
        - apply list_elem_of_split in Hcm as (l & r & E). by exists l, r. }
      exists l, c, r, child. split_and!; [done..|]. left. apply in_match_list. by apply prefix_match_nil in Hm.
    + apply list_elem_of_split in Hcm as (l & r & E).
      assert (rest <> []) by (intros ->; destruct Hm as (mid & post & m & E' & HF & _);
        symmetry in E'; apply app_nil in E' as [-> ->]; inversion HF).
      exists l, c, r, child. split_and!; [done..|]. right. split; [done|]. apply IH. by exists (d :: path).
Qed.

Lemma in_hits_from v buf root start :
  v ∈ hits_from buf root start <->
  exists pre rest path, buf = pre ++ rest /\ path <> [] /\
    prefix_match root (start && is_nil pre) rest v path.
Proof.
  revert start. induction buf as [|b buf IH]; intros start; cbn [hits_from].
  { split; [by intros ?%elem_of_nil|]. intros (pre & rest & path & E & Hne & mid & post & m & -> & HF & _).
    symmetry in E. apply app_nil in E as [-> E]. apply app_nil in E as [-> ->]. by inversion HF; subst. }
  rewrite elem_of_app, in_hits, IH. split.
  - intros [(path & Hne & Hm)|(pre & rest & path & -> & Hne & Hm)].
    + exists [], (b :: buf), path. by rewrite andb_true_r.
    + exists (b :: pre), rest, path. unfold is_nil. simpl. by rewrite andb_false_r.
  - intros (pre & rest & path & E & Hne & Hm). destruct pre as [|b' pre]; simplify_eq/=.
    + left. exists path. by rewrite andb_true_r in Hm.
    + right. exists pre, rest, path. unfold is_nil in Hm. simpl in Hm. by rewrite andb_false_r in Hm.
Qed.

(** What the search comes to; the empty pattern is only looked for at the front. *)
Definition reported (root : peak_strings) (buf : list Z) (v : Z) : Prop :=
  exists pre rest path, buf = pre ++ rest /\ (path = [] -> pre = []) /\
    prefix_match root (is_nil pre) rest v path.

Lemma in_all_hits v buf root : v ∈ all_hits root buf <-> reported root buf v.
Proof.
  unfold all_hits, reported. rewrite elem_of_app, in_hits_from, in_match_list. split.
  - intros [H|(pre & rest & path & -> & Hne & Hm)].
    + exists [], buf, []. split_and!; [done..|]. by apply prefix_match_nil.
    + by exists pre, rest, path.
  - intros (pre & rest & path & -> & He & Hm). destruct path as [|c path].
    + left. rewrite He in Hm |- * by done. by apply prefix_match_nil in Hm.
    + right. by exists pre, rest, (c :: path).
Qed.

(** *** Occurrences

    A pattern that is stored with the result [v] is at [mid] in the input: each character is
    the byte of the input, the wildcard or the case-folded byte, and the method allows the
    place. *)
Record occurrence (root : peak_strings) (buf : list Z) (v : Z) (pre mid post path : list Z) (method : nat) : Prop := {
  oc_input : buf = pre ++ mid ++ post;
  oc_match : Forall2 char_match path mid;
  oc_stored : (method < STRING_METHOD_MAX)%nat /\ nth method (results_at root path) 0 = v /\ v <> 0;
  oc_place : method_ok method (is_nil pre) (is_nil post) = true;
}.

Definition occurs (root : peak_strings) (buf : list Z) (v : Z) : Prop :=
  exists pre mid post path method, occurrence root buf v pre mid post path method.

(** Before the character [c] of the pattern another one is tried for the byte [b], and has a
    node. *)
Definition shadowed (root : peak_strings) (prefix : list Z) (c b : Z) : Prop :=
  exists l r c', alternatives b = l ++ c :: r /\ c ∉ l /\ c' ∈ l /\ lookup_path root (prefix ++ [c']) <> None.

(** The occurrences that the search passes over: of the empty pattern behind the front, and
    at the end of the input where the last character is shadowed. *)
Definition missed (root : peak_strings) (pre mid post path : list Z) : Prop :=
  path = [] /\ pre <> [] \/
  post = [] /\ exists prefix c mid' b, path = prefix ++ [c] /\ mid = mid' ++ [b] /\ shadowed root prefix c b.

(** Where no two ways to match a byte have a node there is nothing to pass over. *)
Definition unambiguous (root : peak_strings) : Prop :=
  forall prefix b c c', c ∈ alternatives b -> c' ∈ alternatives b ->
    lookup_path root (prefix ++ [c]) <> None -> lookup_path root (prefix ++ [c']) <> None -> c = c'.

Lemma before_first (c : Z) l r l' r' : l ++ c :: r = l' ++ c :: r' -> c ∉ l -> forall x, x ∈ l -> x ∈ l'.
Proof.
  revert l'. induction l as [|a l IH]; intros l' E Hc x Hx; [by apply elem_of_nil in Hx|].
  rewrite not_elem_of_cons in Hc. destruct Hc as [Hne Hc]. destruct l' as [|a' l']; [by injection E as <- _|].
  injection E as <- E. rewrite elem_of_cons in Hx |- *. destruct Hx as [->|Hx]; [by left|right]. by apply (IH l' E).
Qed.

Lemma preferred_shadowed root prefix c b :
  char_match c b -> preferred root (prefix ++ [c]) b <-> ~ shadowed root prefix c b.
Proof.
  intros Hc. split.
  - intros Hp (l & r & c' & E & Hl & Hc' & Hn). destruct (Hp prefix c eq_refl) as (l2 & r2 & E2 & H2).
    apply Hn, H2. apply (before_first c l r l2 r2); [congruence|done|done].
  - intros Hs p d E. apply app_inj_tail in E as [<- <-]. apply list_elem_of_split_l in Hc as (l & r & E & Hl).
    exists l, r. split; [done|]. intros c' Hc'. destruct (lookup_path root (prefix ++ [c'])) eqn:En; [|done].
    exfalso. apply Hs. exists l, r, c'. rewrite En. done.
Qed.

Lemma reported_occurrence root buf v :
  reported root buf v <->
  exists pre mid post path method, occurrence root buf v pre mid post path method /\ ~ missed root pre mid post path.
Proof.
  unfold reported, prefix_match, missed. split.
  - intros (pre & rest & path & -> & He & mid & post & m & -> & HF & Hm & Hr & Hv & Hok & Hp).
    exists pre, mid, post, path, m. split; [by split|]. intros [[-> Hne]|(-> & prefix & c & mid' & b & -> & -> & Hs)].
    + by apply Hne, He.
    + apply Forall2_app_inv in HF as [_ H2]; [|by apply Forall2_length in HF; rewrite !length_app in HF; cbn in HF; lia].
      apply Forall2_cons in H2 as [Hc _]. apply (preferred_shadowed root prefix c b) in Hs; [done|done|].
      apply Hp; [done|]. by rewrite last_snoc.
  - intros (pre & mid & post & path & m & [-> HF (Hm & Hr & Hv) Hok] & Hn).
    exists pre, (mid ++ post), path. split; [done|]. split.
    { intros ->. destruct pre; [done|]. exfalso. apply Hn. by left. }
    exists mid, post, m. split_and!; [done..|]. intros -> b Hb. apply last_Some in Hb as [mid' ->].
    apply Forall2_app_inv_r in HF as (p1 & p2 & H1 & H2 & ->). inversion H2 as [|c ? ? ? Hc H3]; subst. inversion H3; subst.
    apply preferred_shadowed; [done|]. intros Hs. apply Hn. right. split; [done|]. by exists p1, c, mid', b.
Qed.

Lemma unambiguous_reported root buf v :
  unambiguous root -> nth STRING_METHOD_RIGHT (results_at root []) 0 = 0 -> occurs root buf v -> reported root buf v.
Proof.
  intros Hu He (pre & mid & post & path & m & Ho). destruct path as [|c0 path].
  - destruct Ho as [-> HF (Hm & Hr & Hv) Hok]. apply Forall2_nil_inv_l in HF as ->. cbn [app] in *.
    exists [], (pre ++ post), []. split_and!; [done..|]. exists [], (pre ++ post), m. split_and!; try done.
    destruct m as [|[|[|m]]]; cbn in Hok |- *; [done|done| |].
    + unfold STRING_METHOD_RIGHT in He. congruence.
    + apply andb_prop in Hok as [H1 H2]. by destruct pre.
  - apply reported_occurrence. exists pre, mid, post, (c0 :: path), m. split; [done|].
    intros [[? _]|(-> & prefix & c & mid' & b & E & -> & l & r & c' & El & Hl & Hc' & Hn)]; [done|].
    destruct Ho as [_ HF (Hm & Hr & Hv) _]. rewrite E in *.
    assert (lookup_path root (prefix ++ [c]) <> None) as Hc.
    { unfold results_at in Hr. destruct (lookup_path root (prefix ++ [c])); [done|]. cbn in Hr. exfalso. apply Hv. rewrite <- Hr.
      by do 5 (destruct m as [|m]; [done|]). }
    assert (c' = c) as ->; [|done]. apply (Hu prefix b); [rewrite El; set_solver|rewrite El; set_solver|done|done].
Qed.

(** ** Properties *)

(** C37.  [peak_string_add] never strays from the trie and keeps it well-formed.  It
    stores the result under the path its pattern spells and the method its flags
    select, unless that place has a result already, changes the result of no other
    path, and returns what is stored, as an int; without memory for a node, or without a
    pattern, it returns 0 and changes no result. *)
Theorem string_add_stores root v buf flags alloc :
  string_ok root ->
  exists root' ret, peak_string_add root v buf flags alloc = Some (root', ret) /\ string_ok root' /\
    match buf with
    | None => root' = root /\ ret = 0
    | Some buf =>
        added root root' (pattern_path flags buf) (string_method flags) v ret \/
        ret = 0 /\ (exists k, alloc k = false) /\ forall p, results_at root' p = results_at root p
    end.
Proof.
  intros Hok. destruct buf as [buf|]; simpl; [|by exists root, 0].
  rewrite add_loop_path.
  destruct (add_path_spec (pattern_path flags buf) v (string_method flags) alloc 0 root Hok)
    as (root' & ret & E & Hok' & _ & H). by exists root', ret.
Qed.

Lemma string_add_stores_witness :
  exists root' ret,
    peak_string_add peak_string_init 7 (Some [97; 63]) STRING_LEFT (fun _ => true) = Some (root', ret) /\
    string_ok root'.
Proof.
  destruct (string_add_stores peak_string_init 7 (Some [97; 63]) STRING_LEFT (fun _ => true)
    (string_ref_ok 0)) as (root' & ret & E & Hok & _). exists root', ret. split; [exact E|exact Hok].
Defined.

(** C5.  On a well-formed trie [peak_string_find] ends without straying, and appends to the
    stash, as far as it has room, results of patterns that are stored and occur in the input.
    It reports every pattern with an occurrence, but for those that it passes over, and these
    are exactly: at the last byte of the input those for whose last character another one is
    tried before and has a node, since the search returns at the first character it meets
    there; and the empty pattern behind the front.  So it reports exactly the patterns that
    occur where no two ways to match a byte have a node, as in a trie without wildcards and
    folded letters, and the empty pattern is not stored for the end. *)
Theorem string_find_reports root buf temp :
  string_ok root -> stash_ok temp ->
  exists temp' found, peak_string_find root buf temp = Some temp' /\ stash_ok temp' /\
    contents temp' = contents temp ++ take (size temp - index temp) found /\
    (forall v, v ∈ found <->
       exists pre mid post path method, occurrence root buf v pre mid post path method /\ ~ missed root pre mid post path) /\
    (forall v, v ∈ found -> occurs root buf v) /\
    (unambiguous root -> nth STRING_METHOD_RIGHT (results_at root []) 0 = 0 -> forall v, v ∈ found <-> occurs root buf v).
Proof.
  intros Hok Ht. exists (push_all (all_hits root buf) temp), (all_hits root buf).
  destruct (push_all_contents (all_hits root buf) temp Ht) as (H1 & _ & H2).
  assert (forall v, v ∈ all_hits root buf -> occurs root buf v) as Hs.
  { intros v Hv. apply in_all_hits, reported_occurrence in Hv as (pre & mid & post & path & m & Ho & _). by exists pre, mid, post, path, m. }
  split_and!; [by apply string_find_pushes|done|done| |done|].
  - intros v. by rewrite in_all_hits, reported_occurrence.
  - intros Hu He v. split; [apply Hs|]. intros Ho. by apply in_all_hits, unambiguous_reported.
Qed.

(** The trie of "a?" and "ab". *)
Definition sample_root : peak_strings := default peak_string_init sample_strings.

Lemma string_add_ok root v buf flags alloc r : string_ok root -> peak_string_add root v buf flags alloc = Some r -> string_ok (fst r).
Proof.
  intros Hok. destruct buf as [buf|]; simpl; [|by intros [= <-]]. rewrite add_loop_path.
  destruct (add_path_spec (pattern_path flags buf) v (string_method flags) alloc 0 root Hok) as (root' & ret & -> & Hok' & _).
  by intros [= <-].
Qed.

Lemma sample_trie_ok : string_ok sample_root.
Proof.
  unfold sample_root, sample_strings.
  destruct (peak_string_add _ 1 _ _ _) as [r|] eqn:E1; [|apply string_ref_ok]. apply string_add_ok in E1; [|apply string_ref_ok].
  cbn [mbind option_bind]. destruct (peak_string_add _ 2 _ _ _) as [r2|] eqn:E2; [|apply string_ref_ok].
  by apply string_add_ok in E2.
Qed.

(** "abc" has both, "ab" has both as well but only the second is reported. *)
Lemma string_find_reports_witness :
  (exists temp' (found : list Z), peak_string_find sample_root [97; 98; 99] (Stash 0 4 [0; 0; 0; 0]) = Some temp' /\ 1 ∈ found /\ 2 ∈ found) /\
  (exists temp' (found : list Z), peak_string_find sample_root [97; 98] (Stash 0 4 [0; 0; 0; 0]) = Some temp' /\ contents temp' = [2] /\ 2 ∈ found) /\
  occurrence sample_root [97; 98] 1 [] [97; 98] [] [97; 256] 0 /\ missed sample_root [] [97; 98] [] [97; 256].
Proof.
  split_and!.
  - destruct (string_find_reports sample_root [97; 98; 99] (Stash 0 4 [0; 0; 0; 0]) sample_trie_ok ltac:(split; simpl; lia))
      as (t & f & E & _ & _ & Hf & _). exists t, f. split; [exact E|]. split; apply Hf.
    + exists [], [97; 98], [99], [97; 256], 0%nat. split; [split; [reflexivity| |split; [vm_compute; lia|split; [reflexivity|lia]]|reflexivity]|].
      * apply Forall2_cons; split; [left|]. apply Forall2_cons; split; [right; left|]. constructor.
      * intros [[H _]|[H _]]; discriminate H.
    + exists [], [97; 98], [99], [97; 98], 0%nat. split; [split; [reflexivity| |split; [vm_compute; lia|split; [reflexivity|lia]]|reflexivity]|].
      * apply Forall2_cons; split; [left|]. apply Forall2_cons; split; [left|]. constructor.
      * intros [[H _]|[H _]]; discriminate H.
  - destruct (string_find_reports sample_root [97; 98] (Stash 0 4 [0; 0; 0; 0]) sample_trie_ok ltac:(split; simpl; lia))
      as (t & f & E & _ & Ef & _). exists t, f. split; [exact E|]. vm_compute in E. injection E as <-. split; [reflexivity|].
    vm_compute in Ef. destruct f as [|x f]; [discriminate Ef|]. injection Ef as <- _. left.
  - split; [reflexivity| |split; [vm_compute; lia|split; [reflexivity|lia]]|reflexivity].
    apply Forall2_cons; split; [left|]. apply Forall2_cons; split; [right; left|]. constructor.
  - right. split; [reflexivity|]. exists [97], 256, [97], 98. split; [reflexivity|]. split; [reflexivity|].
    exists [98], [258], 98. split; [vm_compute; reflexivity|]. split; [set_solver|]. split; [left|]. vm_compute. discriminate.
Defined.
