(* ===== verification/Teardown.v ===== *)
(** * Releasing what was made

    Models the [exit] functions of the library: [peak_string_exit], with the recursion over the
    pages of its nodes, [peak_regex_exit], [peak_number_exit], [peak_locate_exit],
    [peak_magic_exit], [peak_load_exit] and [peak_store_exit].  Their other operations are in
    the files of their components, on structures without addresses; here memory is a heap of
    blocks with the pointers the code follows, [free] of what is not a block is undefined, and so
    is reading one that was freed.  A function leaves no block of its structure behind if the
    heap afterwards is what is outside the structure. *)

From S2P Require Import Prelude.
Open Scope Z_scope.

(** ** Memory *)

(** A block with its pointers; 0 is NULL.  [Page] is a [struct _peak_strings] with the [next] of
    each of its [count] elements, [Data] a block without pointers: a text, a table, an
    expression. *)
Inductive block :=
  | Page (moar : Z) (elems : list Z)
  | Strings (next : Z)
  | Regex (next regex pextra pattern : Z)
  | Regexes (head : Z)
  | Number (next : Z)
  | Numbers (string length : Z)
  | Locates (mem : Z)
  | Magic (handle : Z)
  | Load (fd netmon_table : Z)
  | Data.

Abbreviation heap := (gmap Z block).

Definition free (p : Z) (h : heap) : option heap :=
  if p =? 0 then Some h else match h !! p with Some _ => Some (delete p h) | None => None end.

(** One call after the other. *)
Definition frees (ps : list Z) (h : heap) : option heap := foldl (fun h p => h ← h; free p h) (Some h) ps.

(** [while (node)]: [body] frees the node and yields the next one. *)
Fixpoint while_node (body : heap -> Z -> option (heap * Z)) (fuel : nat) (h : heap) (node : Z) : run heap :=
  match fuel with
  | O => OutOfFuel
  | S fuel =>
      if node =? 0 then Done h else
      '(h, node) ← try (body h node);
      while_node body fuel h node
  end.

(** ** peak_regex.c, peak_number.c *)

Definition regex_exit_body (h : heap) (node : Z) : option (heap * Z) :=
  match h !! node with
  | Some (Regex next regex pextra pattern) =>
      h ← free regex h; h ← free pextra h; h ← free pattern h; h ← free node h; Some (h, next)
  | _ => None
  end.

Definition peak_regex_exit (fuel : nat) (h : heap) (root : Z) : run heap :=
  if root =? 0 then Done h else
  match h !! root with
  | Some (Regexes head) => h ← while_node regex_exit_body fuel h head; try (free root h)
  | _ => Undefined
  end.

Definition number_exit_body (h : heap) (node : Z) : option (heap * Z) :=
  match h !! node with
  | Some (Number next) => h ← free node h; Some (h, next)
  | _ => None
  end.

Definition peak_number_exit (fuel : nat) (h : heap) (self : Z) : run heap :=
  if self =? 0 then Done h else
  match h !! self with
  | Some (Numbers string length) =>
      h ← while_node number_exit_body fuel h string;
      h ← while_node number_exit_body fuel h length;
      try (free self h)
  | _ => Undefined
  end.

(** ** peak_string.c *)

(** [PAGE_COLLAPSE] with [STRING_FREE]; the root is left to the caller. *)
Definition collapse_body (h : heap) (page : Z) : option (heap * Z) :=
  match h !! page with
  | Some (Page moar _) => h ← free page h; Some (h, moar)
  | _ => None
  end.

(** [PAGE_FOREACH] from the element [i] of [page] on; [body] gets the [next] of the element. *)
Fixpoint foreach_elem (body : heap -> Z -> run heap) (fuel : nat) (h : heap) (page : Z) (i : nat) : run heap :=
  match fuel with
  | O => OutOfFuel
  | S fuel =>
      if page =? 0 then Done h else
      match h !! page with
      | Some (Page _ elems) =>
          elem ← try (elems !! i);
          h ← body h elem;
          match h !! page with
          | Some (Page moar elems) =>
              if (i <? pred (length elems))%nat then foreach_elem body fuel h page (S i)
              else foreach_elem body fuel h moar 0
          | _ => Undefined
          end
      | _ => Undefined
      end
  end.

(** The argument is [node->next]: an element of a page is never NULL. *)
Fixpoint _peak_string_exit (fuel : nat) (h : heap) (next : Z) : run heap :=
  match fuel with
  | O => OutOfFuel
  | S fuel =>
      h ← foreach_elem (_peak_string_exit fuel) (S fuel) h next 0;
      while_node collapse_body (S fuel) h next
  end.

Definition peak_string_exit (fuel : nat) (h : heap) (root : Z) : run heap :=
  if root =? 0 then Done h else
  match h !! root with
  | Some (Strings next) => h ← _peak_string_exit fuel h next; try (free root h)
  | _ => Undefined
  end.

(** ** Files and tables: with the set of open descriptors *)

Definition STDIN_FILENO : Z := 0.

Definition close (fd : Z) (fds : gset Z) : gset Z := fds ∖ {[fd]}.

Definition peak_locate_exit (h : heap) (self : Z) : option heap :=
  if self =? 0 then Some h else
  match h !! self with
  | Some (Locates mem) => h ← free mem h; free self h
  | _ => None
  end.

(** [magic_close(3)] releases the handle. *)
Definition peak_magic_exit (h : heap) (self : Z) : option heap :=
  if self =? 0 then Some h else
  match h !! self with
  | Some (Magic handle) => h ← free handle h; free self h
  | _ => None
  end.

Definition peak_load_exit (h : heap) (fds : gset Z) (self : Z) : option (heap * gset Z) :=
  if self =? 0 then Some (h, fds) else
  match h !! self with
  | Some (Load fd netmon_table) =>
      let fds := if negb (fd =? STDIN_FILENO) then close fd fds else fds in
      h ← free netmon_table h; h ← free self h; Some (h, fds)
  | _ => None
  end.

Definition peak_store_exit (fds : gset Z) (fd : Z) : gset Z := if fd <? 0 then fds else close fd fds.

(** ** What is left *)

(** The heap without the blocks at [ps]. *)
Definition without (ps : list Z) (h : heap) : heap := filter (fun x => x.1 ∉ ps) h.

Lemma lookup_without ps h k : k ∉ ps -> without ps h !! k = h !! k.
Proof.
  intros Hk. unfold without. destruct (h !! k) as [b|] eqn:E.
  - by apply map_lookup_filter_Some.
  - apply map_lookup_filter_None. by left.
Qed.

Lemma lookup_without_in ps h k : k ∈ ps -> without ps h !! k = None.
Proof. intros Hk. unfold without. apply map_lookup_filter_None. right. intros b _ Hn. by apply Hn. Qed.

Lemma without_without ps qs h : without ps (without qs h) = without (qs ++ ps) h.
Proof.
  apply map_eq. intros k. destruct (decide (k ∈ qs)), (decide (k ∈ ps)).
  all: repeat first [rewrite lookup_without by set_solver|rewrite lookup_without_in by set_solver]; done.
Qed.

Lemma without_ext ps qs h : (forall k, k ∈ ps <-> k ∈ qs) -> without ps h = without qs h.
Proof.
  intros H. apply map_eq. intros k. destruct (decide (k ∈ ps)).
  all: repeat first [rewrite lookup_without by set_solver|rewrite lookup_without_in by set_solver]; done.
Qed.

Lemma without_nil h : without [] h = h.
Proof. apply map_eq. intros k. apply lookup_without. set_solver. Qed.

Lemma delete_without p h : delete p h = without [p] h.
Proof.
  apply map_eq. intros k. destruct (decide (k = p)) as [->|].
  - by rewrite lookup_delete_eq, lookup_without_in by set_solver.
  - by rewrite lookup_delete_ne, lookup_without by set_solver.
Qed.

(** There is a block at [p]. *)
Definition live (h : heap) (p : Z) : Prop := p <> 0 /\ is_Some (h !! p).

Lemma free_live p h : live h p -> free p h = Some (without [p] h).
Proof.
  intros [Hp [b Hb]]. unfold free. rewrite (proj2 (Z.eqb_neq _ _)) by done. by rewrite Hb, delete_without.
Qed.

(** The pointers of [ps] that are not NULL. *)
Definition owned (ps : list Z) : list Z := filter (fun p => p <> 0) ps.

Lemma free_owned p h : p = 0 \/ live h p -> free p h = Some (without (owned [p]) h).
Proof.
  unfold owned. intros [->|Hp]; [by rewrite without_nil|]. rewrite free_live by done.
  by rewrite filter_cons_True by apply Hp.
Qed.

Lemma frees_spec ps h :
  NoDup (owned ps) -> (forall p, p ∈ owned ps -> is_Some (h !! p)) -> frees ps h = Some (without (owned ps) h).
Proof.
  revert h. induction ps as [|p ps IH]; intros h Hnd Hl; [by rewrite without_nil|].
  unfold frees. cbn [foldl mbind option_bind]. rewrite free_owned.
  2: { destruct (decide (p = 0)); [by left|right]. split; [done|]. apply Hl. unfold owned. rewrite filter_cons_True by done. left. }
  change (p :: ps) with ([p] ++ ps) in Hnd, Hl |- *. unfold owned in *. rewrite filter_app in *.
  apply NoDup_app in Hnd as (_ & Hd & Hnd). unfold frees in IH. rewrite IH; [by rewrite without_without|done|].
  intros q Hq. rewrite lookup_without by (intros Hq'; by apply (Hd q)). apply Hl. set_solver.
Qed.

(** ** Lists of nodes *)

Section chain.
Variable reads : block -> option (Z * list Z).

(** What a node has: the next node and the blocks freed before the node itself. *)
Inductive chain (h : heap) : Z -> list Z -> Prop :=
  | chain_end : chain h 0 []
  | chain_node p b next ptrs ps : p <> 0 -> h !! p = Some b -> reads b = Some (next, ptrs) -> chain h next ps ->
      chain h p (owned (ptrs ++ [p]) ++ ps).

Lemma node_chain_frame h h' node ps : (forall k, k ∈ ps -> h' !! k = h !! k) -> chain h node ps -> chain h' node ps.
Proof.
  intros Hk Hc. induction Hc as [|p b next ptrs ps Hp Hb Hr Hc IH]; [constructor|].
  econstructor; [done| |done|apply IH; set_solver]. rewrite Hk; [done|]. unfold owned. rewrite filter_app, filter_cons_True by done. set_solver.
Qed.

Variable body : heap -> Z -> option (heap * Z).
Hypothesis body_frees : forall h p b next ptrs,
  h !! p = Some b -> reads b = Some (next, ptrs) -> body h p = (h ← frees (ptrs ++ [p]) h; Some (h, next)).

Lemma while_node_frees fuel h node ps :
  chain h node ps -> NoDup ps -> (forall p, p ∈ ps -> is_Some (h !! p)) -> (length ps < fuel)%nat ->
  while_node body fuel h node = Done (without ps h).
Proof.
  revert h node ps. induction fuel as [|fuel IH]; intros h node ps Hc Hnd Hl Hf; [lia|]. cbn [while_node].
  destruct Hc as [|p b next ptrs ps Hp Hb Hr Hc]; [by rewrite without_nil|].
  rewrite (proj2 (Z.eqb_neq _ _)), (body_frees _ _ _ _ _ Hb Hr) by done. apply NoDup_app in Hnd as (Hnd1 & Hd & Hnd2).
  rewrite frees_spec by (try done; set_solver). cbn [mbind option_bind try run_bind].
  rewrite (IH _ _ ps); [by rewrite without_without| |done| |].
  - eapply node_chain_frame; [|exact Hc]. intros k Hk. apply lookup_without. intros Hk'. by apply (Hd k).
  - intros k Hk. rewrite lookup_without; [set_solver|]. intros Hk'. by apply (Hd k).
  - unfold owned in Hf. rewrite filter_app, filter_cons_True in Hf by done. rewrite !length_app in Hf. simpl in Hf. lia.
Qed.
End chain.

(** A structure: its blocks are different from each other and all there. *)
Definition blocks_ok (h : heap) (ps : list Z) : Prop := NoDup ps /\ forall p, p ∈ ps -> p <> 0 /\ is_Some (h !! p).

Lemma structure_app h ps qs :
  blocks_ok h (ps ++ qs) -> blocks_ok h ps /\ blocks_ok h qs /\ blocks_ok (without ps h) qs.
Proof.
  intros [Hnd Hl]. apply NoDup_app in Hnd as (H1 & Hd & H2). split_and!; (split; [done|]); [set_solver..|].
  intros p Hp. rewrite lookup_without; [set_solver|]. intros Hp'. by apply (Hd p).
Qed.

Lemma blocks_free h p : blocks_ok h [p] -> free p h = Some (without [p] h).
Proof. intros [_ H]. apply free_live. apply H. left. Qed.

Definition regex_reads (b : block) : option (Z * list Z) :=
  match b with Regex next regex pextra pattern => Some (next, [regex; pextra; pattern]) | _ => None end.

Definition number_reads (b : block) : option (Z * list Z) := match b with Number next => Some (next, []) | _ => None end.

Definition page_reads (b : block) : option (Z * list Z) := match b with Page moar _ => Some (moar, []) | _ => None end.

(** [peak_regex_exit] frees the expressions, their studies if any, the texts, the nodes and the
    root, each once. *)
Theorem regex_exit_frees fuel h root head ps :
  h !! root = Some (Regexes head) -> chain regex_reads h head ps -> blocks_ok h (ps ++ [root]) -> (length ps < fuel)%nat ->
  peak_regex_exit fuel h root = Done (without (ps ++ [root]) h).
Proof.
  intros Hr Hc Hok Hf. destruct (structure_app _ _ _ Hok) as ([Hnd Hl] & [_ H0] & Hok').
  unfold peak_regex_exit. rewrite (proj2 (Z.eqb_neq _ _)), Hr by (by apply H0; left).
  rewrite (while_node_frees regex_reads) with (ps := ps); [|intros ? ? [] ? ? E ?; simplify_eq/=; unfold regex_exit_body; rewrite E; cbn|done|done|apply Hl|done].
  - cbn [mbind run_bind]. by rewrite blocks_free, without_without by done.
  - repeat (destruct (free _ _); [|done]; cbn). all: try done.
Qed.

Theorem number_exit_frees fuel h self string length ps qs :
  h !! self = Some (Numbers string length) ->
  chain number_reads h string ps -> chain number_reads h length qs ->
  blocks_ok h (ps ++ qs ++ [self]) -> (List.length (ps ++ qs) < fuel)%nat ->
  peak_number_exit fuel h self = Done (without (ps ++ qs ++ [self]) h).
Proof.
  intros Hr Hc1 Hc2 Hok Hf. rewrite length_app in Hf.
  destruct (structure_app _ _ _ Hok) as ([Hnd1 Hl1] & Hok2 & Hok1). destruct (structure_app _ _ _ Hok2) as (_ & [_ H0] & _).
  destruct (structure_app _ _ _ Hok1) as ([Hnd2 Hl2] & _ & Hok3). destruct Hok as [Hnd _]. apply NoDup_app in Hnd as (_ & Hd & _).
  assert (forall h p b next ptrs, h !! p = Some b -> number_reads b = Some (next, ptrs) ->
    number_exit_body h p = (h ← frees (ptrs ++ [p]) h; Some (h, next))) as Hb.
  { intros h0 p b next ptrs E Hb. unfold number_exit_body. rewrite E. destruct b; simplify_eq/=. done. }
  unfold peak_number_exit. rewrite (proj2 (Z.eqb_neq _ _)), Hr by (by apply H0; left).
  rewrite (while_node_frees number_reads) with (ps := ps) by (done || apply Hl1 || lia). cbn [mbind run_bind].
  rewrite (while_node_frees number_reads) with (ps := qs); [|done| |done|apply Hl2|lia].
  - cbn [mbind run_bind]. by rewrite blocks_free, !without_without by done.
  - apply (node_chain_frame number_reads h); [|done]. intros k Hk. apply lookup_without. intros Hk'. apply (Hd k); set_solver.
Qed.

(** ** The nodes of strings *)

(** The pages from one on, each with the pages of its elements. *)
Inductive pages := Nil | More (page : Z) (elems : list pages) (moar : pages).

(** They are in the heap; a page has an element. *)
Fixpoint stored (h : heap) (next : Z) (t : pages) : Prop :=
  match t with
  | Nil => next = 0
  | More p ts rest => next = p /\ exists moar es, h !! p = Some (Page moar es) /\ es <> [] /\ stored h moar rest /\
      (fix all (ts : list pages) (es : list Z) {struct ts} : Prop := match ts, es with
        | [], [] => True
        | t :: ts, e :: es => stored h e t /\ all ts es
        | _, _ => False
        end) ts es
  end.

Fixpoint all_pages (t : pages) : list Z :=
  match t with Nil => [] | More p ts rest => p :: concat (map all_pages ts) ++ all_pages rest end.

Fixpoint spine (t : pages) : list Z := match t with Nil => [] | More p _ rest => p :: spine rest end.
Fixpoint kids (t : pages) : list Z := match t with Nil => [] | More _ ts rest => concat (map all_pages ts) ++ kids rest end.

(** All pages and all elements; the elements of the pages of one node. *)
Fixpoint weight (t : pages) : nat :=
  match t with Nil => O | More _ ts rest => S (sum_list_with (fun t => S (weight t)) ts + weight rest) end.
Fixpoint count (t : pages) : nat := match t with Nil => O | More _ ts rest => (length ts + count rest)%nat end.

Lemma stored_More h next p ts rest :
  stored h next (More p ts rest) <->
  next = p /\ exists moar es, h !! p = Some (Page moar es) /\ es <> [] /\ stored h moar rest /\ Forall2 (stored h) es ts.
Proof.
  cbn [stored].
  match goal with |- context [?f ts _] => set (all := f) end.
  assert (forall ts es, all ts es <-> Forall2 (stored h) es ts) as Hall.
  { clear. induction ts as [|t ts IH]; intros [|e es]; cbn; rewrite ?Forall2_cons, ?IH; try done.
    all: split; [by intros|by inversion 1]. }
  by setoid_rewrite Hall.
Qed.

Lemma all_pages_perm t : all_pages t ≡ₚ kids t ++ spine t.
Proof.
  induction t as [|p ts rest IH]; [done|]. cbn. rewrite IH, app_assoc. apply Permutation_middle.
Qed.

Lemma weight_le t : (count t + length (spine t) <= weight t)%nat.
Proof.
  induction t as [|p ts rest IH]; [done|]. cbn. assert (length ts <= sum_list_with (fun t => S (weight t)) ts)%nat; [|lia].
  clear. induction ts; cbn; lia.
Qed.

Fixpoint elems_weigh (n : nat) (t : pages) : Prop :=
  match t with Nil => True | More _ ts rest => Forall (fun t => weight t < n)%nat ts /\ elems_weigh n rest end.

Lemma weight_elems n t : (weight t <= n)%nat -> elems_weigh n t.
Proof.
  induction t as [|p ts rest IH]; [done|]. cbn. intros H. split; [|apply IH; lia]. revert H. generalize (weight rest). clear.
  induction ts as [|t ts IH]; cbn; intros k H; constructor; [lia|]. apply (IH k). lia.
Qed.

Lemma stored_frame h h' next t : (forall k, k ∈ all_pages t -> h' !! k = h !! k) -> stored h next t -> stored h' next t.
Proof.
  remember (weight t) as n eqn:En. assert (weight t <= n)%nat as Hn by lia. clear En. revert next t Hn.
  induction n as [|n IH]; intros next [|p ts rest] Hn Hk Hs; try done; [cbn in Hn; lia|].
  apply stored_More. apply stored_More in Hs as (-> & moar & es & Hp & He & Hr & Hall). split; [done|]. exists moar, es.
  cbn in Hn, Hk. split_and!; [by rewrite Hk by set_solver|done|apply IH; [lia|set_solver|done]|].
  assert (forall k, k ∈ concat (map all_pages ts) -> h' !! k = h !! k) as Hk' by set_solver. clear Hk Hr Hp He.
  assert (sum_list_with (fun t => S (weight t)) ts <= S n)%nat as Hn' by lia. clear Hn. revert Hn' Hk'.
  induction Hall as [|e t es ts He Hall IHall]; cbn; intros Hn Hk; constructor.
  - apply IH; [lia|set_solver|done].
  - apply IHall; [lia|set_solver].
Qed.

Lemma blocks_perm h ps qs : ps ≡ₚ qs -> blocks_ok h ps -> blocks_ok h qs.
Proof. intros H [Hnd Hl]. split; [by rewrite <- H|]. intros p Hp. apply Hl. by rewrite H. Qed.

(** The loop over the elements, if the recursion frees the pages of each. *)
Lemma foreach_elem_frees body n fuel :
  (forall h next t, stored h next t -> blocks_ok h (all_pages t) -> (weight t < n)%nat -> body h next = Done (without (all_pages t) h)) ->
  forall h p moar es i ts rest,
  h !! p = Some (Page moar es) -> Forall2 (stored h) (drop i es) ts -> ts <> [] -> stored h moar rest ->
  blocks_ok h (p :: concat (map all_pages ts) ++ all_pages rest) ->
  Forall (fun t => weight t < n)%nat ts -> elems_weigh n rest -> (length ts + count rest < fuel)%nat ->
  foreach_elem body fuel h p i = Done (without (concat (map all_pages ts) ++ kids rest) h).
Proof.
  intros Hbody. induction fuel as [|fuel IH]; intros h p moar es i ts rest Hp Hts Hne Hrest Hok Hw Hwr Hf; [lia|].
  cbn [foreach_elem]. destruct (Hok) as [Hnd Hl]. rewrite (proj2 (Z.eqb_neq _ _)), Hp by (apply Hl; left).
  destruct ts as [|t ts]; [done|]. destruct (drop i es) as [|e es'] eqn:Ed; [by inversion Hts|]. apply Forall2_cons in Hts as [He Hts].
  assert (es !! i = Some e) as Ei by (rewrite <- (Nat.add_0_r i), <- lookup_drop, Ed; done).
  assert (drop (S i) es = es') as Ed' by (rewrite <- Nat.add_1_r, <- drop_drop, Ed; done).
  rewrite Ei. cbn [try mbind run_bind]. cbn [map concat] in Hok |- *. apply Forall_cons in Hw as [Hwt Hw].
  assert (blocks_ok h (all_pages t ++ p :: concat (map all_pages ts) ++ all_pages rest)) as Hok'.
  { eapply blocks_perm; [|exact Hok]. rewrite <- app_assoc. apply Permutation_middle. }
  destruct (structure_app _ _ _ Hok') as (Hokt & _ & Hokr). rewrite (Hbody _ _ t) by done. cbn [mbind run_bind].
  set (h1 := without (all_pages t) h). destruct Hok' as [Hnd' _]. apply NoDup_app in Hnd' as (_ & Hd & _).
  assert (forall k, k ∈ p :: concat (map all_pages ts) ++ all_pages rest -> h1 !! k = h !! k) as Hsame.
  { intros k Hk. apply lookup_without. intros Hk'. by apply (Hd k). }
  rewrite (Hsame p), Hp by left. cbn [length] in Hf.
  assert (stored h1 moar rest) as Hrest1 by (eapply stored_frame; [|exact Hrest]; intros k Hk; apply Hsame; set_solver).
  pose proof (length_drop es i) as Hlen. rewrite Ed in Hlen. cbn in Hlen.
  destruct ts as [|t' ts].
  - assert (es' = []) as -> by (by inversion Hts). destruct (Nat.ltb_spec i (pred (length es))); [cbn in Hlen; lia|].
    destruct rest as [|p2 ts2 rest2].
    + cbn in Hrest1. subst moar. destruct fuel as [|fuel]; [cbn in Hf; lia|]. cbn. by rewrite !app_nil_r.
    + apply stored_More in Hrest1 as (-> & moar2 & es2 & Hp2 & He2 & Hr2 & Hts2). destruct Hwr as [Hw2 Hwr].
      assert (ts2 <> []) by (intros ->; by inversion Hts2; subst).
      rewrite (IH h1 p2 moar2 es2 0%nat ts2 rest2); try done; [|by destruct (structure_app h1 [p] _ Hokr) as (_ & ? & _)|cbn in Hf; lia].
      cbn. rewrite app_nil_r. f_equal. apply without_without.
  - assert (length es' <> 0)%nat by (by inversion Hts). destruct (Nat.ltb_spec i (pred (length es))); [|lia].
    rewrite (IH h1 p moar es (S i) (t' :: ts) rest); try done; [|by rewrite Hsame by left| |lia].
    + rewrite <- app_assoc. f_equal. apply without_without.
    + rewrite Ed'. assert (forall k, k ∈ concat (map all_pages (t' :: ts)) -> h1 !! k = h !! k) as Hk by (intros k Hk; apply Hsame; set_solver).
      clear - Hts Hk. revert Hk. induction Hts as [|e2 t2 es2 ts2 H2 Hts IH]; intros Hk; constructor.
      * eapply stored_frame; [|exact H2]. intros k Hk2. apply Hk. cbn. set_solver.
      * apply IH. intros k Hk2. apply Hk. cbn. set_solver.
Qed.

(** The pages of a node are a list of nodes for [PAGE_COLLAPSE]. *)
Lemma stored_spine h next t : stored h next t -> (forall p, p ∈ spine t -> p <> 0) -> chain page_reads h next (spine t).
Proof.
  revert next. induction t as [|p ts rest IH]; intros next Hs H0; [cbn in Hs; subst; constructor|].
  apply stored_More in Hs as (-> & moar & es & Hp & _ & Hr & _). cbn in *.
  assert (owned ([] ++ [p]) = [p]) as Eo by (unfold owned; cbn; by rewrite decide_True by (apply H0; left)).
  change (p :: spine rest) with ([p] ++ spine rest). rewrite <- Eo.
  eapply chain_node; [apply H0; left|exact Hp|done|]. apply IH; [done|set_solver].
Qed.

Lemma _peak_string_exit_frees fuel h next t :
  stored h next t -> blocks_ok h (all_pages t) -> (weight t < fuel)%nat ->
  _peak_string_exit fuel h next = Done (without (all_pages t) h).
Proof.
  revert h next t. induction fuel as [|fuel IH]; intros h next t Hs Hok Hf; [lia|]. cbn [_peak_string_exit].
  pose proof (weight_le t) as Hw. pose proof (blocks_perm _ _ _ (all_pages_perm t) Hok) as Hok'.
  destruct (structure_app _ _ _ Hok') as (_ & [Hnd2 Hl] & [_ Hl2]). destruct Hok' as [Hnd _]. apply NoDup_app in Hnd as (_ & Hd & _).
  assert (foreach_elem (_peak_string_exit fuel) (S fuel) h next 0 = Done (without (kids t) h)) as ->.
  { destruct t as [|p ts rest]; [cbn in Hs; subst next; cbn; by rewrite without_nil|].
    pose proof (weight_elems fuel (More p ts rest)) as [Hw1 Hw2]; [lia|]. apply stored_More in Hs as (-> & moar & es & Hp & He & Hr & Hts).
    eapply foreach_elem_frees; [exact IH|exact Hp|exact Hts| |done|done|exact Hw1|exact Hw2|cbn in *; lia].
    intros ->. by inversion Hts; subst. }
  cbn [mbind run_bind]. rewrite (while_node_frees page_reads) with (ps := spine t); [|..|done|apply Hl2|lia].
  - rewrite without_without. f_equal. apply without_ext. intros k. by rewrite all_pages_perm.
  - intros h0 p b m ptrs E Hb. unfold collapse_body. rewrite E. destruct b; simplify_eq/=. done.
  - apply (node_chain_frame page_reads h); [|by apply stored_spine; [|apply Hl]]. intros k Hk. apply lookup_without. intros Hk'. by apply (Hd k).
Qed.

(** C31.  Releasing strings ends and frees every page of every node, and the root, once: what is
    left of the heap is what was outside.  Nothing that was freed is read or freed again, though the
    pages of a node are only freed after those of all nodes below. *)
Theorem string_exit_frees fuel h root next t :
  h !! root = Some (Strings next) -> stored h next t -> blocks_ok h (all_pages t ++ [root]) -> (weight t < fuel)%nat ->
  peak_string_exit fuel h root = Done (without (all_pages t ++ [root]) h).
Proof.
  intros Hr Hs Hok Hf. destruct (structure_app _ _ _ Hok) as (Hok1 & [_ H0] & Hok2).
  unfold peak_string_exit. rewrite (proj2 (Z.eqb_neq _ _)), Hr by (by apply H0; left).
  rewrite (_peak_string_exit_frees _ _ _ t) by done. cbn [mbind run_bind]. by rewrite blocks_free, without_without by done.
Qed.

(** The other structures: what they own, if anything, and they themselves; a descriptor is closed
    unless it is that of the standard input. *)
Theorem tables_exit_free h fds self p :
  blocks_ok h (owned [p; self]) -> self <> 0 ->
  (h !! self = Some (Locates p) -> peak_locate_exit h self = Some (without (owned [p; self]) h)) /\
  (h !! self = Some (Magic p) -> peak_magic_exit h self = Some (without (owned [p; self]) h)) /\
  (forall fd, h !! self = Some (Load fd p) ->
     peak_load_exit h fds self = Some (without (owned [p; self]) h, if decide (fd = STDIN_FILENO) then fds else fds ∖ {[fd]})).
Proof.
  intros [Hnd Hl] Hself. assert (frees [p; self] h = Some (without (owned [p; self]) h)) as Hf by (apply frees_spec; [done|intros q Hq; by apply Hl]).
  unfold frees in Hf. cbn [foldl mbind option_bind] in Hf. unfold peak_locate_exit, peak_magic_exit, peak_load_exit.
  rewrite (proj2 (Z.eqb_neq self 0)) by done. split_and!; [by intros ->..|]. intros fd ->.
  destruct (free p h) as [h1|]; cbn [mbind option_bind] in *; [|done]. rewrite Hf. cbn [mbind option_bind]. unfold close.
  destruct (Z.eqb_spec fd STDIN_FILENO); [by rewrite decide_True|by rewrite decide_False].
Qed.

(** Two pages; the first element of the first one has a page below. *)
Definition sample_pages : pages := More 10 [More 30 [Nil] Nil; Nil] (More 20 [Nil] Nil).
Definition sample_heap : heap :=
  <[1 := Strings 10]> (<[10 := Page 20 [30; 0]]> (<[20 := Page 0 [0]]> (<[30 := Page 0 [0]]> (<[40 := Data]> ∅)))).

Lemma string_exit_frees_witness :
  stored sample_heap 10 sample_pages /\ peak_string_exit 9 sample_heap 1 = Done (without [10; 30; 20; 1] sample_heap).
Proof.
  assert (stored sample_heap 10 sample_pages) as Hs.
  { cbn. split; [done|]. eexists _, _. split; [reflexivity|]. split; [done|]. split; [|split; [|done]].
    - split; [done|]. eexists _, _. split; [reflexivity|]. done.
    - split; [done|]. eexists _, _. split; [reflexivity|]. done. }
  split; [exact Hs|]. apply (string_exit_frees 9 sample_heap 1 10 sample_pages); [reflexivity|exact Hs| |cbn; lia].
  split; [repeat constructor; set_solver|]. intros p Hp. repeat (apply elem_of_cons in Hp as [->|Hp]); [by split..|by apply elem_of_nil in Hp].
Defined.
