(* ===== verification/Tree.v ===== *)
(** * Red-black trees

    Models the [RB_*] part of [include/sys/tree.h] as [RB_GENERATE] instantiates it
    for an element type and a comparison.  The nodes linked by left, right and
    parent pointers are a tree; a pointer to a node is the subtree below it and the
    way up from it to the root, one [frame] per parent pointer.  Code that follows
    [RB_PARENT] goes up that way, a rotation rearranges the nodes around it.
    [RB_AUGMENT] is empty.  [None] is a NULL pointer dereferenced. *)

From S2P Require Import Prelude Order.

Open Scope Z_scope.

Inductive color := RB_BLACK | RB_RED.

#[export] Instance color_eq_dec : EqDecision color.
Proof. solve_decision. Defined.

Section operations.
Context {A : Type} (cmp : A -> A -> Z).

(** NULL, or a node with its [RB_COLOR], [RB_LEFT] and [RB_RIGHT]. *)
Inductive tree := NULL | Node (c : color) (l : tree) (x : A) (r : tree).

(** The parent of a node, and the parent's other child. *)
Inductive frame :=
  | LeftOf (c : color) (x : A) (r : tree)
  | RightOf (c : color) (l : tree) (x : A).

Abbreviation path := (list frame).

Definition attach (t : tree) (f : frame) : tree :=
  match f with LeftOf c x r => Node c t x r | RightOf c l x => Node c l x t end.

(** The root, from a node. *)
Definition plug (t : tree) (p : path) : tree := foldl attach t p.

Definition is_red (t : tree) : bool := match t with Node RB_RED _ _ _ => true | _ => false end.
Definition frame_red (f : frame) : bool :=
  match f with LeftOf RB_RED _ _ | RightOf RB_RED _ _ => true | _ => false end.

(** [RB_COLOR(t, field) = c], of a pointer that may not be NULL. *)
Definition set_color (c : color) (t : tree) : option tree :=
  match t with NULL => None | Node _ l x r => Some (Node c l x r) end.

(** The same under [if (t)]. *)
Definition paint (c : color) (t : tree) : tree :=
  match t with NULL => NULL | Node _ l x r => Node c l x r end.

(** [RB_ROTATE_LEFT], [RB_ROTATE_RIGHT]: the child that moves up may not be NULL. *)
Definition RB_ROTATE_LEFT (elm : tree) : option tree :=
  match elm with
  | Node c l x (Node c' l' x' r') => Some (Node c' (Node c l x l') x' r')
  | _ => None
  end.

Definition RB_ROTATE_RIGHT (elm : tree) : option tree :=
  match elm with
  | Node c (Node c' l' x' r') x r => Some (Node c' l' x' (Node c r' x r))
  | _ => None
  end.

Definition RB_EMPTY (t : tree) : bool := match t with NULL => true | _ => false end.

Definition RB_ROOT (t : tree) : option A := match t with NULL => None | Node _ _ x _ => Some x end.

(** ** Lookup *)

Fixpoint RB_FIND (head : tree) (elm : A) : option A :=
  match head with
  | NULL => None
  | Node _ l x r =>
      let comp := cmp elm x in
      if comp <? 0 then RB_FIND l elm else if 0 <? comp then RB_FIND r elm else Some x
  end.

Fixpoint nfind_loop (tmp : tree) (elm : A) (res : option A) : option A :=
  match tmp with
  | NULL => res
  | Node _ l x r =>
      let comp := cmp elm x in
      if comp <? 0 then nfind_loop l elm (Some x) else if 0 <? comp then nfind_loop r elm res else Some x
  end.

Definition RB_NFIND (head : tree) (elm : A) : option A := nfind_loop head elm None.

(** ** Positions *)

(** [while (RB_LEFT(elm)) elm = RB_LEFT(elm)] from the node [elm]. *)
Fixpoint leftmost (c : color) (l : tree) (x : A) (r : tree) (p : path) : tree * path :=
  match l with
  | NULL => (Node c l x r, p)
  | Node c' l' x' r' => leftmost c' l' x' r' (LeftOf c x r :: p)
  end.

Fixpoint rightmost (c : color) (l : tree) (x : A) (r : tree) (p : path) : tree * path :=
  match r with
  | NULL => (Node c l x r, p)
  | Node c' l' x' r' => rightmost c' l' x' r' (RightOf c l x :: p)
  end.

(** [RB_MINMAX(head, val)]. *)
Definition RB_MINMAX (head : tree) (val : Z) : option (tree * path) :=
  match head with
  | NULL => None
  | Node c l x r => Some (if val <? 0 then leftmost c l x r [] else rightmost c l x r [])
  end.

(** The way up from a right child, to the first node that is not one. *)
Fixpoint climb_left (t : tree) (p : path) : option (tree * path) :=
  match p with
  | RightOf c l x :: p => climb_left (Node c l x t) p
  | LeftOf c x r :: p => Some (Node c t x r, p)
  | [] => None
  end.

(** [RB_NEXT]: the leftmost node to the right, or the first parent on the right. *)
Definition RB_NEXT (elm : tree * path) : option (option (tree * path)) :=
  match elm with
  | (NULL, _) => None
  | (Node c l x (Node c' l' x' r'), p) => Some (Some (leftmost c' l' x' r' (RightOf c l x :: p)))
  | (Node c l x NULL, p) => Some (climb_left (Node c l x NULL) p)
  end.

Definition node_of (elm : tree * path) : option A := RB_ROOT (fst elm).

(** The elements [RB_FOREACH] visits from [elm] on. *)
Fixpoint foreach_loop (fuel : nat) (elm : option (tree * path)) : option (list A) :=
  match elm with
  | None => Some []
  | Some pos =>
      match fuel with
      | O => None
      | S fuel =>
          x ← node_of pos;
          next ← RB_NEXT pos;
          xs ← foreach_loop fuel next;
          Some (x :: xs)
      end
  end.

Definition RB_FOREACH (fuel : nat) (head : tree) : option (list A) :=
  foreach_loop fuel (RB_MINMAX head (-1)).

(** The mirror images, with [RB_MAX] and [RB_PREV]. *)
Fixpoint climb_right (t : tree) (p : path) : option (tree * path) :=
  match p with
  | LeftOf c x r :: p => climb_right (Node c t x r) p
  | RightOf c l x :: p => Some (Node c l x t, p)
  | [] => None
  end.

Definition RB_PREV (elm : tree * path) : option (option (tree * path)) :=
  match elm with
  | (NULL, _) => None
  | (Node c (Node c' l' x' r') x r, p) => Some (Some (rightmost c' l' x' r' (LeftOf c x r :: p)))
  | (Node c NULL x r, p) => Some (climb_right (Node c NULL x r) p)
  end.

Fixpoint foreach_reverse_loop (fuel : nat) (elm : option (tree * path)) : option (list A) :=
  match elm with
  | None => Some []
  | Some pos =>
      match fuel with
      | O => None
      | S fuel =>
          x ← node_of pos;
          prev ← RB_PREV pos;
          xs ← foreach_reverse_loop fuel prev;
          Some (x :: xs)
      end
  end.

Definition RB_FOREACH_REVERSE (fuel : nat) (head : tree) : option (list A) :=
  foreach_reverse_loop fuel (RB_MINMAX head 1).

(** ** Insertion *)

(** The end of [RB_INSERT_COLOR]: the root turns black. *)
Definition root_black (root : tree) : option tree := set_color RB_BLACK root.

(** [elm] is red.  Its parent is the first frame, its grandparent the second.  After
    the rotation around the grandparent the parent of [elm] is black, so the loop
    ends. *)
Fixpoint RB_INSERT_COLOR (elm : tree) (p : path) : option tree :=
  match p with
  | [] => root_black elm
  | parent :: p' =>
      if frame_red parent then
        match p' with
        | [] => None
        | gparent :: up =>
            match gparent with
            | LeftOf _ g tmp =>
                if is_red tmp then
                  pt ← set_color RB_BLACK (attach elm parent);
                  RB_INSERT_COLOR (Node RB_RED pt g (paint RB_BLACK tmp)) up
                else
                  pt ← match parent with
                       | RightOf _ _ _ => RB_ROTATE_LEFT (attach elm parent)
                       | LeftOf _ _ _ => Some (attach elm parent)
                       end;
                  pt ← set_color RB_BLACK pt;
                  gt ← RB_ROTATE_RIGHT (Node RB_RED pt g tmp);
                  root_black (plug gt up)
            | RightOf _ tmp g =>
                if is_red tmp then
                  pt ← set_color RB_BLACK (attach elm parent);
                  RB_INSERT_COLOR (Node RB_RED (paint RB_BLACK tmp) g pt) up
                else
                  pt ← match parent with
                       | LeftOf _ _ _ => RB_ROTATE_RIGHT (attach elm parent)
                       | RightOf _ _ _ => Some (attach elm parent)
                       end;
                  pt ← set_color RB_BLACK pt;
                  gt ← RB_ROTATE_LEFT (Node RB_RED tmp g pt);
                  root_black (plug gt up)
            end
        end
      else root_black (plug elm p)
  end.

(** The descent: an equal node, or the place below the last node. *)
Fixpoint insert_loop (tmp : tree) (elm : A) (p : path) : A + path :=
  match tmp with
  | NULL => inr p
  | Node c l x r =>
      let comp := cmp elm x in
      if comp <? 0 then insert_loop l elm (LeftOf c x r :: p)
      else if 0 <? comp then insert_loop r elm (RightOf c l x :: p)
      else inl x
  end.

(** The tree, and the element that was in the way, or NULL. *)
Definition RB_INSERT (head : tree) (elm : A) : option (tree * option A) :=
  match insert_loop head elm [] with
  | inl x => Some (head, Some x)
  | inr p => root ← RB_INSERT_COLOR (Node RB_RED NULL elm NULL) p; Some (root, None)
  end.

(** ** Removal *)

(** Not NULL and red. *)
Definition black_or_null (t : tree) : bool := negb (is_red t).

(** One round of the loop of [RB_REMOVE_COLOR], where [elm] is the left child of its
    parent ([c], [x]) and [tmp] the right one: a node to go on with, or the tree that
    takes the parent's place when the loop ends in a rotation. *)
Definition remove_left (elm : tree) (c : color) (x : A) (tmp : tree) : option (tree + tree) :=
  match tmp with
  | NULL => None
  | Node ct tl y tr =>
      if black_or_null tl && black_or_null tr
      then Some (inl (Node c elm x (Node RB_RED tl y tr)))
      else
        tmp ← (if black_or_null tr
               then RB_ROTATE_RIGHT (Node RB_RED (paint RB_BLACK tl) y tr)
               else Some tmp);
        match tmp with
        | NULL => None
        | Node _ tl y tr => inr <$> RB_ROTATE_LEFT (Node RB_BLACK elm x (Node c tl y (paint RB_BLACK tr)))
        end
  end.

Definition remove_right (elm : tree) (c : color) (x : A) (tmp : tree) : option (tree + tree) :=
  match tmp with
  | NULL => None
  | Node ct tl y tr =>
      if black_or_null tl && black_or_null tr
      then Some (inl (Node c (Node RB_RED tl y tr) x elm))
      else
        tmp ← (if black_or_null tl
               then RB_ROTATE_LEFT (Node RB_RED tl y (paint RB_BLACK tr))
               else Some tmp);
        match tmp with
        | NULL => None
        | Node _ tl y tr => inr <$> RB_ROTATE_RIGHT (Node RB_BLACK (Node c (paint RB_BLACK tl) y tr) x elm)
        end
  end.

(** [if (RB_COLOR(tmp) == RB_RED)]: the parent turns red, its sibling black above it.
    The parent's color, its other child, and the way up after that. *)
Definition red_sibling_left (c : color) (x : A) (tmp : tree) (up : path) : option (color * tree * path) :=
  match tmp with
  | NULL => None
  | Node RB_RED tl y tr => Some (RB_RED, tl, LeftOf RB_BLACK y tr :: up)
  | Node RB_BLACK _ _ _ => Some (c, tmp, up)
  end.

Definition red_sibling_right (c : color) (x : A) (tmp : tree) (up : path) : option (color * tree * path) :=
  match tmp with
  | NULL => None
  | Node RB_RED tl y tr => Some (RB_RED, tr, RightOf RB_BLACK tl y :: up)
  | Node RB_BLACK _ _ _ => Some (c, tmp, up)
  end.

(** [elm] is a node or NULL; the way up says whose child it is. *)
Fixpoint RB_REMOVE_COLOR (fuel : nat) (elm : tree) (p : path) : option tree :=
  if is_red elm then Some (plug (paint RB_BLACK elm) p)
  else
    match p with
    | [] => Some (paint RB_BLACK elm)
    | parent :: up =>
        match fuel with
        | O => None
        | S fuel =>
            '(round, up) ← match parent with
              | LeftOf c x tmp =>
                  '(c, tmp, up) ← red_sibling_left c x tmp up;
                  r ← remove_left elm c x tmp; Some (r, up)
              | RightOf c tmp x =>
                  '(c, tmp, up) ← red_sibling_right c x tmp up;
                  r ← remove_right elm c x tmp; Some (r, up)
              end;
            match (round : tree + tree) with
            | inl elm => RB_REMOVE_COLOR fuel elm up
            | inr t => Some (paint RB_BLACK (plug t up))
            end
        end
    end.

(** The rounds of the loop: one per level, and one more after a rotation. *)
Definition remove_fuel (p : path) : nat := S (S (length p)).

(** [color:] at the end of [RB_REMOVE]. *)
Definition remove_fix (c : color) (child : tree) (p : path) : option tree :=
  if decide (c = RB_BLACK) then RB_REMOVE_COLOR (remove_fuel p) child p else Some (plug child p).

(** [RB_REMOVE] of the node [elm] points to: unlink it if it lacks a child, otherwise
    unlink the leftmost node [y] of its right subtree and put that in its place, with its
    color. *)
Definition RB_REMOVE (elm : tree * path) : option tree :=
  match elm with
  | (NULL, _) => None
  | (Node c NULL _ r, p) => remove_fix c r p
  | (Node c l _ NULL, p) => remove_fix c l p
  | (Node c l _ (Node c' l' x' r'), p) =>
      match leftmost c' l' x' r' [] with
      | (Node cy _ y child, q) => remove_fix cy child (q ++ RightOf c l y :: p)
      | (NULL, _) => None
      end
  end.

End operations.
Arguments tree : clear implicits.
Arguments frame : clear implicits.

(** ** In-order contents *)

Section shape.
Context {A : Type}.
Implicit Types (t l r elm tmp : tree A) (x y : A) (p up : list (frame A)).

Fixpoint elements (t : tree A) : list A :=
  match t with NULL => [] | Node _ l x r => elements l ++ x :: elements r end.

(** What is in front of a position, and behind it. *)
Fixpoint before (p : list (frame A)) : list A :=
  match p with
  | [] => []
  | LeftOf _ _ _ :: p => before p
  | RightOf _ l x :: p => before p ++ elements l ++ [x]
  end.

Fixpoint after (p : list (frame A)) : list A :=
  match p with
  | [] => []
  | LeftOf _ x r :: p => x :: elements r ++ after p
  | RightOf _ _ _ :: p => after p
  end.

Lemma elements_plug t p : elements (plug t p) = before p ++ elements t ++ after p.
Proof.
  revert t. induction p as [|[c x r|c l x] p IH]; intros t; simpl; [by rewrite app_nil_r| |];
    rewrite IH; simpl; by rewrite <- !app_assoc.
Qed.

Lemma plug_app t q p : plug t (q ++ p) = plug (plug t q) p.
Proof. apply foldl_app. Qed.

Lemma elements_paint c t : elements (paint c t) = elements t.
Proof. by destruct t. Qed.

(** ** Balance *)

(** [n] black nodes on every way down, no red node with a red child. *)
Fixpoint balanced (n : nat) (t : tree A) : Prop :=
  match t with
  | NULL => n = 0%nat
  | Node RB_RED l _ r => is_red l = false /\ is_red r = false /\ balanced n l /\ balanced n r
  | Node RB_BLACK l _ r => match n with O => False | S n => balanced n l /\ balanced n r end
  end.

Definition tree_ok (t : tree A) : Prop := is_red t = false /\ exists n, balanced n t.

(** The place for the root or below a red node takes no red node. *)
Definition slot_black (p : list (frame A)) : bool :=
  match p with [] => true | f :: _ => frame_red f end.

(** The tree around a place for a subtree with [n] black nodes on every way down. *)
Fixpoint path_ok (n : nat) (p : list (frame A)) : Prop :=
  match p with
  | [] => True
  | (LeftOf c _ s | RightOf c s _) :: up =>
      balanced n s /\
      match c with
      | RB_BLACK => path_ok (S n) up
      | RB_RED => is_red s = false /\ slot_black up = false /\ path_ok n up
      end
  end.

Definition fits_slot (t : tree A) (p : list (frame A)) : Prop := slot_black p = true -> is_red t = false.

Lemma plug_ok n t p : balanced n t -> path_ok n p -> fits_slot t p -> tree_ok (plug t p).
Proof.
  unfold fits_slot. revert n t. induction p as [|f up IH]; intros n t Ht Hp Hs.
  { split; [by apply Hs|by exists n]. }
  destruct f as [[] x s|[] s x], Hp as [Hb Hp]; simpl; simpl in Hs.
  - by apply (IH (S n)).
  - destruct Hp as (Hr & Hup & Hp). apply (IH n); [|done|congruence]. simpl. auto.
  - by apply (IH (S n)).
  - destruct Hp as (Hr & Hup & Hp). apply (IH n); [|done|congruence]. simpl. auto.
Qed.

Lemma plug_inv t p : tree_ok (plug t p) -> exists n, balanced n t /\ path_ok n p /\ fits_slot t p.
Proof.
  unfold fits_slot. revert t. induction p as [|f up IH]; intros t.
  { intros [Hr [n Hn]]. exists n. simpl. auto. }
  simpl. intros (m & Hb & Hp & Hs)%IH.
  destruct f as [[] x s|[] s x]; simpl in Hb |- *.
  - destruct m as [|n]; [done|]. exists n. destruct Hb. by split_and!.
  - destruct Hb as (H1 & H2 & H3 & H4). exists m. split_and!; try done. by destruct (slot_black up); [discriminate Hs|].
  - destruct m as [|n]; [done|]. exists n. destruct Hb. by split_and!.
  - destruct Hb as (H1 & H2 & H3 & H4). exists m. split_and!; try done. by destruct (slot_black up); [discriminate Hs|].
Qed.

(** A result on the tree as a whole. *)
Definition yields (o : option (tree A)) (l : list A) : Prop :=
  exists t, o = Some t /\ tree_ok t /\ elements t = l.

Lemma paint_black_ok n t : balanced n t -> tree_ok (paint RB_BLACK t).
Proof.
  destruct t as [|[] l x r]; simpl.
  - intros ->. split; [done|by exists 0%nat].
  - intros H. split; [done|by exists n].
  - intros (H1 & H2 & H3 & H4). split; [done|by exists (S n)].
Qed.

Lemma root_black_paint t : t <> NULL -> root_black t = Some (paint RB_BLACK t).
Proof. by destruct t. Qed.

Lemma root_black_yields n t p :
  balanced n t -> path_ok n p -> fits_slot t p -> t <> NULL ->
  yields (root_black (plug t p)) (before p ++ elements t ++ after p).
Proof.
  intros Ht Hp Hs Hne. destruct (plug_ok n t p Ht Hp Hs) as [_ [m Hm]].
  assert (plug t p <> NULL) as Hpn.
  { clear -Hne. revert t Hne. induction p as [|[] p IH]; simpl; intros t Hne; [done| |]; by apply IH. }
  exists (paint RB_BLACK (plug t p)). split; [by apply root_black_paint|].
  split; [by eapply paint_black_ok|]. by rewrite elements_paint, elements_plug.
Qed.

End shape.

(** Lists that only differ in the grouping. *)
Ltac flat := simpl; repeat (rewrite <- ?app_assoc; simpl); rewrite ?elements_paint; try done.

(** ** Fixing up after an insertion *)

Section insert_color.
Context {A : Type}.
Implicit Types (t l r elm tmp : tree A) (x y g : A) (p up : list (frame A)).

Definition sibling (f : frame A) : tree A := match f with LeftOf _ _ s | RightOf _ s _ => s end.

(** A red parent has a black parent and a black other child. *)
Lemma red_parent n parent p :
  path_ok n (parent :: p) -> frame_red parent = true ->
  balanced n (sibling parent) /\ is_red (sibling parent) = false /\
  exists gparent up, p = gparent :: up /\ frame_red gparent = false /\ path_ok n p.
Proof.
  intros Hp Hf. destruct parent as [[] x s|[] s x]; try done; destruct Hp as (Hb & Hs & Hsl & Hp);
    (split_and!; [done..|]); destruct p as [|gparent up]; try done; by exists gparent, up.
Qed.

(** The rotations of one round, with the parent red and the uncle not. *)
Lemma insert_round_left elm parent g tmp n :
  balanced n elm -> is_red elm = true -> balanced n tmp -> is_red tmp = false ->
  frame_red parent = true -> balanced n (sibling parent) -> is_red (sibling parent) = false ->
  exists pt pt' gt,
    (match parent with
     | RightOf _ _ _ => RB_ROTATE_LEFT (attach elm parent)
     | LeftOf _ _ _ => Some (attach elm parent)
     end) = Some pt /\ set_color RB_BLACK pt = Some pt' /\
    RB_ROTATE_RIGHT (Node RB_RED pt' g tmp) = Some gt /\
    balanced (S n) gt /\ is_red gt = false /\ gt <> NULL /\
    elements gt = elements (attach elm parent) ++ g :: elements tmp.
Proof.
  intros He Hr Ht Hrt Hf Hp Hs. destruct elm as [|[] el ex er]; try done.
  destruct He as (H1 & H2 & H3 & H4).
  destruct parent as [[] x s|[] s x]; try done; simpl in Hp, Hs;
    do 3 eexists; split_and!; try done; simpl; try tauto; flat.
Qed.

Lemma insert_round_right elm parent g tmp n :
  balanced n elm -> is_red elm = true -> balanced n tmp -> is_red tmp = false ->
  frame_red parent = true -> balanced n (sibling parent) -> is_red (sibling parent) = false ->
  exists pt pt' gt,
    (match parent with
     | LeftOf _ _ _ => RB_ROTATE_RIGHT (attach elm parent)
     | RightOf _ _ _ => Some (attach elm parent)
     end) = Some pt /\ set_color RB_BLACK pt = Some pt' /\
    RB_ROTATE_LEFT (Node RB_RED tmp g pt') = Some gt /\
    balanced (S n) gt /\ is_red gt = false /\ gt <> NULL /\
    elements gt = elements tmp ++ g :: elements (attach elm parent).
Proof.
  intros He Hr Ht Hrt Hf Hp Hs. destruct elm as [|[] el ex er]; try done.
  destruct He as (H1 & H2 & H3 & H4).
  destruct parent as [[] x s|[] s x]; try done; simpl in Hp, Hs;
    do 3 eexists; split_and!; try done; simpl; try tauto; flat.
Qed.

(** A red parent below a black grandparent, the uncle red: all of it changes color. *)
Lemma recolor_parent elm parent n :
  balanced n elm -> frame_red parent = true -> balanced n (sibling parent) ->
  exists pt, set_color RB_BLACK (attach elm parent) = Some pt /\ balanced (S n) pt /\ is_red pt = false /\
    elements pt = elements (attach elm parent).
Proof.
  intros He Hf Hp. destruct parent as [[] x s|[] s x]; try done; simpl in Hp;
    eexists; split_and!; done.
Qed.

Lemma paint_red_ok n tmp : balanced n tmp -> is_red tmp = true ->
  balanced (S n) (paint RB_BLACK tmp) /\ is_red (paint RB_BLACK tmp) = false.
Proof. destruct tmp as [|[] l x r]; try done. intros (_ & _ & H) _. done. Qed.

Lemma insert_color_ok p elm n :
  balanced n elm -> is_red elm = true -> path_ok n p ->
  yields (RB_INSERT_COLOR elm p) (before p ++ elements elm ++ after p).
Proof.
  remember (length p) as k eqn:Hk. revert p elm n Hk.
  induction k as [k IH] using lt_wf_ind. intros p elm n -> He Hr Hp.
  destruct p as [|parent p'].
  { exists (paint RB_BLACK elm). split; [by destruct elm|]. split; [by eapply paint_black_ok|].
    by rewrite elements_paint, app_nil_r. }
  assert (elm <> NULL) as Hne by (by destruct elm).
  cbn [RB_INSERT_COLOR]. destruct (frame_red parent) eqn:Hf.
  2:{ apply (root_black_yields n); [done..| |done]. unfold fits_slot. simpl. congruence. }
  destruct (red_parent n parent p' Hp Hf) as (Hb & Hs & gparent & up & -> & Hgf & Hgp).
  assert (before (parent :: gparent :: up) ++ elements elm ++ after (parent :: gparent :: up) =
    before (gparent :: up) ++ elements (attach elm parent) ++ after (gparent :: up)) as ->
    by (destruct parent; flat).
  destruct (recolor_parent elm parent n He Hf Hb) as (pt & Hpt & Hpb & Hpr & Hpe).
  destruct gparent as [[] g tmp|[] tmp g]; try done; destruct Hgp as [Htb Hup]; destruct (is_red tmp) eqn:Ht.
  - destruct (paint_red_ok n tmp Htb Ht) as [Hb1 Hr1]. rewrite Hpt. cbn [mbind option_bind].
    destruct (IH (length up)) with (p := up) (elm := Node RB_RED pt g (paint RB_BLACK tmp)) (n := S n)
      as (t & -> & Hok & Hel); [simpl; lia|done..|]. exists t. split_and!; [done..|].
    rewrite Hel. simpl. rewrite Hpe. flat.
  - destruct (insert_round_left elm parent g tmp n) as (a & b & gt & -> & Hb' & Hgt & Hgb & Hgr & Hgn & Hge);
      try done. cbn [mbind option_bind]. rewrite Hb'. cbn [mbind option_bind]. rewrite Hgt. cbn [mbind option_bind].
    destruct (root_black_yields (S n) gt up) as (t & -> & Hok & Hel); [done|done|by intros _|done|]. exists t. split_and!; [done..|].
    rewrite Hel, Hge. flat.
  - destruct (paint_red_ok n tmp Htb Ht) as [Hb1 Hr1]. rewrite Hpt. cbn [mbind option_bind].
    destruct (IH (length up)) with (p := up) (elm := Node RB_RED (paint RB_BLACK tmp) g pt) (n := S n)
      as (t & -> & Hok & Hel); [simpl; lia|done..|]. exists t. split_and!; [done..|].
    rewrite Hel. simpl. rewrite Hpe. flat.
  - destruct (insert_round_right elm parent g tmp n) as (a & b & gt & -> & Hb' & Hgt & Hgb & Hgr & Hgn & Hge);
      try done. cbn [mbind option_bind]. rewrite Hb'. cbn [mbind option_bind]. rewrite Hgt. cbn [mbind option_bind].
    destruct (root_black_yields (S n) gt up) as (t & -> & Hok & Hel); [done|done|by intros _|done|]. exists t. split_and!; [done..|].
    rewrite Hel, Hge. flat.
Qed.

End insert_color.

(** ** Fixing up after a removal *)

Section remove_color.
Context {A : Type}.
Implicit Types (t l r elm tmp e : tree A) (x y : A) (p up : list (frame A)).

(** [elm] has one black node too few, which it makes up for by turning black. *)
Definition deficient (n : nat) (elm : tree A) : Prop :=
  if is_red elm then balanced (S n) (paint RB_BLACK elm) else balanced n elm.

(** After a round: go on one level up, or a subtree that is right again. *)
Definition round_ok (m : nat) (c : color) (l : list A) (round : tree A + tree A) : Prop :=
  match round with
  | inl e => deficient m e /\ (c = RB_RED -> is_red e = true) /\ elements e = l
  | inr t => balanced (S m) t /\ (is_red t = true -> c = RB_RED) /\ elements t = l
  end.

Definition level (c : color) (n : nat) : nat := match c with RB_BLACK => S n | RB_RED => n end.

Lemma remove_left_ok elm c x tmp n :
  is_red elm = false -> balanced n elm -> is_red tmp = false -> balanced (S n) tmp ->
  exists round, remove_left elm c x tmp = Some round /\
    round_ok (level c n) c (elements elm ++ x :: elements tmp) round.
Proof.
  intros Hr He Hrt Ht. destruct tmp as [|[] tl y tr]; [done| |done]. destruct Ht as [Htl Htr].
  unfold remove_left, black_or_null.
  destruct (is_red tl) eqn:Hl, (is_red tr) eqn:Hr'; cbn [negb andb mbind option_bind].
  - destruct tr as [|[] a z b]; try done. destruct Htr as (? & ? & ? & ?).
    eexists. split; [done|]. destruct c; simpl; (split_and!; try done); flat.
  - destruct tl as [|[] a z b]; try done. destruct Htl as (? & ? & ? & ?).
    eexists. split; [done|].
    destruct tr as [|[] a' z' b']; try done; destruct c; simpl; (split_and!; try done); flat.
  - destruct tr as [|[] a z b]; try done. destruct Htr as (? & ? & ? & ?).
    eexists. split; [done|]. destruct c; simpl; (split_and!; try done); flat.
  - eexists. split; [done|]. destruct c; unfold round_ok, deficient; simpl; (split_and!; try done); flat.
Qed.

Lemma remove_right_ok elm c x tmp n :
  is_red elm = false -> balanced n elm -> is_red tmp = false -> balanced (S n) tmp ->
  exists round, remove_right elm c x tmp = Some round /\
    round_ok (level c n) c (elements tmp ++ x :: elements elm) round.
Proof.
  intros Hr He Hrt Ht. destruct tmp as [|[] tl y tr]; [done| |done]. destruct Ht as [Htl Htr].
  unfold remove_right, black_or_null.
  destruct (is_red tl) eqn:Hl, (is_red tr) eqn:Hr'; cbn [negb andb mbind option_bind].
  - destruct tl as [|[] a z b]; try done. destruct Htl as (? & ? & ? & ?).
    eexists. split; [done|]. destruct c; simpl; (split_and!; try done); flat.
  - destruct tl as [|[] a z b]; try done. destruct Htl as (? & ? & ? & ?).
    eexists. split; [done|]. destruct c; simpl; (split_and!; try done); flat.
  - destruct tr as [|[] a z b]; try done. destruct Htr as (? & ? & ? & ?).
    eexists. split; [done|].
    destruct tl as [|[] a' z' b']; try done; destruct c; simpl; (split_and!; try done); flat.
  - eexists. split; [done|]. destruct c; unfold round_ok, deficient; simpl; (split_and!; try done); flat.
Qed.

(** A round of the loop, with the step for a red sibling: the place moves up, or,
    below a red parent, the next check ends the loop. *)
Lemma remove_round_ok elm parent up n :
  is_red elm = false -> balanced n elm -> path_ok (S n) (parent :: up) ->
  exists (round : tree A + tree A) m c up',
    (match parent with
     | LeftOf c x tmp =>
         '(c, tmp, up) ← red_sibling_left c x tmp up; r ← remove_left elm c x tmp; Some (r, up)
     | RightOf c tmp x =>
         '(c, tmp, up) ← red_sibling_right c x tmp up; r ← remove_right elm c x tmp; Some (r, up)
     end) = Some (round, up') /\
    path_ok (S m) up' /\ (c = RB_RED -> slot_black up' = false) /\
    (c = RB_RED \/ up' = up) /\
    exists l : list A, round_ok m c l round /\ before (parent :: up) ++ elements elm ++ after (parent :: up) =
      before up' ++ l ++ after up'.
Proof.
  intros Hr He Hp. destruct parent as [c x tmp|c tmp x]; destruct Hp as [Ht Hp].
  - destruct tmp as [|[] tl y tr] eqn:Etmp; [done|..].
    + destruct (remove_left_ok elm c x tmp n) as (round & Er & Hok); [done|done|by subst..|].
      cbn [red_sibling_left mbind option_bind]. rewrite <- Etmp, Er. cbn [mbind option_bind].
      exists round, (level c n), c, up. split_and!; [done|by destruct c; [|apply Hp]|by intros ->; apply Hp|auto|].
      exists (elements elm ++ x :: elements tmp). split; [done|]. flat.
    + destruct Ht as (Hl & Hr' & Hbl & Hbr). destruct c; [|by destruct Hp].
      destruct (remove_left_ok elm RB_RED x tl n) as (round & Er & Hok); [done..|].
      cbn [red_sibling_left mbind option_bind]. rewrite Er. cbn [mbind option_bind].
      exists round, n, RB_RED, (LeftOf RB_BLACK y tr :: up). split_and!; [done..|auto|].
      exists (elements elm ++ x :: elements tl). split; [done|]. flat.
  - destruct tmp as [|[] tl y tr] eqn:Etmp; [done|..].
    + destruct (remove_right_ok elm c x tmp n) as (round & Er & Hok); [done|done|by subst..|].
      cbn [red_sibling_right mbind option_bind]. rewrite <- Etmp, Er. cbn [mbind option_bind].
      exists round, (level c n), c, up. split_and!; [done|by destruct c; [|apply Hp]|by intros ->; apply Hp|auto|].
      exists (elements tmp ++ x :: elements elm). split; [done|]. flat.
    + destruct Ht as (Hl & Hr' & Hbl & Hbr). destruct c; [|by destruct Hp].
      destruct (remove_right_ok elm RB_RED x tr n) as (round & Er & Hok); [done..|].
      cbn [red_sibling_right mbind option_bind]. rewrite Er. cbn [mbind option_bind].
      exists round, n, RB_RED, (RightOf RB_BLACK tl y :: up). split_and!; [done..|auto|].
      exists (elements tr ++ x :: elements elm). split; [done|]. flat.
Qed.

Lemma remove_color_ok fuel elm p n :
  (length p <= fuel)%nat -> deficient n elm -> path_ok (S n) p ->
  yields (RB_REMOVE_COLOR fuel elm p) (before p ++ elements elm ++ after p).
Proof.
  assert (forall elm p n fuel, is_red elm = true -> deficient n elm -> path_ok (S n) p ->
    yields (RB_REMOVE_COLOR fuel elm p) (before p ++ elements elm ++ after p)) as Hred.
  { clear. intros elm p n fuel Hr Hd Hp. unfold deficient in Hd. rewrite Hr in Hd.
    exists (plug (paint RB_BLACK elm) p). split_and!.
    - destruct fuel, p; cbn [RB_REMOVE_COLOR]; by rewrite Hr.
    - apply (plug_ok (S n)); [done..|]. intros _. by destruct elm.
    - by rewrite elements_plug, elements_paint. }
  revert elm p n. induction fuel as [|fuel IH]; intros elm p n Hf Hd Hp;
    destruct (is_red elm) eqn:Hr; try (by eapply Hred).
  - destruct p as [|f p]; [|simpl in Hf; lia]. unfold deficient in Hd. rewrite Hr in Hd.
    exists (paint RB_BLACK elm). cbn [RB_REMOVE_COLOR]. rewrite Hr, elements_paint, app_nil_r.
    split_and!; [done| |done]. by eapply paint_black_ok.
  - unfold deficient in Hd. rewrite Hr in Hd. destruct p as [|parent up].
    { exists (paint RB_BLACK elm). cbn [RB_REMOVE_COLOR]. rewrite Hr, elements_paint, app_nil_r.
      split_and!; [done| |done]. by eapply paint_black_ok. }
    destruct (remove_round_ok elm parent up n Hr Hd Hp)
      as (round & m & c & up' & Er & Hup & Hsl & Hc & l & Hok & El).
    cbn [RB_REMOVE_COLOR]. rewrite Hr, Er, El. cbn [mbind option_bind].
    destruct round as [e|t].
    + destruct Hok as (Hde & Hred' & <-). destruct Hc as [->| ->].
      * apply (Hred e up' m); auto.
      * apply (IH e up m); [simpl in Hf; lia|done..].
    + destruct Hok as (Hb & Htc & <-).
      destruct (plug_ok (S m) t up' Hb Hup) as [Hpr [k Hk]].
      { intros Hs. destruct (is_red t); [|done]. rewrite Hsl in Hs by auto. done. }
      exists (paint RB_BLACK (plug t up')). split_and!; [done|by eapply paint_black_ok|].
      by rewrite elements_paint, elements_plug.
Qed.

End remove_color.

(** ** Removal of a node *)

Section remove.
Context {A : Type}.
Implicit Types (t l r elm child : tree A) (x y : A) (p q : list (frame A)).

(** Unlinking a node of color [c] whose only child is [child]. *)
Lemma remove_fix_ok c child p n :
  balanced n child -> (c = RB_RED -> is_red child = false) -> path_ok (level c n) p ->
  (c = RB_RED -> slot_black p = false) ->
  yields (remove_fix c child p) (before p ++ elements child ++ after p).
Proof.
  intros Hb Hr Hp Hs. unfold remove_fix. case_decide as E; subst.
  - apply (remove_color_ok _ _ _ n); [unfold remove_fuel; lia| |done]. unfold deficient.
    destruct (is_red child) eqn:Hred; [|done]. by apply paint_red_ok.
  - destruct c; [done|]. exists (plug child p). split; [done|]. split; [|apply elements_plug].
    apply (plug_ok n); [done..|]. intros _. by apply Hr.
Qed.

Lemma leftmost_spec c l x r p :
  exists cy y child q, leftmost c l x r p = (Node cy NULL y child, q ++ p) /\
    plug (Node cy NULL y child) q = Node c l x r /\ before q = [].
Proof.
  revert c x r p. induction l as [|c' l IH x' r' _]; intros c x r p; simpl.
  - by exists c, x, r, [].
  - destruct (IH c' x' r' (LeftOf c x r :: p)) as (cy & y & child & q & -> & E & Hq).
    exists cy, y, child, (q ++ [LeftOf c x r]). rewrite <- app_assoc, plug_app, E. split_and!; [done..|].
    clear -Hq. induction q as [|[] q IH]; simpl in *; [done|by apply IH|]. by destruct (before q), (elements l).
Qed.

Lemma path_ok_key n q c l x y p : path_ok n (q ++ RightOf c l x :: p) -> path_ok n (q ++ RightOf c l y :: p).
Proof.
  revert n. induction q as [|f q IH]; intros n; [done|].
  assert (slot_black (q ++ RightOf c l x :: p) = slot_black (q ++ RightOf c l y :: p)) as Hs by (by destruct q).
  destruct f as [[] z s|[] s z]; simpl; rewrite ?Hs; intros H; destruct_and?; split_and!; auto.
Qed.

Lemma before_app q p : before (q ++ p) = before p ++ before q.
Proof.
  induction q as [|[] q IH]; simpl; [by rewrite app_nil_r|done|]. by rewrite IH, <- app_assoc.
Qed.

Lemma after_app q p : after (q ++ p) = after q ++ after p.
Proof. induction q as [|[] q IH]; simpl; [done|by rewrite IH, <- app_assoc|done]. Qed.

(** A node with one child, as [RB_REMOVE] unlinks it. *)
Lemma one_child n c l x r child p :
  (l = NULL /\ child = r \/ r = NULL /\ child = l) ->
  balanced n (Node c l x r) -> path_ok n p -> fits_slot (Node c l x r) p ->
  exists m, balanced m child /\ (c = RB_RED -> is_red child = false) /\ path_ok (level c m) p /\
    (c = RB_RED -> slot_black p = false).
Proof.
  intros Hc Hb Hp Hs. destruct c; simpl in Hb.
  - destruct n as [|m]; [done|]. exists m. split_and!; [|done..]. destruct Hb. by destruct Hc as [[_ ->]|[_ ->]].
  - exists n. destruct Hb as (H1 & H2 & H3 & H4). split_and!; [|intros _|done|intros _].
    + by destruct Hc as [[_ ->]|[_ ->]].
    + by destruct Hc as [[_ ->]|[_ ->]].
    + unfold fits_slot in Hs. destruct (slot_black p); [by discriminate Hs|done].
Qed.

Lemma remove_yields c l x r p :
  tree_ok (plug (Node c l x r) p) ->
  yields (RB_REMOVE (Node c l x r, p)) (before p ++ elements l ++ elements r ++ after p).
Proof.
  intros Hok. destruct (plug_inv _ _ Hok) as (n & Hb & Hp & Hs).
  destruct l as [|cl ll xl lr]; [|destruct r as [|cr rl xr rr]].
  - destruct (one_child n c NULL x r r p ltac:(auto) Hb Hp Hs) as (m & H1 & H2 & H3 & H4).
    by apply (remove_fix_ok c r p m).
  - destruct (one_child n c (Node cl ll xl lr) x NULL (Node cl ll xl lr) p ltac:(auto) Hb Hp Hs)
      as (m & H1 & H2 & H3 & H4). by apply (remove_fix_ok c _ p m).
  - cbn [RB_REMOVE]. set (l := Node cl ll xl lr) in *.
    destruct (leftmost_spec cr rl xr rr []) as (cy & y & child & q & -> & Eq & Hq).
    rewrite app_nil_r. rewrite <- Eq in Hok. change (Node c l x ?t) with (attach t (RightOf c l x)) in Hok.
    change (plug (attach ?t ?f) p) with (plug t (f :: p)) in Hok. rewrite <- plug_app in Hok.
    destruct (plug_inv _ _ Hok) as (n' & Hb' & Hp' & Hs').
    apply (path_ok_key _ _ _ _ _ y) in Hp'.
    assert (slot_black (q ++ RightOf c l x :: p) = slot_black (q ++ RightOf c l y :: p)) as Hsl by (by destruct q).
    destruct (one_child n' cy NULL y child child (q ++ RightOf c l y :: p)) as (m & H1 & H2 & H3 & H4);
      [auto|done|done|by unfold fits_slot; rewrite <- Hsl|].
    destruct (remove_fix_ok cy child (q ++ RightOf c l y :: p) m) as (t & E & Ht & El); [done..|].
    exists t. split_and!; [done..|]. rewrite El, before_app, after_app, Hq, <- Eq, elements_plug, Hq. flat.
Qed.

End remove.

(** ** Search *)

Section search.
Context {A : Type} {cmp : A -> A -> Z} {key : A -> Z} {KO : KeyOrder cmp key}.
Implicit Types (t l r : tree A) (x y : A) (p : list (frame A)).

Abbreviation ascending := (Order.ascending (key := key)).
Abbreviation below := (Order.below (key := key)).
Abbreviation above := (Order.above (key := key)).
Abbreviation has k := (fun b : A => key b =? k).
Abbreviation from k := (fun b : A => k <=? key b).

Lemma rb_find_spec t x : ascending (elements t) -> RB_FIND cmp t x = find (has (key x)) (elements t).
Proof.
  induction t as [|c l IHl y r IHr]; [done|]. simpl. intros H.
  pose proof (ascending_mid _ _ _ H) as [Hb Ha]. apply ascending_app in H as (Hl & Hr & _).
  apply ascending_tail in Hr. rewrite cmp_lt, cmp_gt, find_app_match. simpl.
  destruct (Z.ltb_spec (key x) (key y)).
  - rewrite IHl by done. destruct (find _ (elements l)); [done|]. destruct (Z.eqb_spec (key y) (key x)); [lia|].
    symmetry. eapply (find_above (key := key)); [|exact Ha]. simpl. lia.
  - rewrite (find_below (key := key) _ (key y)); [|simpl; lia|done].
    destruct (Z.ltb_spec (key y) (key x)), (Z.eqb_spec (key y) (key x)); try lia; [by apply IHr|done].
Qed.

Lemma rb_nfind_spec t x res :
  ascending (elements t) ->
  nfind_loop cmp t x res = match find (from (key x)) (elements t) with Some b => Some b | None => res end.
Proof.
  revert res. induction t as [|c l IHl y r IHr]; intros res; [done|]. simpl. intros H.
  pose proof (ascending_mid _ _ _ H) as [Hb Ha]. apply ascending_app in H as (Hl & Hr & _).
  apply ascending_tail in Hr. rewrite cmp_lt, cmp_gt, find_app_match. simpl.
  destruct (Z.ltb_spec (key x) (key y)).
  - rewrite IHl by done. destruct (find _ (elements l)); [done|]. by destruct (Z.leb_spec (key x) (key y)); [|lia].
  - rewrite (find_below (key := key) _ (key y)); [|simpl; lia|done].
    destruct (Z.ltb_spec (key y) (key x)), (Z.leb_spec (key x) (key y)); try lia; [by apply IHr|done].
Qed.

(** The descent of [RB_INSERT]. *)
Lemma insert_loop_spec t x p :
  ascending (elements t) -> below (key x) (before p) -> above (key x) (after p) ->
  match insert_loop cmp t x p with
  | inl a => a ∈ elements t /\ key a = key x
  | inr q => plug NULL q = plug t p /\ below (key x) (before q) /\ above (key x) (after q)
  end.
Proof.
  revert p. induction t as [|c l IHl y r IHr]; intros p H Hb Ha; [done|]. simpl in H |- *.
  pose proof (ascending_mid _ _ _ H) as [Hby Hay]. apply ascending_app in H as (Hl & Hr & _).
  apply ascending_tail in Hr. rewrite cmp_lt, cmp_gt. destruct (Z.ltb_spec (key x) (key y)).
  - specialize (IHl (LeftOf c y r :: p) Hl). destruct (insert_loop cmp l x _) as [a|q].
    + rewrite elem_of_app. destruct IHl; [done| |auto]. simpl. constructor; [done|].
      apply Forall_app. split; [|done]. eapply above_le; [|done]. lia.
    + apply IHl; [done|]. simpl. constructor; [done|]. apply Forall_app. split; [|done].
      eapply above_le; [|done]. lia.
  - destruct (Z.ltb_spec (key y) (key x)).
    + specialize (IHr (RightOf c l y :: p) Hr).
      assert (below (key x) (before (RightOf c l y :: p))) as Hb'.
      { simpl. apply Forall_app. split; [done|]. apply Forall_app. split; [|by repeat constructor].
        eapply below_le; [|done]. lia. }
      destruct (insert_loop cmp r x _) as [a|q].
      * rewrite elem_of_app, elem_of_cons. destruct IHr; auto.
      * by apply IHr.
    + rewrite elem_of_app, elem_of_cons. split; [auto|lia].
Qed.

Lemma rb_insert_spec t x :
  tree_ok t -> ascending (elements t) ->
  match find (has (key x)) (elements t) with
  | Some a => RB_INSERT cmp t x = Some (t, Some a)
  | None => exists t' xs ys, RB_INSERT cmp t x = Some (t', None) /\ tree_ok t' /\
      elements t = xs ++ ys /\ elements t' = xs ++ x :: ys /\ ascending (elements t')
  end.
Proof.
  intros Hok H. unfold RB_INSERT. pose proof (insert_loop_spec t x [] H) as Hi.
  destruct (insert_loop cmp t x []) as [a|q].
  - destruct Hi as [Ha E]; [constructor..|]. rewrite <- E, (find_key _ a); done.
  - destruct Hi as (E & Hb & Ha); [constructor..|]. simpl in E.
    pose proof Hok as Hok'. rewrite <- E in Hok'. destruct (plug_inv _ _ Hok') as (n & Hn & Hp & _).
    destruct n as [|n]; [|done]. destruct (insert_color_ok q (Node RB_RED NULL x NULL) 0) as (t' & -> & Ht' & El);
      [done..|]. rewrite <- E in H |- *. rewrite elements_plug in H |- *. simpl in *.
    rewrite find_app_match, (find_below (key := key) _ (key x)), (find_above (key := key) _ (key x)); try done; [|simpl; lia..].
    exists t', (before q), (after q). split_and!; try done. rewrite El. by apply ascending_insert.
Qed.

End search.

(** ** Iteration *)

Section iteration.
Context {A : Type}.
Implicit Types (t l r : tree A) (x y : A) (p : list (frame A)).

Lemma climb_left_spec t p :
  match climb_left t p with
  | Some (Node _ _ y r, p') => after p = y :: elements r ++ after p'
  | Some (NULL, _) => False
  | None => after p = []
  end.
Proof. revert t. induction p as [|[c x r|c l x] p IH]; intros t; simpl; [done|done|]. apply IH. Qed.

(** [RB_NEXT] of a node is the node behind it. *)
Lemma next_spec c l x r p :
  exists next, RB_NEXT (Node c l x r, p) = Some next /\
    match next with
    | Some (Node _ _ y r', p') => elements r ++ after p = y :: elements r' ++ after p'
    | Some (NULL, _) => False
    | None => elements r ++ after p = []
    end.
Proof.
  destruct r as [|c' l' x' r']; simpl.
  - eexists. split; [done|]. apply (climb_left_spec (Node c l x NULL)).
  - destruct (leftmost_spec c' l' x' r' (RightOf c l x :: p)) as (cy & y & child & q & -> & E & Hq).
    eexists. split; [done|]. simpl. change (elements l' ++ x' :: elements r') with (elements (Node c' l' x' r')).
    rewrite <- E, elements_plug, Hq, after_app. flat.
Qed.

Lemma rb_foreach_loop fuel c l x r p :
  (length (elements r ++ after p) < fuel)%nat ->
  foreach_loop fuel (Some (Node c l x r, p)) = Some (x :: elements r ++ after p).
Proof.
  revert c l x r p. induction fuel as [|fuel IH]; intros c l x r p Hf; [lia|].
  cbn [foreach_loop]. cbn [node_of RB_ROOT fst mbind option_bind].
  destruct (next_spec c l x r p) as (next & -> & Hn). cbn [mbind option_bind].
  destruct next as [[[|c' l' y r'] p']|]; [done| |].
  - rewrite Hn in Hf |- *. simpl in Hf. by rewrite IH by lia.
  - rewrite Hn. by destruct fuel.
Qed.

Lemma foreach_elements t fuel : (length (elements t) <= fuel)%nat -> RB_FOREACH fuel t = Some (elements t).
Proof.
  unfold RB_FOREACH, RB_MINMAX. destruct t as [|c l x r]; [by destruct fuel|]. intros Hf.
  change (-1 <? 0) with true. cbv iota.
  destruct (leftmost_spec c l x r []) as (cy & y & child & q & -> & E & Hq). rewrite app_nil_r.
  rewrite <- E, elements_plug, Hq in Hf |- *. simpl in *. rewrite rb_foreach_loop; [done|]. lia.
Qed.

(** *** Backwards *)

Fixpoint mirror t : tree A :=
  match t with NULL => NULL | Node c l x r => Node c (mirror r) x (mirror l) end.

Definition mirror_frame (f : frame A) : frame A :=
  match f with LeftOf c x r => RightOf c (mirror r) x | RightOf c l x => LeftOf c x (mirror l) end.

Definition mirror_pos (pos : tree A * list (frame A)) : tree A * list (frame A) := (mirror (fst pos), map mirror_frame (snd pos)).

Lemma mirror_mirror t : mirror (mirror t) = t.
Proof. induction t as [|c l IHl x r IHr]; simpl; [done|]. by rewrite IHl, IHr. Qed.

Lemma elements_mirror t : elements (mirror t) = reverse (elements t).
Proof.
  induction t as [|c l IHl x r IHr]; [done|]. simpl. rewrite IHl, IHr, reverse_app, reverse_cons. by rewrite <- app_assoc.
Qed.

Lemma rightmost_mirror c l x r p :
  rightmost c (mirror r) x (mirror l) (map mirror_frame p) = mirror_pos (leftmost c l x r p).
Proof.
  revert c x r p. induction l as [|c' l IH x' r' _]; intros c x r p; simpl; [done|]. apply (IH c' x' r' (LeftOf c x r :: p)).
Qed.

Lemma climb_mirror t p : climb_right (mirror t) (map mirror_frame p) = mirror_pos <$> climb_left t p.
Proof. revert t. induction p as [|[c x r|c l x] p IH]; intros t; simpl; [done..|]. apply (IH (Node c l x t)). Qed.

(** [RB_PREV] is [RB_NEXT] in the mirror. *)
Lemma prev_mirror pos : RB_PREV (mirror_pos pos) = (option_map mirror_pos) <$> RB_NEXT pos.
Proof.
  destruct pos as [[|c l x [|c' l' x' r']] p]; simpl; [done| |].
  - f_equal. apply (climb_mirror (Node c l x NULL)).
  - do 2 f_equal. apply (rightmost_mirror c' l' x' r' (RightOf c l x :: p)).
Qed.

Lemma foreach_mirror fuel elm : foreach_reverse_loop fuel (mirror_pos <$> elm) = foreach_loop fuel elm.
Proof.
  revert elm. induction fuel as [|fuel IH]; intros [pos|]; try done. cbn [fmap option_fmap option_map foreach_reverse_loop foreach_loop].
  rewrite prev_mirror. replace (node_of (mirror_pos pos)) with (node_of pos) by (by destruct pos as [[] p]).
  destruct (node_of pos); [|done]. cbn [mbind option_bind]. destruct (RB_NEXT pos) as [next|]; [|done].
  cbn [fmap option_fmap option_map mbind option_bind]. by rewrite IH.
Qed.

(** [RB_FOREACH_REVERSE], with [RB_MAX] and [RB_PREV], visits all elements from the last to the
    first. *)
Lemma foreach_reverse_elements t fuel :
  (length (elements t) <= fuel)%nat -> RB_FOREACH_REVERSE fuel t = Some (reverse (elements t)).
Proof.
  intros Hf. rewrite <- elements_mirror, <- (foreach_elements (mirror t) fuel) by (by rewrite elements_mirror, length_reverse).
  unfold RB_FOREACH_REVERSE, RB_FOREACH. rewrite <- foreach_mirror. f_equal. destruct t as [|c l x r]; [done|].
  cbn [mirror RB_MINMAX fmap option_fmap option_map]. change (1 <? 0) with false. change (-1 <? 0) with true. cbv iota.
  f_equal. rewrite <- (rightmost_mirror c (mirror r) x (mirror l) []). by rewrite !mirror_mirror.
Qed.

(** ** Height *)

Fixpoint height (t : tree A) : nat :=
  match t with NULL => 0%nat | Node _ l _ r => S (height l `max` height r) end.

Lemma balanced_height n t : balanced n t -> (height t <= 2 * n + if is_red t then 1 else 0)%nat.
Proof.
  revert n. induction t as [|[] l IHl x r IHr]; intros n; simpl; [lia| |].
  - destruct n as [|n]; [done|]. intros [Hl%IHl Hr%IHr]. destruct (is_red l), (is_red r); lia.
  - intros (H1 & H2 & Hl%IHl & Hr%IHr). rewrite H1 in Hl. rewrite H2 in Hr. lia.
Qed.

Lemma balanced_size n t : balanced n t -> (2 ^ n <= S (length (elements t)))%nat.
Proof.
  revert n. induction t as [|[] l IHl x r IHr]; intros n; simpl; [by intros ->| |].
  - destruct n as [|n]; [done|]. intros [Hl%IHl Hr%IHr]. rewrite length_app. simpl. lia.
  - intros (_ & _ & Hl%IHl & _). rewrite length_app. simpl. lia.
Qed.

Lemma tree_height t : tree_ok t -> (height t <= 2 * Nat.log2 (S (length (elements t))))%nat.
Proof.
  intros [Hr [n Hn]]. pose proof (balanced_height n t Hn) as Hh. rewrite Hr in Hh.
  pose proof (balanced_size n t Hn) as Hs. apply Nat.log2_le_mono in Hs. rewrite Nat.log2_pow2 in Hs; lia.
Qed.

End iteration.

(** ** Removal by pointer

    A caller of [RB_REMOVE] has a pointer to the node; here it is the position of the
    element in the tree. *)

Section locate.
Context {A : Type} `{EqDecision A}.
Implicit Types (t l r : tree A) (x y : A) (p : list (frame A)).

Fixpoint locate (a : A) (t : tree A) (p : list (frame A)) : option (tree A * list (frame A)) :=
  match t with
  | NULL => None
  | Node c l x r =>
      if decide (x = a) then Some (t, p)
      else match locate a l (LeftOf c x r :: p) with
           | Some pos => Some pos
           | None => locate a r (RightOf c l x :: p)
           end
  end.

Definition remove_elem (head : tree A) (a : A) : option (tree A) :=
  pos ← locate a head []; RB_REMOVE pos.

Lemma locate_spec a t p :
  match locate a t p with
  | Some (Node c l x r, q) => x = a /\ plug (Node c l x r) q = plug t p
  | Some (NULL, _) => False
  | None => a ∉ elements t
  end.
Proof.
  revert p. induction t as [|c l IHl x r IHr]; intros p; simpl; [by intros ?%elem_of_nil|].
  case_decide; [done|]. specialize (IHl (LeftOf c x r :: p)). destruct (locate a l _) as [[[] q]|]; [done..|].
  specialize (IHr (RightOf c l x :: p)). destruct (locate a r _) as [[[] q]|]; [done..|].
  rewrite elem_of_app, elem_of_cons. naive_solver.
Qed.

Lemma remove_elem_spec t a :
  tree_ok t -> a ∈ elements t ->
  exists t' xs ys, remove_elem t a = Some t' /\ tree_ok t' /\ elements t = xs ++ a :: ys /\ elements t' = xs ++ ys.
Proof.
  intros Hok Ha. unfold remove_elem. pose proof (locate_spec a t []) as Hl.
  destruct (locate a t []) as [[[|c l x r] q]|]; [done| |done]. destruct Hl as [-> E].
  cbn [mbind option_bind]. simpl in E. rewrite <- E in Hok.
  destruct (remove_yields c l a r q Hok) as (t' & -> & Ht' & El).
  exists t', (before q ++ elements l), (elements r ++ after q). split_and!; [done..| |by rewrite El; flat].
  rewrite <- E, elements_plug. flat.
Qed.

(** [RB_MIN] and [RB_NEXT] for callers that hold elements. *)
Definition first_elem (t : tree A) : option A := pos ← RB_MINMAX t (-1); node_of pos.

Definition next_elem (t : tree A) (a : A) : option (option A) :=
  pos ← locate a t []; next ← RB_NEXT pos; Some (pos ← next; node_of pos).

Lemma first_elem_spec t : first_elem t = head (elements t).
Proof.
  unfold first_elem, RB_MINMAX. destruct t as [|c l x r]; [done|]. change (-1 <? 0) with true. cbv iota.
  destruct (leftmost_spec c l x r []) as (cy & y & child & q & -> & E & Hq). rewrite app_nil_r.
  cbn [mbind option_bind]. by rewrite <- E, elements_plug, Hq.
Qed.

Lemma next_elem_spec t a :
  a ∈ elements t -> exists xs ys, elements t = xs ++ a :: ys /\ next_elem t a = Some (head ys).
Proof.
  intros Ha. unfold next_elem. pose proof (locate_spec a t []) as Hl.
  destruct (locate a t []) as [[[|c l x r] q]|]; [done| |done]. destruct Hl as [-> E]. cbn [mbind option_bind].
  exists (before q ++ elements l), (elements r ++ after q). simpl in E.
  split; [rewrite <- E, elements_plug; flat|]. destruct (next_spec c l a r q) as (next & -> & Hn). cbn [mbind option_bind].
  destruct next as [[[|c' l' y r'] p']|]; [done|by rewrite Hn|by rewrite Hn].
Qed.

End locate.

(** ** The interface to the users of trees *)

(** What a search tree promises to a component that links its elements into one: the
    contents as a list, ascending in the key of whatever comparison the component
    uses. *)
Class SearchTree (T A : Type) := {
  st_empty : T;
  st_find : (A -> A -> Z) -> T -> A -> option A;
  st_insert : (A -> A -> Z) -> T -> A -> option (T * option A);
  st_remove : T -> A -> option T;
  st_root : T -> option A;
  st_elements : T -> list A;
  st_ok : T -> Prop;
  st_empty_ok : st_ok st_empty /\ st_elements st_empty = [];
  st_find_ok cmp key {KO : KeyOrder cmp key} t x :
    ascending (key := key) (st_elements t) ->
    st_find cmp t x = find (fun b => key b =? key x) (st_elements t);
  st_insert_ok cmp key {KO : KeyOrder cmp key} t x :
    st_ok t -> ascending (key := key) (st_elements t) ->
    match find (fun b => key b =? key x) (st_elements t) with
    | Some a => st_insert cmp t x = Some (t, Some a)
    | None => exists t' xs ys, st_insert cmp t x = Some (t', None) /\ st_ok t' /\
        st_elements t = xs ++ ys /\ st_elements t' = xs ++ x :: ys /\ ascending (key := key) (st_elements t')
    end;
  st_remove_ok t a :
    st_ok t -> a ∈ st_elements t ->
    exists t' xs ys, st_remove t a = Some t' /\ st_ok t' /\
      st_elements t = xs ++ a :: ys /\ st_elements t' = xs ++ ys;
  st_root_ok t :
    match st_root t with Some a => a ∈ st_elements t | None => st_elements t = [] end;
}.

#[export, refine] Instance red_black_tree {A} `{EqDecision A} : SearchTree (tree A) A := {
  st_empty := NULL;
  st_find := @RB_FIND A;
  st_insert := @RB_INSERT A;
  st_remove := remove_elem;
  st_root := RB_ROOT;
  st_elements := elements;
  st_ok := tree_ok;
}.
Proof.
  - split; [|done]. split; [done|by exists 0%nat].
  - intros cmp key KO t x. apply rb_find_spec.
  - intros cmp key KO t x. apply rb_insert_spec.
  - intros t a. apply remove_elem_spec.
  - intros [|c l x r]; simpl; [done|]. rewrite elem_of_app, elem_of_cons. auto.
Defined.

(** A search tree whose elements are also visited in order. *)
Class OrderedTree (T A : Type) := {
  ot_tree :: SearchTree T A;
  ot_first : T -> option A;
  ot_next : T -> A -> option (option A);
  ot_first_ok t : ot_first t = head (st_elements t);
  ot_next_ok t a :
    a ∈ st_elements t -> exists xs ys, st_elements t = xs ++ a :: ys /\ ot_next t a = Some (head ys);
}.

#[export, refine] Instance red_black_ordered {A} `{EqDecision A} : OrderedTree (tree A) A := {
  ot_tree := red_black_tree;
  ot_first := first_elem;
  ot_next := next_elem;
}.
Proof.
  - apply first_elem_spec.
  - apply next_elem_spec.
Defined.

(** ** Properties *)

Section properties.
Context {A : Type} `{EqDecision A} {cmp : A -> A -> Z} {key : A -> Z} {KO : KeyOrder cmp key}.

(** What a user of a tree does to it. *)
Inductive rb_step (t : tree A) : tree A -> Prop :=
  | step_insert x t' found : RB_INSERT cmp t x = Some (t', found) -> rb_step t t'
  | step_remove a t' : a ∈ elements t -> remove_elem t a = Some t' -> rb_step t t'.

(** C21.  Every tree reached from the empty one by [RB_INSERT] and [RB_REMOVE], in any
    order, is a red-black tree: its root is black, no red node has a red child, every
    way down has the same number of black nodes, and its elements ascend.  So its
    height is at most twice the logarithm of its size, and no operation on it follows
    a NULL pointer. *)
Theorem rb_reachable t :
  rtc rb_step NULL t ->
  tree_ok t /\ ascending (key := key) (elements t) /\
  (height t <= 2 * Nat.log2 (S (length (elements t))))%nat /\
  (forall x, is_Some (RB_INSERT cmp t x)) /\ (forall a, a ∈ elements t -> is_Some (remove_elem t a)).
Proof.
  intros H. assert (tree_ok t /\ ascending (key := key) (elements t)) as [Hok Ha].
  { revert t H. refine (rtc_ind_r _ NULL _ _).
    - split; [|constructor]. split; [done|by exists 0%nat].
    - intros y z _ Hs [Hok Ha]. destruct Hs as [x t' found Ei|a t' Hel Er].
      + pose proof (rb_insert_spec y x Hok Ha) as Hi. destruct (find _ (elements y)).
        * rewrite Hi in Ei. by injection Ei as <- _.
        * destruct Hi as (t1 & xs & ys & Ei' & Hok1 & _ & _ & Ha1). rewrite Ei' in Ei. by injection Ei as <- _.
      + destruct (remove_elem_spec y a Hok Hel) as (t1 & xs & ys & Er' & Hok1 & E1 & E2).
        rewrite Er' in Er. injection Er as <-. split; [done|]. rewrite E2. rewrite E1 in Ha.
        by eapply ascending_remove. }
  split_and!; [done..|by apply tree_height| |].
  - intros x. pose proof (rb_insert_spec t x Hok Ha) as Hi. destruct (find _ (elements t)); [by rewrite Hi|].
    by destruct Hi as (t1 & xs & ys & -> & _).
  - intros a Hel. by destruct (remove_elem_spec t a Hok Hel) as (t1 & xs & ys & -> & _).
Qed.

(** On a red-black tree with ascending elements, [RB_FIND] yields the element with
    the key, or NULL exactly if there is none; [RB_NFIND] the first element whose key
    is not smaller; and [RB_FOREACH], with [RB_MIN] and [RB_NEXT], visits all elements
    in order. *)
Theorem rb_search t x :
  ascending (key := key) (elements t) ->
  RB_FIND cmp t x = find (fun b => key b =? key x) (elements t) /\
  RB_NFIND cmp t x = find (fun b => key x <=? key b) (elements t) /\
  RB_FOREACH (length (elements t)) t = Some (elements t).
Proof.
  intros H. split_and!; [by apply rb_find_spec| |by apply foreach_elements].
  unfold RB_NFIND. rewrite (rb_nfind_spec t x None H). by destruct (find _ _).
Qed.

(** C6.  [RB_INSERT] leaves the tree alone and yields the element in the way if there
    is one with the key, otherwise the contents grow by the new element at its place;
    [RB_REMOVE] of any node takes exactly that element out.  Both keep a red-black
    tree. *)
Theorem rb_update t :
  tree_ok t -> ascending (key := key) (elements t) ->
  (forall x, match find (fun b => key b =? key x) (elements t) with
   | Some a => RB_INSERT cmp t x = Some (t, Some a)
   | None => exists t' xs ys, RB_INSERT cmp t x = Some (t', None) /\ tree_ok t' /\
       elements t = xs ++ ys /\ elements t' = xs ++ x :: ys /\ ascending (key := key) (elements t')
   end) /\
  (forall c l a r p, t = plug (Node c l a r) p -> exists t', RB_REMOVE (Node c l a r, p) = Some t' /\
    tree_ok t' /\ elements t = (before p ++ elements l) ++ a :: elements r ++ after p /\
    elements t' = (before p ++ elements l) ++ elements r ++ after p).
Proof.
  intros Hok Ha. split; [intros x; by apply rb_insert_spec|]. intros c l a r p ->.
  destruct (remove_yields c l a r p Hok) as (t' & -> & Ht' & El). exists t'.
  split_and!; [done..| |rewrite El; flat]. rewrite elements_plug. flat.
Qed.

End properties.

(** The numbers 1 to 6, inserted in order. *)
Definition sample_tree : option (tree Z) :=
  foldl (fun t x => t ← t; r ← RB_INSERT Z.sub t x; Some (fst r)) (Some NULL) [1; 2; 3; 4; 5; 6].

Definition sample_root : tree Z := default NULL sample_tree.

Lemma rb_search_witness : RB_FIND Z.sub sample_root 4 = Some 4 /\ RB_NFIND Z.sub sample_root 7 = None.
Proof.
  destruct (rb_search (key := fun z => z) sample_root 4 ltac:(repeat constructor)) as (E & _ & _).
  destruct (rb_search (key := fun z => z) sample_root 7 ltac:(repeat constructor)) as (_ & E' & _).
  split; [rewrite E|rewrite E']; reflexivity.
Defined.

Lemma sample_root_ok : tree_ok sample_root.
Proof. split; [reflexivity|]. exists 2%nat. vm_compute. tauto. Qed.

Lemma rb_update_witness :
  RB_INSERT Z.sub sample_root 3 = Some (sample_root, Some 3) /\
  exists t', RB_REMOVE (sample_root, []) = Some t' /\ elements t' = [1; 3; 4; 5; 6].
Proof.
  destruct (rb_update (key := fun z => z) sample_root sample_root_ok ltac:(repeat constructor)) as [Hi Hr].
  split; [exact (Hi 3)|].
  destruct (Hr RB_BLACK (Node RB_BLACK NULL 1 NULL) 2
    (Node RB_RED (Node RB_BLACK NULL 3 NULL) 4 (Node RB_BLACK NULL 5 (Node RB_RED NULL 6 NULL))) [] eq_refl)
    as (t' & E & _ & _ & El).
  exists t'. split; [exact E|exact El].
Defined.

Lemma rb_reachable_witness : (height sample_root <= 2 * Nat.log2 (S (length (elements sample_root))))%nat.
Proof.
  apply (rb_reachable (cmp := Z.sub) (key := fun z => z) sample_root).
  eapply rtc_l; [eapply (step_insert (cmp := Z.sub) _ 1); reflexivity|].
  eapply rtc_l; [eapply (step_insert (cmp := Z.sub) _ 2); reflexivity|].
  eapply rtc_l; [eapply (step_insert (cmp := Z.sub) _ 3); reflexivity|].
  eapply rtc_l; [eapply (step_insert (cmp := Z.sub) _ 4); reflexivity|].
  eapply rtc_l; [eapply (step_insert (cmp := Z.sub) _ 5); reflexivity|].
  eapply rtc_l; [eapply (step_insert (cmp := Z.sub) _ 6); reflexivity|].
  apply rtc_refl.
Defined.
