(* ===== verification/Splay.v ===== *)
(** * Splay trees

    Models the splay trees of [include/sys/tree.h], which libpeak keeps next to the
    red-black trees ([Tree]) and does not use itself.  The nodes have no parent: a tree is a
    tree of the elements.  On its way down [SPLAY] hangs what it passes on two trees, of
    which only the ends grow: [__left] and [__right] are the frames of their spines, the newest
    first, and [SPLAY_ASSEMBLE] closes them.  A NULL pointer that is followed is
    undefined. *)

From S2P Require Import Prelude Order.
Open Scope Z_scope.

Section splay.
Context {A : Type} `{EqDecision A} (cmp : A -> A -> Z).

(** ** Data *)

Inductive tree := NULL | Node (spe_left : tree) (elm : A) (spe_right : tree).

Definition SPLAY_LEFT (t : tree) : option tree := match t with Node l _ _ => Some l | NULL => None end.
Definition SPLAY_RIGHT (t : tree) : option tree := match t with Node _ _ r => Some r | NULL => None end.
Definition elm_of (t : tree) : option A := match t with Node _ x _ => Some x | NULL => None end.

Definition SPLAY_INIT : tree := NULL.
Definition SPLAY_EMPTY (t : tree) : bool := match t with NULL => true | _ => false end.

(** The spines of the trees of smaller and of greater elements. *)
Abbreviation lefts := (list (tree * A)).
Abbreviation rights := (list (A * tree)).

Definition SPLAY_ROTATE_RIGHT (root : tree) : option tree :=
  match root with Node (Node a y b) x c => Some (Node a y (Node b x c)) | _ => None end.

Definition SPLAY_ROTATE_LEFT (root : tree) : option tree :=
  match root with Node a x (Node b y c) => Some (Node (Node a x b) y c) | _ => None end.

(** The root goes to the end of the tree of greater elements, its left child is next. *)
Definition SPLAY_LINKLEFT (root : tree) (__right : rights) : option (tree * rights) :=
  match root with Node l x r => Some (l, (x, r) :: __right) | NULL => None end.

Definition SPLAY_LINKRIGHT (root : tree) (__left : lefts) : option (tree * lefts) :=
  match root with Node l x r => Some (r, (l, x) :: __left) | NULL => None end.

Definition SPLAY_ASSEMBLE (root : tree) (__left : lefts) (__right : rights) : option tree :=
  match root with
  | Node l x r =>
      Some (Node (foldl (fun t f => Node (fst f) (snd f) t) l __left) x (foldl (fun t f => Node t (fst f) (snd f)) r __right))
  | NULL => None
  end.

(** ** Splaying *)

(** The loop of [SPLAY], where [c] compares the element asked for with another one. *)
Fixpoint splay_loop (n : nat) (c : A -> Z) (root : tree) (__left : lefts) (__right : rights) : run (tree * lefts * rights) :=
  match n with
  | O => OutOfFuel
  | S n =>
      x ← try (elm_of root);
      if c x <? 0 then
        tmp ← try (SPLAY_LEFT root);
        match tmp with
        | NULL => Done (root, __left, __right)
        | Node _ y _ =>
            if c y <? 0 then
              root ← try (SPLAY_ROTATE_RIGHT root);
              l ← try (SPLAY_LEFT root);
              if SPLAY_EMPTY l then Done (root, __left, __right) else
              '(root, __right) ← try (SPLAY_LINKLEFT root __right);
              splay_loop n c root __left __right
            else
              '(root, __right) ← try (SPLAY_LINKLEFT root __right);
              splay_loop n c root __left __right
        end
      else if 0 <? c x then
        tmp ← try (SPLAY_RIGHT root);
        match tmp with
        | NULL => Done (root, __left, __right)
        | Node _ y _ =>
            if 0 <? c y then
              root ← try (SPLAY_ROTATE_LEFT root);
              r ← try (SPLAY_RIGHT root);
              if SPLAY_EMPTY r then Done (root, __left, __right) else
              '(root, __left) ← try (SPLAY_LINKRIGHT root __left);
              splay_loop n c root __left __right
            else
              '(root, __left) ← try (SPLAY_LINKRIGHT root __left);
              splay_loop n c root __left __right
        end
      else Done (root, __left, __right)
  end.

(** [n] bounds the rounds of the loop. *)
Definition SPLAY (n : nat) (head : tree) (elm : A) : run tree :=
  '(root, __left, __right) ← splay_loop n (cmp elm) head [] [];
  try (SPLAY_ASSEMBLE root __left __right).

(** The loop of [SPLAY_MINMAX]. *)
Fixpoint minmax_loop (n : nat) (comp : Z) (root : tree) (__left : lefts) (__right : rights) : run (tree * lefts * rights) :=
  match n with
  | O => OutOfFuel
  | S n =>
      if comp <? 0 then
        tmp ← try (SPLAY_LEFT root);
        if SPLAY_EMPTY tmp then Done (root, __left, __right) else
        root ← try (SPLAY_ROTATE_RIGHT root);
        l ← try (SPLAY_LEFT root);
        if SPLAY_EMPTY l then Done (root, __left, __right) else
        '(root, __right) ← try (SPLAY_LINKLEFT root __right);
        minmax_loop n comp root __left __right
      else if 0 <? comp then
        tmp ← try (SPLAY_RIGHT root);
        if SPLAY_EMPTY tmp then Done (root, __left, __right) else
        root ← try (SPLAY_ROTATE_LEFT root);
        r ← try (SPLAY_RIGHT root);
        if SPLAY_EMPTY r then Done (root, __left, __right) else
        '(root, __left) ← try (SPLAY_LINKRIGHT root __left);
        minmax_loop n comp root __left __right
      else minmax_loop n comp root __left __right
  end.

Definition SPLAY_MINMAX (n : nat) (head : tree) (comp : Z) : run tree :=
  '(root, __left, __right) ← minmax_loop n comp head [] [];
  try (SPLAY_ASSEMBLE root __left __right).

(** ** Operations *)

Definition SPLAY_FIND (n : nat) (head : tree) (elm : A) : run (tree * option A) :=
  if SPLAY_EMPTY head then Done (head, None) else
  head ← SPLAY n head elm;
  x ← try (elm_of head);
  Done (head, if cmp elm x =? 0 then Some x else None).

(** The new element is the root; the element with its key, if there is one. *)
Definition SPLAY_INSERT (n : nat) (head : tree) (elm : A) : run (tree * option A) :=
  if SPLAY_EMPTY head then Done (Node NULL elm NULL, None) else
  head ← SPLAY n head elm;
  x ← try (elm_of head);
  l ← try (SPLAY_LEFT head);
  r ← try (SPLAY_RIGHT head);
  if cmp elm x <? 0 then Done (Node l elm (Node NULL x r), None)
  else if 0 <? cmp elm x then Done (Node (Node l x NULL) elm r, None)
  else Done (head, Some x).

(** The pointer it returns is its argument. *)
Definition SPLAY_REMOVE (n : nat) (head : tree) (elm : A) : run (tree * option A) :=
  if SPLAY_EMPTY head then Done (head, None) else
  head ← SPLAY n head elm;
  x ← try (elm_of head);
  if cmp elm x =? 0 then
    l ← try (SPLAY_LEFT head);
    r ← try (SPLAY_RIGHT head);
    if SPLAY_EMPTY l then Done (r, Some elm) else
    head ← SPLAY n l elm;
    l ← try (SPLAY_LEFT head);
    x ← try (elm_of head);
    Done (Node l x r, Some elm)
  else Done (head, None).

(** [while (SPLAY_LEFT(elm, field) != NULL)]. *)
Fixpoint leftmost (x : A) (l : tree) : A :=
  match l with NULL => x | Node l y _ => leftmost y l end.

(** [elm] is an element of the tree, which is its root after the splay. *)
Definition SPLAY_NEXT (n : nat) (head : tree) (elm : A) : run (tree * option A) :=
  head ← SPLAY n head elm;
  x ← try (elm_of head);
  if negb (bool_decide (x = elm)) then Undefined else
  r ← try (SPLAY_RIGHT head);
  Done (head, match r with NULL => None | Node l y _ => Some (leftmost y l) end).

Definition SPLAY_MIN_MAX (n : nat) (head : tree) (val : Z) : run (tree * option A) :=
  head ← SPLAY_MINMAX n head val; Done (head, elm_of head).

Definition SPLAY_NEGINF : Z := -1.
Definition SPLAY_INF : Z := 1.

Definition SPLAY_MIN (n : nat) (head : tree) : run (tree * option A) :=
  if SPLAY_EMPTY head then Done (head, None) else SPLAY_MIN_MAX n head SPLAY_NEGINF.

Definition SPLAY_MAX (n : nat) (head : tree) : run (tree * option A) :=
  if SPLAY_EMPTY head then Done (head, None) else SPLAY_MIN_MAX n head SPLAY_INF.

(** The elements [SPLAY_FOREACH] visits from [x] on, for at most [k] of them. *)
Fixpoint foreach_loop (n k : nat) (head : tree) (x : option A) : run (tree * list A) :=
  match x with
  | None => Done (head, [])
  | Some x =>
      match k with
      | O => OutOfFuel
      | S k =>
          '(head, next) ← SPLAY_NEXT n head x;
          '(head, xs) ← foreach_loop n k head next;
          Done (head, x :: xs)
      end
  end.

Definition SPLAY_FOREACH (n k : nat) (head : tree) : run (tree * list A) :=
  '(head, x) ← SPLAY_MIN n head; foreach_loop n k head x.

(** ** Contents *)

Fixpoint elements (t : tree) : list A :=
  match t with NULL => [] | Node l x r => elements l ++ x :: elements r end.

(** What hangs on the spines, in order. *)
Definition lefts_of (__left : lefts) : list A := concat (rev ((fun f => elements (fst f) ++ [snd f]) <$> __left)).
Definition rights_of (__right : rights) : list A := concat ((fun f => fst f :: elements (snd f)) <$> __right).

Lemma assemble_left __left l : elements (foldl (fun t f => Node (fst f) (snd f) t) l __left) = lefts_of __left ++ elements l.
Proof.
  revert l. induction __left as [|[a x] __left IH]; intros l; [done|]. cbn [foldl]. rewrite IH. unfold lefts_of.
  cbn [fmap list_fmap rev fst snd elements]. rewrite concat_app. cbn [concat]. by rewrite app_nil_r, <- !app_assoc.
Qed.

Lemma assemble_right __right r : elements (foldl (fun t f => Node t (fst f) (snd f)) r __right) = elements r ++ rights_of __right.
Proof.
  revert r. induction __right as [|[x b] __right IH]; intros r; [by rewrite app_nil_r|]. cbn [foldl]. rewrite IH. unfold rights_of.
  cbn [fmap list_fmap concat fst snd elements]. by rewrite <- app_assoc.
Qed.

(** The comparison [c] falls along a list, and is 0 at most once. *)
Definition falling (c : A -> Z) (l : list A) : Prop := StronglySorted (fun a b => c a <= 0 -> c b < 0) l.

Abbreviation pos c := (Forall (fun a => 0 < c a)).
Abbreviation neg c := (Forall (fun a => c a < 0)).

Lemma falling_mid c l x r : falling c (l ++ x :: r) -> (0 <= c x -> pos c l) /\ (c x <= 0 -> neg c r).
Proof.
  unfold falling. induction l as [|a l IH]; simpl; intros H; inversion H as [|? ? Hs Hf]; subst.
  - split; [constructor|]. intros Hx. eapply Forall_impl; [exact Hf|]. auto.
  - destruct (IH Hs) as [H1 H2]. split; [|done]. intros Hx. constructor; [|auto].
    apply Forall_app in Hf as [_ Hf]. apply Forall_inv in Hf. destruct (Z_le_dec (c a) 0); [|lia]. specialize (Hf l0). lia.
Qed.

(** Where the splay has brought the root: it is the element asked for, or a neighbour of its place. *)
Definition placed (c : A -> Z) (l : list A) (x : A) (r : list A) : Prop :=
  c x = 0 \/ c x < 0 /\ pos c l \/ 0 < c x /\ neg c r.

Lemma lefts_cons l x L : lefts_of ((l, x) :: L) = lefts_of L ++ elements l ++ [x].
Proof. unfold lefts_of. cbn [fmap list_fmap rev fst snd]. rewrite concat_app. cbn [concat]. by rewrite app_nil_r. Qed.

Lemma rights_cons x r R : rights_of ((x, r) :: R) = x :: elements r ++ rights_of R.
Proof. done. Qed.

(** What the loop leaves: nothing is lost, and smaller elements hang on the left spine. *)
Definition loop_post (c : A -> Z) (root : tree) (L : lefts) (R : rights) (res : run (tree * lefts * rights)) : Prop :=
  exists l x r L' R', res = Done (Node l x r, L', R') /\
    lefts_of L' ++ elements (Node l x r) ++ rights_of R' = lefts_of L ++ elements root ++ rights_of R /\
    (pos c (lefts_of L) -> pos c (lefts_of L')) /\ (neg c (rights_of R) -> neg c (rights_of R')) /\
    placed c (elements l) x (elements r).

Lemma stop_here c l x r L R : placed c (elements l) x (elements r) -> loop_post c (Node l x r) L R (Done (Node l x r, L, R)).
Proof. intros H. by exists l, x, r, L, R. Qed.

(** The same elements, differently hung. *)
Lemma loop_post_from c root L R root' L' R' res :
  loop_post c root' L' R' res -> lefts_of L' ++ elements root' ++ rights_of R' = lefts_of L ++ elements root ++ rights_of R ->
  (pos c (lefts_of L) -> pos c (lefts_of L')) -> (neg c (rights_of R) -> neg c (rights_of R')) -> loop_post c root L R res.
Proof.
  intros (l & x & r & L2 & R2 & E & El & HL & HR & Hp) E' H1 H2. exists l, x, r, L2, R2. split_and!; auto. by rewrite El.
Qed.

Lemma falling_app c l r : falling c (l ++ r) -> falling c l /\ falling c r.
Proof.
  unfold falling. induction l as [|a l IH]; simpl; intros H; [split; [constructor|done]|].
  inversion H as [|? ? Hs Hf]; subst. apply IH in Hs as [H1 H2]. apply Forall_app in Hf as [Hf _]. by split; [constructor|].
Qed.

(** Solve that two ways to hang the same elements are equal. *)
Ltac flatten := rewrite ?lefts_cons, ?rights_cons; repeat progress (cbn [elements app]; rewrite <- ?app_assoc); done.

Lemma splay_loop_spec n c root L R :
  root <> NULL -> falling c (elements root) -> (length (elements root) <= n)%nat -> loop_post c root L R (splay_loop n c root L R).
Proof.
  revert root L R. induction n as [|n IH]; intros [|l x r] L R Hne Hfall Hn; try done.
  { cbn [elements] in Hn. rewrite length_app in Hn. simpl in Hn. lia. }
  cbn [elements] in Hfall, Hn. rewrite length_app in Hn. cbn [length] in Hn.
  destruct (falling_mid _ _ _ _ Hfall) as [Hpos Hneg]. destruct (falling_app _ _ _ Hfall) as [Fl Fr']. destruct (falling_app _ [x] _ Fr') as [_ Fr].
  cbn [splay_loop elm_of try mbind run_bind]. destruct (Z.ltb_spec (c x) 0) as [Hx|Hx].
  - cbn [SPLAY_LEFT try mbind run_bind]. destruct l as [|ll y lr]; [apply stop_here; right; left; split; [done|constructor]|].
    cbn [elements] in Fl, Hn. rewrite length_app in Hn. cbn [length] in Hn. destruct (falling_mid _ _ _ _ Fl) as [Hpos' Hneg'].
    destruct (Z.ltb_spec (c y) 0) as [Hy|Hy].
    + cbn [SPLAY_ROTATE_RIGHT try mbind run_bind SPLAY_LEFT]. destruct (falling_app _ _ _ Fl) as [Fll _]. destruct ll as [|l1 z l2].
      * cbn [SPLAY_EMPTY]. eapply loop_post_from; [apply stop_here|flatten|done|done]. right; left. split; [done|constructor].
      * cbn [SPLAY_EMPTY SPLAY_LINKLEFT try mbind run_bind]. eapply loop_post_from; [apply IH; [done|done|lia]|flatten|done|].
        intros HR. rewrite rights_cons. constructor; [done|]. apply Forall_app. split; [|done]. cbn [elements].
        apply Forall_app. split; [apply Hneg'; lia|]. constructor; [done|apply Hneg; lia].
    + cbn [SPLAY_LINKLEFT try mbind run_bind]. eapply loop_post_from; [apply IH; [done|done|cbn [elements]; rewrite length_app; cbn [length]; lia]|flatten|done|].
      intros HR. rewrite rights_cons. constructor; [done|]. apply Forall_app. split; [apply Hneg; lia|done].
  - destruct (Z.ltb_spec 0 (c x)) as [Hx'|Hx']; [|apply stop_here; left; lia].
    cbn [SPLAY_RIGHT try mbind run_bind]. destruct r as [|rl y rr]; [apply stop_here; right; right; split; [done|constructor]|].
    cbn [elements] in Fr, Hn. rewrite length_app in Hn. cbn [length] in Hn. destruct (falling_mid _ _ _ _ Fr) as [Hpos' Hneg'].
    destruct (Z.ltb_spec 0 (c y)) as [Hy|Hy].
    + cbn [SPLAY_ROTATE_LEFT try mbind run_bind SPLAY_RIGHT]. destruct (falling_app _ _ _ Fr) as [_ Frr']. destruct (falling_app _ [y] _ Frr') as [_ Frr]. destruct rr as [|l1 z l2].
      * cbn [SPLAY_EMPTY]. eapply loop_post_from; [apply stop_here|flatten|done|done]. right; right. split; [done|constructor].
      * cbn [SPLAY_EMPTY SPLAY_LINKRIGHT try mbind run_bind]. eapply loop_post_from; [apply IH; [done|done|lia]|flatten| |done].
        intros HL. rewrite lefts_cons. apply Forall_app. split; [done|]. apply Forall_app. split; [|by repeat constructor]. cbn [elements].
        apply Forall_app. split; [apply Hpos; lia|]. constructor; [done|apply Hpos'; lia].
    + cbn [SPLAY_LINKRIGHT try mbind run_bind]. eapply loop_post_from; [apply IH; [done|done|cbn [elements]; rewrite length_app; cbn [length]; lia]|flatten| |done].
      intros HL. rewrite lefts_cons. apply Forall_app. split; [done|]. apply Forall_app. split; [apply Hpos; lia|by repeat constructor].
Qed.

(** Closing the spines. *)
Lemma assemble_spec c root res :
  loop_post c root [] [] res ->
  exists l x r, ('(root, __left, __right) ← res; try (SPLAY_ASSEMBLE root __left __right)) = Done (Node l x r) /\
    elements l ++ x :: elements r = elements root /\ placed c (elements l) x (elements r).
Proof.
  intros (l & x & r & L & R & -> & E & HL & HR & Hp). cbn [mbind run_bind SPLAY_ASSEMBLE try]. do 3 eexists. split; [done|].
  rewrite assemble_left, assemble_right. change (lefts_of []) with (@nil A) in E. change (rights_of []) with (@nil A) in E.
  cbn [elements] in E. rewrite app_nil_r in E. cbn [app] in E. split; [rewrite <- E; by rewrite <- !app_assoc|].
  destruct Hp as [Hp|[[Hx Hp]|[Hx Hp]]]; [by left|right; left|right; right]; (split; [done|]); apply Forall_app.
  - split; [apply HL; constructor|done].
  - split; [done|apply HR; constructor].
Qed.

Lemma minmax_loop_eq n comp root L R : comp <> 0 -> minmax_loop n comp root L R = splay_loop n (fun _ => comp) root L R.
Proof.
  intros Hc. revert root L R. induction n as [|n IH]; intros [|l x r] L R; cbn [minmax_loop splay_loop elm_of try mbind run_bind]; try done.
  - destruct (Z.ltb_spec comp 0), (Z.ltb_spec 0 comp); done || lia.
  - destruct (Z.ltb_spec comp 0).
    + cbn [SPLAY_LEFT try mbind run_bind]. destruct l as [|ll y lr]; [done|]. cbn [SPLAY_EMPTY SPLAY_ROTATE_RIGHT try mbind run_bind SPLAY_LEFT].
      destruct (SPLAY_EMPTY ll); [done|]. cbn [SPLAY_LINKLEFT try mbind run_bind]. apply IH.
    + destruct (Z.ltb_spec 0 comp); [|lia]. cbn [SPLAY_RIGHT try mbind run_bind].
      destruct r as [|rl y rr]; [done|]. cbn [SPLAY_EMPTY SPLAY_ROTATE_LEFT try mbind run_bind SPLAY_RIGHT].
      destruct (SPLAY_EMPTY rr); [done|]. cbn [SPLAY_LINKRIGHT try mbind run_bind]. apply IH.
Qed.

(** ** Operations on an ascending tree *)

Context {key : A -> Z} {KO : KeyOrder cmp key}.

Lemma cmp_neg x y : cmp x y < 0 <-> key x < key y.
Proof. rewrite <- !Z.ltb_lt. by rewrite cmp_lt. Qed.

Lemma cmp_pos x y : 0 < cmp x y <-> key y < key x.
Proof. rewrite <- !Z.ltb_lt. by rewrite cmp_gt. Qed.

Lemma cmp_zero x y : cmp x y = 0 <-> key x = key y.
Proof. rewrite <- !Z.eqb_eq. by rewrite cmp_eq. Qed.

Lemma cmp_falling x l : ascending (key := key) l -> falling (cmp x) l.
Proof.
  intros H. unfold falling. induction H as [|a l _ IH Hf]; constructor; [done|]. eapply Forall_impl; [exact Hf|]. simpl.
  intros b Hab Ha. apply cmp_neg. assert (~ key a < key x) by (rewrite <- cmp_pos; lia). lia.
Qed.

(** The root is the element with the key, or a neighbour of its place. *)
Lemma splay_spec n t x :
  t <> NULL -> ascending (key := key) (elements t) -> (length (elements t) <= n)%nat ->
  exists l y r, SPLAY n t x = Done (Node l y r) /\ elements l ++ y :: elements r = elements t /\
    (key y = key x \/ key x < key y /\ below (key := key) (key x) (elements l) \/ key y < key x /\ above (key := key) (key x) (elements r)).
Proof.
  intros Hne Ha Hn. destruct (assemble_spec (cmp x) t _ (splay_loop_spec n (cmp x) t [] [] Hne (cmp_falling x _ Ha) Hn)) as (l & y & r & E & El & Hp).
  exists l, y, r. split; [exact E|]. split; [done|]. unfold placed in Hp. rewrite cmp_zero, cmp_neg, cmp_pos in Hp.
  destruct Hp as [Hp|[[Hx Hp]|[Hx Hp]]]; [by left|right; left|right; right]; (split; [done|]); (eapply Forall_impl; [exact Hp|]); intros a; simpl; by rewrite ?cmp_pos, ?cmp_neg.
Qed.

Lemma minmax_spec n t comp :
  comp <> 0 -> t <> NULL -> (length (elements t) <= n)%nat ->
  exists l y r, SPLAY_MINMAX n t comp = Done (Node l y r) /\ elements l ++ y :: elements r = elements t /\
    (comp < 0 -> elements l = []) /\ (0 < comp -> elements r = []).
Proof.
  intros Hc Hne Hn.
  assert (forall l, falling (fun _ => comp) l) as Hfall.
  { intros l. unfold falling. induction l as [|a l IH]; constructor; [done|]. apply Forall_forall. lia. }
  destruct (assemble_spec (fun _ => comp) t _ (splay_loop_spec n (fun _ => comp) t [] [] Hne (Hfall _) Hn)) as (l & y & r & E & El & Hp).
  exists l, y, r. unfold SPLAY_MINMAX. rewrite minmax_loop_eq by done. split; [exact E|]. split; [done|].
  destruct Hp as [Hp|[[Hx Hp]|[Hx Hp]]]; [done|split; [intros _|lia]|split; [lia|intros _]].
  - destruct Hp as [|a l' Ha _]; [done|lia].
  - destruct Hp as [|a l' Ha _]; [done|lia].
Qed.

(** ** Specification: ascending lists *)

Inductive op := Find (x : A) | Insert (x : A) | Remove (x : A) | Next (x : A) | Min | Max.

Definition run_op (n : nat) (t : tree) (o : op) : run (tree * option A) :=
  match o with
  | Find x => SPLAY_FIND n t x
  | Insert x => SPLAY_INSERT n t x
  | Remove x => SPLAY_REMOVE n t x
  | Next x => SPLAY_NEXT n t x
  | Min => SPLAY_MIN n t
  | Max => SPLAY_MAX n t
  end.

Fixpoint run_ops (n : nat) (t : tree) (ops : list op) : run (tree * list (option A)) :=
  match ops with
  | [] => Done (t, [])
  | o :: ops => '(t, r) ← run_op n t o; '(t, rs) ← run_ops n t ops; Done (t, r :: rs)
  end.

Definition at_key (x : A) (l : list A) : option A := find (fun a => key a =? key x) l.

Fixpoint insert_key (x : A) (l : list A) : list A :=
  match l with [] => [x] | a :: l => if key x <? key a then x :: a :: l else a :: insert_key x l end.

(** The element behind [x], which is in the list. *)
Fixpoint behind (x : A) (l : list A) : option (option A) :=
  match l with [] => None | a :: l => if decide (a = x) then Some (head l) else behind x l end.

(** [None] is an operation the caller must not ask for. *)
Definition spec_op (l : list A) (o : op) : option (list A * option A) :=
  match o with
  | Find x => Some (l, at_key x l)
  | Insert x => Some (match at_key x l with Some a => (l, Some a) | None => (insert_key x l, None) end)
  | Remove x => Some (match at_key x l with Some _ => (filter (fun a => key a <> key x) l, Some x) | None => (l, None) end)
  | Next x => r ← behind x l; Some (l, r)
  | Min => Some (l, head l)
  | Max => Some (l, last l)
  end.

Fixpoint spec_ops (l : list A) (ops : list op) : option (list A * list (option A)) :=
  match ops with
  | [] => Some (l, [])
  | o :: ops => '(l, r) ← spec_op l o; '(l, rs) ← spec_ops l ops; Some (l, r :: rs)
  end.

Lemma insert_key_place x l r : below (key := key) (key x) l -> above (key := key) (key x) r -> insert_key x (l ++ r) = l ++ x :: r.
Proof.
  intros Hl Hr. induction Hl as [|a l Ha _ IH]; simpl.
  - destruct Hr as [|a r Ha _]; [done|]. simpl. by destruct (Z.ltb_spec (key x) (key a)); [|lia].
  - destruct (Z.ltb_spec (key x) (key a)); [lia|]. by rewrite IH.
Qed.

Lemma filter_key_all x (l : list A) : (forall a, a ∈ l -> key a <> key x) -> filter (fun a => key a <> key x) l = l.
Proof.
  intros H. induction l as [|b l IH]; [done|]. rewrite filter_cons_True by (apply H; left). f_equal. apply IH. intros a Ha. apply H. by right.
Qed.

Lemma remove_key_mid a x (l r : list A) :
  ascending (key := key) (l ++ a :: r) -> key a = key x -> filter (fun a => key a <> key x) (l ++ a :: r) = l ++ r.
Proof.
  intros Ha E. destruct (ascending_mid _ _ _ Ha) as [Hl Hr]. unfold below, above in *. rewrite Forall_forall in *. rewrite filter_app, filter_cons_False by tauto.
  rewrite !filter_key_all; [done|..]; intros b Hb; [specialize (Hr b Hb)|specialize (Hl b Hb)]; lia.
Qed.

Lemma behind_split x l : is_Some (behind x l) -> exists xs ys, l = xs ++ x :: ys /\ behind x l = Some (head ys).
Proof.
  induction l as [|a l IH]; simpl; [by intros []|]. destruct (decide (a = x)) as [->|]; [by exists [], l|].
  intros H. destruct (IH H) as (xs & ys & -> & E). by exists (a :: xs), ys.
Qed.

Lemma at_key_mid a x l r : ascending (key := key) (l ++ a :: r) -> key a = key x -> at_key x (l ++ a :: r) = Some a.
Proof. intros Ha E. unfold at_key. rewrite <- E. apply find_key; [done|]. apply elem_of_app. right. left. Qed.

(** Beside the place of the key. *)
Lemma at_key_gap x l y r :
  ascending (key := key) (l ++ y :: r) ->
  key x < key y /\ below (key := key) (key x) l \/ key y < key x /\ above (key := key) (key x) r -> at_key x (l ++ y :: r) = None.
Proof.
  intros Ha Hp. destruct (ascending_mid _ _ _ Ha) as [Hl Hr]. unfold at_key. apply find_no_key. unfold below, above in *. rewrite Forall_forall in *.
  intros a [H|[->|H]%elem_of_cons]%elem_of_app; destruct Hp as [[Hx Hp]|[Hx Hp]]; try lia.
  - specialize (Hp a H). lia.
  - specialize (Hl a H). lia.
  - specialize (Hr a H). lia.
  - rewrite Forall_forall in Hp. specialize (Hp a H). lia.
Qed.

Lemma behind_mid x l r : ascending (key := key) (l ++ x :: r) -> behind x (l ++ x :: r) = Some (head r).
Proof.
  intros Ha. destruct (ascending_mid _ _ _ Ha) as [Hl _]. clear Ha. induction Hl as [|a l Hax _ IH]; simpl; [by rewrite decide_True|].
  rewrite decide_False; [done|]. intros ->. lia.
Qed.

Lemma behind_in x l r : behind x l = Some r -> x ∈ l.
Proof. intros E. destruct (behind_split x l) as (xs & ys & -> & _); [by rewrite E|]. apply elem_of_app. right. left. Qed.

Lemma leftmost_head y l r : head (elements (Node l y r)) = Some (leftmost y l).
Proof. revert y r. induction l as [|ll IH z lr _]; intros y r; [done|]. cbn [elements leftmost]. rewrite <- (IH z lr). cbn [elements]. by destruct (elements ll). Qed.

Lemma elements_nil t : SPLAY_EMPTY t = true -> elements t = [].
Proof. by destruct t. Qed.

Lemma nonempty t : SPLAY_EMPTY t = false -> t <> NULL.
Proof. by destruct t. Qed.

(** What an operation promises. *)
Definition refines (t : tree) (res : run (tree * option A)) (l : list A) (r : option A) : Prop :=
  exists t', res = Done (t', r) /\ elements t' = l.

Section operation.
Variables (n : nat) (t : tree).
Hypotheses (Ha : ascending (key := key) (elements t)) (Hn : (length (elements t) <= n)%nat).

(** Open a splay of the tree: either the key is at the root, or its place is beside it. *)
Ltac open_splay E :=
  let x := match goal with |- context [SPLAY n t ?x] => x end in
  let l := fresh "l" in let y := fresh "y" in let r := fresh "r" in let Es := fresh "Es" in let El := fresh "El" in let Hp := fresh "Hp" in
  destruct (splay_spec n t x (nonempty t E) Ha Hn) as (l & y & r & Es & El & Hp);
  rewrite Es; cbn [try mbind run_bind elm_of SPLAY_LEFT SPLAY_RIGHT]; rewrite <- El in Ha |- *.

Lemma splay_find_spec x : refines t (SPLAY_FIND n t x) (elements t) (at_key x (elements t)).
Proof.
  unfold SPLAY_FIND. destruct (SPLAY_EMPTY t) eqn:E; [exists t; by rewrite (elements_nil t E)|].
  open_splay E. exists (Node l y r). split; [|done]. do 2 f_equal. destruct (Z.eqb_spec (cmp x y) 0) as [Hc|Hc]; rewrite cmp_zero in Hc.
  - by rewrite at_key_mid.
  - rewrite at_key_gap; [done..|]. destruct Hp as [Hp|Hp]; [congruence|done].
Qed.

Lemma insert_spec x :
  refines t (SPLAY_INSERT n t x) (match at_key x (elements t) with Some _ => elements t | None => insert_key x (elements t) end) (at_key x (elements t)).
Proof.
  unfold SPLAY_INSERT. destruct (SPLAY_EMPTY t) eqn:E; [exists (Node NULL x NULL); by rewrite (elements_nil t E)|].
  open_splay E. destruct (ascending_mid _ _ _ Ha) as [Hb Hab].
  destruct (Z.ltb_spec (cmp x y) 0) as [Hc|Hc]; [|destruct (Z.ltb_spec 0 (cmp x y)) as [Hc'|Hc']].
  - apply cmp_neg in Hc. rewrite at_key_gap; [|done|destruct Hp as [?|[Hp|[? _]]]; [lia|by left|lia]]. eexists. split; [reflexivity|].
    cbn [elements]. destruct Hp as [?|[[_ Hp]|[? _]]]; [lia| |lia]. rewrite insert_key_place; [done..|].
    apply above_cons_ascending; [|done]. by apply ascending_app in Ha as (_ & Ha & _).
  - apply cmp_pos in Hc'. rewrite at_key_gap; [|done|destruct Hp as [?|[[? _]|Hp]]; [lia|lia|by right]]. eexists. split; [reflexivity|].
    cbn [elements]. destruct Hp as [?|[[? _]|[_ Hp]]]; [lia|lia|]. transitivity (insert_key x ((elements l ++ [y]) ++ elements r)); [|by rewrite <- app_assoc].
    rewrite insert_key_place; [done| |done].
    apply Forall_app. split; [eapply below_le; [|exact Hb]; lia|by repeat constructor].
  - assert (key x = key y) as Hk by (apply cmp_zero; lia). rewrite at_key_mid; [|done..]. by eexists.
Qed.

(** The elements below the key, splayed for it, have the greatest one at the root. *)
Lemma splay_below l x :
  SPLAY_EMPTY l = false -> ascending (key := key) (elements l) -> below (key := key) (key x) (elements l) -> (length (elements l) <= n)%nat ->
  exists ll y, SPLAY n l x = Done (Node ll y NULL) /\ elements ll ++ [y] = elements l.
Proof.
  intros E Hal Hb Hl. destruct (splay_spec n l x (nonempty l E) Hal Hl) as (ll & y & r & Es & El & Hp). rewrite <- El in Hb.
  apply Forall_app in Hb as [_ Hb]. apply Forall_cons in Hb as [Hy Hr].
  destruct Hp as [?|[[? _]|[_ Hp]]]; [lia|lia|]. exists ll, y. rewrite Es, <- El. destruct r as [|rl z rr]; [done|exfalso].
  cbn [elements] in Hp, Hr. apply Forall_app in Hp as [_ Hp]. apply Forall_app in Hr as [_ Hr]. apply Forall_inv in Hp, Hr. lia.
Qed.

Lemma remove_spec x :
  refines t (SPLAY_REMOVE n t x)
    (match at_key x (elements t) with Some _ => filter (fun a => key a <> key x) (elements t) | None => elements t end)
    (match at_key x (elements t) with Some _ => Some x | None => None end).
Proof.
  unfold SPLAY_REMOVE. destruct (SPLAY_EMPTY t) eqn:E; [exists t; by rewrite (elements_nil t E)|].
  open_splay E. destruct (Z.eqb_spec (cmp x y) 0) as [Hc|Hc]; rewrite cmp_zero in Hc.
  - rewrite (at_key_mid y x) by done. rewrite remove_key_mid by done. cbn [SPLAY_LEFT SPLAY_RIGHT try mbind run_bind].
    destruct (SPLAY_EMPTY l) eqn:El'; [exists r; by rewrite (elements_nil l El')|].
    destruct (ascending_mid _ _ _ Ha) as [Hb _]. apply ascending_app in Ha as (Hal & _ & _). rewrite <- Hc in Hb.
    destruct (splay_below l x El' Hal Hb) as (ll & z & -> & Ez); [rewrite <- El, length_app in Hn; lia|].
    cbn [try mbind run_bind elm_of SPLAY_LEFT]. eexists. split; [reflexivity|]. cbn [elements]. by rewrite <- Ez, <- app_assoc.
  - rewrite at_key_gap; [|done|destruct Hp as [?|?]; [congruence|done]]. by eexists.
Qed.

Lemma splay_next_spec x r : behind x (elements t) = Some r -> refines t (SPLAY_NEXT n t x) (elements t) r.
Proof.
  intros Hx. pose proof (behind_in _ _ _ Hx) as Hin. unfold SPLAY_NEXT. destruct (SPLAY_EMPTY t) eqn:E; [by rewrite (elements_nil t E) in Hx|].
  open_splay E. rewrite <- El in Hx, Hin. assert (y = x) as ->.
  { pose proof (find_key _ x Ha Hin) as Hf. change (at_key x (elements l ++ y :: elements r0) = Some x) in Hf.
    destruct Hp as [Hp|Hp]; [rewrite (at_key_mid y x) in Hf by done; congruence|by rewrite at_key_gap in Hf]. }
  rewrite bool_decide_true by done. cbn [negb try mbind run_bind]. rewrite behind_mid in Hx by done. injection Hx as <-. exists (Node l x r0). split; [|done].
  destruct r0 as [|rl z rr]; [done|]. by rewrite leftmost_head.
Qed.

Lemma min_spec : refines t (SPLAY_MIN n t) (elements t) (head (elements t)).
Proof.
  unfold SPLAY_MIN. destruct (SPLAY_EMPTY t) eqn:E; [exists t; by rewrite (elements_nil t E)|].
  destruct (minmax_spec n t SPLAY_NEGINF ltac:(done) (nonempty t E) Hn) as (l & y & r & Es & El & Hm & _).
  unfold SPLAY_MIN_MAX. rewrite Es. exists (Node l y r). cbn [mbind run_bind elm_of elements]. by rewrite <- El, Hm.
Qed.

Lemma max_spec : refines t (SPLAY_MAX n t) (elements t) (last (elements t)).
Proof.
  unfold SPLAY_MAX. destruct (SPLAY_EMPTY t) eqn:E; [exists t; by rewrite (elements_nil t E)|].
  destruct (minmax_spec n t SPLAY_INF ltac:(done) (nonempty t E) Hn) as (l & y & r & Es & El & _ & Hm).
  unfold SPLAY_MIN_MAX. rewrite Es. exists (Node l y r). cbn [mbind run_bind elm_of elements]. by rewrite <- El, Hm, last_snoc.
Qed.

End operation.

(** ** Refinement *)

Lemma insert_key_split x l :
  ascending (key := key) l -> at_key x l = None ->
  exists xs ys, l = xs ++ ys /\ insert_key x l = xs ++ x :: ys /\ below (key := key) (key x) xs /\ above (key := key) (key x) ys.
Proof.
  unfold at_key. induction l as [|a l IH]; intros Ha Hx; [exists [], []; split_and!; (done || constructor)|]. simpl in Hx |- *.
  destruct (Z.eqb_spec (key a) (key x)); [done|]. destruct (Z.ltb_spec (key x) (key a)).
  - exists [], (a :: l). split_and!; [done..|constructor|by apply above_cons_ascending].
  - destruct (IH (ascending_tail _ _ Ha) Hx) as (xs & ys & -> & -> & Hb & Hab). exists (a :: xs), ys. split_and!; [done..| |done]. constructor; [lia|done].
Qed.

(** The specification keeps the list ascending, and adds one element at most. *)
Lemma spec_op_keeps l o l' r :
  ascending (key := key) l -> spec_op l o = Some (l', r) -> ascending (key := key) l' /\ (length l' <= S (length l))%nat.
Proof.
  intros Ha E. destruct o as [x|x|x|x| |]; cbn [spec_op] in E.
  - injection E as <- _. by split; [|lia].
  - destruct (at_key x l) eqn:Ex; injection E as <- _; [split; [done|lia]|].
    destruct (insert_key_split x l Ha Ex) as (xs & ys & -> & -> & Hb & Hab). split; [by apply ascending_insert|]. rewrite !length_app. simpl. lia.
  - destruct (at_key x l) eqn:Ex; injection E as <- _; [|split; [done|lia]]. unfold at_key in Ex.
    destruct (find_some _ _ Ex) as [Hin Hk%Z.eqb_eq]. apply list_elem_of_In, list_elem_of_split in Hin as (xs & ys & ->).
    rewrite remove_key_mid by done. split; [by apply ascending_remove in Ha|]. rewrite !length_app. simpl. lia.
  - destruct (behind x l); [|done]. injection E as <- _. by split; [|lia].
  - injection E as <- _. by split; [|lia].
  - injection E as <- _. by split; [|lia].
Qed.

Lemma run_op_refines n t o l r :
  ascending (key := key) (elements t) -> (length (elements t) <= n)%nat -> spec_op (elements t) o = Some (l, r) -> refines t (run_op n t o) l r.
Proof.
  intros Ha Hn E. destruct o as [x|x|x|x| |]; cbn [spec_op run_op] in *.
  - injection E as <- <-. by apply splay_find_spec.
  - pose proof (insert_spec n t Ha Hn x) as H. destruct (at_key x (elements t)); by injection E as <- <-.
  - pose proof (remove_spec n t Ha Hn x) as H. destruct (at_key x (elements t)); by injection E as <- <-.
  - destruct (behind x (elements t)) as [r'|] eqn:Eb; [|done]. cbn [mbind option_bind] in E. injection E as <- <-. by apply splay_next_spec.
  - injection E as <- <-. by apply min_spec.
  - injection E as <- <-. by apply max_spec.
Qed.

Lemma run_ops_refines n t ops l rs :
  ascending (key := key) (elements t) -> (length (elements t) + length ops <= n)%nat -> spec_ops (elements t) ops = Some (l, rs) ->
  exists t', run_ops n t ops = Done (t', rs) /\ elements t' = l /\ ascending (key := key) l /\ (length l <= n)%nat.
Proof.
  revert t rs. induction ops as [|o ops IH]; intros t rs Ha Hn E; cbn [spec_ops run_ops length] in *.
  { injection E as <- <-. exists t. split_and!; [done..|lia]. }
  destruct (spec_op (elements t) o) as [[l1 r]|] eqn:Eo; [|done]. cbn [mbind option_bind] in E.
  destruct (spec_ops l1 ops) as [[l2 rs']|] eqn:Es; [|done]. injection E as -> <-.
  destruct (spec_op_keeps _ _ _ _ Ha Eo) as [Ha1 Hn1]. destruct (run_op_refines n t o l1 r Ha ltac:(lia) Eo) as (t1 & -> & <-).
  destruct (IH t1 rs' Ha1 ltac:(lia) Es) as (t' & E' & Ht'). exists t'. cbn [mbind run_bind]. by rewrite E'.
Qed.

(** From an element on, [SPLAY_FOREACH] visits the rest. *)
Lemma splay_foreach_loop_spec n k t xs ys :
  ascending (key := key) (elements t) -> (length (elements t) <= n)%nat -> elements t = xs ++ ys -> (length ys <= k)%nat ->
  exists t', foreach_loop n k t (head ys) = Done (t', ys) /\ elements t' = elements t.
Proof.
  revert t xs k. induction ys as [|y ys IH]; intros t xs k Ha Hn E Hk; [exists t; by destruct k|].
  destruct k as [|k]; simpl in Hk; [lia|]. cbn [foreach_loop head].
  destruct (splay_next_spec n t Ha Hn y (head ys)) as (t1 & -> & E1); [rewrite E; apply behind_mid; by rewrite <- E|]. cbn [mbind run_bind].
  destruct (IH t1 (xs ++ [y]) k) as (t' & -> & E'); rewrite ?E1; [done|done|by rewrite E, <- app_assoc|lia|]. exists t'. by rewrite E', E1.
Qed.

Lemma foreach_spec n t :
  ascending (key := key) (elements t) -> (length (elements t) <= n)%nat ->
  exists t', SPLAY_FOREACH n n t = Done (t', elements t) /\ elements t' = elements t.
Proof.
  intros Ha Hn. unfold SPLAY_FOREACH. destruct (min_spec n t Hn) as (t1 & -> & E). cbn [mbind run_bind].
  destruct (splay_foreach_loop_spec n n t1 [] (elements t)) as (t' & -> & E'); rewrite ?E; try done. exists t'. by rewrite E', E.
Qed.

(** C22.  Any history of operations on an empty tree answers as it would on an ascending list of the
    elements, where looking for an element, for its successor and for the ends changes
    nothing, an element is added once for its key, and one is removed by its key alone.
    No operation follows a null pointer or loops for more rounds than there are operations
    in the history, as long as a successor is asked for an element of the tree only; and a
    walk over the tree visits all of the list, once and in order. *)
Theorem splay_refines n ops l rs :
  (length ops <= n)%nat -> spec_ops [] ops = Some (l, rs) ->
  exists t, run_ops n SPLAY_INIT ops = Done (t, rs) /\ elements t = l /\ ascending (key := key) l /\
    exists t', SPLAY_FOREACH n n t = Done (t', l) /\ elements t' = l.
Proof.
  intros Hn E. destruct (run_ops_refines n SPLAY_INIT ops l rs) as (t & Er & <- & Ha & Hl); [constructor|done..|].
  exists t. split_and!; [done..|by apply foreach_spec].
Qed.

End splay.

(** Four elements come, one of them twice; one that is in the middle goes. *)
Definition sample_ops : list (op (A := Z)) := [Insert 3; Insert 1; Insert 4; Insert 1; Insert 2; Min; Next 2; Remove 3; Find 3; Max].

Lemma splay_refines_witness :
  exists t, run_ops Z.sub 10 SPLAY_INIT sample_ops =
    Done (t, [None; None; None; Some 1; None; Some 1; Some 3; Some 3; None; Some 4]) /\ elements t = [1; 2; 4].
Proof.
  destruct (splay_refines (key := fun z => z) Z.sub 10 sample_ops [1; 2; 4]
    [None; None; None; Some 1; None; Some 1; Some 3; Some 3; None; Some 4]) as (t & E & El & _); [simpl; lia|reflexivity|].
  exists t. split; [exact E|exact El].
Defined.
