(* ===== verification/Prealloc.v ===== *)
(** * Preallocated chunks

    Models [include/peak_prealloc.h]: a pool of [count] chunks of [size] bytes in one
    block of memory, with a list of the free ones threaded through the chunks
    themselves.  A chunk is its address, the list of free chunks is the list of
    their addresses; the allocation of the block ([malign]) is an argument, NULL is
    [None]. *)

From S2P Require Import Prelude.

(** [prealloc_t]. *)
Record prealloc_t := Prealloc {
  free : list Z;
  used : Z;
  size : Z;
  mem_start : Z;
  mem_stop : Z;
  lock : bool;
}.

(** The structure after the [memset]. *)
Definition prealloc_zero : prealloc_t := Prealloc [] 0 0 0 0 false.

Definition prealloc_valid (self : prealloc_t) (p : Z) : bool := (mem_start self <=? p) && (p <? mem_stop self).
Definition prealloc_empty (self : prealloc_t) : bool := match free self with [] => true | _ => false end.
Definition prealloc_used (self : prealloc_t) : Z := used self.
Definition prealloc_size (self : prealloc_t) : Z := size self.

Definition prealloc_get (self : prealloc_t) : prealloc_t * option Z :=
  match free self with
  | [] => (self, None)
  | e :: free =>
      (Prealloc free (u64 (used self + 1)) (size self) (mem_start self) (mem_stop self) (lock self), Some e)
  end.

Definition prealloc_put (self : prealloc_t) (p : option Z) : prealloc_t :=
  match p with
  | Some e =>
      Prealloc (e :: free self) (u64 (used self - 1)) (size self) (mem_start self) (mem_stop self) (lock self)
  | None => self
  end.

Definition set_lock (self : prealloc_t) (held : bool) : prealloc_t :=
  Prealloc (free self) (used self) (size self) (mem_start self) (mem_stop self) held.

(** [spin_lock]: [None] while somebody holds the lock. *)
Definition spin_lock (self : prealloc_t) : option prealloc_t :=
  if lock self then None else Some (set_lock self true).
Definition spin_unlock (self : prealloc_t) : prealloc_t := set_lock self false.

Definition prealloc_gets (self : prealloc_t) : option (prealloc_t * option Z) :=
  self ← spin_lock self;
  let '(self, ret) := prealloc_get self in
  Some (spin_unlock self, ret).

Definition prealloc_puts (self : prealloc_t) (p : option Z) : option prealloc_t :=
  self ← spin_lock self;
  Some (spin_unlock (prealloc_put self p)).

(** The list the loop of [prealloc_init] builds: [e], and [n] more. *)
Fixpoint init_loop (e size : Z) (n : nat) : list Z :=
  match n with
  | O => [e]
  | S n => e :: init_loop (e + size) size n
  end.

(** The pool, and whether it could be set up. *)
Definition prealloc_init (count size : Z) (malign : Z -> Z -> option Z) : prealloc_t * bool :=
  if (count =? 0) || (size =? 0) then (prealloc_zero, false)
  else if negb (size .& 0x7 =? 0) then (prealloc_zero, false)
  else
    match malign count size with
    | None => (prealloc_zero, false)
    | Some mem => (Prealloc (init_loop mem size (Z.to_nat (count - 1))) 0 size mem (mem + count * size) false, true)
    end.

(** [_prealloc_exit]: the return value, and the block that was freed. *)
Definition _prealloc_exit (self : prealloc_t) : Z * option Z :=
  if negb (prealloc_used self =? 0) then (1, None) else (0, Some (mem_start self)).

(** [None] is the panic. *)
Definition prealloc_exit (self : prealloc_t) : option (option Z) :=
  let '(ret, freed) := _prealloc_exit self in
  if negb (ret =? 0) then None else Some freed.

(** ** Specification: who owns which chunk *)

(** The chunks of a block. *)
Definition chunks (mem size : Z) (count : nat) : list Z :=
  map (fun i => mem + Z.of_nat i * size) (seq 0 count).

Lemma init_loop_chunks e size n : init_loop e size n = chunks e size (S n).
Proof.
  revert e. induction n as [|n IH]; intros e; unfold chunks; simpl; f_equal; try lia.
  rewrite IH. unfold chunks. simpl. f_equal; [lia|].
  rewrite <- !seq_shift, !map_map. apply map_ext. intros i. lia.
Qed.

Lemma in_chunks mem size count p :
  p ∈ chunks mem size count <-> exists i, (i < count)%nat /\ p = mem + Z.of_nat i * size.
Proof.
  unfold chunks. rewrite list_elem_of_fmap. setoid_rewrite elem_of_seq. split.
  - intros (i & -> & Hi). exists i. split; [lia|done].
  - intros (i & Hi & ->). exists i. split; [done|lia].
Qed.

Lemma chunks_NoDup mem size count : 0 < size -> NoDup (chunks mem size count).
Proof.
  intros Hs. apply NoDup_fmap_2_strong; [|apply NoDup_seq]. intros i j _ _ E. nia.
Qed.

(** Two chunks do not overlap. *)
Lemma chunks_disjoint mem size count p q :
  0 < size -> p ∈ chunks mem size count -> q ∈ chunks mem size count -> p <> q ->
  p + size <= q \/ q + size <= p.
Proof.
  intros Hs (i & Hi & ->)%in_chunks (j & Hj & ->)%in_chunks Hne.
  assert (i <> j) by congruence. destruct (decide (i < j)%nat); [left|right]; nia.
Qed.

Section pool.
Variables (mem sz : Z) (count : nat).
Implicit Types (self : prealloc_t) (out : list Z).

(** The pool over the [count] chunks of [sz] bytes at [mem]: the chunks that are not
    free are [out], the pool counts them, and nobody holds the lock. *)
Record pool_ok self out : Prop := {
  ok_chunks : free self ++ out ≡ₚ chunks mem sz count;
  ok_used : used self = Z.of_nat (length out);
  ok_size : size self = sz /\ 0 < sz;
  ok_count : (0 < count)%nat /\ fits 64 (Z.of_nat count);
  ok_block : mem_start self = mem /\ mem_stop self = mem + Z.of_nat count * sz;
  ok_lock : lock self = false;
}.

(** The order of the held chunks does not matter. *)
#[export] Instance pool_ok_proper self : Proper ((≡ₚ) ==> iff) (pool_ok self).
Proof.
  assert (forall o1 o2, o1 ≡ₚ o2 -> pool_ok self o1 -> pool_ok self o2) as H.
  { intros o1 o2 E [Hc Hu Hs Hn Hb Hl]. split; try done; [by rewrite <- E|by rewrite <- E]. }
  intros o1 o2 E. split; by apply H.
Qed.

Lemma pool_NoDup self out : pool_ok self out -> NoDup (free self ++ out).
Proof. intros [Hc _ [_ Hs] _ _ _]. rewrite Hc. by apply chunks_NoDup. Qed.

Lemma pool_length self out : pool_ok self out -> (length (free self) + length out = count)%nat.
Proof.
  intros [Hc _ _ _ _ _]. rewrite <- length_app, Hc. unfold chunks. by rewrite length_map, length_seq.
Qed.

Lemma pool_get self out :
  pool_ok self out ->
  match prealloc_get self with
  | (self', Some e) => e ∈ free self /\ pool_ok self' (e :: out)
  | (self', None) => self' = self /\ free self = []
  end.
Proof.
  intros Hok. pose proof (pool_length _ _ Hok) as Hl. destruct Hok as [Hc Hu Hs [Hn Hf] Hst Hlk].
  unfold prealloc_get. destruct (free self) as [|e fr] eqn:E; [done|]. split; [left|].
  split; simpl; try done. 2:{ rewrite Hu, wrap_small; [lia|]. unfold fits in *. simpl in Hl. lia. }
  rewrite <- Hc. simpl. symmetry. apply Permutation_middle.
Qed.

Lemma pool_put self out1 e out2 :
  pool_ok self (out1 ++ e :: out2) -> pool_ok (prealloc_put self (Some e)) (out1 ++ out2).
Proof.
  intros Hok. pose proof (pool_length _ _ Hok) as Hl. destruct Hok as [Hc Hu Hs [Hn Hf] Hst Hlk].
  split; simpl; try done.
  - rewrite <- Hc. rewrite app_comm_cons, <- !Permutation_middle. simpl. by rewrite (app_assoc _ out1).
  - rewrite length_app in *. simpl in *. rewrite Hu, wrap_small; unfold fits in *; lia.
Qed.

Lemma pool_empty self out : pool_ok self out -> prealloc_empty self = true <-> length out = count.
Proof.
  intros Hok. pose proof (pool_length _ _ Hok) as Hl. unfold prealloc_empty.
  destruct (free self); simpl in *; split; try done; lia.
Qed.

Lemma pool_exit self out : pool_ok self out -> prealloc_exit self = None <-> out <> [].
Proof.
  intros [_ Hu _ _ _ _]. unfold prealloc_exit, _prealloc_exit, prealloc_used. rewrite Hu.
  by destruct out.
Qed.

(** A free chunk lies in the block, apart from the chunks that are not. *)
Lemma free_chunk self out e :
  pool_ok self out -> e ∈ free self ->
  prealloc_valid self e = true /\ forall q, q ∈ out -> e + sz <= q \/ q + sz <= e.
Proof.
  intros Hok He. pose proof (pool_NoDup _ _ Hok) as HN. destruct Hok as [Hc _ [_ Hs] _ [Hm Hst] _].
  assert (forall q, q ∈ free self ++ out -> q ∈ chunks mem sz count) as Hin by (intros q; by rewrite Hc).
  split.
  - destruct (proj1 (in_chunks _ _ _ _) (Hin e ltac:(apply elem_of_app; auto))) as (i & Hi & ->).
    unfold prealloc_valid. rewrite Hm, Hst. apply andb_true_intro. split; [apply Z.leb_le|apply Z.ltb_lt]; nia.
  - intros q Hq. apply (chunks_disjoint mem sz count); [done|apply Hin, elem_of_app; auto..|].
    intros ->. apply NoDup_app in HN as (_ & HN & _). by apply (HN q).
Qed.

(** The locked functions, as long as nobody holds the lock. *)
Lemma gets_get self : lock self = false -> prealloc_gets self = Some (prealloc_get self).
Proof.
  intros Hl. unfold prealloc_gets, spin_lock, prealloc_get. rewrite Hl. simpl.
  by destruct self as [[|e fr] u s m1 m2 l]; simpl in *; subst.
Qed.

Lemma puts_put self p : lock self = false -> prealloc_puts self p = Some (prealloc_put self p).
Proof.
  intros Hl. unfold prealloc_puts, spin_lock, prealloc_put. rewrite Hl. simpl.
  by destruct self as [fr u s m1 m2 l], p; simpl in *; subst.
Qed.

(** What clients do: claim chunks and put back the ones they claimed. *)
Inductive pool_step : prealloc_t * list Z -> prealloc_t * list Z -> Prop :=
  | step_get self out self' e :
      prealloc_get self = (self', Some e) -> pool_step (self, out) (self', e :: out)
  | step_put self out1 e out2 :
      pool_step (self, out1 ++ e :: out2) (prealloc_put self (Some e), out1 ++ out2)
  | step_gets self out self' e :
      prealloc_gets self = Some (self', Some e) -> pool_step (self, out) (self', e :: out)
  | step_puts self out1 e out2 self' :
      prealloc_puts self (Some e) = Some self' -> pool_step (self, out1 ++ e :: out2) (self', out1 ++ out2).

Lemma pool_steps s s' : rtc pool_step s s' -> pool_ok (fst s) (snd s) -> pool_ok (fst s') (snd s').
Proof.
  induction 1 as [s|s1 s2 s3 Hs _ IH]; [done|]. intros Hok. apply IH; clear IH s3.
  assert (forall self out self' e, pool_ok self out -> prealloc_get self = (self', Some e) ->
    pool_ok self' (e :: out)) as Hget.
  { intros self out self' e H E. pose proof (pool_get self out H) as Hg. rewrite E in Hg. apply Hg. }
  destruct Hs as [self out self' e E|self out1 e out2|self out self' e E|self out1 e out2 self' E]; simpl in *.
  - by eapply Hget.
  - by apply pool_put.
  - rewrite gets_get in E by apply Hok. injection E as E. by eapply Hget.
  - rewrite puts_put in E by apply Hok. injection E as <-. by apply pool_put.
Qed.

End pool.

Lemma pool_init size malign count self :
  fits 64 count -> fits 64 size -> prealloc_init count size malign = (self, true) ->
  exists mem, malign count size = Some mem /\ pool_ok mem size (Z.to_nat count) self [].
Proof.
  intros Hc Hs. unfold prealloc_init. destruct (Z.eqb_spec count 0), (Z.eqb_spec size 0); try done.
  simpl. destruct (negb _); [done|]. destruct (malign _ _) as [mem|]; [|done]. intros [= <-].
  exists mem. split; [done|]. destruct Hs, Hc. split; simpl; try done.
  - rewrite app_nil_r, init_loop_chunks. by replace (S (Z.to_nat (count - 1))) with (Z.to_nat count) by lia.
  - split; [done|lia].
  - rewrite Z2Nat.id by done. split; [lia|done].
  - by rewrite Z2Nat.id.
Qed.

(** ** Properties *)

(** C10.  After a successful [prealloc_init] and any sequence of claims and returns by
    clients that only return what they hold, the pool and the clients share the chunks
    of the block: a claim, locked or not, yields a chunk nobody holds, inside the block
    and apart from every chunk that is held, or NULL exactly if all are held; the
    counter is the number of chunks held; the pool is empty exactly if all are held;
    and [prealloc_exit] panics exactly if one is missing. *)
Theorem prealloc_accounts count size malign self0 self out :
  fits 64 count -> fits 64 size ->
  prealloc_init count size malign = (self0, true) -> rtc pool_step (self0, []) (self, out) ->
  NoDup out /\ prealloc_used self = Z.of_nat (length out) /\
  match prealloc_get self with
  | (self', None) => self' = self /\ Z.of_nat (length out) = count
  | (self', Some e) => Z.of_nat (length out) < count /\ prealloc_valid self e = true /\
      forall q, q ∈ out -> e + size <= q \/ q + size <= e
  end /\
  prealloc_gets self = Some (prealloc_get self) /\
  (prealloc_empty self = true <-> Z.of_nat (length out) = count) /\
  (prealloc_exit self = None <-> out <> []).
Proof.
  intros Hc Hsz Hi Hs. destruct (pool_init size malign count self0 Hc Hsz Hi) as (mem & _ & H0).
  pose proof (pool_steps _ _ _ _ _ Hs H0) as Hok. simpl in Hok. destruct Hc as [Hc _].
  pose proof (pool_NoDup _ _ _ self out Hok) as HN. pose proof (pool_length _ _ _ self out Hok) as Hlen.
  apply NoDup_app in HN as (_ & _ & HN).
  split_and!; [done|apply Hok| |apply gets_get, Hok| |by eapply pool_exit].
  - pose proof (pool_get _ _ _ self out Hok) as Hg. destruct (prealloc_get self) as [self' [e|]].
    + destruct Hg as [He Hok']. split; [|by eapply free_chunk].
      pose proof (pool_length _ _ _ _ _ Hok') as Hl'. simpl in Hl'. lia.
    + destruct Hg as [-> E]. split; [done|]. rewrite E in Hlen. simpl in Hlen. lia.
  - rewrite (pool_empty _ _ _ self out Hok). lia.
Qed.

(** A pool of two chunks of 16 bytes, one of them claimed. *)
Lemma prealloc_accounts_witness :
  let pool := fst (prealloc_init 2 16 (fun _ _ => Some 4096)) in
  prealloc_valid (fst (prealloc_get pool)) 4112 = true /\
  prealloc_used (fst (prealloc_get pool)) = 1.
Proof.
  intros pool. destruct (prealloc_accounts 2 16 (fun _ _ => Some 4096) pool (fst (prealloc_get pool)) [4096])
    as (_ & Hu & Hg & _); [unfold fits; lia..|reflexivity| |].
  - eapply rtc_l; [|apply rtc_refl]. apply step_get. reflexivity.
  - split; [apply Hg|exact Hu].
Defined.
