(* ===== verification/Stream.v ===== *)
(** * Stream buffers

    Models [lib/peak_stream.c]: buffers that grow at the end and shrink at the front, made
    of consecutive pages of one block of memory.  The free pages are in a search tree
    (any [OrderedTree]) under their index, which is also the name of a page here; they
    begin and end with a magic value.  The structures of the streams come from a pool of
    [Prealloc] and are in a store under their addresses.  A panic is [None]. *)

From S2P Require Import Prelude Bytes Alloc Order Tree Prealloc.
Open Scope Z_scope.

(** ** Data *)

Definition STREAM_MAGIC : Z := 0xEF05BA06CD07FA08.
Definition STREAM_ERROR : Z := -1.

(** The ends of the pages are closer than [2^31], so that the difference is an [int]. *)
Definition STREAM_CMP (x y : Z) : Z := x - y.

Definition sizeof_stream_page : Z := 56.
Definition sizeof_stream : Z := 32.

(** [struct _peak_stream] with the members of the user's [struct peak_stream]; the buffer is
    an offset into the memory of the pages. *)
Record _peak_stream := {
  s_count : Z;
  s_no : Z;
  s_len : Z;
  s_buf : Z;
}.

Record peak_streams {T : Type} := {
  page_tree : T;
  references : prealloc_t;
  page_count : Z;
  page_size : Z;
  page_mem : list Z;
  streams : gmap Z _peak_stream;
}.
Arguments peak_streams T : clear implicits.

Section operations.
Context {T : Type} `{OT : OrderedTree T Z}.
Implicit Types (self : peak_streams T).

Definition set_tree (v : T) self : peak_streams T :=
  {| page_tree := v; references := references self; page_count := page_count self;
     page_size := page_size self; page_mem := page_mem self; streams := streams self |}.
Definition set_mem (v : list Z) self : peak_streams T :=
  {| page_tree := page_tree self; references := references self; page_count := page_count self;
     page_size := page_size self; page_mem := v; streams := streams self |}.
Definition set_references (v : prealloc_t) self : peak_streams T :=
  {| page_tree := page_tree self; references := v; page_count := page_count self;
     page_size := page_size self; page_mem := page_mem self; streams := streams self |}.
Definition set_streams (v : gmap Z _peak_stream) self : peak_streams T :=
  {| page_tree := page_tree self; references := references self; page_count := page_count self;
     page_size := page_size self; page_mem := page_mem self; streams := v |}.
Arguments set_tree v self /.
Arguments set_mem v self /.
Arguments set_references v self /.
Arguments set_streams v self /.

Definition STREAM_PAGE self (y : Z) : Z := y * page_size self.
Definition STREAM_TAIL self (y : Z) : Z := y + page_size self - 8.

Definition STREAM_SETUP self (y z : Z) : option (peak_streams T) :=
  m ← peak_le64enc (page_mem self) (STREAM_TAIL self y) STREAM_MAGIC;
  m ← peak_le64enc m y STREAM_MAGIC;
  m ← peak_le64enc m (y + 8) (u64 z);
  Some (self<|set_mem m|>).

Definition STREAM_CHECK self (y : Z) : option unit :=
  magic ← peak_le64dec (page_mem self) y;
  tail ← peak_le64dec (page_mem self) (STREAM_TAIL self y);
  if negb (magic =? STREAM_MAGIC) || negb (tail =? STREAM_MAGIC) then None else Some tt.

(** ** Pages *)

(** The loop from [next] on; [fuel] is for the pages. *)
Fixpoint probe_loop (fuel : nat) (t : T) (base : Z) (next : option Z) (count stop : Z) : option Z :=
  match next with
  | None => Some count
  | Some n =>
      if count =? stop then Some count
      else if negb (n =? base + count) then Some count
      else
        match fuel with
        | O => None
        | S fuel => next ← ot_next t n; probe_loop fuel t base next (count + 1) stop
        end
  end.

Definition peak_stream_probe self (base : option Z) (stop : Z) : option Z :=
  match base with
  | None => Some 0
  | Some b => probe_loop (Z.to_nat (page_count self)) (page_tree self) b base 0 stop
  end.

(** [for (i = 0; i < page_count; ++i)], [n] times. *)
Fixpoint unhook_loop (n : nat) self (page : option Z) : option (peak_streams T) :=
  match n with
  | O => Some self
  | S n =>
      p ← page;
      _ ← STREAM_CHECK self (STREAM_PAGE self p);
      next ← ot_next (page_tree self) p;
      t ← st_remove (page_tree self) p;
      unhook_loop n (self<|set_tree t|>) next
  end.

Definition peak_stream_unhook self (page : option Z) (page_count : Z) : option (peak_streams T) :=
  unhook_loop (Z.to_nat page_count) self page.

Definition __peak_stream_reclaim self (stream : _peak_stream) (page_count : Z) : option (peak_streams T * Z) :=
  let index := s_no stream + s_count stream in
  let page := st_find STREAM_CMP (page_tree self) index in
  i ← peak_stream_probe self page page_count;
  if i <? page_count then Some (self, STREAM_ERROR)
  else self ← peak_stream_unhook self page page_count; Some (self, s_no stream).

(** [for (j = 0; j < i; ++j)] *)
Fixpoint skip_loop (n : nat) (t : T) (page : option Z) : option (option Z) :=
  match n with
  | O => Some page
  | S n => p ← page; next ← ot_next t p; skip_loop n t next
  end.

(** The page found, or the end of the list. *)
Fixpoint claim_loop (fuel : nat) self (page : option Z) (page_count : Z) : option (option (option Z)) :=
  match fuel with
  | O => None
  | S fuel =>
      i ← peak_stream_probe self page page_count;
      if page_count <=? i then Some (Some page)
      else
        page ← skip_loop (Z.to_nat i) (page_tree self) page;
        match (page : option Z) with
        | None => Some None
        | Some _ => claim_loop fuel self page page_count
        end
  end.

Definition __peak_stream_claim self (count : Z) : option (peak_streams T * Z) :=
  found ← claim_loop (S (Z.to_nat (page_count self))) self (ot_first (page_tree self)) count;
  match (found : option (option Z)) with
  | None => Some (self, STREAM_ERROR)
  | Some page =>
      self ← peak_stream_unhook self page count;
      p ← page;
      Some (self, p)
  end.

(** ** Streams *)

Definition stream_zero : _peak_stream := {| s_count := 0; s_no := 0; s_len := 0; s_buf := 0 |}.

(** [None] is the panic; else the stream and its zeroed structure. *)
Definition peak_stream_get self : option (peak_streams T * Z) :=
  let '(references, ret) := prealloc_get (references self) in
  ret ← ret;
  Some (self<|set_references references|><|set_streams (<[ret := stream_zero]> (streams self))|>, ret).

Definition peak_stream_put self (stream : Z) : peak_streams T :=
  self<|set_references (prealloc_put (references self) (Some stream))|>
      <|set_streams (delete stream (streams self))|>.

(** The number of pages for [size] bytes. *)
Definition pages_for self (size : Z) : Z := ALLOC_ALIGN size (page_size self) / page_size self.

(** Writing the structure of a claimed stream. *)
Definition stream_claimed self (s : _peak_stream) (count no size : Z) : _peak_stream :=
  {| s_count := s_count s + count; s_no := no; s_len := u64 (s_len s + size); s_buf := STREAM_PAGE self no |}.

(** The pool, [*ref] and the return value. *)
Definition _peak_stream_claim self (ref : option Z) (size : Z) : option (peak_streams T * option Z * Z) :=
  if size =? 0 then Some (self, ref, 1) else
  match ref with
  | None =>
      match st_root (page_tree self) with
      | None => Some (self, ref, 0)
      | Some _ =>
          let count := s64 (pages_for self size) in
          '(self, no) ← __peak_stream_claim self count;
          if no =? STREAM_ERROR then Some (self, ref, 0) else
          '(self, stream) ← peak_stream_get self;
          s ← streams self !! stream;
          Some (self<|set_streams (<[stream := stream_claimed self s count no size]> (streams self))|>, Some stream, 1)
      end
  | Some stream =>
      s ← streams self !! stream;
      let count := s64 (pages_for self (u64 (size + s_len s)) - s_count s) in
      if count =? 0 then
        let s := {| s_count := s_count s; s_no := s_no s; s_len := u64 (s_len s + size); s_buf := s_buf s |} in
        Some (self<|set_streams (<[stream := s]> (streams self))|>, ref, 1)
      else
        '(self, no) ← __peak_stream_reclaim self s count;
        if no =? STREAM_ERROR then Some (self, ref, 0) else
        Some (self<|set_streams (<[stream := stream_claimed self s count no size]> (streams self))|>, Some stream, 1)
  end.

Definition _peak_stream_release self (no : Z) : option (peak_streams T) :=
  let page := STREAM_PAGE self no in
  self ← STREAM_SETUP self page no;
  '(t, dup) ← st_insert STREAM_CMP (page_tree self) no;
  match (dup : option Z) with
  | None => Some (self<|set_tree t|>)
  | Some _ => None
  end.

(** [while (stream->page_count && size_adj + size >= self->page_size)] *)
Fixpoint release_loop (fuel : nat) self (s : _peak_stream) (size_adj size : Z) : option (peak_streams T * _peak_stream * Z) :=
  if negb (s_count s =? 0) && (page_size self <=? u64 (size_adj + size)) then
    match fuel with
    | O => None
    | S fuel =>
        self ← _peak_stream_release self (s_no s);
        release_loop fuel self
          {| s_count := s_count s - 1; s_no := s_no s + 1;
             s_len := u64 (s_len s - page_size self); s_buf := s_buf s + page_size self |}
          size_adj (u64 (size - page_size self))
    end
  else Some (self, s, size).

(** The pool and [*ref].  The buffer is a pointer: it moves modulo [2^64]. *)
Definition peak_stream_release self (ref : option Z) (size : Z) : option (peak_streams T * option Z) :=
  if size =? 0 then Some (self, ref) else
  match ref with
  | None => Some (self, ref)
  | Some stream =>
      s ← streams self !! stream;
      let size_adj := u64 (s_buf s - STREAM_PAGE self (s_no s)) in
      '(self, s, size) ← release_loop (Z.to_nat (s_count s)) self s size_adj size;
      let s := {| s_count := s_count s; s_no := s_no s; s_len := u64 (s_len s - size); s_buf := s64 (s_buf s + size) |} in
      let self := self<|set_streams (<[stream := s]> (streams self))|> in
      if s_len s =? 0 then Some (peak_stream_put self stream, None) else Some (self, ref)
  end.

Definition peak_stream_claim self (ref : option Z) (size : Z) : option (peak_streams T * option Z * Z) :=
  '(self, ref, ret) ← _peak_stream_claim self ref size;
  match (ref : option Z) with
  | None => Some (self, ref, ret)
  | Some stream =>
      if negb (ret =? 0) then Some (self, ref, ret) else
      s ← streams self !! stream;
      '(self, retry, ret) ← _peak_stream_claim self None (u64 (s_len s + size));
      if negb (ret =? 0) then
        to ← retry;
        s' ← streams self !! to;
        s ← streams self !! stream;
        bs ← rd_n (page_mem self) (s_buf s) (Z.to_nat (s_len s));
        m ← wr_n (page_mem self) (s_buf s') bs;
        '(self, _) ← peak_stream_release (self<|set_mem m|>) ref (s_len s);
        Some (self, retry, ret)
      else Some (self, ref, ret)
  end.

(** [for (i = 0; i < page_count; ++i)], from [i] on. *)
Fixpoint setup_loop (n : nat) self (i : Z) : option (peak_streams T) :=
  match n with
  | O => Some self
  | S n => self ← _peak_stream_release self i; setup_loop n self (i + 1)
  end.

(** [mem] are the bytes [malign] hands out for the pages, [refs] is [malign] for the pool of
    references, [self_ok] says whether [calloc] has the structure.  The inner [None] is NULL. *)
Definition peak_stream_init (self_ok : bool) (mem : Z -> Z -> option (list Z)) (refs : Z -> Z -> option Z)
    (page_count page_size : Z) : option (option (peak_streams T)) :=
  if page_count =? 0 then Some None else
  if negb (page_size .& 0x7 =? 0) then Some None else
  if page_size <? sizeof_stream_page then Some None else
  if negb self_ok then Some None else
  match mem page_count page_size with
  | None => Some None
  | Some m =>
      let '(references, ret) := prealloc_init page_count sizeof_stream refs in
      if negb ret then Some None else
      self ← setup_loop (Z.to_nat page_count)
        {| page_tree := st_empty; references := references; page_count := page_count;
           page_size := page_size; page_mem := m; streams := ∅ |} 0;
      Some (Some self)
  end.


(** ** Runs of free pages *)

(** The pages that are free. *)
Definition free_pages self : list Z := st_elements (page_tree self).

(** [k] free pages from [q] on. *)
Definition run_free self (q k : Z) : Prop := forall p, q <= p < q + k -> p ∈ free_pages self.

(** How many pages in a row a list begins with. *)
Fixpoint run_from (b : Z) (l : list Z) : Z :=
  match l with
  | x :: l => if x =? b then 1 + run_from (b + 1) l else 0
  | [] => 0
  end.

Lemma run_from_bounds b l : 0 <= run_from b l <= Z.of_nat (length l).
Proof.
  revert b. induction l as [|x l IH]; intros b; simpl; [lia|]. specialize (IH (b + 1)). case_match; lia.
Qed.

Lemma run_from_split b l k : 0 <= k <= run_from b l -> exists r, l = seqZ b k ++ r.
Proof.
  revert b k. induction l as [|x l IH]; intros b k Hk; simpl in Hk.
  - exists []. by replace k with 0 by lia.
  - destruct (Z.eq_dec k 0) as [->|Hne]; [by exists (x :: l)|].
    destruct (Z.eqb_spec x b) as [->|]; [|lia]. destruct (IH (b + 1) (k - 1)) as [r ->]; [lia|].
    exists r. rewrite (seqZ_cons b k) by lia. simpl. by replace (Z.succ b) with (b + 1) by lia; replace (Z.pred k) with (k - 1) by lia.
Qed.

(** Above [b], an ascending list has all of a run only if it begins with it. *)
Lemma run_from_all b l k :
  ascending (key := id) l -> Forall (fun p => b <= p) l -> (forall p, b <= p < b + k -> p ∈ l) -> k <= run_from b l.
Proof.
  revert b k. induction l as [|x l IH]; intros b k Hl Hb Hin; simpl.
  - destruct (Z.le_gt_cases k 0); [done|]. by specialize (Hin b ltac:(lia)) as ?%elem_of_nil.
  - inversion Hl as [|? ? Hl' Hx]; subst. inversion Hb as [|? ? Hbx Hb']; subst. rewrite Forall_forall in Hx, Hb'.
    destruct (Z.le_gt_cases k 0); [pose proof (run_from_bounds (b + 1) l); case_match; lia|].
    destruct (Z.eqb_spec x b) as [->|Hne].
    + enough (k - 1 <= run_from (b + 1) l) by lia. apply IH; [done| |].
      * apply Forall_forall. intros p Hp. specialize (Hx p Hp). simpl in Hx. unfold id in Hx. lia.
      * intros p Hp. specialize (Hin p ltac:(lia)). apply elem_of_cons in Hin as [->|]; [lia|done].
    + specialize (Hin b ltac:(lia)). apply elem_of_cons in Hin as [->|Hin]; [done|].
      specialize (Hx b Hin). simpl in Hx. unfold id in Hx. lia.
Qed.

(** A list without duplicates splits at an element in one way. *)
Lemma NoDup_split_eq {A} (xs : list A) a ys xs' ys' :
  NoDup (xs ++ a :: ys) -> xs ++ a :: ys = xs' ++ a :: ys' -> xs = xs' /\ ys = ys'.
Proof.
  revert xs'. induction xs as [|x xs IH]; intros [|x' xs'] HN E; simpl in *; inversion E; subst;
    apply NoDup_cons in HN as [HN HN'].
  - done.
  - set_solver.
  - set_solver.
  - by destruct (IH xs') as [-> ->].
Qed.

Lemma next_split t xs a ys : NoDup (st_elements t) -> st_elements t = xs ++ a :: ys -> ot_next t a = Some (head ys).
Proof.
  intros HN E. destruct (ot_next_ok t a) as (xs' & ys' & E' & ->); [rewrite E; set_solver|].
  destruct (NoDup_split_eq xs a ys xs' ys') as [_ ->]; [by rewrite <- E|by rewrite <- E|done].
Qed.

Lemma probe_loop_spec t xs l fuel base count stop :
  NoDup (st_elements t) -> st_elements t = xs ++ l -> (length l <= fuel)%nat -> count <= stop ->
  probe_loop fuel t base (head l) count stop = Some (Z.min stop (count + run_from (base + count) l)).
Proof.
  intros HN. revert xs fuel count. induction l as [|n l IH]; intros xs fuel count E Hf Hc.
  - destruct fuel; simpl; f_equal; lia.
  - assert (probe_loop fuel t base (head (n :: l)) count stop =
      if count =? stop then Some count else if negb (n =? base + count) then Some count else
      match fuel with O => None | S fuel => next ← ot_next t n; probe_loop fuel t base next (count + 1) stop end) as ->
      by (destruct fuel; done).
    pose proof (run_from_bounds (base + count) (n :: l)). simpl run_from in *. simpl in Hf.
    destruct (Z.eqb_spec count stop); [f_equal; lia|].
    destruct (Z.eqb_spec n (base + count)) as [->|]; simpl negb; cbv iota; [|f_equal; lia].
    destruct fuel as [|fuel]; [lia|]. rewrite (next_split t xs _ l) by done. cbn [mbind option_bind].
    rewrite (IH (xs ++ [base + count])); [|by rewrite <- app_assoc|lia..].
    f_equal. replace (base + (count + 1)) with (base + count + 1) by lia. lia.
Qed.

(** A limit that is passed already never ends the loop. *)
Lemma probe_loop_past t xs l fuel base count stop :
  NoDup (st_elements t) -> st_elements t = xs ++ l -> (length l <= fuel)%nat -> stop < count ->
  probe_loop fuel t base (head l) count stop = Some (count + run_from (base + count) l).
Proof.
  intros HN. revert xs fuel count. induction l as [|n l IH]; intros xs fuel count E Hf Hc.
  - destruct fuel; simpl; f_equal; lia.
  - simpl in Hf. destruct fuel as [|fuel]; [lia|]. cbn [probe_loop head run_from].
    rewrite (proj2 (Z.eqb_neq count stop)) by lia.
    destruct (Z.eqb_spec n (base + count)) as [->|]; cbn [negb]; [|f_equal; lia].
    rewrite (next_split t xs _ l) by done. cbn [mbind option_bind].
    rewrite (IH (xs ++ [base + count])); [|by rewrite <- app_assoc|lia..].
    f_equal. replace (base + (count + 1)) with (base + count + 1) by lia. lia.
Qed.

Lemma skip_loop_spec t xs ys l : NoDup (st_elements t) -> st_elements t = xs ++ ys ++ l ->
  skip_loop (length ys) t (head (ys ++ l)) = Some (head l).
Proof.
  intros HN. revert xs. induction ys as [|y ys IH]; intros xs E; [done|]. simpl.
  rewrite (next_split t xs y (ys ++ l)) by done. cbn [mbind option_bind]. apply (IH (xs ++ [y])). by rewrite <- app_assoc.
Qed.

(** What the pool itself promises: the block of memory, and free pages that nobody
    wrote to. *)
Record pages_ok self : Prop := {
  po_size : sizeof_stream_page <= page_size self;
  po_count : 0 < page_count self;
  po_block : msize (page_mem self) = page_count self * page_size self /\ msize (page_mem self) < 2 ^ 63;
  po_bytes : bytes (page_mem self);
  po_tree : st_ok (page_tree self);
  po_order : ascending (key := id) (free_pages self);
  po_range p : p ∈ free_pages self -> 0 <= p < page_count self;
  po_magic p : p ∈ free_pages self -> STREAM_CHECK self (STREAM_PAGE self p) = Some tt;
}.

Lemma ascending_NoDup (l : list Z) : ascending (key := id) l -> NoDup l.
Proof.
  induction 1 as [|x l _ IH Hx]; constructor; [|done]. intros Hin. rewrite Forall_forall in Hx.
  specialize (Hx x Hin). simpl in Hx. lia.
Qed.

(** Numbers of a range, without duplicates. *)
Lemma NoDup_range (l : list Z) n : 0 <= n -> NoDup l -> (forall p, p ∈ l -> 0 <= p < n) -> (length l <= Z.to_nat n)%nat.
Proof.
  intros Hn HN Hr. rewrite <- (length_seqZ 0 n). apply submseteq_length, NoDup_submseteq; [done|].
  intros p Hp%Hr. apply elem_of_seqZ. lia.
Qed.

Lemma po_NoDup self : pages_ok self -> NoDup (free_pages self).
Proof. intros Hok. apply ascending_NoDup, Hok. Qed.

Lemma po_length self : pages_ok self -> (length (free_pages self) <= Z.to_nat (page_count self))%nat.
Proof. intros Hok. pose proof (po_count _ Hok). apply NoDup_range; [lia|by apply po_NoDup|apply Hok]. Qed.

(** Removing free pages, without touching the memory. *)
Lemma pages_ok_sub self t :
  pages_ok self -> st_ok t -> ascending (key := id) (st_elements t) -> (forall p, p ∈ st_elements t -> p ∈ free_pages self) ->
  pages_ok (self<|set_tree t|>).
Proof.
  intros [] Ht Ha Hs. split; try done; intros p Hp; [by apply po_range0, Hs|by apply po_magic0, Hs].
Qed.

Lemma unhook_spec n self xs r b :
  pages_ok self -> free_pages self = xs ++ seqZ b (Z.of_nat n) ++ r ->
  exists t, unhook_loop n self (head (seqZ b (Z.of_nat n) ++ r)) = Some (self<|set_tree t|>) /\
    st_elements t = xs ++ r /\ pages_ok (self<|set_tree t|>).
Proof.
  revert self b. induction n as [|n IH]; intros self b Hok E.
  - exists (page_tree self). destruct self. done.
  - rewrite seqZ_cons in * by lia. replace (Z.pred (Z.of_nat (S n))) with (Z.of_nat n) in * by lia.
    cbn [unhook_loop head app mbind option_bind]. rewrite (po_magic _ Hok) by (rewrite E; set_solver).
    cbn [mbind option_bind]. pose proof (po_NoDup _ Hok) as HN. unfold free_pages in *. cbn [app] in E.
    rewrite (next_split _ xs b _ HN E). cbn [mbind option_bind].
    destruct (st_remove_ok (page_tree self) b) as (t & xs' & ys' & -> & Ht & E1 & E2);
      [apply Hok|rewrite E; set_solver|]. cbn [mbind option_bind].
    assert (xs' ++ ys' = xs ++ seqZ (Z.succ b) (Z.of_nat n) ++ r) as E3.
    { destruct (NoDup_split_eq xs b (seqZ (Z.succ b) (Z.of_nat n) ++ r) xs' ys') as [-> ->]; [by rewrite <- E|by rewrite <- E|done]. }
    rewrite E3 in E2. assert (pages_ok (self<|set_tree t|>)) as Hok'.
    { apply pages_ok_sub; [done..| |].
      - rewrite E2. eapply ascending_remove. rewrite <- E. apply Hok.
      - intros p Hp. unfold free_pages. rewrite E. rewrite E2 in Hp. set_solver. }
    destruct (IH (self<|set_tree t|>) (Z.succ b) Hok') as (t' & -> & E4 & Hok2); [done|].
    exists t'. done.
Qed.

(** A place in the list of the free pages. *)
Lemma probe_spec self xs b l stop :
  pages_ok self -> free_pages self = xs ++ b :: l -> 0 <= stop ->
  peak_stream_probe self (Some b) stop = Some (Z.min stop (run_from b (b :: l))).
Proof.
  intros Hok E Hs. unfold peak_stream_probe. change (Some b) with (head (b :: l)).
  rewrite (probe_loop_spec _ xs (b :: l) _ b 0 stop); [by rewrite Z.add_0_r|by apply po_NoDup|done| |done].
  pose proof (po_length _ Hok) as Hl. rewrite E, length_app in Hl. lia.
Qed.

(** From an element on, a run is free exactly if the list goes on with it. *)
Lemma run_free_split self xs b l k :
  pages_ok self -> free_pages self = xs ++ b :: l -> 0 < k -> run_free self b k <-> k <= run_from b (b :: l).
Proof.
  intros Hok E Hk. pose proof (po_order _ Hok) as Ha. rewrite E in Ha.
  pose proof (ascending_mid xs b l Ha) as [Hx Hl]. apply ascending_app in Ha as (_ & Ha & _). split.
  - intros Hr. apply run_from_all; [done| |].
    + constructor; [done|]. eapply Forall_impl; [exact Hl|]. unfold id. simpl. lia.
    + intros p Hp. specialize (Hr p Hp). rewrite E in Hr. apply elem_of_app in Hr as [Hr|]; [|done].
      unfold below in Hx. rewrite Forall_forall in Hx. specialize (Hx p Hr). unfold id in Hx. simpl in Hx. lia.
  - intros Hr p Hp. destruct (run_from_split b (b :: l) k) as [r Er]; [lia|]. rewrite E, Er.
    apply elem_of_app. right. apply elem_of_app. left. apply elem_of_seqZ. lia.
Qed.

Lemma claim_loop_spec self xs l k fuel :
  pages_ok self -> free_pages self = xs ++ l -> 0 < k -> (length l < fuel)%nat ->
  (forall q, q ∈ xs -> ~ run_free self q k) ->
  exists found, claim_loop fuel self (head l) k = Some found /\
    match found with
    | Some page => exists xs' b r, page = Some b /\ free_pages self = xs' ++ seqZ b k ++ r
    | None => forall q, ~ run_free self q k
    end.
Proof.
  intros Hok. revert xs l. induction fuel as [|fuel IH]; intros xs l E Hk Hf Hx; [lia|]. cbn [claim_loop].
  destruct l as [|b l].
  { exists None. simpl. destruct (Z.leb_spec k 0); [lia|]. split; [done|]. intros q Hq.
    apply (Hx q); [|done]. specialize (Hq q ltac:(lia)). by rewrite E, app_nil_r in Hq. }
  cbn [head]. rewrite (probe_spec self xs b l k) by (done || lia). cbn [mbind option_bind].
  pose proof (run_free_split self xs b l k Hok E Hk) as Hrun. set (i := run_from b (b :: l)) in *.
  destruct (Z.leb_spec k (Z.min k i)).
  { exists (Some (Some b)). split; [done|]. destruct (run_from_split b (b :: l) k) as [r Er]; [fold i; lia|].
    exists xs, b, r. split; [done|]. by rewrite E, Er. }
  rewrite Z.min_r by lia. pose proof (run_from_bounds b (b :: l)) as Hi. fold i in Hi.
  assert (1 <= i) as Hi1. { unfold i. simpl. rewrite Z.eqb_refl. pose proof (run_from_bounds (b + 1) l). lia. }
  destruct (run_from_split b (b :: l) i) as [r Er]; [fold i; lia|].
  assert (length (seqZ b i) = Z.to_nat i) as Hlen by apply length_seqZ.
  change (Some b) with (head (b :: l)). rewrite Er. rewrite <- Hlen.
  rewrite (skip_loop_spec _ xs (seqZ b i) r); [|by apply po_NoDup|by rewrite <- Er]. cbn [mbind option_bind].
  assert (forall q, q ∈ xs ++ seqZ b i -> ~ run_free self q k) as Hx'.
  { intros q [Hq|Hq]%elem_of_app; [by apply Hx|]. apply elem_of_seqZ in Hq. intros Hr.
    apply (Z.lt_irrefl i). apply Z.lt_le_trans with (i + 1); [lia|]. apply (run_free_split self xs b l (i + 1)); [done..|lia|].
    intros p Hp. destruct (Z.eq_dec p (b + i)) as [->|]; [apply Hr; lia|].
    rewrite E, Er. apply elem_of_app. right. apply elem_of_app. left. apply elem_of_seqZ. lia. }
  rewrite Er, app_assoc in E. assert (length (b :: l) = (length (seqZ b i) + length r)%nat) as Hl by (by rewrite Er, length_app).
  destruct r as [|c r].
  - exists None. split; [done|]. intros q Hq. apply (Hx' q); [|done]. specialize (Hq q ltac:(lia)).
    by rewrite E, app_nil_r in Hq.
  - apply (IH (xs ++ seqZ b i) (c :: r)); [done..|simpl in *; lia|done].
Qed.

(** The structures of the streams do not matter. *)
Lemma pages_ok_streams self v : pages_ok self -> pages_ok (self<|set_streams v|>).
Proof. by intros []. Qed.

Lemma pages_ok_references self v : pages_ok self -> pages_ok (self<|set_references v|>).
Proof. by intros []. Qed.

(** Pages taken out of the tree. *)
Definition pages_taken self b k self' : Prop :=
  exists t, self' = self<|set_tree t|> /\ pages_ok self' /\ run_free self b k /\ 0 <= b /\ b + k <= page_count self /\
    forall p, p ∈ free_pages self' <-> p ∈ free_pages self /\ ~ (b <= p < b + k).

Lemma unhook_taken self xs b k r :
  pages_ok self -> free_pages self = xs ++ seqZ b k ++ r -> 0 < k ->
  exists self', peak_stream_unhook self (Some b) k = Some self' /\ pages_taken self b k self'.
Proof.
  intros Hok E Hk. rewrite <- (Z2Nat.id k) in E by lia. destruct (unhook_spec (Z.to_nat k) self xs r b Hok E) as (t & Hu & Et & Hok').
  rewrite Z2Nat.id in * by lia. rewrite seqZ_cons in Hu by lia. exists (self<|set_tree t|>). split; [done|].
  assert (run_free self b k) as Hr.
  { intros p Hp. rewrite E. apply elem_of_app. right. apply elem_of_app. left. apply elem_of_seqZ. lia. }
  exists t. split_and!; [done|done|done|apply (po_range _ Hok b), Hr; lia| |].
  - pose proof (po_range _ Hok (b + k - 1) ltac:(apply Hr; lia)). lia.
  - intros p. unfold free_pages at 1. simpl. rewrite Et, E. pose proof (po_NoDup _ Hok) as HN. rewrite E in HN.
    rewrite app_assoc in HN. apply NoDup_app in HN as (HN & Hd1 & _). apply NoDup_app in HN as (_ & Hd2 & _).
    rewrite !elem_of_app, elem_of_seqZ. setoid_rewrite elem_of_app in Hd1. setoid_rewrite elem_of_seqZ in Hd1.
    setoid_rewrite elem_of_seqZ in Hd2. specialize (Hd1 p). specialize (Hd2 p). naive_solver.
Qed.

(** A fresh run: the first that is long enough. *)
Lemma claim_pages self k :
  pages_ok self -> 0 < k ->
  (exists b self', __peak_stream_claim self k = Some (self', b) /\ pages_taken self b k self') \/
  (__peak_stream_claim self k = Some (self, STREAM_ERROR) /\ forall q, ~ run_free self q k).
Proof.
  intros Hok Hk. unfold __peak_stream_claim. rewrite ot_first_ok. fold (free_pages self).
  destruct (claim_loop_spec self [] (free_pages self) k (S (Z.to_nat (page_count self)))) as (found & -> & Hf); [done..| | |].
  { pose proof (po_length _ Hok). lia. }
  { intros q Hq. by apply elem_of_nil in Hq. }
  cbn [mbind option_bind]. destruct found as [page|]; [left|by right].
  destruct Hf as (xs & b & r & -> & E). destruct (unhook_taken self xs b k r Hok E Hk) as (self' & -> & Ht).
  exists b, self'. done.
Qed.

(** The pages after those of a stream. *)
Lemma reclaim_pages self s k :
  pages_ok self -> 0 < k ->
  let b := s_no s + s_count s in
  (exists self', __peak_stream_reclaim self s k = Some (self', s_no s) /\ pages_taken self b k self') \/
  (__peak_stream_reclaim self s k = Some (self, STREAM_ERROR) /\ ~ run_free self b k).
Proof.
  intros Hok Hk b. unfold __peak_stream_reclaim. fold b.
  rewrite (st_find_ok STREAM_CMP id (page_tree self) b) by apply Hok. fold (free_pages self).
  destruct (decide (b ∈ free_pages self)) as [Hin|Hni].
  - rewrite (find_key (key := id) (free_pages self) b) by (done || apply Hok).
    apply list_elem_of_split in Hin as (xs & l & E). rewrite (probe_spec self xs b l k) by (done || lia). cbn [mbind option_bind].
    pose proof (run_free_split self xs b l k Hok E Hk) as Hrun.
    destruct (Z.ltb_spec (Z.min k (run_from b (b :: l))) k); [right; split; [done|]; rewrite Hrun; lia|].
    left. destruct (run_from_split b (b :: l) k) as [r Er]; [lia|]. rewrite Er in E.
    destruct (unhook_taken self xs b k r Hok E Hk) as (self' & -> & Ht). by exists self'.
  - rewrite (find_no_key (key := id)) by (intros a Ha Ea; apply Hni; by rewrite <- (Ea : a = b)). simpl. destruct (Z.ltb_spec 0 k); [|lia].
    right. split; [done|]. intros Hr. apply Hni, Hr. lia.
Qed.

(** Fewer pages than none are there in any case. *)
Lemma reclaim_fewer self s k : pages_ok self -> k < 0 -> __peak_stream_reclaim self s k = Some (self, s_no s).
Proof.
  intros Hok Hk. unfold __peak_stream_reclaim. set (b := s_no s + s_count s).
  assert (exists i, peak_stream_probe self (st_find STREAM_CMP (page_tree self) b) k = Some i /\ 0 <= i) as (i & -> & Hi).
  { rewrite (st_find_ok STREAM_CMP id (page_tree self) b) by apply Hok. fold (free_pages self).
    destruct (decide (b ∈ free_pages self)) as [Hin|Hni].
    - rewrite (find_key (key := id) (free_pages self) b) by (done || apply Hok). unfold peak_stream_probe.
      apply list_elem_of_split in Hin as (xs & l & E). change (Some b) with (head (b :: l)).
      pose proof (run_from_bounds (b + 0) (b :: l)). pose proof (po_length _ Hok) as Hl. rewrite E, length_app in Hl.
      eexists. split; [apply (probe_loop_past _ xs); [by apply po_NoDup|done|lia|done]|lia].
    - rewrite (find_no_key (key := id)) by (intros a Ha Ea; apply Hni; by rewrite <- (Ea : a = b)). by exists 0. }
  cbn [mbind option_bind]. rewrite (proj2 (Z.ltb_ge i k)) by lia. unfold peak_stream_unhook. by replace (Z.to_nat k) with O by lia.
Qed.

(** ** The memory *)

(** [m'] is [m] but for the bytes from [lo] to [hi]. *)
Definition same_but (lo hi : Z) (m m' : list Z) : Prop :=
  msize m' = msize m /\ forall i, ~ (lo <= i < hi) -> rd m' i = rd m i.

Lemma same_but_refl lo hi m : same_but lo hi m m.
Proof. done. Qed.

Lemma same_but_trans lo hi m1 m2 m3 : same_but lo hi m1 m2 -> same_but lo hi m2 m3 -> same_but lo hi m1 m3.
Proof. intros [E1 H1] [E2 H2]. split; [congruence|]. intros i Hi. by rewrite H2, H1. Qed.

Lemma same_but_mono lo hi lo' hi' m m' : lo' <= lo -> hi <= hi' -> same_but lo hi m m' -> same_but lo' hi' m m'.
Proof. intros Hl Hh [E H]. split; [done|]. intros i Hi. apply H. lia. Qed.

(** A block apart from the changed bytes. *)
Lemma same_but_rd_n lo hi m m' i n :
  same_but lo hi m m' -> i + Z.of_nat n <= lo \/ hi <= i -> rd_n m' i n = rd_n m i n.
Proof.
  intros [_ H]. revert i. induction n as [|n IH]; intros i Hi; simpl; [done|]. rewrite H by lia. by rewrite IH by lia.
Qed.

Lemma wr_n_same_but m i bs m' : 0 <= i -> i + Z.of_nat (length bs) <= msize m -> wr_n m i bs = Some m' ->
  same_but i (i + Z.of_nat (length bs)) m m' /\ rd_n m' i (length bs) = Some bs.
Proof.
  intros Hi Hl E. destruct (wr_n_spec m i bs Hi Hl) as (m2 & E2 & Hs & Hrd). rewrite E in E2. injection E2 as <-.
  split; [split; [done|]; intros j Hj; by rewrite Hrd, decide_False by lia|].
  apply rd_n_eq; [done|]. intros k Hk. rewrite Hrd, decide_True by lia. f_equal. lia.
Qed.

(** Writing a 64-bit integer. *)
Lemma le64enc_same_but m i u :
  bytes m -> 0 <= i -> i + 8 <= msize m ->
  exists m', peak_le64enc m i u = Some m' /\ bytes m' /\ same_but i (i + 8) m m' /\
    rd_n m' i 8 = Some (le_bytes 8 u).
Proof.
  intros Hb Hi Hl. rewrite le64enc_spec. pose proof (le_bytes_length 8 u) as Hlen.
  destruct (wr_n_spec m i (le_bytes 8 u)) as (m' & E & _); [done|lia|]. exists m'. split; [done|].
  destruct (wr_n_same_but m i (le_bytes 8 u) m') as [Hs Hr]; [done|lia|done|]. rewrite Hlen in Hs, Hr.
  split_and!; [|done|done]. eapply wr_n_bytes; [done| |done]. apply le_bytes_bytes.
Qed.

Lemma magic_dec m i : bytes m -> rd_n m i 8 = Some (le_bytes 8 STREAM_MAGIC) -> peak_le64dec m i = Some STREAM_MAGIC.
Proof. intros Hb E. rewrite le64dec_spec, E by done. done. Qed.

(** The check of a page depends on that page only. *)
Lemma check_frame self self' lo hi p :
  page_size self' = page_size self -> sizeof_stream_page <= page_size self -> bytes (page_mem self) -> bytes (page_mem self') ->
  same_but lo hi (page_mem self) (page_mem self') -> (p + 1) * page_size self <= lo \/ hi <= p * page_size self ->
  STREAM_CHECK self' (STREAM_PAGE self' p) = STREAM_CHECK self (STREAM_PAGE self p).
Proof.
  unfold sizeof_stream_page. intros Eps Hps Hb Hb' Hs Hp.
  unfold STREAM_CHECK, STREAM_PAGE, STREAM_TAIL. rewrite Eps, !le64dec_spec by done.
  by rewrite !(same_but_rd_n lo hi _ _ _ 8 Hs) by lia.
Qed.

(** Writes apart from the free pages. *)
Lemma pages_ok_write self m lo hi :
  pages_ok self -> bytes m -> same_but lo hi (page_mem self) m ->
  (forall p, p ∈ free_pages self -> (p + 1) * page_size self <= lo \/ hi <= p * page_size self) ->
  pages_ok (self<|set_mem m|>).
Proof.
  intros Hok Hb Hs Hp. pose proof Hs as [Hm _]. destruct Hok. split; try done; simpl; [by rewrite Hm|].
  intros p Hin. rewrite <- (po_magic0 p Hin). apply (check_frame _ _ lo hi); try done. by apply Hp.
Qed.

(** [k] pages are given back to the free ones. *)
Definition pages_released self no k self' : Prop :=
  exists t m, self' = self<|set_mem m|><|set_tree t|> /\ pages_ok self' /\
    same_but (no * page_size self) ((no + k) * page_size self) (page_mem self) m /\
    forall p, p ∈ free_pages self' <-> no <= p < no + k \/ p ∈ free_pages self.

Lemma released_none self no : pages_ok self -> pages_released self no 0 self.
Proof.
  intros Hok. exists (page_tree self), (page_mem self). split_and!; [by destruct self|done|done|]. intros p. split; [auto|].
  intros [?|?]; [lia|done].
Qed.

Lemma released_trans self1 self2 self3 no k :
  0 <= k -> pages_released self1 no 1 self2 -> pages_released self2 (no + 1) k self3 -> pages_released self1 no (k + 1) self3.
Proof.
  intros Hk (t & m & -> & Hok & Hs & Hf) (t' & m' & -> & Hok' & Hs' & Hf'). exists t', m'. split_and!; [done|done| |].
  - pose proof (po_size _ Hok) as Hps. simpl in Hs', Hps. unfold sizeof_stream_page in Hps.
    eapply same_but_trans; (eapply same_but_mono; [| |done]); nia.
  - intros p. rewrite Hf', Hf. lia || naive_solver lia.
Qed.

Lemma page_within self p : pages_ok self -> 0 <= p < page_count self -> 0 <= p * page_size self /\ (p + 1) * page_size self <= msize (page_mem self).
Proof. intros [] Hp. unfold sizeof_stream_page in *. nia. Qed.

Lemma setup_spec self no :
  pages_ok self -> 0 <= no < page_count self ->
  exists m, STREAM_SETUP self (STREAM_PAGE self no) no = Some (self<|set_mem m|>) /\ bytes m /\
    same_but (no * page_size self) ((no + 1) * page_size self) (page_mem self) m /\
    STREAM_CHECK (self<|set_mem m|>) (STREAM_PAGE self no) = Some tt.
Proof.
  intros Hok Hno. pose proof (page_within self no Hok Hno) as Hw. destruct Hok. unfold sizeof_stream_page in *.
  unfold STREAM_SETUP, STREAM_CHECK, STREAM_PAGE, STREAM_TAIL in *. cbn [page_mem page_size set_mem]. set (y := no * page_size self) in *.
  destruct (le64enc_same_but (page_mem self) (y + page_size self - 8) STREAM_MAGIC) as (m1 & -> & B1 & S1 & R1); [done|lia..|].
  cbn [mbind option_bind]. pose proof S1 as [L1 _].
  destruct (le64enc_same_but m1 y STREAM_MAGIC) as (m2 & -> & B2 & S2 & R2); [done|lia..|].
  cbn [mbind option_bind]. pose proof S2 as [L2 _].
  destruct (le64enc_same_but m2 (y + 8) (u64 no)) as (m3 & -> & B3 & S3 & R3); [done|lia..|].
  cbn [mbind option_bind]. exists m3. split_and!; [done|done| |].
  - eapply same_but_trans; [|eapply same_but_trans]; (eapply same_but_mono; [| |done]); lia.
  - rewrite (magic_dec m3 y), (magic_dec m3 (y + page_size self - 8)); [done|done| |done|].
    + rewrite (same_but_rd_n _ _ _ _ _ 8 S3), (same_but_rd_n _ _ _ _ _ 8 S2) by lia. done.
    + rewrite (same_but_rd_n _ _ _ _ _ 8 S3) by lia. done.
Qed.

Lemma release_page self no :
  pages_ok self -> 0 <= no < page_count self -> no ∉ free_pages self ->
  exists self', _peak_stream_release self no = Some self' /\ pages_released self no 1 self'.
Proof.
  intros Hok Hno Hni. unfold _peak_stream_release. destruct (setup_spec self no Hok Hno) as (m & -> & Hb & Hs & Hc).
  cbn [mbind option_bind]. cbn [page_tree set_mem].
  pose proof (st_insert_ok STREAM_CMP id (page_tree self) no (po_tree _ Hok) (po_order _ Hok)) as Hi.
  rewrite (find_no_key (key := id)) in Hi by (intros a Ha Ea; apply Hni; by rewrite <- (Ea : a = no)).
  destruct Hi as (t & xs & ys & -> & Ht & E & Et & Ha). cbn [mbind option_bind].
  exists (self<|set_mem m|><|set_tree t|>). split; [done|]. exists t, m.
  assert (forall p, p ∈ st_elements t <-> no <= p < no + 1 \/ p ∈ free_pages self) as Hel.
  { intros p. unfold free_pages. rewrite Et, E. assert (no <= p < no + 1 <-> p = no) as -> by lia. set_solver. }
  split_and!; [done| |done|done]. pose proof Hs as [Hm _].
  destruct Hok; split; try done; unfold free_pages; simpl; [by rewrite Hm|..]; intros p; rewrite Hel; intros [Hp|Hp]; try (assert (p = no) as -> by lia).
  - done.
  - by apply po_range0.
  - exact Hc.
  - rewrite <- (po_magic0 p Hp). eapply (check_frame self); try done.
    assert (p <> no) by (by intros ->). assert (p < no \/ no < p) by lia. simpl. unfold sizeof_stream_page in *. nia.
Qed.

(** What the loop leaves when [off + z] bytes make no whole page. *)
Lemma release_none self s off z l :
  pages_ok self -> s_len s = u64 l -> 0 <= off + z < page_size self ->
  let k := (off + z) / page_size self in
  exists self', Some (self, s, u64 z) = Some (self',
      {| s_count := s_count s - k; s_no := s_no s + k; s_len := u64 (l - k * page_size self);
         s_buf := s_buf s + k * page_size self |}, u64 (z - k * page_size self)) /\
    pages_released self (s_no s) k self'.
Proof.
  intros Hok El Hz k. assert (k = 0) as -> by (by apply Z.div_small). exists self.
  rewrite Z.mul_0_l, !Z.sub_0_r, !Z.add_0_r, <- El. split; [by destruct s|]. by apply released_none.
Qed.

Lemma release_loop_spec fuel self s z l :
  pages_ok self -> 0 <= s_no s -> s_no s + s_count s <= page_count self ->
  (forall p, s_no s <= p < s_no s + s_count s -> p ∉ free_pages self) ->
  s_len s = u64 l -> (Z.to_nat (s_count s) <= fuel)%nat -> 0 <= s_count s ->
  forall off, 0 <= off + z <= s_count s * page_size self -> s_count s * page_size self < 2 ^ 63 ->
  let k := (off + z) / page_size self in
  exists self', release_loop fuel self s off (u64 z) = Some (self',
      {| s_count := s_count s - k; s_no := s_no s + k; s_len := u64 (l - k * page_size self);
         s_buf := s_buf s + k * page_size self |}, u64 (z - k * page_size self)) /\
    pages_released self (s_no s) k self'.
Proof.
  revert self s z l. induction fuel as [|fuel IH]; intros self s z l Hok Hno Hpc Hni El Hf Hc off Hz Hb k;
    pose proof (po_size _ Hok) as Hps; unfold sizeof_stream_page in Hps; cbn [release_loop];
    rewrite wrap_add_r, (wrap_small 64 (off + z)) by (unfold fits; lia).
  - rewrite (proj2 (Z.eqb_eq (s_count s) 0)) by lia. apply release_none; [done|done|nia].
  - destruct (Z.eqb_spec (s_count s) 0) as [Ec|Ec]; [apply release_none; [done|done|nia]|].
    destruct (Z.leb_spec (page_size self) (off + z)) as [Hle|Hlt]; [|apply release_none; [done|done|lia]]. cbn [negb andb]; cbv iota.
    destruct (release_page self (s_no s) Hok ltac:(lia) (Hni (s_no s) ltac:(lia))) as (self1 & -> & Hr1). cbn [mbind option_bind].
    pose proof Hr1 as (t & m & E1 & Hok1 & _ & Hf1). assert (page_size self1 = page_size self /\ page_count self1 = page_count self) as [Eps Epc] by (by subst self1).
    rewrite Eps, El, !wrap_sub_l.
    set (s1 := {| s_count := s_count s - 1; s_no := s_no s + 1; s_len := u64 (l - page_size self);
      s_buf := s_buf s + page_size self |}).
    assert (forall p, s_no s1 <= p < s_no s1 + s_count s1 -> p ∉ free_pages self1) as Hni1.
    { simpl. intros p Hp. rewrite Hf1. intros [?|Hin]; [lia|]. by apply (Hni p); [lia|]. }
    destruct (IH self1 s1 (z - page_size self) (l - page_size self) Hok1 ltac:(simpl; lia) ltac:(simpl; lia) Hni1
      eq_refl ltac:(simpl; lia) ltac:(simpl; lia) off) as (self2 & E2 & Hr2); [rewrite Eps; simpl; nia..|].
    cbn [s1 s_count s_no s_len s_buf] in E2, Hr2. assert (k = (off + (z - page_size self)) / page_size self1 + 1) as Ek.
    { unfold k. rewrite Eps. replace (off + z) with (off + (z - page_size self) + 1 * page_size self) by lia. apply Z_div_plus_full. lia. }
    exists self2. rewrite E2. split.
    + rewrite Ek, Eps. repeat first [lia | f_equal].
    + rewrite Ek. apply released_trans with self1; [|done|done]. apply Z.div_pos; lia.
Qed.

(** ** The streams *)

(** The pages a stream has. *)
Definition holds (s : _peak_stream) (p : Z) : Prop := s_no s <= p < s_no s + s_count s.

(** Where its data begins in its first page, and the data. *)
Definition s_off self (s : _peak_stream) : Z := s_buf s - STREAM_PAGE self (s_no s).
Definition data self (s : _peak_stream) : option (list Z) := rd_n (page_mem self) (s_buf s) (Z.to_nat (s_len s)).

(** The data begins in the first page and ends in the last one. *)
Record stream_ok self (s : _peak_stream) : Prop := {
  so_len : 0 < s_len s;
  so_off : 0 <= s_off self s < page_size self;
  so_fill : (s_count s - 1) * page_size self < s_off self s + s_len s <= s_count s * page_size self;
  so_pages : 0 <= s_no s /\ s_no s + s_count s <= page_count self;
}.

(** The structures in use. *)
Definition live self : gset Z := dom (streams self).

(** The structures are the chunks of the pool of references that are in use. *)
Definition refs_ok self : Prop :=
  exists mem, pool_ok mem sizeof_stream (Z.to_nat (page_count self)) (references self) (base.elements (live self)).

(** No page belongs to two streams, or to a stream while it is free. *)
Record streams_ok self : Prop := {
  si_pages : pages_ok self;
  si_stream i s : streams self !! i = Some s -> stream_ok self s;
  si_apart i j s t p : streams self !! i = Some s -> streams self !! j = Some t -> holds s p -> holds t p -> i = j;
  si_free i s p : streams self !! i = Some s -> holds s p -> p ∉ free_pages self;
  si_refs : refs_ok self;
}.

Lemma so_count self s : sizeof_stream_page <= page_size self -> stream_ok self s -> 0 < s_count s.
Proof. unfold sizeof_stream_page. intros Hps []. nia. Qed.

(** An operation on the stream [i] moves pages between it and the free ones. *)
Lemma streams_ok_update self self' i :
  streams_ok self -> pages_ok self' -> page_size self' = page_size self -> page_count self' = page_count self ->
  (forall j, j <> i -> streams self' !! j = streams self !! j) ->
  let mine p := p ∈ free_pages self \/ exists s, streams self !! i = Some s /\ holds s p in
  (forall s', streams self' !! i = Some s' -> stream_ok self' s' /\ forall p, holds s' p -> mine p /\ p ∉ free_pages self') ->
  (forall p, p ∈ free_pages self' -> mine p) -> refs_ok self' -> streams_ok self'.
Proof.
  intros [Hp Hs Ha Hf Hr] Hp' Eps Epc Hj mine Hi Hfree Hr'.
  assert (forall j t p, j <> i -> streams self !! j = Some t -> holds t p -> mine p -> False) as Hne.
  { intros j t p Hji Et Ht [Hin|(s & Es & Hh)]; [by apply (Hf j t p)|]. apply Hji. by apply (Ha j i t s p). }
  split; try done.
  - intros j s. destruct (decide (j = i)) as [->|Hji]; [intros Es; by apply Hi|]. rewrite Hj by done.
    intros Es. destruct (Hs j s Es). unfold s_off, STREAM_PAGE in *. by split; unfold s_off, STREAM_PAGE; rewrite ?Eps, ?Epc.
  - intros j1 j2 s t p. destruct (decide (j1 = i)) as [->|H1], (decide (j2 = i)) as [->|H2]; rewrite ?(Hj j1) by done; rewrite ?(Hj j2) by done; [done|..].
    + intros Es Et Hh1 Hh2. destruct (Hi s Es) as [_ Hm]. exfalso. by apply (Hne j2 t p); [..|apply Hm].
    + intros Es Et Hh1 Hh2. destruct (Hi t Et) as [_ Hm]. exfalso. by apply (Hne j1 s p); [..|apply Hm].
    + apply Ha.
  - intros j s p. destruct (decide (j = i)) as [->|Hji]; [intros Es Hh; destruct (Hi s Es) as [_ Hm]; by apply Hm|].
    rewrite Hj by done. intros Es Hh Hin. by apply (Hne j s p); [..|apply Hfree].
Qed.

Lemma rd_n_ext m m' i n : (forall j, i <= j < i + Z.of_nat n -> rd m' j = rd m j) -> rd_n m' i n = rd_n m i n.
Proof.
  revert i. induction n as [|n IH]; intros i H; simpl; [done|]. rewrite H by lia. rewrite IH; [done|]. intros j Hj. apply H. lia.
Qed.

(** Bytes of a stream do not change with pages it does not have. *)
Lemma data_frame self m' s a k i n :
  sizeof_stream_page <= page_size self -> same_but (a * page_size self) ((a + k) * page_size self) (page_mem self) m' ->
  (forall p, a <= p < a + k -> ~ holds s p) ->
  s_no s * page_size self <= i -> i + Z.of_nat n <= (s_no s + s_count s) * page_size self ->
  rd_n m' i n = rd_n (page_mem self) i n.
Proof.
  unfold sizeof_stream_page. intros Hps [_ Hm] Hp Hlo Hhi. apply rd_n_ext. intros j Hj. apply Hm. intros [H1 H2].
  apply (Hp (j / page_size self)).
  - split; [apply Z.div_le_lower_bound|apply Z.div_lt_upper_bound]; lia.
  - split; [apply Z.div_le_lower_bound|apply Z.div_lt_upper_bound]; lia.
Qed.

(** Where the data of a stream is. *)
Lemma data_range self s : streams_ok self -> stream_ok self s ->
  s_no s * page_size self <= s_buf s /\ s_buf s + Z.of_nat (Z.to_nat (s_len s)) <= (s_no s + s_count s) * page_size self /\
  0 <= s_buf s /\ s_buf s + s_len s <= msize (page_mem self).
Proof.
  intros [Hp _ _ _ _] [Hl Ho Hf Hpg]. pose proof (po_size _ Hp). pose proof (po_block _ Hp) as [-> _].
  unfold s_off, STREAM_PAGE, sizeof_stream_page in *. rewrite Z2Nat.id by lia. nia.
Qed.

Lemma refs_same self self' :
  refs_ok self -> page_count self' = page_count self -> references self' = references self ->
  live self' = live self -> refs_ok self'.
Proof. intros [mem H] E1 E2 E3. exists mem. by rewrite E1, E2, E3. Qed.

(** A structure that is given back, or taken. *)
Lemma refs_put self self' i :
  refs_ok self -> i ∈ live self -> page_count self' = page_count self ->
  references self' = prealloc_put (references self) (Some i) -> streams self' = delete i (streams self) -> refs_ok self'.
Proof.
  intros [mem H] Hi E1 E2 E3. exists mem. rewrite E1, E2.
  assert (live self' = live self ∖ {[i]}) as -> by (unfold live; rewrite E3; apply dom_delete_L).
  assert (base.elements (live self) ≡ₚ i :: base.elements (live self ∖ {[i]})) as E.
  { rewrite <- elements_union_singleton by set_solver. f_equiv. intros j. destruct (decide (j = i)); set_solver. }
  apply (pool_put _ _ _ _ [] i). eapply pool_ok_proper; [|exact H]. by rewrite E.
Qed.

(** Structure and store after a release that leaves data, or does not. *)
Lemma release_ok self i s size :
  streams_ok self -> streams self !! i = Some s -> 0 < size <= s_len s ->
  let k := (s_off self s + size) / page_size self in
  let s' := {| s_count := s_count s - k; s_no := s_no s + k; s_len := s_len s - size; s_buf := s_buf s + size |} in
  exists self1, pages_released self (s_no s) k self1 /\ 0 <= k <= s_count s /\
    peak_stream_release self (Some i) size =
      if s_len s' =? 0 then Some (peak_stream_put (self1<|set_streams (<[i := s']> (streams self))|>) i, None)
      else Some (self1<|set_streams (<[i := s']> (streams self))|>, Some i).
Proof.
  intros Hok Hi Hsz k s'. pose proof (si_pages _ Hok) as Hp. pose proof (si_stream _ Hok i s Hi) as Hs.
  pose proof (so_count self s (po_size _ Hp) Hs) as Hc. pose proof (po_size _ Hp) as Hps. unfold sizeof_stream_page in Hps.
  pose proof (data_range self s Hok Hs) as (_ & _ & Hb0 & Hb1). pose proof (po_block _ Hp) as [Hm1 Hm2].
  pose proof (so_fill _ _ Hs) as Hf. pose proof (so_off _ _ Hs) as Ho. pose proof (so_pages _ _ Hs) as [Hn1 Hn2].
  assert (s_count s * page_size self < 2 ^ 63) as Hbig by nia.
  destruct (release_loop_spec (Z.to_nat (s_count s)) self s size (s_len s) Hp Hn1 Hn2) with (off := s_off self s)
    as (self1 & El & Hr); [intros p; by apply (si_free _ Hok i s p)|rewrite wrap_small; [done|unfold fits; lia]|done|lia|lia|done|].
  fold k in El, Hr. exists self1. split; [done|]. split; [split; [apply Z.div_pos; lia|]|].
  { enough (k < s_count s + 1) by lia. apply Z.div_lt_upper_bound; nia. }
  unfold peak_stream_release. destruct (Z.eqb_spec size 0); [lia|]. rewrite Hi. cbn [mbind option_bind].
  fold (s_off self s). rewrite (wrap_small 64 (s_off self s)) by (unfold fits; lia).
  rewrite (wrap_small 64 size) in El by (unfold fits; lia). rewrite El. cbn [mbind option_bind s_count s_no s_len s_buf].
  assert (streams self1 = streams self) as -> by (by destruct Hr as (t & m & -> & _)).
  rewrite wrap_sub_l, wrap_sub_r. replace (s_len s - k * page_size self - (size - k * page_size self)) with (s_len s - size) by lia.
  rewrite <- s64_u64, wrap_add_r, s64_u64. replace (s_buf s + k * page_size self + (size - k * page_size self)) with (s_buf s + size) by lia.
  rewrite wrap_small by (unfold fits; lia). by rewrite s64_small by lia.
Qed.

(** The streams other than [i] keep their structures and data. *)
Definition others_keep i self self' : Prop :=
  forall j t, j <> i -> streams self !! j = Some t -> streams self' !! j = Some t /\ data self' t = data self t.

(** What a release of [size] bytes leaves. *)
Record release_post self i (s : _peak_stream) size self' ref' : Prop := {
  rp_ok : streams_ok self';
  rp_size : page_size self' = page_size self;
  rp_count : page_count self' = page_count self;
  rp_free p : p ∈ free_pages self' <->
    s_no s <= p < s_no s + (s_off self s + size) / page_size self \/ p ∈ free_pages self;
  rp_others : others_keep i self self';
  rp_ref :
    if s_len s =? size then ref' = None /\ streams self' = delete i (streams self)
    else ref' = Some i /\ exists s', streams self' = <[i := s']> (streams self) /\
      s_buf s' = s_buf s + size /\ s_len s' = s_len s - size /\
      data self' s' = rd_n (page_mem self) (s_buf s + size) (Z.to_nat (s_len s - size));
}.

Lemma release_others self i s self1 k (strs : gmap Z _peak_stream) :
  streams_ok self -> streams self !! i = Some s -> pages_released self (s_no s) k self1 -> k <= s_count s ->
  forall j t, j <> i -> streams self !! j = Some t -> rd_n (page_mem self1) (s_buf t) (Z.to_nat (s_len t)) = data self t.
Proof.
  intros Hok Hi (tr & m & -> & _ & Hm & _) Hk j t Hj Ht. unfold data. simpl.
  pose proof (si_stream _ Hok j t Ht) as Hs. pose proof (data_range self t Hok Hs) as (H1 & H2 & _).
  eapply data_frame; [apply si_pages, Hok|done| |done|done].
  intros p Hp Hh. apply Hj. apply (si_apart _ Hok j i t s p); [done..|]. unfold holds. lia.
Qed.

Lemma release_keeps self i s size :
  streams_ok self -> streams self !! i = Some s -> 0 < size <= s_len s ->
  exists self' ref', peak_stream_release self (Some i) size = Some (self', ref') /\ release_post self i s size self' ref'.
Proof.
  intros Hok Hi Hsz. pose proof (si_pages _ Hok) as Hp. pose proof (si_stream _ Hok i s Hi) as Hs.
  destruct (release_ok self i s size Hok Hi Hsz) as (self1 & Hr & Hk & ->).
  set (k := (s_off self s + size) / page_size self) in *. pose proof (release_others self i s self1 k ∅ Hok Hi Hr ltac:(lia)) as Hoth.
  pose proof (data_range self s Hok Hs) as (Hd1 & Hd2 & _ & _). pose proof Hr as (t & m & E1 & Hp1 & Hm & Hfree).
  assert (forall p, p ∈ free_pages self1 -> p ∈ free_pages self \/ exists s, streams self !! i = Some s /\ holds s p) as Hmine.
  { intros p [Hin|Hin]%Hfree; [right|by left]. exists s. split; [done|]. unfold holds. lia. }
  pose proof (po_size _ Hp) as Hps. unfold sizeof_stream_page in Hps.
  pose proof (Z.div_mod (s_off self s + size) (page_size self) ltac:(lia)) as Hdm. fold k in Hdm.
  pose proof (Z.mod_pos_bound (s_off self s + size) (page_size self) ltac:(lia)) as Hmod.
  cbn [s_len]. destruct (Z.eqb_spec (s_len s - size) 0) as [E0|E0]; eexists _, _; (split; [reflexivity|]); split.
  - subst self1. apply (streams_ok_update self _ i); try done.
    + by apply pages_ok_streams, pages_ok_references, pages_ok_streams.
    + intros j Hj. simpl. by rewrite lookup_delete_ne, lookup_insert_ne by done.
    + intros s'. simpl. by rewrite lookup_delete_eq.
    + apply (refs_put self _ i); [apply Hok|unfold live; apply elem_of_dom; by exists s|done..|]. simpl. by rewrite delete_insert_eq.
  - by subst self1.
  - by subst self1.
  - by subst self1.
  - intros j u Hj Hu. split; [subst self1; simpl; by rewrite lookup_delete_ne, lookup_insert_ne|]. by rewrite <- (Hoth j u Hj Hu).
  - rewrite (proj2 (Z.eqb_eq _ _)) by lia. split; [done|]. subst self1. simpl. by rewrite delete_insert_eq.
  - subst self1. apply (streams_ok_update self _ i); try done.
    + by apply pages_ok_streams.
    + intros j Hj. simpl. by rewrite lookup_insert_ne by done.
    + intros s'. simpl. rewrite lookup_insert_eq. intros [= <-]. destruct Hs as [Hl Ho Hf Hpg].
      split; [|intros p Hh; unfold holds in Hh; simpl in Hh; split].
      * unfold s_off, STREAM_PAGE in *. split; unfold s_off, STREAM_PAGE; simpl; try lia.
      * right. exists s. split; [done|]. unfold holds. lia.
      * intros [Hin|Hin]%Hfree; [lia|]. apply (si_free _ Hok i s p Hi); [unfold holds; lia|done].
    + apply (refs_same self); [apply Hok|done..|]. unfold live. simpl. apply set_eq. intros j. rewrite !elem_of_dom.
      destruct (decide (j = i)) as [->|]; [by rewrite lookup_insert_eq, Hi|by rewrite lookup_insert_ne].
  - by subst self1.
  - by subst self1.
  - by subst self1.
  - intros j u Hj Hu. split; [subst self1; simpl; by rewrite lookup_insert_ne|]. by rewrite <- (Hoth j u Hj Hu).
  - rewrite (proj2 (Z.eqb_neq _ _)) by lia. split; [done|]. eexists. split; [by subst self1|]. simpl. split_and!; [done|done|].
    unfold data. subst self1. simpl. apply rd_n_ext. intros j Hj. apply Hm. destruct Hs as [Hl Ho Hf Hpg]. unfold s_off, STREAM_PAGE in *. nia.
Qed.

(** ** Claims *)

Lemma pages_for_spec self size :
  sizeof_stream_page <= page_size self -> 0 < size -> size + page_size self < 2 ^ 64 ->
  let k := pages_for self size in
  s64 k = k /\ 0 < k /\ (k - 1) * page_size self < size <= k * page_size self.
Proof.
  intros Hps Hs Hb k. unfold sizeof_stream_page in Hps.
  pose proof (Z.div_mod size (page_size self) ltac:(lia)) as Hdm. pose proof (Z.mod_pos_bound size (page_size self) ltac:(lia)) as Hm.
  set (d := size / page_size self) in *. set (r := size mod page_size self) in *.
  assert (k = if r =? 0 then d else d + 1) as Ek.
  { unfold k, pages_for, ALLOC_ALIGN. fold r. destruct (Z.eqb_spec r 0) as [E|E]; cbn [negb]; rewrite wrap_small by (unfold fits; lia).
    - replace (size + page_size self - page_size self) with (d * page_size self) by lia. apply Z_div_mult_full. lia.
    - replace (size + page_size self - r) with ((d + 1) * page_size self) by lia. apply Z_div_mult_full. lia. }
  assert (0 < k /\ (k - 1) * page_size self < size <= k * page_size self) as [Hk1 Hk2].
  { rewrite Ek. destruct (Z.eqb_spec r 0); nia. }
  split; [|done]. apply s64_small. nia.
Qed.

(** There is a structure for another stream as long as a page is free. *)
Lemma refs_get self b :
  streams_ok self -> b ∈ free_pages self ->
  exists references' i, prealloc_get (references self) = (references', Some i) /\ streams self !! i = None /\
    forall self', page_count self' = page_count self -> references self' = references' -> live self' = {[i]} ∪ live self -> refs_ok self'.
Proof.
  intros Hok Hb. destruct (si_refs _ Hok) as [mem Hr]. pose proof (pool_get _ _ _ _ _ Hr) as Hg.
  pose proof (pool_length _ _ _ _ _ Hr) as Hl. pose proof (pool_NoDup _ _ _ _ _ Hr) as HN.
  pose proof (po_count _ (si_pages _ Hok)) as Hpc. pose proof (po_size _ (si_pages _ Hok)) as Hps.
  assert (length (base.elements (live self)) < Z.to_nat (page_count self))%nat as Hlt.
  { set (L := (fun x : Z * _peak_stream => s_no (snd x)) <$> map_to_list (streams self)).
    assert (length L = length (base.elements (live self))) as <-.
    { unfold L. rewrite length_fmap, length_map_to_list. symmetry. apply (size_dom (D := gset Z)). }
    assert (forall x, x ∈ map_to_list (streams self) -> streams self !! x.1 = Some x.2 /\ holds x.2 (s_no x.2)) as Hx.
    { intros [i s] Hx%elem_of_map_to_list. split; [done|]. pose proof (so_count self s Hps (si_stream _ Hok i s Hx)). unfold holds. simpl. lia. }
    enough (length (b :: L) <= Z.to_nat (page_count self))%nat by (simpl in *; lia).
    apply NoDup_range; [lia|constructor|].
    - intros (x & -> & Hin)%list_elem_of_fmap. destruct (Hx x Hin) as [Es Hh]. by apply (si_free _ Hok x.1 x.2 (s_no x.2)).
    - apply NoDup_fmap_2_strong; [|apply NoDup_map_to_list]. intros x y Hxi Hyi E.
      destruct (Hx x Hxi) as [Ex Hhx], (Hx y Hyi) as [Ey Hhy]. rewrite <- E in Hhy.
      pose proof (si_apart _ Hok _ _ _ _ _ Ex Ey Hhx Hhy) as Ei. destruct x, y; simpl in *; subst. congruence.
    - intros p [->|(x & -> & Hin)%list_elem_of_fmap]%elem_of_cons; [by apply (po_range _ (si_pages _ Hok))|].
      destruct (Hx x Hin) as [Es Hh]. pose proof (so_pages _ _ (si_stream _ Hok _ _ Es)). unfold holds in Hh. lia. }
  destruct (prealloc_get (references self)) as [references' [i|]].
  - destruct Hg as [Hi Hg]. exists references', i. assert (i ∉ live self) as Hni.
    { intros Hli. apply NoDup_app in HN as (_ & HN & _). apply (HN i Hi). by apply elem_of_elements. }
    split_and!; [done|by apply not_elem_of_dom|]. intros self' E1 E2 E3. exists mem. rewrite E1, E2, E3.
    by rewrite elements_union_singleton.
  - destruct Hg as [_ Hg]. rewrite Hg in Hl. simpl in Hl. lia.
Qed.

(** What a claim leaves that gives the stream [i] the structure [s']. *)
Record claim_post self i s' self' : Prop := {
  cp_ok : streams_ok self';
  cp_size : page_size self' = page_size self;
  cp_count : page_count self' = page_count self;
  cp_mem : page_mem self' = page_mem self;
  cp_streams : streams self' = <[i := s']> (streams self);
  cp_free p : p ∈ free_pages self' <-> p ∈ free_pages self /\ ~ holds s' p;
}.

Lemma fresh_claim self size :
  streams_ok self -> 0 < size -> size + page_size self < 2 ^ 64 ->
  (exists self' i s', _peak_stream_claim self None size = Some (self', Some i, 1) /\
     claim_post self i s' self' /\ streams self !! i = None /\ s_len s' = size /\ s_off self' s' = 0) \/
  (_peak_stream_claim self None size = Some (self, None, 0) /\ forall q, ~ run_free self q (pages_for self size)).
Proof.
  intros Hok Hs Hb. pose proof (si_pages _ Hok) as Hp. pose proof (pages_for_spec self size (po_size _ Hp) Hs Hb) as (E64 & Hk & Hfit).
  set (k := pages_for self size) in *. unfold _peak_stream_claim. destruct (Z.eqb_spec size 0); [lia|]. fold k. rewrite E64.
  destruct (st_root (page_tree self)) as [x|] eqn:Er.
  2: { right. split; [done|]. intros q Hq. specialize (Hq q ltac:(lia)). pose proof (st_root_ok (page_tree self)) as Hroot. rewrite Er in Hroot. unfold free_pages in Hq. rewrite Hroot in Hq. by apply elem_of_nil in Hq. }
  destruct (claim_pages self k Hp Hk) as [(b & self1 & -> & t & -> & Hp1 & Hrun & Hb0 & Hb1 & Hfree)|[-> Hno]]; cbn [mbind option_bind]; [left|by right].
  rewrite (proj2 (Z.eqb_neq b STREAM_ERROR)) by (unfold STREAM_ERROR; lia).
  destruct (refs_get self b Hok (Hrun b ltac:(lia))) as (refs & i & Eg & Hi & Hrefs).
  unfold peak_stream_get. simpl references. rewrite Eg. cbn [mbind option_bind].
  simpl. rewrite lookup_insert_eq. cbn [mbind option_bind]. set (s' := stream_claimed _ _ _ _ _).
  assert (s' = {| s_count := k; s_no := b; s_len := size; s_buf := STREAM_PAGE self b |}) as Es'.
  { unfold s', stream_claimed. cbn [stream_zero s_count s_no s_len s_buf]. rewrite wrap_small; [done|unfold fits; lia]. }
  eexists _, i, s'. split; [reflexivity|]. rewrite insert_insert_eq.
  pose proof (po_block _ Hp) as [Hm1 Hm2]. pose proof (po_size _ Hp) as Hps. unfold sizeof_stream_page in Hps.
  split_and!; [split; try done|done|by rewrite Es'|rewrite Es'; unfold s_off, STREAM_PAGE; simpl; lia].
  apply (streams_ok_update self _ i); try done.
  - exact (pages_ok_streams _ _ (pages_ok_references _ refs Hp1)).
  - intros j Hj. simpl. by rewrite lookup_insert_ne.
  - intros s. simpl. rewrite lookup_insert_eq. intros [= <-]. rewrite Es'. split.
    + split; unfold s_off, STREAM_PAGE; simpl; lia.
    + unfold holds. simpl. intros p Hh. split; [left; by apply Hrun|]. intros Hin. apply Hfree in Hin. tauto.
  - intros p Hin. left. by apply Hfree in Hin as [].
  - apply Hrefs; [done..|]. apply dom_insert_L.
Qed.

(** The structure of a stream that grows where it is: unless the pages it has are as many as
    its data needs, the buffer begins at the first page again. *)
Definition regrown self (s : _peak_stream) size : _peak_stream :=
  let k := pages_for self (s_len s + size) in
  {| s_count := k; s_no := s_no s; s_len := s_len s + size;
     s_buf := if k =? s_count s then s_buf s else STREAM_PAGE self (s_no s) |}.

(** The pages it has are as many as the data needs from the beginning of a page, but not from
    where it begins. *)
Definition spills self (s : _peak_stream) size : Prop :=
  pages_for self (s_len s + size) = s_count s /\ s_count s * page_size self < s_off self s + s_len s + size.

(** What a claim leaves that grows the stream [i] where it is. *)
Record grown self i (s : _peak_stream) size self' : Prop := {
  gr_size : page_size self' = page_size self;
  gr_count : page_count self' = page_count self;
  gr_mem : page_mem self' = page_mem self;
  gr_streams : streams self' = <[i := regrown self s size]> (streams self);
  gr_free p : p ∈ free_pages self' <->
    p ∈ free_pages self /\ ~ (s_no s + s_count s <= p < s_no s + pages_for self (s_len s + size));
  gr_ok : streams_ok self' <-> ~ spills self s size;
}.

(** Where the structure is in order. *)
Lemma regrown_ok self self' s size :
  sizeof_stream_page <= page_size self -> page_size self' = page_size self -> page_count self' = page_count self ->
  stream_ok self s -> 0 < size -> s_len s + size + page_size self < 2 ^ 64 ->
  (pages_for self (s_len s + size) <= s_count s \/ s_no s + pages_for self (s_len s + size) <= page_count self) ->
  stream_ok self' (regrown self s size) <-> ~ spills self s size.
Proof.
  intros Hps E1 E2 [Hl Ho Hf [Hn1 Hn2]] Hs Hb Hle. unfold regrown, spills.
  pose proof (pages_for_spec self (s_len s + size) Hps ltac:(lia) ltac:(lia)) as (_ & Hk & Hfit).
  set (k := pages_for self (s_len s + size)) in *. unfold s_off, STREAM_PAGE in *. split.
  - intros [_ _ H _] [Ek Hsp]. unfold s_off, STREAM_PAGE in H. cbn [s_count s_no s_len s_buf] in H. rewrite E1, Ek, Z.eqb_refl in H. lia.
  - intros Hsp. destruct (Z.eqb_spec k (s_count s)) as [Ek|Ek];
      split; unfold s_off, STREAM_PAGE; cbn [s_count s_no s_len s_buf]; rewrite ?E1, ?E2; lia.
Qed.

(** Only the pages behind those of the stream leave the free ones, and the rest of the pool
    stays. *)
Lemma regrown_grown self i s size t :
  streams_ok self -> streams self !! i = Some s -> 0 < size -> s_len s + size + page_size self < 2 ^ 64 ->
  let k := pages_for self (s_len s + size) in
  pages_ok (self<|set_tree t|>) -> (k <= s_count s \/ s_no s + k <= page_count self) ->
  (forall p, s_no s + s_count s <= p < s_no s + k -> p ∈ free_pages self) ->
  (forall p, p ∈ st_elements t <-> p ∈ free_pages self /\ ~ (s_no s + s_count s <= p < s_no s + k)) ->
  grown self i s size (self<|set_tree t|><|set_streams (<[i := regrown self s size]> (streams self))|>).
Proof.
  intros Hok Hi Hs Hb k Hp Hle Hrun Hfree. pose proof (po_size _ (si_pages _ Hok)) as Hps.
  split; [done..|]. set (self' := _<|set_streams _|>).
  rewrite <- (regrown_ok self self' s size) by (done || by apply (si_stream _ Hok i)). split.
  { intros Hok'. apply (si_stream _ Hok' i). simpl. by rewrite lookup_insert_eq. }
  intros Hs'. apply (streams_ok_update self _ i); try done.
  - by apply pages_ok_streams.
  - intros j Hj. simpl. by rewrite lookup_insert_ne.
  - intros u. simpl. rewrite lookup_insert_eq. intros [= <-]. split; [done|]. unfold holds at 1, regrown. cbn [s_count s_no].
    fold k. intros p Hh. pose proof (si_free _ Hok i s p Hi) as Hf. unfold holds in Hf.
    destruct (Z.lt_ge_cases p (s_no s + s_count s)) as [Hlt|Hge].
    + split; [right; exists s; split; [done|unfold holds; lia]|]. intros [Hin _]%Hfree. apply Hf; [lia|done].
    + split; [left; apply Hrun; lia|]. intros [_ Hn]%Hfree. lia.
  - intros p [Hin _]%Hfree. by left.
  - apply (refs_same self); [apply Hok|done..|]. unfold live. simpl. apply dom_insert_lookup_L. by exists s.
Qed.

(** More bytes for a stream, where it is. *)
Lemma grow_claim self i s size :
  streams_ok self -> streams self !! i = Some s -> 0 < size -> s_len s + size + page_size self < 2 ^ 64 ->
  let k := pages_for self (s_len s + size) in
  (exists self', _peak_stream_claim self (Some i) size = Some (self', Some i, 1) /\ grown self i s size self') \/
  (_peak_stream_claim self (Some i) size = Some (self, Some i, 0) /\ s_count s < k /\
     ~ run_free self (s_no s + s_count s) (k - s_count s)).
Proof.
  intros Hok Hi Hs Hb k. pose proof (si_pages _ Hok) as Hp. pose proof (si_stream _ Hok i s Hi) as [Hl Ho Hf [Hn1 Hn2]].
  pose proof (pages_for_spec self (s_len s + size) (po_size _ Hp) ltac:(lia) ltac:(lia)) as (E64 & Hk & Hfit). fold k in E64, Hk, Hfit.
  pose proof (po_size _ Hp) as Hps. unfold sizeof_stream_page in Hps. pose proof (po_block _ Hp) as [Hm1 Hm2].
  assert (k < 2 ^ 63) as Hk63 by nia. assert (0 < s_count s < 2 ^ 63) as Hc by nia.
  pose proof (regrown_grown self i s size) as Hgr. fold k in Hgr. unfold regrown in Hgr. fold k in Hgr.
  unfold _peak_stream_claim. destruct (Z.eqb_spec size 0); [lia|]. rewrite Hi. cbn [mbind option_bind].
  rewrite (Z.add_comm size (s_len s)), (wrap_small 64 (s_len s + size)) by (unfold fits; lia). fold k.
  rewrite s64_small by lia. unfold stream_claimed.
  assert (forall p, p ∈ free_pages self -> s_no s + s_count s <= p < s_no s + k -> s_count s < k) as Hlt by lia.
  destruct (Z.eqb_spec (k - s_count s) 0) as [E0|E0].
  - left. eexists. split; [reflexivity|].
    specialize (Hgr (page_tree self) Hok Hi Hs Hb ltac:(by destruct self) ltac:(lia) ltac:(lia)).
    rewrite (proj2 (Z.eqb_eq k (s_count s))) in Hgr by lia. replace (s_count s) with k by lia.
    destruct self. apply Hgr. intros p. unfold free_pages. simpl. split; [|by intros [? _]]. intros Hin. split; [done|]. lia.
  - rewrite (proj2 (Z.eqb_neq k (s_count s))) in Hgr by lia.
    rewrite (wrap_small 64 (s_len s + size)) by (unfold fits; lia).
    destruct (Z.lt_ge_cases k (s_count s)) as [Hkc|Hkc].
    + left. rewrite reclaim_fewer by (done || lia). cbn [mbind option_bind].
      rewrite (proj2 (Z.eqb_neq (s_no s) STREAM_ERROR)) by (unfold STREAM_ERROR; lia). eexists. split; [reflexivity|].
      specialize (Hgr (page_tree self) Hok Hi Hs Hb ltac:(by destruct self) ltac:(lia) ltac:(lia)).
      replace (s_count s + (k - s_count s)) with k by lia.
      destruct self. apply Hgr. intros p. unfold free_pages. simpl. split; [|by intros [? _]]. intros Hin. split; [done|]. lia.
    + destruct (reclaim_pages self s (k - s_count s) Hp ltac:(lia)) as [(self1 & -> & t & -> & Hp1 & Hrun & Hb0 & Hb1 & Hfree)|[-> Hno]];
        cbn [mbind option_bind]; [left|right; split_and!; [done|lia|done]].
      rewrite (proj2 (Z.eqb_neq (s_no s) STREAM_ERROR)) by (unfold STREAM_ERROR; lia). eexists. split; [reflexivity|].
      replace (s_count s + (k - s_count s)) with k by lia. apply Hgr; [done..|lia| |].
      * intros p Hp'. apply Hrun. lia.
      * intros p. etransitivity; [apply Hfree|]. by replace (s_no s + s_count s + (k - s_count s)) with (s_no s + k) by lia.
Qed.

(** A write into the pages of a stream. *)
Lemma stream_write self i s m lo hi :
  streams_ok self -> streams self !! i = Some s -> bytes m -> same_but lo hi (page_mem self) m ->
  s_no s * page_size self <= lo -> hi <= (s_no s + s_count s) * page_size self ->
  streams_ok (self<|set_mem m|>) /\ others_keep i self (self<|set_mem m|>).
Proof.
  intros Hok Hi Hb Hm Hlo Hhi. pose proof (po_size _ (si_pages _ Hok)) as Hps.
  assert (same_but (s_no s * page_size self) ((s_no s + s_count s) * page_size self) (page_mem self) m) as Hm'.
  { eapply same_but_mono; [..|done]; done. }
  split.
  - apply (streams_ok_update self _ i); try done.
    + eapply pages_ok_write; [apply Hok|done|done|]. intros p Hin. unfold sizeof_stream_page in Hps.
      assert (~ holds s p) as Hh by (intros H; by apply (si_free _ Hok i s p Hi H)). unfold holds in Hh.
      assert (p < s_no s \/ s_no s + s_count s <= p) by lia.
      nia.
    + simpl. rewrite Hi. intros u [= <-]. split; [by destruct (si_stream _ Hok i s Hi)|]. intros p Hh. split; [right; by exists s|by apply (si_free _ Hok i s)].
    + by left.
    + by apply (refs_same self); [apply Hok|..].
  - intros j u Hj Hu. split; [done|]. unfold data. simpl. pose proof (data_range self u Hok (si_stream _ Hok j u Hu)) as (H1 & H2 & _).
    eapply data_frame; [done|done| |done|done]. intros p Hp Hh. apply Hj. by apply (si_apart _ Hok j i u s p).
Qed.

(** What the user holds: nothing, or a stream with its data. *)
Definition owned self (ref : option Z) (bs : list Z) : Prop :=
  match ref with
  | None => bs = []
  | Some i => exists s, streams self !! i = Some s /\ data self s = Some bs
  end.

(** A stream that begins at a page, with its data. *)
Definition held self (ref : option Z) (bs : list Z) : Prop :=
  match ref with
  | None => bs = []
  | Some i => exists s, streams self !! i = Some s /\ s_off self s = 0 /\ data self s = Some bs
  end.

Lemma held_length self i s bs : streams_ok self -> streams self !! i = Some s -> data self s = Some bs -> msize bs = s_len s.
Proof.
  intros Hok Hi Hd. apply rd_n_length in Hd. pose proof (so_len _ _ (si_stream _ Hok i s Hi)). unfold msize. lia.
Qed.

Lemma data_in self i s : streams_ok self -> streams self !! i = Some s -> exists bs, data self s = Some bs /\ msize bs = s_len s.
Proof.
  intros Hok Hi. pose proof (si_stream _ Hok i s Hi) as Hs. pose proof (data_range self s Hok Hs) as (_ & _ & H0 & H1).
  destruct (rd_n_is_Some (page_mem self) (s_buf s) (Z.to_nat (s_len s))) as (bs & E & El); [done|pose proof (so_len _ _ Hs); lia|].
  exists bs. split; [done|]. by apply (held_length self i s).
Qed.

(** Data with a known beginning. *)
Lemma data_prefix self i s bs n :
  streams_ok self -> streams self !! i = Some s -> s_len s = msize bs + n -> 0 <= n ->
  rd_n (page_mem self) (s_buf s) (length bs) = Some bs -> exists bs', data self s = Some (bs ++ bs') /\ msize bs' = n.
Proof.
  intros Hok Hi El Hn Hr. destruct (data_in self i s Hok Hi) as (all & E & Hl). unfold data in *.
  replace (Z.to_nat (s_len s)) with (length bs + Z.to_nat n)%nat in E by (unfold msize in *; lia).
  replace (Z.to_nat (s_len s)) with (length bs + Z.to_nat n)%nat by (unfold msize in *; lia).
  rewrite rd_n_app, Hr in *. cbn [mbind option_bind] in *. destruct (rd_n _ _ (Z.to_nat n)) as [bs'|] eqn:E'; [|done].
  exists bs'. split; [done|]. apply rd_n_length in E'. unfold msize. lia.
Qed.

Lemma claim_others self i s' self' : streams_ok self -> claim_post self i s' self' -> others_keep i self self'.
Proof. intros Hok [] j t Hj Ht. unfold data. by rewrite cp_streams0, lookup_insert_ne, cp_mem0. Qed.

(** The data moves to a fresh stream, and the old one is released. *)
Lemma move_stream self i s bs j s1 self1 n :
  streams_ok self -> streams self !! i = Some s -> data self s = Some bs ->
  claim_post self j s1 self1 -> streams self !! j = None -> s_len s1 = msize bs + n -> 0 <= n ->
  exists m self2, wr_n (page_mem self1) (s_buf s1) bs = Some m /\
    peak_stream_release (self1<|set_mem m|>) (Some i) (s_len s) = Some (self2, None) /\ streams_ok self2 /\
    page_size self2 = page_size self /\ streams self2 = delete i (<[j := s1]> (streams self)) /\
    (exists bs', data self2 s1 = Some (bs ++ bs') /\ msize bs' = n) /\
    (forall l t, l <> i -> streams self !! l = Some t -> data self2 t = data self t).
Proof.
  intros Hok Hi Hd Hcp Hj El Hn. pose proof (held_length self i s bs Hok Hi Hd) as Hl.
  pose proof (claim_others self j s1 self1 Hok Hcp) as Hoth. destruct Hcp.
  assert (i <> j) as Hij by (intros ->; congruence).
  assert (streams self1 !! j = Some s1) as Hj1 by (by rewrite cp_streams0, lookup_insert_eq).
  pose proof (si_stream _ cp_ok0 j s1 Hj1) as Hs1. pose proof (data_range self1 s1 cp_ok0 Hs1) as (R1 & R2 & R3 & R4).
  assert (0 <= msize bs) as Hm0 by (unfold msize; lia).
  destruct (wr_n_spec (page_mem self1) (s_buf s1) bs) as (m & Em & _); [done|unfold msize in *; lia|].
  destruct (wr_n_same_but (page_mem self1) (s_buf s1) bs m) as [Hm Hr]; [done|unfold msize in *; lia|done|].
  assert (bytes m) as Hbm.
  { eapply wr_n_bytes; [apply (si_pages _ cp_ok0)| |done]. eapply rd_n_bytes; [apply (si_pages _ Hok)|done]. }
  destruct (stream_write self1 j s1 m (s_buf s1) (s_buf s1 + Z.of_nat (length bs)) cp_ok0 Hj1 Hbm Hm) as [Hok2 Hw]; [done|unfold msize in *; lia|].
  set (self1' := self1<|set_mem m|>) in *.
  assert (streams self1' !! i = Some s) as Hi2 by (unfold self1'; simpl; rewrite cp_streams0; by rewrite lookup_insert_ne).
  pose proof (so_len _ _ (si_stream _ Hok i s Hi)) as Hl0.
  destruct (release_keeps self1' i s (s_len s) Hok2 Hi2 ltac:(lia)) as (self2 & ref' & E2 & [R5 R6 _ _ Hr2 Href]).
  rewrite Z.eqb_refl in Href. destruct Href as [-> Estr]. exists m, self2. split_and!; [done..|by rewrite R6| | |].
  - rewrite Estr. unfold self1'. simpl. by rewrite cp_streams0.
  - destruct (Hr2 j s1) as [_ ->]; [done|done|]. by apply (data_prefix self1' j s1 bs n).
  - intros l u Hli Hu. assert (l <> j) as Hlj by (intros ->; congruence). destruct (Hoth l u Hlj Hu) as [Hu1 E1].
    destruct (Hw l u Hlj Hu1) as [Hu2 E3]. destruct (Hr2 l u Hli Hu2) as [_ E4]. by rewrite E4, E3, E1.
Qed.

(** The user has got [size] bytes behind [bs]; everybody else has what they had. *)
Definition claimed self ref bs size self' ref' : Prop :=
  (exists bs', held self' ref' (bs ++ bs') /\ msize bs' = size) /\
  (forall j, Some j <> ref' -> streams self' !! j = if decide (Some j = ref) then None else streams self !! j) /\
  (forall j t, Some j <> ref -> streams self !! j = Some t -> Some j <> ref' /\ data self' t = data self t).

Lemma claimed_fresh self i s' self' size :
  streams_ok self -> claim_post self i s' self' -> streams self !! i = None -> s_len s' = size -> s_off self' s' = 0 ->
  claimed self None [] size self' (Some i).
Proof.
  intros Hok Hcp Hi El Eo. pose proof (claim_others self i s' self' Hok Hcp) as Hoth. destruct Hcp.
  assert (streams self' !! i = Some s') as Hi' by (by rewrite cp_streams0, lookup_insert_eq).
  destruct (data_in self' i s' cp_ok0 Hi') as (bs' & E' & El'). split_and!.
  - exists bs'. split; [by exists s'|lia].
  - intros j Hj. rewrite cp_streams0, lookup_insert_ne by congruence. by rewrite decide_False.
  - intros j t _ Ht. split; [intros [= ->]; congruence|]. apply (Hoth j t); [intros ->; congruence|done].
Qed.

(** A stream that begins at a page has its data when it has grown. *)
Lemma grown_post self i s size self' :
  streams_ok self -> streams self !! i = Some s -> s_off self s = 0 -> 0 < size -> s_len s + size + page_size self < 2 ^ 64 ->
  grown self i s size self' -> claim_post self i (regrown self s size) self'.
Proof.
  intros Hok Hi Ho Hs Hb []. pose proof (po_size _ (si_pages _ Hok)) as Hps. pose proof (si_stream _ Hok i s Hi) as [Hl _ Hf _].
  pose proof (pages_for_spec self (s_len s + size) Hps ltac:(lia) ltac:(lia)) as (_ & Hk & Hfit).
  assert (~ spills self s size) as Hsp by (unfold spills; nia). split; try done; [by apply gr_ok0|].
  intros p. rewrite gr_free0. unfold holds, regrown. cbn [s_count s_no]. pose proof (si_free _ Hok i s p Hi) as Hfree. unfold holds in Hfree.
  assert (s_count s <= pages_for self (s_len s + size)) by nia. pose proof (so_count self s Hps (si_stream _ Hok i s Hi)) as Hc.
  split; intros [Hin Hn]; (split; [done|]); intros Hh; apply Hn; [|lia].
  split; [|lia]. destruct (Z.le_gt_cases (s_no s + s_count s) p); [done|]. exfalso. apply Hfree; [lia|done].
Qed.

Lemma claimed_grown self i s bs self' size :
  streams_ok self -> streams self !! i = Some s -> data self s = Some bs -> s_off self s = 0 ->
  0 < size -> s_len s + size + page_size self < 2 ^ 64 -> grown self i s size self' -> streams_ok self' /\ claimed self (Some i) bs size self' (Some i).
Proof.
  intros Hok Hi Hd Eo Hs Hb Hgr. pose proof (grown_post self i s size self' Hok Hi Eo Hs Hb Hgr) as Hcp.
  pose proof (claim_others self i _ self' Hok Hcp) as Hoth.
  pose proof (held_length self i s bs Hok Hi Hd) as Hl. destruct Hcp. split; [done|].
  assert (streams self' !! i = Some (regrown self s size)) as Hi' by (by rewrite cp_streams0, lookup_insert_eq).
  assert (s_buf (regrown self s size) = s_buf s) as Eb by (unfold regrown, s_off in *; cbn [s_buf]; case_match; lia).
  destruct (data_prefix self' i (regrown self s size) bs size cp_ok0 Hi') as (bs' & E' & El'); [unfold regrown; cbn [s_len]; lia|lia| |].
  { rewrite cp_mem0, Eb. unfold data in Hd. by rewrite <- Hd, (rd_n_length _ _ _ _ Hd). }
  split_and!.
  - exists bs'. split; [|done]. eexists. split_and!; [done| |done].
    unfold s_off, STREAM_PAGE in *. rewrite Eb, cp_size0. unfold regrown. cbn [s_no]. lia.
  - intros j Hj. rewrite cp_streams0, lookup_insert_ne by congruence. by rewrite decide_False.
  - intros j t Hj Ht. split; [done|]. apply (Hoth j t); [congruence|done].
Qed.

(** The second try of [peak_stream_claim]. *)
Lemma claimed_moved self i s bs size :
  streams_ok self -> streams self !! i = Some s -> data self s = Some bs -> 0 < size -> s_len s + size + page_size self < 2 ^ 64 ->
  _peak_stream_claim self (Some i) size = Some (self, Some i, 0) ->
  (peak_stream_claim self (Some i) size = Some (self, Some i, 0) /\ forall q, ~ run_free self q (pages_for self (s_len s + size))) \/
  exists self' ref', peak_stream_claim self (Some i) size = Some (self', ref', 1) /\ streams_ok self' /\
    claimed self (Some i) bs size self' ref'.
Proof.
  intros Hok Hi Hd Hs Hb E1. pose proof (held_length self i s bs Hok Hi Hd) as Hl. pose proof (so_len _ _ (si_stream _ Hok i s Hi)) as Hl0.
  pose proof (po_size _ (si_pages _ Hok)) as Hps. unfold sizeof_stream_page in Hps.
  unfold peak_stream_claim. rewrite E1. cbn [mbind option_bind]. rewrite Z.eqb_refl, Hi. cbn [negb mbind option_bind].
  rewrite (wrap_small 64 (s_len s + size)) by (unfold fits; lia).
  destruct (fresh_claim self (s_len s + size) Hok ltac:(lia) ltac:(lia)) as [(self1 & j & s1 & -> & Hcp & Hj & El & Eo)|[-> Hno]];
    cbn [mbind option_bind]; [right|by left].
  destruct (move_stream self i s bs j s1 self1 size Hok Hi Hd Hcp Hj ltac:(lia) ltac:(lia))
    as (m & self2 & Em & Er & Hok2 & Eps & Estr & (bs' & Eb & El') & Hoth).
  destruct Hcp. assert (i <> j) as Hij by (intros ->; congruence). change (negb (1 =? 0)) with true. cbv iota. cbn [mbind option_bind].
  rewrite cp_streams0, lookup_insert_eq. cbn [mbind option_bind]. rewrite lookup_insert_ne, Hi by done. cbn [mbind option_bind].
  rewrite cp_mem0 in *. unfold data in Hd. rewrite Hd. cbn [mbind option_bind]. rewrite Em. cbn [mbind option_bind].
  rewrite Er. cbn [mbind option_bind]. exists self2, (Some j). split_and!; [done|done|]. split_and!.
  - exists bs'. split; [|done]. exists s1. split_and!; [by rewrite Estr, lookup_delete_ne, lookup_insert_eq| |done].
    unfold s_off, STREAM_PAGE in *. by rewrite Eps, <- cp_size0.
  - intros l Hlj. rewrite Estr. case_decide as Hli; [injection Hli as ->; by rewrite lookup_delete_eq|].
    by rewrite lookup_delete_ne, lookup_insert_ne by congruence.
  - intros l t Hli Hu. split; [intros [= ->]; congruence|]. apply (Hoth l t); [congruence|done].
Qed.

(** No run of free pages would do: neither a fresh one nor the one behind the stream. *)
Definition no_room self ref bs size : Prop :=
  let k := pages_for self (msize bs + size) in
  (forall q, ~ run_free self q k) /\
  forall i s, ref = Some i -> streams self !! i = Some s -> ~ run_free self (s_no s + s_count s) (k - s_count s).

Lemma claim_result self ref bs size :
  streams_ok self -> owned self ref bs -> 0 <= size -> msize bs + size + page_size self < 2 ^ 64 ->
  exists self' ref' ret, peak_stream_claim self ref size = Some (self', ref', ret) /\
    (size = 0 /\ ret = 1 /\ self' = self /\ ref' = ref \/
     0 < size /\ ret = 0 /\ self' = self /\ ref' = ref /\ no_room self ref bs size \/
     0 < size /\ ret = 1 /\ streams_ok self' /\ claimed self ref bs size self' ref' \/
     0 < size /\ ret = 1 /\ ref' = ref /\
       exists i s, ref = Some i /\ streams self !! i = Some s /\ s_off self s <> 0 /\ grown self i s size self').
Proof.
  intros Hok Hh Hs Hb. destruct (Z.eq_dec size 0) as [->|Hs0].
  { exists self, ref, 1. split; [by destruct ref|]. by left. }
  assert (0 < size) as Hs1 by lia. destruct ref as [i|]; simpl in Hh.
  - destruct Hh as (s & Hi & Hd). pose proof (held_length self i s bs Hok Hi Hd) as Hl.
    destruct (grow_claim self i s size Hok Hi Hs1 ltac:(lia)) as [(self' & E & Hgr)|(E & Hk & Hno)].
    + exists self', (Some i), 1. split; [unfold peak_stream_claim; by rewrite E|]. right. right.
      destruct (Z.eq_dec (s_off self s) 0) as [Ho|Ho]; [left|right].
      * split_and!; [done|done|..]; apply (claimed_grown self i s bs self' size); (done || lia).
      * split_and!; [done..|]. by exists i, s.
    + destruct (claimed_moved self i s bs size Hok Hi Hd Hs1 ltac:(lia) E) as [[E' Hno']|(self' & ref' & E' & Hok' & Hc)].
      * exists self, (Some i), 0. split; [done|]. right. left. split_and!; [done..|]. unfold no_room. rewrite Hl.
        split; [done|]. intros i' s' [= <-]. rewrite Hi. by intros [= <-].
      * exists self', ref', 1. split; [done|]. right. right. left. done.
  - subst bs. unfold peak_stream_claim.
    destruct (fresh_claim self size Hok Hs1 Hb) as [(self' & i & s' & -> & Hcp & Hi & El & Eo)|[-> Hno]]; cbn [mbind option_bind].
    + exists self', (Some i), 1. split; [done|]. right. right. left. split_and!; [done..|apply Hcp|]. by apply (claimed_fresh self i s').
    + exists self, None, 0. split; [done|]. right. left. split_and!; [done..|]. split; [done|]. by intros i s [=].
Qed.

(** ** The life of a pool *)

Lemma setup_loop_spec n self i :
  pages_ok self -> 0 <= i -> i + Z.of_nat n <= page_count self -> (forall p, p ∈ free_pages self -> p < i) ->
  exists self', setup_loop n self i = Some self' /\ pages_released self i (Z.of_nat n) self'.
Proof.
  revert self i. induction n as [|n IH]; intros self i Hok Hi Hn Hf; cbn [setup_loop].
  - exists self. split; [done|]. by apply released_none.
  - destruct (release_page self i Hok ltac:(lia)) as (self1 & -> & Hr1); [intros Hin%Hf; lia|]. cbn [mbind option_bind].
    pose proof Hr1 as (t & m & E1 & Hok1 & _ & Hf1).
    destruct (IH self1 (i + 1) Hok1) as (self2 & -> & Hr2); [lia|subst self1; simpl; lia| |].
    { intros p [?|Hin%Hf]%Hf1; lia. }
    exists self2. split; [done|]. replace (Z.of_nat (S n)) with (Z.of_nat n + 1) by lia. eapply released_trans; [lia|done|done].
Qed.

(** What [malign] gives: [count] pages of [size] bytes, of whatever is there. *)
Definition gives_pages (mem : Z -> Z -> option (list Z)) (count size : Z) : Prop :=
  forall m, mem count size = Some m -> msize m = count * size /\ msize m < 2 ^ 63 /\ bytes m.

Lemma init_result self_ok mem refs count size :
  fits 64 count -> fits 64 size -> gives_pages mem count size ->
  (peak_stream_init self_ok mem refs count size = Some None /\
   (count = 0 \/ size mod 8 <> 0 \/ size < 56 \/ self_ok = false \/ mem count size = None \/ refs count sizeof_stream = None)) \/
  exists self, peak_stream_init self_ok mem refs count size = Some (Some self) /\ streams_ok self /\
    size mod 8 = 0 /\ page_size self = size /\ page_count self = count /\ streams self = ∅ /\
    forall p, p ∈ free_pages self <-> 0 <= p < count.
Proof.
  intros Hc Hs Hm. unfold peak_stream_init. destruct (Z.eqb_spec count 0) as [|Hc0]; [left; split; [done|tauto]|].
  rewrite (land_low 3 size) by done. change (2 ^ 3) with 8.
  destruct (Z.eqb_spec (size mod 8) 0) as [H8|]; cbn [negb]; [|left; split; [done|tauto]].
  destruct (Z.ltb_spec size sizeof_stream_page) as [|Hps]; [left; split; [done|tauto]|].
  destruct self_ok; cbn [negb]; [|left; split; [done|tauto]]. destruct (mem count size) as [m|] eqn:Em; [|left; split; [done|tauto]].
  destruct (Hm m Em) as (Hm1 & Hm2 & Hmb). destruct (prealloc_init count sizeof_stream refs) as [references ret] eqn:Er.
  destruct ret; cbn [negb].
  2: { left. split; [done|]. unfold prealloc_init in Er. rewrite (proj2 (Z.eqb_neq _ _)) in Er by done. simpl in Er.
       destruct (refs count sizeof_stream); [done|]. tauto. }
  right. destruct (pool_init sizeof_stream refs count references Hc) as (base & _ & Hpool); [by unfold fits|done|].
  set (self0 := Build_peak_streams _ _ _ _ _ _ _). destruct Hc as [Hc1 Hc2].
  assert (free_pages self0 = []) as Hf0 by apply st_empty_ok.
  assert (pages_ok self0) as Hp0.
  { split; try done; rewrite ?Hf0; [simpl; lia|apply st_empty_ok|constructor|intros p Hp; by apply elem_of_nil in Hp..]. }
  destruct (setup_loop_spec (Z.to_nat count) self0 0 Hp0) as (self & -> & t & m' & -> & Hok & _ & Hf); [done|simpl; lia| |].
  { rewrite Hf0. intros p Hp. by apply elem_of_nil in Hp. }
  cbn [mbind option_bind]. rewrite Z2Nat.id in Hf by done. eexists. split; [done|]. split_and!; [|done..|].
  2: { intros p. rewrite Hf, Hf0, elem_of_nil. simpl. lia. }
  split; try done. exists base. assert (live (self0<|set_mem m'|><|set_tree t|>) = ∅) as -> by apply dom_empty_L.
  by rewrite elements_empty.
Qed.










(** ** Properties *)


(** Releasing up to all of the bytes of a stream goes without a panic and keeps the
    pool in order.  The stream keeps the data behind the released bytes; if there is
    none its reference is gone.  All its pages that lie before the rest of the data are
    free afterwards, except for one: if the data did not end at the end of a page, the
    last page is lost with the last byte.  Nothing else changes: the other streams keep
    their structures and data, other pages stay what they are, and releasing no bytes,
    or without a stream, does nothing. *)
Theorem stream_release self i s bs size :
  streams_ok self -> streams self !! i = Some s -> data self s = Some bs -> 0 <= size <= msize bs ->
  exists self' ref', peak_stream_release self (Some i) size = Some (self', ref') /\ streams_ok self' /\
    (size = 0 -> self' = self /\ ref' = Some i) /\
    (size < msize bs -> ref' = Some i /\ exists s', streams self' = <[i := s']> (streams self) /\
       data self' s' = Some (drop (Z.to_nat size) bs)) /\
    (size = msize bs -> ref' = None /\ streams self' = delete i (streams self) /\
       forall p, holds s p -> p ∉ free_pages self' <->
         p = s_no s + s_count s - 1 /\ (s_off self s + size) mod page_size self <> 0) /\
    (forall p, ~ holds s p -> p ∈ free_pages self' <-> p ∈ free_pages self) /\
    others_keep i self self' /\ peak_stream_release self None size = Some (self, None).
Proof.
  intros Hok Hi Hd Hs. pose proof (held_length self i s bs Hok Hi Hd) as Hl.
  assert (peak_stream_release self None size = Some (self, None)) as En by (unfold peak_stream_release; by case_match).
  pose proof (si_stream _ Hok i s Hi) as Hst. pose proof (so_len _ _ Hst) as Hl0. destruct (Z.eq_dec size 0) as [->|Hs0].
  { exists self, (Some i). split_and!; [done..| |lia|done|intros j t _ Ht; done|done].
    intros _. split; [done|]. exists s. by rewrite insert_id. }
  destruct (release_keeps self i s size Hok Hi ltac:(lia)) as (self' & ref' & E & [Hok' Eps Epc Hf Hoth Href]).
  exists self', ref'. pose proof (po_size _ (si_pages _ Hok)) as Hps. unfold sizeof_stream_page in Hps.
  set (k := (s_off self s + size) / page_size self) in *.
  pose proof (Z.div_mod (s_off self s + size) (page_size self) ltac:(lia)) as Hdm. fold k in Hdm.
  pose proof (Z.mod_pos_bound (s_off self s + size) (page_size self) ltac:(lia)) as Hmod.
  destruct Hst as [_ Ho Hfill _]. split_and!; [done|done|done| | |  |done|done].
  - intros Hlt. rewrite (proj2 (Z.eqb_neq _ _)) in Href by lia. destruct Href as [-> (s' & Es & Eb & El & Ed)].
    split; [done|]. exists s'. split; [done|]. rewrite Ed. unfold data in Hd.
    replace (Z.to_nat (s_len s)) with (Z.to_nat size + Z.to_nat (s_len s - size))%nat in Hd by lia.
    rewrite rd_n_app, Z2Nat.id in Hd by lia. destruct (rd_n _ _ (Z.to_nat size)) as [l|] eqn:E1; [|done].
    cbn [mbind option_bind] in Hd. destruct (rd_n _ (s_buf s + size) _) as [r|]; [|done]. injection Hd as <-.
    by rewrite <- (rd_n_length _ _ _ _ E1), drop_app_length.
  - intros ->. rewrite Hl, Z.eqb_refl in Href. destruct Href as [-> Es]. split_and!; [done..|]. intros p Hp. rewrite Hf.
    pose proof (si_free _ Hok i s p Hi Hp) as Hnf. unfold holds in Hp. rewrite Hl in *.
    assert (s_count s - 1 <= k <= s_count s) as Hk by nia.
    assert ((s_off self s + s_len s) mod page_size self = 0 <-> k = s_count s) as -> by nia.
    assert (p ∈ free_pages self <-> False) as -> by tauto. lia.
  - intros p Hp. rewrite Hf. unfold holds in Hp. assert (k <= s_count s) as Hk by nia. split; [intros [?|?]; [lia|done]|auto].
Qed.


End operations.

(** A pool of four pages of 64 bytes. *)
Definition sample_init : option (option (peak_streams (tree Z))) :=
  peak_stream_init true (fun _ _ => Some (repeat 0 256)) (fun _ _ => Some 4096) 4 64.

Definition run_pool {A} (o : option (option A)) (d : A) : A := match o with Some (Some a) => a | _ => d end.
Definition sample_pool : peak_streams (tree Z) :=
  run_pool sample_init {| page_tree := NULL; references := prealloc_zero; page_count := 0; page_size := 0; page_mem := []; streams := ∅ |}.

(** With a stream of 100 bytes; then without its first 10 bytes; then with 30 bytes more. *)
Definition sample_stream : peak_streams (tree Z) :=
  match peak_stream_claim sample_pool None 100 with Some (self, _, _) => self | None => sample_pool end.
Definition sample_released : peak_streams (tree Z) :=
  match peak_stream_release sample_stream (Some 4096) 10 with Some (self, _) => self | None => sample_stream end.
Definition sample_spilled : peak_streams (tree Z) :=
  match peak_stream_claim sample_released (Some 4096) 30 with Some (self, _, _) => self | None => sample_released end.

Lemma sample_gives : gives_pages (fun _ _ => Some (repeat 0 256)) 4 64.
Proof. intros m [= <-]. split; [reflexivity|]. split; [reflexivity|]. repeat constructor; lia. Qed.

Lemma sample_pool_ok : streams_ok sample_pool.
Proof.
  destruct (init_result (T := tree Z) true (fun _ _ => Some (repeat 0 256)) (fun _ _ => Some 4096) 4 64) as [[E _]|(self & E & Hok & _)];
    [by unfold fits|by unfold fits|apply sample_gives|vm_compute in E; discriminate|].
  replace sample_pool with self; [exact Hok|]. unfold sample_pool, sample_init. by rewrite E.
Qed.

Lemma sample_claim : peak_stream_claim sample_pool None 100 = Some (sample_stream, Some 4096, 1) /\ streams_ok sample_stream.
Proof.
  destruct (claim_result sample_pool None [] 100 sample_pool_ok eq_refl ltac:(lia) ltac:(reflexivity)) as (self' & ref' & ret & E & H).
  unfold sample_stream. rewrite E. assert (ref' = Some 4096 /\ ret = 1) as [-> ->] by (vm_compute in E; by injection E as _ <- <-).
  split; [done|]. by destruct H as [(? & _)|[(_ & ? & _)|[(_ & _ & H & _)|(_ & _ & _ & i & s & ? & _)]]].
Qed.

Lemma sample_stream_ok : streams_ok sample_stream.
Proof. apply sample_claim. Qed.




(** 70 bytes are released: the first page is free again. *)
Lemma stream_release_witness :
  exists self' ref', peak_stream_release sample_stream (Some 4096) 70 = Some (self', ref') /\ ref' = Some 4096 /\
    streams_ok self' /\ free_pages self' = [0; 2; 3].
Proof.
  destruct (data_in sample_stream 4096 {| s_count := 2; s_no := 0; s_len := 100; s_buf := 0 |} sample_stream_ok ltac:(vm_compute; reflexivity)) as (bs & Hd & Hl).
  destruct (stream_release sample_stream 4096 {| s_count := 2; s_no := 0; s_len := 100; s_buf := 0 |} bs 70 sample_stream_ok
    ltac:(vm_compute; reflexivity) Hd ltac:(simpl in Hl; lia)) as (self' & ref' & E & Hok & _ & Hlt & _).
  exists self', ref'. split; [exact E|]. split; [apply Hlt; simpl in Hl; lia|]. split; [exact Hok|].
  vm_compute in E. injection E as <- _. vm_compute. reflexivity.
Defined.


(** The stream that spilled has the first bytes of the page the next stream gets. *)
Example claim_spills :
  ('(self, ref, _) ← peak_stream_claim sample_spilled None 64;
   i ← ref; s ← streams self !! 4096; t ← streams self !! i;
   Some (s_buf s, s_len s, s_buf t, s_len t)) = Some (10, 120, 128, 64).
Proof. vm_compute. reflexivity. Qed.

(** Claiming for a stream that does not begin at a page: the 30 bytes left at offset 70
    are taken for the ones at offset 64. *)
Example claim_after_release :
  (self ← fst <$> peak_stream_release sample_stream (Some 4096) 70;
   '(self', _, ret) ← peak_stream_claim self (Some 4096) 60;
   before ← streams self !! 4096; after ← streams self' !! 4096;
   Some (s_buf before, s_len before, ret, s_buf after, s_len after)) = Some (70, 30, 1, 64, 90).
Proof. vm_compute. reflexivity. Qed.

(** 37 bytes from the end of the first page on need one page less from its beginning: the
    second page is neither free nor in the stream afterwards, with nearly all of its data. *)
Example claim_drops_page :
  (self ← fst <$> peak_stream_release sample_stream (Some 4096) 63;
   '(self', _, ret) ← peak_stream_claim self (Some 4096) 1;
   before ← streams self !! 4096; after ← streams self' !! 4096;
   Some (s_buf before, s_len before, ret, s_buf after, s_len after, s_count after, free_pages self')) =
  Some (63, 37, 1, 0, 38, 1, [2; 3]).
Proof. vm_compute. reflexivity. Qed.

(** Streams of 65 bytes lose a page each when they are released at once. *)
Example release_loses_page :
  ('(self, ref, _) ← peak_stream_claim sample_pool None 65;
   '(self, ref) ← peak_stream_release self ref 65;
   Some (free_pages self, ref)) = Some ([0; 2; 3], None).
Proof. vm_compute. reflexivity. Qed.
