(* ===== verification/Track.v ===== *)
(** * Flow tracking

    Models [lib/peak_track.c]: flows are chunks of a pool ([Prealloc]) linked into a
    search tree ordered by their key ([Tree]) and into a queue ordered by their last
    use.  A flow is the address of its chunk; the structures themselves are in a
    [store] from addresses, so the tree and the queue alias them as the code does.
    [None] is a panic or a NULL pointer dereferenced. *)

From S2P Require Import Prelude Order Bytes Net Counters Packet Prealloc Tree.

Open Scope Z_scope.

(** ** Data *)

(** [struct peak_track] without the padding and the links. *)
Record peak_track := PeakTrack {
  addr : netaddr * netaddr;
  port : Z * Z;
  type : Z;
  li : Z * Z;
  reserved : list Z;
  id : Z;
}.

Definition zero_addr : netaddr := replicate 16 0.

(** The structure after its [memset]. *)
Definition track_zero : peak_track := PeakTrack (zero_addr, zero_addr) (0, 0) 0 (0, 0) (replicate 4 0) 0.

#[export] Instance peak_track_inhabited : Inhabited peak_track := populate track_zero.

(** 56 bytes of data, two queue pointers, three tree pointers and a color. *)
Definition sizeof_track : Z := 104.

(** The first [TRACK_SIZE] bytes of a flow in memory. *)
Definition TRACK_SIZE : nat := 16 * 2 + 2 * 2 + 1.

Definition track_bytes (t : peak_track) : list Z :=
  fst (addr t) ++ snd (addr t) ++ le_bytes 2 (fst (port t)) ++ le_bytes 2 (snd (port t)) ++ [type t].

(** The structures in memory. *)
Abbreviation store := (gmap Z peak_track).

Definition TRACK_CMP (s : store) (x y : Z) : Z := memcmp (track_bytes (s !!! x)) (track_bytes (s !!! y)).

(** Writes through [dir]: the element 0 or 1 of an array of two. *)
Definition set_dir {A} (dir : bool) (v : A) (a : A * A) : A * A := if dir then (fst a, v) else (v, snd a).

(** [TRACK_KEY(flow, packet)]. *)
Definition TRACK_KEY (flow : peak_track) (packet : peak_packet) : peak_track :=
  let dir := negb (netcmp (net_saddr packet) (net_daddr packet) <? 0) in
  PeakTrack
    (set_dir (negb dir) (net_daddr packet) (set_dir dir (net_saddr packet) (addr flow)))
    (set_dir (negb dir) (flow_dport packet) (set_dir dir (flow_sport packet) (port flow)))
    (net_type packet) (li flow) (reserved flow) (id flow).

(** [memcpy(flow, ref, TRACK_SIZE(ref))] onto a zeroed flow. *)
Definition copy_key (ref : peak_track) : peak_track :=
  PeakTrack (addr ref) (port ref) (type ref) (li track_zero) (reserved track_zero) (id track_zero).

Definition set_id (v : Z) (t : peak_track) : peak_track :=
  PeakTrack (addr t) (port t) (type t) (li t) (reserved t) v.

(** What is outside a tracker: the structures, the static [next_flow_id] and the
    thread's counters. *)
Record world := World { tracks : store; next_flow_id : Z; audit : peak_audit }.

Section operations.
Context {T : Type} {ST : SearchTree T Z}.

(** [struct peak_tracks]. *)
Record peak_tracks := PeakTracks {
  flows : T;
  tos : list Z;
  no_timeout : Z;
  mem : prealloc_t;
}.

(** [TAILQ_REMOVE]: unlink one element. *)
Fixpoint tailq_remove (x : Z) (l : list Z) : list Z :=
  match l with [] => [] | y :: l => if x =? y then l else y :: tailq_remove x l end.

Definition audit_world (w : world) (field : Z) : world :=
  World (tracks w) (next_flow_id w) (peak_audit_inc (audit w) field).

(** [if (prealloc_empty(&self->mem))]: take the oldest flow out.  The tracker and the
    world, or the early return. *)
Definition recycle (self : peak_tracks) (w : world) : option ((peak_tracks * world) + world) :=
  if prealloc_empty (mem self) then
    if negb (no_timeout self =? 0) then Some (inr (audit_world w AUDIT_TRACK_FAILED))
    else
      match tos self with
      | [] => None
      | flow :: _ =>
          flows' ← st_remove (flows self) flow;
          Some (inl (PeakTracks flows' (tailq_remove flow (tos self)) (no_timeout self)
                       (prealloc_put (mem self) (Some flow)),
                     audit_world w AUDIT_TRACK_RECYCLED))
      end
  else Some (inl (self, w)).

(** The rest of [peak_track_acquire]: a new flow. *)
Definition add_flow (self : peak_tracks) (w : world) (ref : Z) : option (peak_tracks * world * option Z) :=
  let '(mem', flow) := prealloc_get (mem self) in
  flow ← flow;
  let s := <[flow := copy_key (tracks w !!! ref)]> (<[flow := track_zero]> (tracks w)) in
  '(flows', found) ← st_insert (TRACK_CMP s) (flows self) flow;
  match (found : option Z) with
  | Some _ => None
  | None =>
      let s := <[flow := set_id (next_flow_id w) (s !!! flow)]> s in
      Some (PeakTracks flows' (tos self ++ [flow]) (no_timeout self) mem',
            audit_world (World s (u64 (next_flow_id w + 1)) (audit w)) AUDIT_TRACK_ADDED,
            Some flow)
  end.

(** [ref] is a pointer that may be NULL. *)
Definition peak_track_acquire (self : peak_tracks) (w : world) (ref : option Z)
    : option (peak_tracks * world * option Z) :=
  match ref with
  | None => Some (self, w, None)
  | Some ref =>
      match st_find (TRACK_CMP (tracks w)) (flows self) ref with
      | Some flow =>
          Some (PeakTracks (flows self) (tailq_remove flow (tos self) ++ [flow]) (no_timeout self) (mem self),
                w, Some flow)
      | None =>
          r ← recycle self w;
          match r with
          | inr w => Some (self, w, None)
          | inl (self, w) => add_flow self w ref
          end
      end
  end.

(** [calloc] says whether the tracker can be allocated, [malign] allocates the pool. *)
Definition peak_track_init (max_flows no_timeout : Z) (calloc : bool) (malign : Z -> Z -> option Z)
    : option peak_tracks :=
  if negb calloc then None
  else
    let '(pool, ok) := prealloc_init max_flows sizeof_track malign in
    if ok : bool then Some (PeakTracks st_empty [] no_timeout pool) else None.

(** The loop of [peak_track_exit]; every round takes a flow out of the tree. *)
Fixpoint exit_loop (fuel : nat) (t : T) (pool : prealloc_t) : option prealloc_t :=
  match st_root t with
  | None => Some pool
  | Some flow =>
      match fuel with
      | O => None
      | S fuel =>
          t ← st_remove t flow;
          exit_loop fuel t (prealloc_put pool (Some flow))
      end
  end.

(** The block [prealloc_exit] frees. *)
Definition peak_track_exit (self : option peak_tracks) : option (option Z) :=
  match self with
  | None => Some None
  | Some self =>
      pool ← exit_loop (length (tos self)) (flows self) (mem self);
      prealloc_exit pool
  end.

End operations.
Arguments peak_tracks : clear implicits.

(** ** Keys *)

Definition track_wf (t : peak_track) : Prop :=
  netaddr_ok (fst (addr t)) /\ netaddr_ok (snd (addr t)) /\ fits 8 (type t).

Definition store_ok (s : store) : Prop := forall a, track_wf (s !!! a).

(** The compared bytes as one number. *)
Definition track_key (s : store) (a : Z) : Z := be_val (track_bytes (s !!! a)).

Lemma track_bytes_ok t : track_wf t -> length (track_bytes t) = TRACK_SIZE /\ bytes (track_bytes t).
Proof.
  intros ([L1 B1] & [L2 B2] & Ht). unfold track_bytes, TRACK_SIZE. split.
  - rewrite !length_app, L1, L2. by rewrite !le_bytes_length.
  - unfold bytes. rewrite !Forall_app. split_and!; [done..|apply le_bytes_bytes|apply le_bytes_bytes|].
    constructor; [done|constructor].
Qed.

#[export] Instance track_order s : store_ok s -> KeyOrder (TRACK_CMP s) (track_key s).
Proof.
  intros Hs x y. unfold TRACK_CMP, track_key. destruct (track_bytes_ok _ (Hs x)) as [Lx Bx].
  destruct (track_bytes_ok _ (Hs y)) as [Ly By]. rewrite memcmp_be_val by congruence.
  by destruct (be_val _ ?= be_val _).
Qed.

(** Equal keys are equal bytes. *)
Lemma track_key_bytes s a s' b : store_ok s -> store_ok s' ->
  track_key s a = track_key s' b <-> track_bytes (s !!! a) = track_bytes (s' !!! b).
Proof.
  intros Hs Hs'. unfold track_key. destruct (track_bytes_ok _ (Hs a)) as [Lx Bx].
  destruct (track_bytes_ok _ (Hs' b)) as [Ly By]. split; [|by intros ->]. intros E.
  apply memcmp_eq; [congruence|]. rewrite memcmp_be_val by congruence. by rewrite E, Z.compare_refl.
Qed.

Lemma store_ok_insert s f t : store_ok s -> track_wf t -> store_ok (<[f := t]> s).
Proof.
  intros Hs Ht a. destruct (decide (a = f)) as [->|].
  - by rewrite lookup_total_insert_eq.
  - rewrite lookup_total_insert_ne by done. apply Hs.
Qed.

Lemma track_zero_wf : track_wf track_zero.
Proof. by split_and!; repeat constructor. Qed.

(** Only the flow that is written changes its key. *)
Lemma track_key_insert s f t a : a <> f -> track_key (<[f := t]> s) a = track_key s a.
Proof. intros H. unfold track_key. by rewrite lookup_total_insert_ne. Qed.

Section tracker.
Context {T : Type} {ST : SearchTree T Z}.
Variables (base : Z) (count : nat).
Implicit Types (self : peak_tracks T) (w : world).

(** The queue holds the chunks that are not free, and so does the tree, ordered by
    their keys. *)
Record track_ok self w : Prop := {
  ok_pool : pool_ok base sizeof_track count (mem self) (tos self);
  ok_tree : st_ok (flows self);
  ok_same : st_elements (flows self) ≡ₚ tos self;
  ok_order : ascending (key := track_key (tracks w)) (st_elements (flows self));
  ok_store : store_ok (tracks w);
}.

(** Specification: the keys of the flows, the least recently used first. *)
Definition keys self w : list Z := map (track_key (tracks w)) (tos self).

Lemma key_inj self w a b :
  track_ok self w -> a ∈ tos self -> b ∈ tos self -> track_key (tracks w) a = track_key (tracks w) b -> a = b.
Proof.
  intros [_ _ Hs Ho _] Ha Hb E. rewrite <- Hs in Ha, Hb.
  pose proof (find_key _ a Ho Ha) as Fa. pose proof (find_key _ b Ho Hb) as Fb. rewrite E in Fa. congruence.
Qed.

Lemma tailq_remove_perm x l : x ∈ l -> tailq_remove x l ++ [x] ≡ₚ l.
Proof.
  induction l as [|y l IH]; intros Hx; [by apply elem_of_nil in Hx|]. simpl.
  destruct (Z.eqb_spec x y) as [->|Hne]; [symmetry; apply Permutation_cons_append|].
  apply elem_of_cons in Hx as [->|Hx]; [done|]. simpl. by rewrite IH.
Qed.

Lemma tailq_remove_map (f : Z -> Z) x l :
  (forall y, y ∈ l -> f y = f x -> y = x) -> map f (tailq_remove x l) = tailq_remove (f x) (map f l).
Proof.
  induction l as [|y l IH]; intros H; [done|]. simpl. destruct (Z.eqb_spec x y) as [->|Hne].
  - by rewrite Z.eqb_refl.
  - destruct (Z.eqb_spec (f x) (f y)) as [E|]; [exfalso; apply Hne; symmetry; apply H; [left|done]|].
    simpl. rewrite IH; [done|]. intros z Hz. apply H. by right.
Qed.

(** The lookup of [peak_track_acquire]. *)
Lemma track_find self w r :
  track_ok self w ->
  match st_find (TRACK_CMP (tracks w)) (flows self) r with
  | Some f => f ∈ tos self /\ track_key (tracks w) f = track_key (tracks w) r
  | None => forall a, a ∈ tos self -> track_key (tracks w) a <> track_key (tracks w) r
  end.
Proof.
  intros Hok. pose proof (track_order (tracks w) (ok_store _ _ Hok)) as KO.
  rewrite (st_find_ok (TRACK_CMP (tracks w)) (track_key (tracks w)) (flows self) r) by apply Hok.
  destruct (find _ _) as [f|] eqn:E.
  - apply find_some in E as [Hf E%Z.eqb_eq]. split; [|done]. rewrite <- (ok_same _ _ Hok).
    by apply list_elem_of_In.
  - intros a Ha Ea. rewrite <- (ok_same _ _ Hok) in Ha. apply list_elem_of_In in Ha.
    pose proof (find_none _ _ E a Ha) as Hn. simpl in Hn. by rewrite Ea, Z.eqb_refl in Hn.
Qed.

Lemma track_ok_audit self w field : track_ok self w -> track_ok self (audit_world w field).
Proof. by intros [Hp Ht Hs Ho Hst]. Qed.

Lemma recycle_spec self w :
  track_ok self w -> length (tos self) = count -> no_timeout self = 0 ->
  exists f rest self', tos self = f :: rest /\ tos self' = rest /\
    recycle self w = Some (inl (self', audit_world w AUDIT_TRACK_RECYCLED)) /\ track_ok self' w /\
    no_timeout self' = 0 /\ free (mem self') = f :: free (mem self).
Proof.
  intros Hok Hl Hnt. unfold recycle. destruct (pool_empty _ _ _ _ _ (ok_pool _ _ Hok)) as [_ ->]; [|done].
  rewrite Hnt. simpl. pose proof Hok as [Hp Ht Hs Ho Hst].
  destruct (tos self) as [|f rest] eqn:Et.
  { destruct Hp as [_ _ _ [Hc _] _ _]. simpl in Hl. lia. }
  assert (f ∈ st_elements (flows self)) as Hf by (rewrite Hs; left).
  destruct (st_remove_ok (flows self) f Ht Hf) as (t' & xs & ys & -> & Ht' & E1 & E2).
  cbn [mbind option_bind]. simpl. rewrite Z.eqb_refl. do 3 eexists. split_and!; [done| |done| |done|done]; [done|].
  split; simpl; try done.
  - by apply (pool_put _ _ _ _ [] f rest).
  - rewrite E2. apply (Permutation_cons_inv (a := f)). by rewrite Permutation_middle, <- E1.
  - rewrite E2. rewrite E1 in Ho. by eapply ascending_remove.
Qed.

Lemma add_flow_spec self w r :
  track_ok self w -> length (tos self) <> count -> r ∉ free (mem self) ->
  (forall a, a ∈ tos self -> track_key (tracks w) a <> track_key (tracks w) r) ->
  exists self' f, (let t := set_id (next_flow_id w) (copy_key (tracks w !!! r)) in
    let w' := audit_world (World (<[f := t]> (tracks w)) (u64 (next_flow_id w + 1)) (audit w))
      AUDIT_TRACK_ADDED in
    add_flow self w r = Some (self', w', Some f) /\ track_ok self' w' /\
    f ∈ free (mem self) /\ (f ∉ tos self) /\ tos self' = tos self ++ [f] /\
    track_key (tracks w') f = track_key (tracks w) r /\ no_timeout self' = no_timeout self).
Proof.
  intros Hok Hl Hr Hk. unfold add_flow. pose proof Hok as [Hp Ht Hs Ho Hst].
  pose proof (pool_get _ _ _ _ _ Hp) as Hg. pose proof (pool_NoDup _ _ _ _ _ Hp) as HN.
  destruct (prealloc_get (mem self)) as [mem' [f|]].
  2:{ destruct Hg as [_ E]. pose proof (pool_length _ _ _ _ _ Hp) as Hlen. rewrite E in Hlen. simpl in Hlen. lia. }
  destruct Hg as [Hf Hp']. cbn [mbind option_bind]. cbv zeta. set (t := copy_key (tracks w !!! r)).
  set (s := <[f := t]> (tracks w)).
  assert (<[f := t]> (<[f := track_zero]> (tracks w)) = s) as -> by apply insert_insert_eq.
  assert (f ∉ tos self) as Hnf by (intros H; apply NoDup_app in HN as (_ & HN & _); by apply (HN f)).
  assert (track_wf t) as Hwt by apply (Hst r).
  assert (store_ok s) as Hsok by (by apply store_ok_insert).
  assert (map (track_key s) (st_elements (flows self)) =
    map (track_key (tracks w)) (st_elements (flows self))) as Hmap.
  { apply map_ext_in. intros a Ha%list_elem_of_In. apply track_key_insert. intros ->. by rewrite Hs in Ha. }
  assert (track_key s f = track_key (tracks w) r) as Hkf
    by (unfold track_key, s; by rewrite lookup_total_insert_eq).
  assert (ascending (key := track_key s) (st_elements (flows self))) as Hos
    by exact (ascending_keys (key := track_key (tracks w)) _ _ (eq_sym Hmap) Ho).
  pose proof (st_insert_ok (TRACK_CMP s) (track_key s) (KO := track_order s Hsok) (flows self) f Ht Hos) as Hi.
  rewrite find_no_key in Hi.
  2:{ intros a Ha. rewrite Hs in Ha. unfold s at 1. rewrite track_key_insert by (by intros ->).
      rewrite Hkf. by apply Hk. }
  destruct Hi as (t' & xs & ys & -> & Ht' & E1 & E2 & Ho'). cbn [mbind option_bind].
  unfold s. rewrite insert_insert_eq, lookup_total_insert_eq. do 2 eexists. split; [done|].
  assert (map (track_key s) (st_elements t') =
    map (track_key (<[f := set_id (next_flow_id w) t]> (tracks w))) (st_elements t')) as Hmap'.
  { apply map_ext_in. intros a _. unfold track_key, s. destruct (decide (a = f)) as [->|].
    - by rewrite !lookup_total_insert_eq.
    - by rewrite !lookup_total_insert_ne. }
  split_and!; [|done|done|done| |done].
  - split; simpl; [| |by rewrite E2, <- Permutation_middle, <- E1, Hs, <- Permutation_cons_append| |].
    + by rewrite <- Permutation_cons_append.
    + done.
    + exact (ascending_keys (key := track_key s) _ _ Hmap' Ho').
    + by apply store_ok_insert.
  - unfold track_key. simpl. by rewrite lookup_total_insert_eq.
Qed.

(** ** The least recently used flow *)

(** Specification of an acquisition, on the keys alone. *)
Definition lru_acquire (no_timeout : Z) (k : Z) (l : list Z) : option (list Z) :=
  if decide (k ∈ l) then Some (tailq_remove k l ++ [k])
  else if decide (length l = count) then
    if negb (no_timeout =? 0) then None else Some (tail l ++ [k])
  else Some (l ++ [k]).

(** What an acquisition of [r] does to the tracker and the world. *)
Definition acquired self w r self' w' (ret : option Z) : Prop :=
  let k := track_key (tracks w) r in
  match lru_acquire (no_timeout self) k (keys self w) with
  | None => ret = None /\ self' = self /\ w' = audit_world w AUDIT_TRACK_FAILED
  | Some l =>
      keys self' w' = l /\ no_timeout self' = no_timeout self /\
      exists f, ret = Some f /\ last (tos self') = Some f /\ track_key (tracks w') f = k /\
        (k ∈ keys self w -> f ∈ tos self /\ w' = w) /\
        (k ∉ keys self w -> tracks w' = <[f := set_id (next_flow_id w) (copy_key (tracks w !!! r))]> (tracks w) /\
           next_flow_id w' = u64 (next_flow_id w + 1))
  end.

Lemma keys_snoc self w self' w' f t :
  f ∉ tos self -> tos self' = tos self ++ [f] -> tracks w' = <[f := t]> (tracks w) ->
  keys self' w' = keys self w ++ [track_key (tracks w') f].
Proof.
  intros Hf E Hw. unfold keys. rewrite E, map_app. simpl. f_equal.
  apply map_ext_in. intros a Ha%list_elem_of_In. rewrite Hw. apply track_key_insert. by intros ->.
Qed.

Lemma keys_length self w : length (keys self w) = length (tos self).
Proof. apply length_map. Qed.

(** A flow that is found: it moves to the end of the queue. *)
Lemma acquire_known self w r f :
  track_ok self w -> f ∈ tos self -> track_key (tracks w) f = track_key (tracks w) r ->
  let self' := PeakTracks (flows self) (tailq_remove f (tos self) ++ [f]) (no_timeout self) (mem self) in
  track_ok self' w /\ acquired self w r self' w (Some f).
Proof.
  intros Hok Hf Ek self'. unfold acquired, lru_acquire.
  assert (track_key (tracks w) r ∈ keys self w) as Hk
    by (rewrite <- Ek; by apply (list_elem_of_fmap_2 (track_key (tracks w)))).
  rewrite decide_True by done.
  assert (tailq_remove f (tos self) ++ [f] ≡ₚ tos self) as Hperm by (by apply tailq_remove_perm).
  split.
  { destruct Hok as [Hp Ht Hs Ho Hst]. split; simpl; try done; by rewrite Hperm. }
  split; [|split; [done|]].
  - unfold keys. simpl. rewrite map_app, tailq_remove_map; [simpl; by rewrite Ek|].
    intros y Hy E. by apply (key_inj self w).
  - exists f. simpl. rewrite last_snoc. split_and!; [done..|]. by intros Hn.
Qed.

(** A new flow in a pool that is used up, with the oldest flow taken out. *)
Lemma acquire_evicting self w r :
  track_ok self w -> r ∉ free (mem self) -> length (tos self) = count -> no_timeout self = 0 ->
  (forall a, a ∈ tos self -> track_key (tracks w) a <> track_key (tracks w) r) ->
  track_key (tracks w) r ∉ keys self w ->
  exists self' w' ret,
    (r' ← recycle self w; match r' with inr w => Some (self, w, None) | inl (self, w) => add_flow self w r end)
      = Some (self', w', ret) /\
    track_ok self' w' /\ acquired self w r self' w' ret.
Proof.
  intros Hok Hr Hl Hnt Hfind Hk. unfold acquired, lru_acquire.
  rewrite decide_False by done. rewrite keys_length, decide_True by done. rewrite Hnt. simpl.
  destruct (recycle_spec self w Hok Hl Hnt) as (f & rest & self1 & Et & Et1 & -> & Hok1 & Hnt1 & Hfr).
  cbn [mbind option_bind].
  assert (forall a, a ∈ tos self1 -> track_key (tracks w) a <> track_key (tracks w) r) as Hf1.
  { intros a Ha. apply Hfind. rewrite Et, <- Et1. by right. }
  assert (length (tos self1) <> count) as Hl1 by (rewrite Et1; rewrite Et in Hl; simpl in Hl; lia).
  assert (r ∉ free (mem self1)) as Hr1.
  { rewrite Hfr. intros [->|H]%elem_of_cons; [|done]. apply (Hfind f); [rewrite Et; left|done]. }
  destruct (add_flow_spec self1 (audit_world w AUDIT_TRACK_RECYCLED) r)
    as (self' & g & E & Hok' & Hg & Hng & Et' & Ek & Hnt'); [by apply track_ok_audit|done..|].
  do 3 eexists. split; [exact E|]. split; [done|]. split; [|split; [congruence|]].
  { erewrite (keys_snoc self1 w self' _ g _ Hng Et'); [|reflexivity]. rewrite Ek. unfold keys. by rewrite Et, Et1. }
  exists g. rewrite Et', last_snoc. split_and!; [done|done|exact Ek|by intros Hin; destruct Hk|by intros _].
Qed.

(** A new flow in a pool with room. *)
Lemma acquire_fresh self w r :
  track_ok self w -> r ∉ free (mem self) -> length (tos self) <> count ->
  (forall a, a ∈ tos self -> track_key (tracks w) a <> track_key (tracks w) r) ->
  track_key (tracks w) r ∉ keys self w ->
  exists self' w' ret, add_flow self w r = Some (self', w', ret) /\
    track_ok self' w' /\ acquired self w r self' w' ret.
Proof.
  intros Hok Hr Hl Hfind Hk. unfold acquired, lru_acquire.
  rewrite decide_False by done. rewrite keys_length, decide_False by done.
  destruct (add_flow_spec self w r) as (self' & g & E & Hok' & Hg & Hng & Et' & Ek & Hnt'); [done..|].
  do 3 eexists. split; [exact E|]. split; [done|]. split; [|split; [done|]].
  { erewrite (keys_snoc self w self' _ g _ Hng Et'); [|reflexivity]. by rewrite Ek. }
  exists g. rewrite Et', last_snoc. split_and!; [done|done|exact Ek|by intros Hin; destruct Hk|by intros _].
Qed.

Lemma acquire_spec self w r :
  track_ok self w -> r ∉ free (mem self) ->
  exists self' w' ret, peak_track_acquire self w (Some r) = Some (self', w', ret) /\
    track_ok self' w' /\ acquired self w r self' w' ret.
Proof.
  intros Hok Hr. unfold peak_track_acquire. pose proof (track_find self w r Hok) as Hfind.
  destruct (st_find _ _ r) as [f|].
  { destruct Hfind as [Hf Ek]. do 3 eexists. split; [done|]. by apply acquire_known. }
  assert (track_key (tracks w) r ∉ keys self w) as Hk.
  { intros (a & E & Ha)%list_elem_of_fmap. by apply (Hfind a). }
  destruct (decide (length (tos self) = count)) as [Hl|Hl].
  - destruct (decide (no_timeout self = 0)) as [Hnt|Hnt]; [by apply acquire_evicting|].
    exists self, (audit_world w AUDIT_TRACK_FAILED), None. unfold recycle, acquired, lru_acquire.
    destruct (pool_empty _ _ _ _ _ (ok_pool _ _ Hok)) as [_ ->]; [|done].
    rewrite decide_False by done. rewrite keys_length, decide_True by done.
    destruct (Z.eqb_spec (no_timeout self) 0); [done|]. split_and!; [done|by apply track_ok_audit|done..].
  - assert (recycle self w = Some (inl (self, w))) as ->; [|by apply acquire_fresh].
    unfold recycle. destruct (prealloc_empty (mem self)) eqn:E; [|done].
    by apply (pool_empty _ _ _ _ _ (ok_pool _ _ Hok)) in E.
Qed.

(** ** The life of a tracker *)

(** Acquisitions by references outside the free chunks, and writes to the structures
    that keep the keys of the flows. *)
Inductive track_step : peak_tracks T * world -> peak_tracks T * world -> Prop :=
  | step_acquire self w ref self' w' ret :
      (forall r, ref = Some r -> r ∉ free (mem self)) ->
      peak_track_acquire self w ref = Some (self', w', ret) -> track_step (self, w) (self', w')
  | step_user self w a t :
      track_wf t -> (a ∈ tos self -> track_bytes t = track_bytes (tracks w !!! a)) ->
      track_step (self, w) (self, World (<[a := t]> (tracks w)) (next_flow_id w) (audit w)).

Lemma user_write_ok self w a t :
  track_ok self w -> track_wf t -> (a ∈ tos self -> track_bytes t = track_bytes (tracks w !!! a)) ->
  track_ok self (World (<[a := t]> (tracks w)) (next_flow_id w) (audit w)).
Proof.
  intros [Hp Ht Hs Ho Hst] Hwf Hk. split; simpl; try done; [|by apply store_ok_insert].
  refine (ascending_keys (key := track_key (tracks w)) _ _ _ Ho). apply map_ext_in.
  intros b Hb%list_elem_of_In. rewrite Hs in Hb. destruct (decide (b = a)) as [->|Hne].
  - unfold track_key. by rewrite lookup_total_insert_eq, Hk.
  - by rewrite track_key_insert.
Qed.

Lemma track_steps s s' : rtc track_step s s' -> track_ok (fst s) (snd s) -> track_ok (fst s') (snd s').
Proof.
  induction 1 as [s|s1 s2 s3 Hs _ IH]; [done|]. intros Hok. apply IH; clear IH s3.
  destruct Hs as [self w ref self' w' ret Href E|self w a t Hwf Hk]; simpl in *; [|by apply user_write_ok].
  destruct ref as [r|]; [|by injection E as <- <- _].
  destruct (acquire_spec self w r Hok (Href r eq_refl)) as (s' & u' & ret' & E' & Hok' & _).
  rewrite E' in E. by injection E as <- <- _.
Qed.

Lemma exit_loop_ok fuel t pool out :
  st_ok t -> st_elements t ≡ₚ out -> pool_ok base sizeof_track count pool out -> (length out <= fuel)%nat ->
  exists pool', exit_loop fuel t pool = Some pool' /\ pool_ok base sizeof_track count pool' [].
Proof.
  revert t pool out. induction fuel as [|fuel IH]; intros t pool out Ht Hs Hp Hf; simpl;
    pose proof (st_root_ok t) as Hr; destruct (st_root t) as [f|].
  - rewrite Hs in Hr. destruct out; [by apply elem_of_nil in Hr|simpl in Hf; lia].
  - exists pool. rewrite Hr in Hs. apply Permutation_nil in Hs as ->. done.
  - destruct (st_remove_ok t f Ht Hr) as (t' & xs & ys & -> & Ht' & E1 & E2). cbn [mbind option_bind].
    rewrite <- Hs, E1 in Hp. apply (pool_put _ _ _ _ xs f ys) in Hp.
    apply (IH t' _ (xs ++ ys)); [done|by rewrite E2|done|].
    rewrite <- Hs, E1, length_app in Hf. rewrite length_app. simpl in Hf. lia.
  - exists pool. rewrite Hr in Hs. apply Permutation_nil in Hs as ->. done.
Qed.

Lemma track_exit_ok self w : track_ok self w -> peak_track_exit (Some self) = Some (Some base).
Proof.
  intros [Hp Ht Hs Ho Hst]. unfold peak_track_exit.
  destruct (exit_loop_ok (length (tos self)) (flows self) (mem self) (tos self)) as (pool & -> & Hp'); try done.
  cbn [mbind option_bind]. destruct Hp' as [_ Hu _ _ [Hb _] _].
  unfold prealloc_exit, _prealloc_exit, prealloc_used. rewrite Hu. simpl. by rewrite Hb.
Qed.

End tracker.

Lemma track_init_ok {T} {ST : SearchTree T Z} max nt calloc malign (self : peak_tracks T) w :
  fits 64 max -> store_ok (tracks w) -> peak_track_init max nt calloc malign = Some self ->
  exists base, malign max sizeof_track = Some base /\ track_ok base (Z.to_nat max) self w /\ tos self = [] /\
    no_timeout self = nt.
Proof.
  intros Hm Hst. unfold peak_track_init. destruct calloc; simpl; [|done].
  destruct (prealloc_init max sizeof_track malign) as [pool []] eqn:E; [|done]. intros [= <-].
  destruct (pool_init sizeof_track malign max pool Hm ltac:(done) E) as (base & Hb & Hp). exists base. split_and!; [done| |done..].
  destruct st_empty_ok as [H1 H2]. split; simpl; rewrite ?H2; try done. constructor.
Qed.

(** ** Properties *)

Section properties.
Context {T : Type} {ST : SearchTree T Z}.

(** C2.  [peak_track_acquire] is a cache of bounded size that evicts the least
    recently used key.  On any tracker in order it neither panics nor follows a NULL
    pointer.  A known key moves to the end of the queue and yields its flow unchanged;
    an unknown one gets a fresh flow, zeroed but for its key and the next flow id, in
    place of the oldest one if the pool is used up, or NULL and a counted failure if
    the tracker has no timeout. *)
Theorem track_acquire_lru base count (self : peak_tracks T) w r :
  track_ok base count self w -> r ∉ free (mem self) ->
  exists self' w' ret, peak_track_acquire self w (Some r) = Some (self', w', ret) /\
    track_ok base count self' w' /\ acquired count self w r self' w' ret.
Proof. apply acquire_spec. Qed.

(** C25.  From [peak_track_init] on, through any acquisitions and any writes that keep
    the keys of live flows, a tracker has at most [max] flows, all with different
    keys, its tree holds exactly the flows of its queue, and [peak_track_exit] does not
    panic and frees the pool. *)
Theorem track_lifecycle max nt calloc malign (self0 self : peak_tracks T) w0 w :
  fits 64 max -> store_ok (tracks w0) -> peak_track_init max nt calloc malign = Some self0 ->
  rtc track_step (self0, w0) (self, w) ->
  Z.of_nat (length (tos self)) <= max /\ NoDup (keys self w) /\ st_elements (flows self) ≡ₚ tos self /\
  peak_track_exit (Some self) = Some (malign max sizeof_track).
Proof.
  intros Hm Hst Hi Hs. destruct (track_init_ok max nt calloc malign self0 w0 Hm Hst Hi) as (base & -> & H0 & _).
  pose proof (track_steps base (Z.to_nat max) _ _ Hs H0) as Hok. simpl in Hok.
  pose proof (pool_length _ _ _ _ _ (ok_pool _ _ _ _ Hok)) as Hl.
  pose proof (pool_NoDup _ _ _ _ _ (ok_pool _ _ _ _ Hok)) as HN. apply NoDup_app in HN as (_ & _ & HN).
  destruct Hm as [Hm _]. split_and!; [lia| |apply Hok|by eapply track_exit_ok].
  apply NoDup_fmap_2_strong; [|done]. intros a b Ha Hb. by eapply key_inj.
Qed.

End properties.

(** [TRACK_KEY] puts the smaller address first.  The packets of the two directions
    between different addresses get the same key; between equal addresses they do
    exactly if the ports are equal too. *)
Theorem track_key_direction flow p p' :
  netaddr_ok (net_saddr p) -> netaddr_ok (net_daddr p) ->
  net_saddr p' = net_daddr p -> net_daddr p' = net_saddr p ->
  flow_sport p' = flow_dport p -> flow_dport p' = flow_sport p -> net_type p' = net_type p ->
  be_val (fst (addr (TRACK_KEY flow p))) <= be_val (snd (addr (TRACK_KEY flow p))) /\
  (TRACK_KEY flow p = TRACK_KEY flow p' <->
     net_saddr p <> net_daddr p \/ flow_sport p = flow_dport p).
Proof.
  intros [Ls Bs] [Ld Bd] Es Ed Esp Edp Et. unfold TRACK_KEY, netcmp. rewrite Es, Ed, Esp, Edp, Et.
  rewrite (memcmp_antisym (net_saddr p)) by congruence.
  pose proof (memcmp_be_val _ _ (eq_trans Ls (eq_sym Ld)) Bs Bd) as Hv.
  pose proof (memcmp_eq _ _ (eq_trans Ls (eq_sym Ld))) as Heq.
  rewrite Hv in Heq |- *. destruct (Z.compare_spec (be_val (net_saddr p)) (be_val (net_daddr p))); simpl.
  - assert (net_saddr p = net_daddr p) as -> by (by apply Heq). split; [done|]. split.
    + intros [=]. auto.
    + intros [?| ->]; [done|]. done.
  - split; [lia|]. split; [|done]. intros _. left. intros E. by apply Heq in E.
  - split; [lia|]. split; [|done]. intros _. left. intros E. by apply Heq in E.
Qed.

(** A tracker for one flow, and a reference in the store at address 8. *)
Definition sample_tracker : peak_tracks (tree Z) :=
  default (PeakTracks NULL [] 0 prealloc_zero) (peak_track_init 1 0 true (fun _ _ => Some 4096)).

Definition sample_world : world :=
  World (<[8 := PeakTrack (zero_addr, zero_addr) (80, 1024) 6 (0, 0) [] 0]> ∅) 5 zeros.

Lemma sample_world_ok : store_ok (tracks sample_world).
Proof.
  apply store_ok_insert; [intros a; rewrite lookup_total_empty; apply track_zero_wf|].
  split_and!; by repeat constructor.
Qed.

Lemma sample_tracker_ok : track_ok 4096 1 sample_tracker sample_world.
Proof.
  destruct (track_init_ok 1 0 true (fun _ _ => Some 4096) sample_tracker sample_world
    ltac:(done) sample_world_ok eq_refl) as (base & [= <-] & Hok & _). exact Hok.
Qed.

Lemma track_acquire_lru_witness :
  exists self' w' ret, peak_track_acquire sample_tracker sample_world (Some 8) = Some (self', w', ret) /\
    track_ok 4096 1 self' w'.
Proof.
  destruct (track_acquire_lru 4096 1 sample_tracker sample_world 8 sample_tracker_ok)
    as (s & w & ret & E & Hok & _); [simpl; rewrite elem_of_cons, elem_of_nil; lia|].
  exists s, w, ret. split; [exact E|exact Hok].
Defined.

Lemma track_lifecycle_witness :
  Z.of_nat (length (tos sample_tracker)) <= 1 /\ peak_track_exit (Some sample_tracker) = Some (Some 4096).
Proof.
  destruct (track_lifecycle 1 0 true (fun _ _ => Some 4096) sample_tracker sample_tracker
    sample_world sample_world ltac:(done) sample_world_ok eq_refl (rtc_refl _ _)) as (H & _ & _ & E).
  split; [exact H|exact E].
Defined.

(** Both ends at the same address: port 1 to port 2, and back. *)
Lemma track_key_direction_witness :
  let p := set_flow_dport 2 (set_flow_sport 1 peak_packet_zero) in
  let p' := set_flow_dport 1 (set_flow_sport 2 peak_packet_zero) in
  TRACK_KEY track_zero p <> TRACK_KEY track_zero p'.
Proof.
  intros p p'. destruct (track_key_direction track_zero p p') as [_ [H _]]; try reflexivity;
    [split; [reflexivity|by repeat constructor]..|].
  intros E. destruct (H E) as [Hn|Hn]; [by apply Hn|discriminate Hn].
Defined.
