(* ===== verification/Stable.v ===== *)
(** * Readers of a larger memory

    A reader of a packet looks at the packet: what it answers on the bytes of the packet it
    answers on a buffer that has the packet at its front.  The class [Stable] says so of a
    function of the memory, and [StableRun] of one that may not end; they hold of the
    decapsulation ([Packet]) and of all detectors ([LiDetect], [Li]), by the shape of their
    code. *)

From S2P Require Import Prelude Bytes Net Counters Packet LiDetect Li.
Open Scope Z_scope.

Class Stable {A} (f : list Z -> option A) : Prop :=
  stable m t v : f m = Some v -> f (m ++ t) = Some v.

#[export] Instance stable_const {A} (x : option A) : Stable (fun _ => x).
Proof. by intros m t v. Qed.

#[export] Instance stable_bind {A B} (f : list Z -> option A) (g : A -> list Z -> option B) :
  Stable f -> (forall x, Stable (g x)) -> Stable (fun m => x ← f m; g x m).
Proof. intros Hf Hg m t v H. apply bind_Some in H as (x & E & H). rewrite (Hf m t x E). by apply Hg. Qed.

#[export] Instance stable_if {A} (b : bool) (f g : list Z -> option A) :
  Stable f -> Stable g -> Stable (fun m => if b then f m else g m).
Proof. by destruct b. Qed.

#[export] Instance stable_rd i : Stable (fun m => rd m i).
Proof. intros m t v. unfold rd. destruct (0 <=? i); [|done]. intros H. by apply lookup_app_l_Some. Qed.

#[export] Instance stable_rd_n i n : Stable (fun m => rd_n m i n).
Proof. revert i. induction n as [|n IH]; intros i; simpl; apply _. Qed.

Class StableRun {A} (f : list Z -> run A) : Prop :=
  stable_run m t v : f m = Done v -> f (m ++ t) = Done v.

#[export] Instance stable_run_const {A} (x : run A) : StableRun (fun _ => x).
Proof. by intros m t v. Qed.

#[export] Instance stable_run_try {A} (f : list Z -> option A) : Stable f -> StableRun (fun m => try (f m)).
Proof. intros Hf m t v H%try_Done. by rewrite (Hf m t v H). Qed.

#[export] Instance stable_run_bind {A B} (f : list Z -> run A) (g : A -> list Z -> run B) :
  StableRun f -> (forall x, StableRun (g x)) -> StableRun (fun m => x ← f m; g x m).
Proof. intros Hf Hg m t v H. apply run_bind_Done in H as (x & E & H). rewrite (Hf m t x E). by apply Hg. Qed.

#[export] Instance stable_run_if {A} (b : bool) (f g : list Z -> run A) :
  StableRun f -> StableRun g -> StableRun (fun m => if b then f m else g m).
Proof. by destruct b. Qed.

(** Unfold the decoders and the accesses to the payload. *)
Ltac stable_by d := unfold d; cbv zeta; apply _.

#[export] Instance stable_be16dec p : Stable (fun m => peak_be16dec m p).
Proof. stable_by peak_be16dec. Qed.
#[export] Instance stable_be32dec p : Stable (fun m => peak_be32dec m p).
Proof. stable_by peak_be32dec. Qed.
#[export] Instance stable_le16dec p : Stable (fun m => peak_le16dec m p).
Proof. stable_by peak_le16dec. Qed.
#[export] Instance stable_le32dec p : Stable (fun m => peak_le32dec m p).
Proof. stable_by peak_le32dec. Qed.
#[export] Instance stable_le64dec p : Stable (fun m => peak_le64dec m p).
Proof. stable_by peak_le64dec. Qed.

#[export] Instance stable_netaddr6 a p : Stable (fun m => netaddr6 a m p).
Proof. stable_by netaddr6. Qed.

(** The decapsulation. *)
#[export] Instance stable_parse_link self type : Stable (fun m => parse_link m self type).
Proof. stable_by parse_link. Qed.
#[export] Instance stable_parse_ipv4 self : Stable (fun m => parse_ipv4 m self).
Proof. stable_by parse_ipv4. Qed.
#[export] Instance stable_udp self : Stable (fun m => peak_packet_udp m self).
Proof. stable_by peak_packet_udp. Qed.
#[export] Instance stable_tcp self : Stable (fun m => peak_packet_tcp m self).
Proof. stable_by peak_packet_tcp. Qed.
#[export] Instance stable_ipv6_loop fuel self q n : StableRun (fun m => ipv6_loop fuel m self q n).
Proof. revert self q n. induction fuel as [|fuel IH]; intros self q n; cbn [ipv6_loop]; cbv zeta; apply _. Qed.
#[export] Instance stable_ipv6 fuel self : StableRun (fun m => peak_packet_ipv6 fuel m self).
Proof. stable_by peak_packet_ipv6. Qed.
#[export] Instance stable_parse_ipv6 fuel self : StableRun (fun m => parse_ipv6 fuel m self).
Proof. stable_by parse_ipv6. Qed.
#[export] Instance stable_parse_flow self audit : Stable (fun m => parse_flow m self audit).
Proof. stable_by parse_flow. Qed.
#[export] Instance stable_parse fuel audit buf len type : StableRun (fun m => peak_packet_parse fuel m audit buf len type).
Proof. stable_by peak_packet_parse. Qed.

Section detectors.
Variable packet : peak_packet.

#[export] Instance stable_app8 off : Stable (fun m => app8 m packet off).
Proof. stable_by app8. Qed.
#[export] Instance stable_app16 off : Stable (fun m => app16 m packet off).
Proof. stable_by app16. Qed.
#[export] Instance stable_app32 off : Stable (fun m => app32 m packet off).
Proof. stable_by app32. Qed.
#[export] Instance stable_app64 off : Stable (fun m => app64 m packet off).
Proof. stable_by app64. Qed.
#[export] Instance stable_app_be16 off : Stable (fun m => app_be16 m packet off).
Proof. stable_by app_be16. Qed.
#[export] Instance stable_app_be32 off : Stable (fun m => app_be32 m packet off).
Proof. stable_by app_be32. Qed.
#[export] Instance stable_app_bytes off n : Stable (fun m => app_bytes m packet off n).
Proof. stable_by app_bytes. Qed.
#[export] Instance stable_flow8 off : Stable (fun m => flow8 m packet off).
Proof. stable_by flow8. Qed.
#[export] Instance stable_flow_be16 off : Stable (fun m => flow_be16 m packet off).
Proof. stable_by flow_be16. Qed.

#[export] Instance stable_strlen off : Stable (fun m => LI_STRLEN m packet off).
Proof.
  unfold LI_STRLEN. apply stable_if; [|apply _]. generalize 0. generalize (Z.to_nat (app_len packet)) as fuel.
  induction fuel as [|fuel IH]; intros ret; cbn [li_strlen_loop]; cbv zeta; apply _.
Qed.

#[export] Instance stable_keys keys min : Stable (fun m => match_keys m packet keys min).
Proof. induction keys as [|key keys IH]; cbn [match_keys]; apply _. Qed.

#[export] Instance stable_match keys min (k : list Z -> option bool) :
  Stable k -> Stable (fun m => LI_MATCH_PAYLOAD m packet keys min (k m)).
Proof. intros Hk. stable_by LI_MATCH_PAYLOAD. Qed.

Ltac stable_detector :=
  match goal with |- Stable (fun m => ?d m packet) => unfold d; cbv zeta; apply _ end.

(** Every detector of the table. *)
#[export] Instance stable_netflow_v1 : Stable (fun m => peak_li_netflow_v1 m packet).
Proof. stable_detector. Qed.
#[export] Instance stable_netflow_v5 : Stable (fun m => peak_li_netflow_v5 m packet).
Proof. stable_detector. Qed.
#[export] Instance stable_tftp_request : Stable (fun m => tftp_request m packet).
Proof. stable_detector. Qed.
#[export] Instance stable_netbios_name : Stable (fun m => peak_li_netbios_name_service m packet).
Proof. stable_detector. Qed.
#[export] Instance stable_netbios_session : Stable (fun m => peak_li_netbios_session_service m packet).
Proof. stable_detector. Qed.
#[export] Instance stable_netbios_datagram : Stable (fun m => peak_li_netbios_datagram_service m packet).
Proof. stable_detector. Qed.
#[export] Instance stable_pptp_raw : Stable (fun m => peak_li_pptp_raw m packet).
Proof. stable_detector. Qed.
#[export] Instance stable_pptp_gre : Stable (fun m => peak_li_pptp_gre m packet).
Proof. stable_detector. Qed.

Lemma apps_stable : Forall (fun a => Stable (fun m => function a m packet)) apps.
Proof.
  unfold apps, LI_LIST_APP, LI_LIST_IPTYPE.
  repeat (apply Forall_cons_2; [cbn [function]; stable_detector|]). constructor.
Qed.

Lemma stable_li_get_loop l : Forall (fun a => Stable (fun m => function a m packet)) l -> Stable (fun m => li_get_loop l m packet).
Proof. induction 1 as [|a l Ha Hl IH]; cbn [li_get_loop]; apply _. Qed.

#[export] Instance stable_li_get : Stable (fun m => peak_li_get m packet).
Proof.
  unfold peak_li_get. apply stable_if; [apply _|]. apply stable_bind; [apply stable_li_get_loop, apps_stable|apply _].
Qed.

End detectors.
