(* ===== verification/Flows.v ===== *)
(** * Packets of a capture and their flows

    What the programs share: the loop of a program loads a packet, finds its ends
    ([Packet]) and acquires its flow ([Track]).  Here is what a program relies on: which
    packets are of a flow, that the tracker numbers the flows in the order of their first
    packets and keeps what is stored in them, and that the loader delivers a pcap file
    packet by packet. *)

From S2P Require Import Prelude Bytes Net Counters Packet Typed File Load Store Order Prealloc Tree Track Stable.
Open Scope Z_scope.

(** ** Specification *)

(** The packet with its ends, if it is one of a flow. *)
Definition accepted (fuel : nat) (type : Z) (p : packet) : option peak_packet :=
  match peak_packet_parse fuel (p_bytes p) [] 0 (msize (p_bytes p)) type with
  | Done (packet, _, ret) => if negb (ret =? 0) || (net_len packet =? 0) then None else Some packet
  | _ => None
  end.

(** The key the tracker compares. *)
Definition key_of (packet : peak_packet) : Z := be_val (track_bytes (TRACK_KEY track_zero packet)).

Definition flow_of (fuel : nat) (type : Z) (p : packet) : option Z := key_of <$> accepted fuel type p.

(** The decapsulation stays inside the packet. *)
Definition parsed (fuel : nat) (type : Z) (p : packet) : Prop :=
  exists r, peak_packet_parse fuel (p_bytes p) [] 0 (msize (p_bytes p)) type = Done r.

(** The flows in the order of their first packets. *)
Definition note (seen : list Z) (k : option Z) : list Z :=
  match k with
  | Some k => if decide (k ∈ seen) then seen else seen ++ [k]
  | None => seen
  end.
Definition flows_of (ks : list (option Z)) : list Z := foldl note [] ks.

Fixpoint index_of (k : Z) (l : list Z) : nat :=
  match l with
  | [] => O
  | x :: l => if x =? k then O else S (index_of k l)
  end.

Lemma index_of_lookup k l : k ∈ l -> l !! index_of k l = Some k.
Proof.
  induction l as [|x l IH]; intros Hk; [by apply elem_of_nil in Hk|]. simpl.
  destruct (Z.eqb_spec x k) as [->|Hne]; [done|]. simpl. apply IH. apply elem_of_cons in Hk as [->|Hk]; done.
Qed.

Lemma index_of_lt k l : k ∈ l -> (index_of k l < length l)%nat.
Proof. intros Hk. apply lookup_lt_is_Some. rewrite index_of_lookup by done. by eexists. Qed.

Lemma index_of_app k l r : k ∈ l -> index_of k (l ++ r) = index_of k l.
Proof.
  induction l as [|x l IH]; intros Hk; [by apply elem_of_nil in Hk|]. simpl.
  destruct (Z.eqb_spec x k); [done|]. f_equal. apply IH. apply elem_of_cons in Hk as [->|Hk]; done.
Qed.

Lemma index_of_new k l : k ∉ l -> index_of k (l ++ [k]) = length l.
Proof.
  induction l as [|x l IH]; intros Hk; simpl; [by rewrite Z.eqb_refl|].
  destruct (Z.eqb_spec x k) as [->|]; [exfalso; apply Hk; left|]. f_equal. apply IH. intros H. apply Hk. by right.
Qed.

Lemma note_prefix seen k : seen `prefix_of` note seen k.
Proof. destruct k as [k|]; simpl; [|done]. case_decide; [done|by apply prefix_app_r]. Qed.

Lemma foldl_note_prefix seen ks : seen `prefix_of` foldl note seen ks.
Proof.
  revert seen. induction ks as [|k ks IH]; intros seen; simpl; [done|]. etransitivity; [apply note_prefix|apply IH].
Qed.

Lemma index_of_prefix k l l' : l `prefix_of` l' -> k ∈ l -> index_of k l' = index_of k l.
Proof. intros [r ->]. apply index_of_app. Qed.

(** ** One packet *)

(** The verdict on a packet does not depend on the counters. *)
Lemma parse_flow_audit m self a b r : parse_flow m self a = Some r -> exists b', parse_flow m self b = Some (r.1.1, b', r.2).
Proof. unfold parse_flow. intros H. parse_ext; injection H as <-; by eexists. Qed.

Lemma parse_audit fuel m a b buf len type r :
  peak_packet_parse fuel m a buf len type = Done r ->
  exists b', peak_packet_parse fuel m b buf len type = Done (r.1.1, b', r.2).
Proof.
  unfold peak_packet_parse. intros H. parse_ext; try (injection H as <-; by eexists).
  all: try match goal with E : parse_ipv6 _ _ _ = Done _ |- _ => rewrite E; clear E end; parse_ext; try (injection H as <-; by eexists).
  all: match goal with E : parse_flow _ _ _ = Some _ |- context [parse_flow _ _ ?b] =>
    destruct (parse_flow_audit _ _ _ b _ E) as [b' ->]; by exists b' end.
Qed.

(** The key does not depend on what was on the stack. *)
Lemma track_key_bytes_any flow packet :
  track_bytes (TRACK_KEY flow packet) = track_bytes (TRACK_KEY track_zero packet).
Proof.
  unfold TRACK_KEY. cbv zeta. generalize (negb (netcmp (net_saddr packet) (net_daddr packet) <? 0)) as dir. by intros [].
Qed.

(** The fields the key is made of. *)
Definition ends_ok (self : peak_packet) : Prop :=
  netaddr_ok (net_saddr self) /\ netaddr_ok (net_daddr self) /\ fits 8 (net_type self).

Lemma parse_ends fuel m a buf len type r :
  bytes m -> peak_packet_parse fuel m a buf len type = Done r -> ends_ok r.1.1.
Proof.
  intros Hm H. destruct (parse_audit _ _ a zeros _ _ _ _ H) as [b' E].
  apply parse_result_typed in E as ([] & _); [done..|by split; [|repeat constructor]].
Qed.

Section tracker.
Context {T : Type} {ST : SearchTree T Z}.

(** ** The tracker without a timeout *)

Section flows.
Variables (base : Z) (count : nat).
Hypothesis count_small : Z.of_nat count < 2 ^ 32.

(** The tracker has the flows seen so far, each with the number of its first packet among
    them, and with the verdicts [lis] of its key. *)
Record flow_inv (track : peak_tracks T) (w : world) (seen : list Z) (lis : Z -> Z * Z) : Prop := {
  fi_ok : track_ok base count track w;
  fi_timeout : no_timeout track = 1;
  fi_keys : keys track w ≡ₚ seen;
  fi_next : next_flow_id w = Z.of_nat (length seen);
  fi_ids f : f ∈ tos track -> id (tracks w !!! f) = Z.of_nat (index_of (track_key (tracks w) f) seen);
  fi_lis f : f ∈ tos track -> li (tracks w !!! f) = lis (track_key (tracks w) f);
  fi_unseen k : k ∉ seen -> lis k = (0, 0);
}.

Lemma fi_length track w seen lis : flow_inv track w seen lis -> length (tos track) = length seen /\ (length seen <= count)%nat.
Proof.
  intros []. pose proof (pool_length _ _ _ _ _ (ok_pool _ _ _ _ fi_ok0)) as Hl.
  rewrite <- fi_keys0, keys_length. lia.
Qed.

(** A structure outside the chunks. *)
Lemma outside_chunks track w r :
  track_ok base count track w -> r ∉ chunks base sizeof_track count -> (r ∉ free (mem track)) /\ (r ∉ tos track).
Proof.
  intros Hok Hr. pose proof (ok_chunks _ _ _ _ _ (ok_pool _ _ _ _ Hok)) as Hc. rewrite <- Hc in Hr. set_solver.
Qed.

(** Writing the structure on the stack, and counting. *)
Lemma flow_inv_write track w seen lis r t a :
  flow_inv track w seen lis -> r ∉ chunks base sizeof_track count -> track_wf t ->
  flow_inv track (World (<[r := t]> (tracks w)) (next_flow_id w) a) seen lis.
Proof.
  intros [] Hr Ht. destruct (outside_chunks track w r fi_ok0 Hr) as [_ Hnt].
  assert (forall f, f ∈ tos track -> track_key (<[r := t]> (tracks w)) f = track_key (tracks w) f) as Hk.
  { intros f Hf. apply track_key_insert. by intros ->. }
  split; try done.
  - pose proof (user_write_ok base count track w r t fi_ok0 Ht ltac:(done)) as []. by split.
  - assert (keys track (World (<[r := t]> (tracks w)) (next_flow_id w) a) = keys track w) as ->; [|done].
    apply map_ext_in. intros f Hf%list_elem_of_In. by apply Hk.
  - intros f Hf. simpl. rewrite Hk, lookup_total_insert_ne by (done || by intros ->). by apply fi_ids0.
  - intros f Hf. simpl. rewrite Hk, lookup_total_insert_ne by (done || by intros ->). by apply fi_lis0.
Qed.

Lemma flow_inv_audit track w seen lis a :
  flow_inv track w seen lis -> flow_inv track (World (tracks w) (next_flow_id w) a) seen lis.
Proof. intros [[] ? ? ? ?]. by split. Qed.

Lemma flow_inv_ext track w seen lis lis' :
  flow_inv track w seen lis -> (forall k, lis k = lis' k) -> flow_inv track w seen lis'.
Proof. intros [] H. split; try done; intros; rewrite <- H; auto. Qed.

(** Storing verdicts in a flow. *)
Definition set_li (v : Z * Z) (t : peak_track) : peak_track := PeakTrack (addr t) (port t) (type t) v (reserved t) (id t).

Lemma flow_inv_li track w seen lis f v :
  flow_inv track w seen lis -> f ∈ tos track ->
  let k := track_key (tracks w) f in
  flow_inv track (World (<[f := set_li v (tracks w !!! f)]> (tracks w)) (next_flow_id w) (audit w)) seen
    (fun x => if x =? k then v else lis x).
Proof.
  intros [Hok Hnt Hkeys Hnext Hids Hlis Hun] Hf k. set (s := <[f := _]> (tracks w)).
  assert (forall g, track_key s g = track_key (tracks w) g) as Hk.
  { intros g. destruct (decide (g = f)) as [->|]; [|by apply track_key_insert]. unfold track_key, s. by rewrite lookup_total_insert_eq. }
  assert (k ∈ seen) as Hin.
  { rewrite <- Hkeys. by apply (list_elem_of_fmap_2 (track_key (tracks w))). }
  split; try done.
  - pose proof (ok_store _ _ _ _ Hok f) as Hwf. exact (user_write_ok base count track w f (set_li v (tracks w !!! f)) Hok Hwf ltac:(done)).
  - assert (keys track (World s (next_flow_id w) (audit w)) = keys track w) as ->; [|done].
    apply map_ext_in. intros g _. apply Hk.
  - intros g Hg. cbn [tracks]. rewrite Hk. rewrite <- Hids by done. unfold s. destruct (decide (g = f)) as [->|].
    + by rewrite lookup_total_insert_eq.
    + by rewrite lookup_total_insert_ne.
  - intros g Hg. cbn [tracks]. rewrite Hk. unfold s. destruct (decide (g = f)) as [->|].
    + unfold k. by rewrite lookup_total_insert_eq, Z.eqb_refl.
    + rewrite lookup_total_insert_ne by done. destruct (Z.eqb_spec (track_key (tracks w) g) k) as [E|]; [|by apply Hlis].
      destruct n. by apply (key_inj base count track w).
  - intros x Hx. destruct (Z.eqb_spec x k) as [->|]; [done|by apply Hun].
Qed.

Lemma in_note seen k : k ∈ note seen (Some k).
Proof. simpl. case_decide; [done|]. apply elem_of_app. right. by apply list_elem_of_singleton. Qed.

Lemma acquire_flow track w r seen lis :
  flow_inv track w seen lis -> r ∉ chunks base sizeof_track count ->
  let k := track_key (tracks w) r in
  if decide ((k ∈ seen) \/ (length seen < count)%nat) then
    exists track' w' f, peak_track_acquire track w (Some r) = Some (track', w', Some f) /\
      flow_inv track' w' (note seen (Some k)) lis /\ f ∈ tos track' /\ track_key (tracks w') f = k
  else exists w', peak_track_acquire track w (Some r) = Some (track, w', None).
Proof.
  intros Hinv Hr k. pose proof (fi_length _ _ _ _ Hinv) as [Hlen Hle]. destruct Hinv as [Hok Hnt Hkeys Hnext Hids Hlis Hun].
  destruct (outside_chunks track w r Hok Hr) as [Hrf Hrt]. unfold peak_track_acquire.
  pose proof (track_find base count track w r Hok) as Hfind. fold k in Hfind. destruct (st_find _ _ r) as [f|].
  - destruct Hfind as [Hf Ek]. assert (k ∈ seen) as Hk.
    { rewrite <- Hkeys, <- Ek. by apply (list_elem_of_fmap_2 (track_key (tracks w))). }
    rewrite decide_True by auto. simpl note. rewrite decide_True by done. do 3 eexists. split; [done|].
    destruct (acquire_known base count track w r f Hok Hf Ek) as [Hok' _].
    assert (tailq_remove f (tos track) ++ [f] ≡ₚ tos track) as Hp by (by apply tailq_remove_perm).
    split; [|split; [simpl; by rewrite Hp|done]]. split; [done|done| |done| | |done].
    + rewrite <- Hkeys. unfold keys. simpl. by apply Permutation_map.
    + intros g Hg. apply Hids. simpl in Hg. by rewrite Hp in Hg.
    + intros g Hg. apply Hlis. simpl in Hg. by rewrite Hp in Hg.
  - assert (k ∉ seen) as Hk.
    { rewrite <- Hkeys. intros (a & E & Ha)%list_elem_of_fmap. by apply (Hfind a). }
    destruct (decide (length (tos track) = count)) as [Hl|Hl].
    + rewrite decide_False by (intros [?|?]; [done|lia]). unfold recycle.
      destruct (pool_empty _ _ _ _ _ (ok_pool _ _ _ _ Hok)) as [_ ->]; [|done]. rewrite Hnt. by eexists.
    + rewrite decide_True by (right; lia). simpl note. rewrite decide_False by done.
      assert (recycle track w = Some (inl (track, w))) as ->.
      { unfold recycle. destruct (prealloc_empty (mem track)) eqn:E; [|done].
        by apply (pool_empty _ _ _ _ _ (ok_pool _ _ _ _ Hok)) in E. }
      cbn [mbind option_bind].
      destruct (add_flow_spec base count track w r Hok Hl Hrf Hfind) as (track' & f & E & Hok' & Hf & Hnf & Et & Ek & Hnt').
      cbv zeta in E. rewrite E. do 3 eexists. split; [done|]. set (s := <[f := _]> (tracks w)) in *.
      assert (forall g, g ∈ tos track -> track_key s g = track_key (tracks w) g /\ s !!! g = tracks w !!! g) as Hold.
      { intros g Hg. assert (g <> f) by (by intros ->). split; [by apply track_key_insert|by apply lookup_total_insert_ne]. }
      split; [|split; [rewrite Et; apply elem_of_app; right; by apply list_elem_of_singleton|exact Ek]]. split; [done|by rewrite Hnt'| | | | |].
      * rewrite (keys_snoc track w track' _ f (set_id (next_flow_id w) (copy_key (tracks w !!! r))) Hnf Et) by done. rewrite Ek, Hkeys. done.
      * simpl. rewrite Hnext, wrap_small by (unfold fits; lia). rewrite length_app. simpl. lia.
      * intros g Hg. cbn [tracks audit_world]. rewrite Et in Hg. apply elem_of_app in Hg as [Hg|Hg%list_elem_of_singleton].
        -- destruct (Hold g Hg) as [-> ->]. rewrite index_of_app; [by apply Hids|].
           rewrite <- Hkeys. by apply (list_elem_of_fmap_2 (track_key (tracks w))).
        -- subst g. cbn [tracks audit_world] in Ek. rewrite Ek. fold k. rewrite index_of_new by done. rewrite <- Hnext. unfold s. by rewrite lookup_total_insert_eq.
      * intros g Hg. cbn [tracks audit_world]. rewrite Et in Hg. apply elem_of_app in Hg as [Hg|Hg%list_elem_of_singleton].
        -- destruct (Hold g Hg) as [-> ->]. by apply Hlis.
        -- subst g. cbn [tracks audit_world] in Ek. rewrite Ek. fold k. rewrite Hun by done. unfold s. by rewrite lookup_total_insert_eq.
      * intros x Hx. apply Hun. intros Hin. apply Hx, elem_of_app. by left.
Qed.

Lemma TRACK_KEY_wf flow packet : ends_ok packet -> track_wf (TRACK_KEY flow packet).
Proof.
  intros (Hs & Hd & Ht). unfold TRACK_KEY, track_wf. cbv zeta.
  generalize (negb (netcmp (net_saddr packet) (net_daddr packet) <? 0)) as dir. by intros [].
Qed.

(** A packet that is at the front of a larger buffer: its verdict, and the acquisition of
    its flow by the structure on the stack. *)
Lemma packet_flow fuel track w _flow p tail type seen lis packet a0 ret :
  flow_inv track w seen lis -> _flow ∉ chunks base sizeof_track count -> bytes (p_bytes p) ->
  peak_packet_parse fuel (p_bytes p) [] 0 (msize (p_bytes p)) type = Done (packet, a0, ret) ->
  exists a, peak_packet_parse fuel (p_bytes p ++ tail) (audit w) 0 (msize (p_bytes p)) type = Done (packet, a, ret) /\
    flow_inv track (World (tracks w) (next_flow_id w) a) seen lis /\
    let w1 := World (<[_flow := TRACK_KEY (tracks w !!! _flow) packet]> (tracks w)) (next_flow_id w) a in
    let k := key_of packet in
    if decide ((k ∈ seen) \/ (length seen < count)%nat) then
      exists track' w' f, peak_track_acquire track w1 (Some _flow) = Some (track', w', Some f) /\
        flow_inv track' w' (note seen (Some k)) lis /\ f ∈ tos track' /\ track_key (tracks w') f = k
    else exists w', peak_track_acquire track w1 (Some _flow) = Some (track, w', None).
Proof.
  intros Hinv Hr Hb Hp. pose proof (parse_ends fuel _ _ _ _ _ _ Hb Hp) as Hends. simpl in Hends.
  destruct (parse_audit _ _ _ (audit w) _ _ _ _ Hp) as [a Hp']. simpl in Hp'.
  pose proof (stable_parse fuel (audit w) 0 (msize (p_bytes p)) type (p_bytes p) tail _ Hp') as Hext.
  exists a. split; [exact Hext|]. split; [by apply flow_inv_audit|]. intros w1 k.
  assert (flow_inv track w1 seen lis) as Hinv1 by (by apply flow_inv_write; [..|apply TRACK_KEY_wf]).
  assert (track_key (tracks w1) _flow = k) as Ek.
  { unfold track_key, w1, k, key_of. simpl. by rewrite lookup_total_insert_eq, track_key_bytes_any. }
  pose proof (acquire_flow track w1 _flow seen lis Hinv1 Hr) as Ha. cbv zeta in Ha. by rewrite Ek in Ha.
Qed.

End flows.

(** A new tracker. *)
Lemma track_init_some flow_count malign base :
  0 < flow_count -> malign flow_count sizeof_track = Some base -> exists track : peak_tracks T, peak_track_init flow_count 1 true malign = Some track.
Proof.
  intros Hc Hm. unfold peak_track_init, prealloc_init. cbn [negb]. destruct (Z.eqb_spec flow_count 0); [lia|]. cbn [orb].
  change (sizeof_track =? 0) with false. change (negb (sizeof_track .& 0x7 =? 0)) with false. cbv iota. rewrite Hm. by eexists.
Qed.

Lemma flow_inv_init flow_count malign base w (track : peak_tracks T) :
  fits 64 flow_count -> store_ok (tracks w) -> next_flow_id w = 0 -> malign flow_count sizeof_track = Some base ->
  peak_track_init flow_count 1 true malign = Some track -> flow_inv base (Z.to_nat flow_count) track w [] (fun _ => (0, 0)).
Proof.
  intros Hf Hs Hn Hm E. destruct (track_init_ok flow_count 1 true malign track w Hf Hs E) as (base' & E' & Hok & Et & Hnt).
  rewrite Hm in E'. injection E' as <-. split; try done; [unfold keys; by rewrite Et|..].
  all: rewrite Et; intros f Hin; by apply elem_of_nil in Hin.
Qed.

End tracker.

(** ** The packets of a capture *)

Section capture.
Variables (fuel : nat) (type : Z) (swap : bool) (tail : list Z).

(** A packet that fits, is not empty, and has its headers inside it. *)
Definition capture_ok (p : packet) : Prop := packet_ok p /\ 0 < msize (p_bytes p) /\ parsed fuel type p.

(** The packet [p] is loaded, and [rs] are ahead, with [tail] behind them. *)
Record loaded_ok (self : _peak_load) (p : packet) (rs : list packet) : Prop := {
  lo_buf : exists bs, buf (data self) = p_bytes p ++ bs;
  lo_size : msize (buf (data self)) = sizeof_buf;
  lo_sec : ts_sec (data self) = p_sec p;
  lo_usec : ts_usec (data self) = p_usec p;
  lo_len : len (data self) = msize (p_bytes p);
  lo_ll : ll (data self) = type;
  lo_fmt : fmt self = pcap_fmt swap;
  lo_ahead : ahead (fd self) (concat (pcap_record swap <$> rs) ++ tail);
}.

Lemma load_next self rs p :
  fmt self = pcap_fmt swap -> msize (buf (data self)) = sizeof_buf -> ll (data self) = type ->
  ahead (fd self) (concat (pcap_record swap <$> (p :: rs)) ++ tail) -> packet_ok p ->
  exists self', peak_load_packet fuel self = Done (self', msize (p_bytes p)) /\ loaded_ok self' p rs.
Proof.
  intros Hf Hb Hl Ha Hp. cbn [fmap list_fmap concat] in Ha. rewrite <- app_assoc in Ha. destruct (load_pcap_record fuel self swap p _ Hf Hb Hp Ha) as (self' & E & Hd).
  exists self'. split; [done|]. destruct Hd. split; try congruence.
  exists (drop (length (p_bytes p)) (buf (data self'))). rewrite <- dv_bytes at 1. by rewrite take_drop.
Qed.

Lemma flows_of_snoc qs p :
  flows_of (flow_of fuel type <$> (qs ++ [p])) = note (flows_of (flow_of fuel type <$> qs)) (flow_of fuel type p).
Proof. unfold flows_of. by rewrite fmap_app, foldl_app. Qed.

(** The flows of a part of the capture. *)
Lemma flows_of_prefix qs rs :
  flows_of (flow_of fuel type <$> qs) `prefix_of` flows_of (flow_of fuel type <$> (qs ++ rs)).
Proof. unfold flows_of. rewrite fmap_app, foldl_app. apply foldl_note_prefix. Qed.

End capture.

(** ** A sample *)

(** Two flows: a request, a packet of somebody else, an ARP frame and the reply. *)
Definition sample_macs : list Z := repeat 0xaa 12.
Definition sample_frames : list (list Z) :=
  [Packet.frame (Ethernet sample_macs) [10; 0; 0; 1] [10; 0; 0; 2] Udp 5353 53 [1; 2];
   Packet.frame (Ethernet sample_macs) [10; 0; 0; 3] [10; 0; 0; 2] Udp 1024 53 [3];
   sample_macs ++ [0x08; 0x06; 0; 1];
   Packet.frame (Ethernet sample_macs) [10; 0; 0; 2] [10; 0; 0; 1] Udp 53 5353 [4; 5; 6]].
Definition sample_capture : list packet :=
  imap (fun i bs => {| p_sec := Z.of_nat i; p_usec := 0; p_bytes := bs |}) sample_frames.

Lemma sample_capture_ok : Forall (capture_ok 0 LINKTYPE_ETHERNET) sample_capture.
Proof.
  repeat constructor; try (apply (bool_decide_unpack _); vm_compute; exact I); try (vm_compute; discriminate).
  all: eexists; vm_compute; reflexivity.
Qed.
