(* ===== verification/Flowsplit.v ===== *)
(** * Splitting a capture by flow

    Models [bin/flowsplit/flowsplit.c], the program that copies the packets of a capture
    file into several files such that no flow is torn apart: the loader ([Load]), the
    decapsulation ([Packet]), the tracker ([Track]) and the writer ([Store]) together.
    A panic is undefined.  What getopt(3), atoi(3) and open(2) make of their arguments is a
    parameter. *)

From stdpp Require Import pretty.
From Stdlib Require Import Ascii.
From S2P Require Import Prelude Bytes Net Counters Packet File Load Store Order Prealloc Tree Track Flows.
Open Scope Z_scope.

(** ** flowsplit.c *)

Section program.
Context {T : Type} {ST : SearchTree T Z}.

(** [fuel] is for the IPv6 headers; [_flow] is the address of the structure on the stack. *)
Definition flowsplit_packet (fuel : nat) (track : peak_tracks T) (w : world) (_flow : Z) (buf : list Z) (len type : Z)
    : run (peak_tracks T * world * Z) :=
  '(packet, audit, ret) ← peak_packet_parse fuel buf (audit w) 0 len type;
  let w := World (tracks w) (next_flow_id w) audit in
  if negb (ret =? 0) || (net_len packet =? 0) then Done (track, w, -1) else
  let w := World (<[_flow := TRACK_KEY (tracks w !!! _flow) packet]> (tracks w)) (next_flow_id w) audit in
  '(track, w, flow) ← try (peak_track_acquire track w (Some _flow));
  flow ← try flow;
  Done (track, w, s64 (id (tracks w !!! flow))).

(** The state of [main]. *)
Record state := State {
  m_track : peak_tracks T;
  m_world : world;
  m_fds : list output;
  m_trace : _peak_load;
}.

(** The body of the loop over the packets. *)
Definition flowsplit_round (fuel : nat) (_flow file_count : Z) (s : state) : run state :=
  let t := data (m_trace s) in
  '(track, w, ret) ← flowsplit_packet fuel (m_track s) (m_world s) _flow (buf t) (len t) (ll t);
  if ret <? 0 then Done (State track w (m_fds s) (m_trace s)) else
  let i := Z.to_nat (Z.rem ret file_count) in
  fd ← try (m_fds s !! i);
  '(fd, _) ← try (peak_store_packet fd (buf t) (len t) (ts_sec t) (ts_usec t));
  Done (State track w (<[i := fd]> (m_fds s)) (m_trace s)).

(** [do ... while], for at most [n] packets. *)
Fixpoint flowsplit_loop (n fuel : nat) (_flow file_count : Z) (s : state) : run state :=
  match n with
  | O => OutOfFuel
  | S n =>
      s ← flowsplit_round fuel _flow file_count s;
      '(trace, more) ← peak_load_packet fuel (m_trace s);
      let s := State (m_track s) (m_world s) (m_fds s) trace in
      if more =? 0 then Done s else flowsplit_loop n fuel _flow file_count s
  end.

(** [for (i = 0; i < file_count; ++i)] over the output files. *)
Fixpoint open_loop (files : list (option output)) : option (list output) :=
  match files with
  | [] => Some []
  | file :: files => fd ← peak_store_init file; fds ← open_loop files; Some (fd :: fds)
  end.

(** [main] behind its options: the loader, what is outside the tracker, the allocations
    ([calloc] and [malign] for the tracker, [fds_ok] for the descriptors) and what
    [open(2)] makes of the output files.  The files as they are when the program ends. *)
Definition flowsplit (n fuel : nat) (loader : option _peak_load) (w : world) (_flow flow_count file_count : Z)
    (calloc : bool) (malign : Z -> Z -> option Z) (fds_ok : bool) (files : Z -> option output) : run (list output) :=
  trace ← try loader;
  track ← try (peak_track_init flow_count 1 calloc malign);
  if negb fds_ok then Undefined else
  if file_count =? 0 then Undefined else
  let file_count := Z.min file_count flow_count in
  fds ← try (open_loop (files <$> seqZ 0 file_count));
  '(trace, more) ← peak_load_packet fuel trace;
  s ←
    (if negb (more =? 0) then flowsplit_loop n fuel _flow file_count (State track w fds trace)
     else Done (State track w fds trace));
  _ ← try (peak_track_exit (Some (m_track s)));
  Done (m_fds s).

(** The options, with what [atoi(3)] makes of their arguments; [None] is [usage]. *)
Definition counts_init : Z * Z := (10000, 2).

Fixpoint options_loop (atoi : string -> Z) (opts : list (ascii * string)) (counts : Z * Z) : option (Z * Z) :=
  match opts with
  | [] => Some counts
  | (c, optarg) :: opts =>
      if Ascii.eqb c "f" then options_loop atoi opts (u32 (atoi optarg), snd counts)
      else if Ascii.eqb c "n" then options_loop atoi opts (fst counts, u32 (atoi optarg))
      else None
  end.

(** [strrchr(3)]: the position of the last one. *)
Fixpoint strrchr (s : string) (c : ascii) : option nat :=
  match s with
  | EmptyString => None
  | String a s => match strrchr s c with Some i => Some (S i) | None => if Ascii.eqb a c then Some O else None end
  end.

(** What is left of [argv[0]] when its last dot is overwritten. *)
Definition dot_fn (name : string) : string :=
  match strrchr name "." with Some i => String.substring 0 i name | None => name end.

Definition PATH_MAX : nat := Z.to_nat 4096.

Definition split_fn (name : string) (i : Z) : string :=
  snprintf PATH_MAX (dot_fn name +:+ "_" +:+ pretty i +:+ ".pcap").

(** The whole of [main]; [None] after [usage]. *)
Definition flowsplit_main (n fuel : nat) (atoi : string -> Z) (opts : list (ascii * string)) (args : list string)
    (loader : string -> option _peak_load) (w : world) (_flow : Z) (calloc : bool) (malign : Z -> Z -> option Z) (fds_ok : bool)
    (create : string -> option output) : run (option (list output)) :=
  match options_loop atoi opts counts_init, args with
  | None, _ | _, [] => Done None
  | Some (flow_count, file_count), name :: _ =>
      files ← flowsplit n fuel (loader name) w _flow flow_count file_count calloc malign fds_ok (fun i => create (split_fn name i));
      Done (Some files)
  end.

(** ** Specification *)

(** The file of a packet: the flows take turns. *)
Definition lands (fuel : nat) (type : Z) (flows : list Z) (n : Z) (p : packet) : option Z :=
  k ← flow_of fuel type p; Some (Z.of_nat (index_of k flows) mod n).

(** ** One packet *)

Section flows.
Variables (base : Z) (count : nat).
Hypothesis count_small : Z.of_nat count < 2 ^ 32.

(** No verdicts are stored. *)
Abbreviation no_lis := (fun _ : Z => (0, 0)).

(** A packet that is at the front of a larger buffer. *)
Lemma flowsplit_packet_spec fuel track w _flow p tail type seen :
  flow_inv base count track w seen no_lis -> _flow ∉ chunks base sizeof_track count -> bytes (p_bytes p) -> parsed fuel type p ->
  let run := flowsplit_packet fuel track w _flow (p_bytes p ++ tail) (msize (p_bytes p)) type in
  match flow_of fuel type p with
  | None => exists w', run = Done (track, w', -1) /\ flow_inv base count track w' seen no_lis
  | Some k =>
      if decide ((k ∈ seen) \/ (length seen < count)%nat) then
        exists track' w', run = Done (track', w', Z.of_nat (index_of k (note seen (Some k)))) /\
          flow_inv base count track' w' (note seen (Some k)) no_lis
      else run = Undefined
  end.
Proof.
  intros Hinv Hr Hb [[[packet a0] ret] Hp] run. unfold run, flow_of, accepted, flowsplit_packet. rewrite Hp.
  destruct (packet_flow base count count_small fuel track w _flow p tail type seen no_lis packet a0 ret Hinv Hr Hb Hp)
    as (a & -> & Hinv0 & Ha). cbn [mbind run_bind].
  destruct (negb (ret =? 0) || (net_len packet =? 0)); [by eexists|]. cbn [fmap option_fmap option_map].
  cbv zeta in Ha |- *. cbn [tracks next_flow_id] in Ha |- *. set (k := key_of packet) in *. case_decide as Hk.
  - destruct Ha as (track' & w' & f & -> & Hinv' & Hf & Ek). cbn [try mbind run_bind]. exists track', w'. split; [|done].
    rewrite (fi_ids _ _ _ _ _ _ Hinv' f Hf), Ek, s64_small; [done|]. pose proof (fi_length _ _ _ _ _ _ Hinv') as [_ Hle].
    pose proof (index_of_lt k _ (in_note seen k)). lia.
  - destruct Ha as [w' ->]. done.
Qed.

(** ** The loop over the packets *)

Section rounds.
Variables (fuel : nat) (type : Z) (swap : bool) (rest : list Z) (_flow n : Z) (flows : list Z).
Hypothesis rest_end : capture_end swap rest.
Hypothesis stack_apart : _flow ∉ chunks base sizeof_track count.
Hypothesis n_pos : 0 < n.

(** The packets of file number [i]. *)
Definition share (i : nat) (ps : list packet) : list packet :=
  filter (fun p => lands fuel type flows n p = Some (Z.of_nat i)) ps.

(** The files after the packets [qs], with room for [rs]. *)
Definition files_ok (fds : list output) (qs rs : list packet) : Prop :=
  Z.of_nat (length fds) = n /\
  forall i fd, fds !! i = Some fd ->
    written fd = pcap_file false LINKTYPE_ETHERNET (share i qs) /\
    msize (concat (pcap_record false <$> rs)) <= room fd.

Lemma concat_records_cons sw p rs :
  msize (concat (pcap_record sw <$> (p :: rs))) = msize (pcap_record sw p) + msize (concat (pcap_record sw <$> rs)).
Proof. unfold msize. cbn [fmap list_fmap concat]. rewrite length_app. lia. Qed.

Lemma pcap_file_snoc sw network ps p : pcap_file sw network (ps ++ [p]) = pcap_file sw network ps ++ pcap_record sw p.
Proof. unfold pcap_file. rewrite fmap_app, concat_app, app_assoc. f_equal. cbn [fmap list_fmap concat]. by rewrite app_nil_r. Qed.

(** The writer looks at the packet only. *)
Lemma store_front o bs tail sec usec :
  peak_store_packet o (bs ++ tail) (msize bs) sec usec = peak_store_packet o bs (msize bs) sec usec.
Proof.
  unfold peak_store_packet. destruct (write o _) as [o' r]. destruct (negb _); [done|].
  unfold msize. rewrite Nat2Z.id, !rd_n_take by (rewrite ?length_app; lia). by rewrite take_app_length, firstn_all.
Qed.

(** Storing a packet in its file. *)
Lemma files_ok_store fds qs rs p i fd :
  packet_ok p -> files_ok fds qs (p :: rs) -> lands fuel type flows n p = Some (Z.of_nat i) -> fds !! i = Some fd ->
  exists fd', peak_store_packet fd (p_bytes p) (msize (p_bytes p)) (p_sec p) (p_usec p) = Some (fd', 1) /\
    files_ok (<[i := fd']> fds) (qs ++ [p]) rs.
Proof.
  intros Hp [Hl Hf] Hi Hfd. assert (stamped p = p) as Est.
  { destruct p, Hp as (? & ? & _). unfold stamped. simpl in *. by rewrite !wrap_small. }
  destruct (Hf i fd Hfd) as [Hw Hr]. rewrite concat_records_cons in Hr.
  assert (forall l : list Z, 0 <= msize l) as Hpos by (intros; unfold msize; lia).
  pose proof (Hpos (pcap_record false p)). pose proof (Hpos (concat (pcap_record false <$> rs))).
  destruct (store_packet_spec fd p) as (fd' & E & Ew & Er); [lia|]. rewrite Est in E, Ew, Er.
  destruct (Z.leb_spec (msize (pcap_record false p)) (room fd)); [|lia]. exists fd'. split; [done|].
  split; [by rewrite length_insert|]. intros j o Hj. unfold share. rewrite filter_app. destruct (decide (j = i)) as [->|Hji].
  - rewrite list_lookup_insert_eq in Hj by (by eapply lookup_lt_Some). injection Hj as <-.
    rewrite filter_cons_True, filter_nil by done. rewrite pcap_file_snoc, Ew, Hw. split; [|lia].
    f_equal. rewrite take_ge; [done|]. unfold msize in *. lia.
  - rewrite list_lookup_insert_ne in Hj by done. destruct (Hf j o Hj) as [Hwj Hrj]. rewrite concat_records_cons in Hrj.
    rewrite filter_cons_False, filter_nil, app_nil_r by (rewrite Hi; intros [=]; lia). split; [done|lia].
Qed.

(** A packet that is of no flow is not copied. *)
Lemma files_ok_skip fds qs rs p :
  files_ok fds qs (p :: rs) -> flow_of fuel type p = None -> files_ok fds (qs ++ [p]) rs.
Proof.
  intros [Hl Hf] Hno. split; [done|]. intros i o Ho. destruct (Hf i o Ho) as [Hw Hr]. rewrite concat_records_cons in Hr.
  unfold share. rewrite filter_app, filter_cons_False, filter_nil, app_nil_r by (unfold lands; by rewrite Hno).
  split; [done|]. unfold msize in *. lia.
Qed.

(** The state before the round of [p]. *)
Record round_ok (s : state) (qs : list packet) (p : packet) (rs : list packet) : Prop := {
  ro_flow : flow_inv base count (m_track s) (m_world s) (flows_of (flow_of fuel type <$> qs)) no_lis;
  ro_files : files_ok (m_fds s) qs (p :: rs);
  ro_trace : loaded_ok type swap rest (m_trace s) p rs;
}.

Lemma round_spec s qs p rs :
  flows_of (flow_of fuel type <$> (qs ++ p :: rs)) = flows -> capture_ok fuel type p -> round_ok s qs p rs ->
  if decide (length (flows_of (flow_of fuel type <$> (qs ++ [p]))) <= count)%nat then
    exists s', flowsplit_round fuel _flow n s = Done s' /\
      flow_inv base count (m_track s') (m_world s') (flows_of (flow_of fuel type <$> (qs ++ [p]))) no_lis /\
      files_ok (m_fds s') (qs ++ [p]) rs /\ m_trace s' = m_trace s
  else flowsplit_round fuel _flow n s = Undefined.
Proof.
  intros Eall (Hp & Hne & Hparse) [Hfl Hfi [[tail Et] Hbs Es Eu El Ell Ef Ha]]. unfold flowsplit_round. rewrite Et, El, Ell, Es, Eu.
  rewrite flows_of_snoc. set (seen := flows_of (flow_of fuel type <$> qs)) in *.
  pose proof (fi_length _ _ _ _ _ _ Hfl) as [_ Hle].
  assert (note seen (flow_of fuel type p) `prefix_of` flows) as Hpre.
  { rewrite <- Eall. unfold seen. rewrite <- flows_of_snoc. replace (qs ++ p :: rs) with ((qs ++ [p]) ++ rs) by (by rewrite <- app_assoc). apply flows_of_prefix. }
  pose proof (flowsplit_packet_spec fuel (m_track s) (m_world s) _flow p tail type seen Hfl stack_apart ltac:(apply Hp) Hparse) as Hpk.
  cbv zeta in Hpk. destruct (flow_of fuel type p) as [k|] eqn:Ek.
  2: { destruct Hpk as (w' & -> & Hfl'). cbn [mbind run_bind note]. rewrite decide_True by done. simpl. eexists. split; [done|].
       split_and!; [done|by apply files_ok_skip|done]. }
  case_decide as Hk.
  2: { rewrite Hpk. cbn [mbind run_bind]. rewrite decide_False; [done|]. simpl. rewrite decide_False by tauto.
       rewrite length_app. simpl. assert (~ (length seen < count)%nat) by tauto. lia. }
  destruct Hpk as (track' & w' & -> & Hfl'). pose proof (fi_length _ _ _ _ _ _ Hfl') as [_ Hle']. rewrite decide_True by done.
  cbn [mbind run_bind]. pose proof (in_note seen k) as Hin.
  set (i := index_of k (note seen (Some k))) in *. destruct (Z.ltb_spec (Z.of_nat i) 0); [lia|].
  rewrite Z.rem_mod_nonneg by lia. pose proof (Z.mod_pos_bound (Z.of_nat i) n ltac:(lia)) as Hmod.
  assert (lands fuel type flows n p = Some (Z.of_nat (Z.to_nat (Z.of_nat i mod n)))) as Hlands.
  { unfold lands. rewrite Ek. cbn [mbind option_bind]. rewrite Z2Nat.id by lia. unfold i. by rewrite (index_of_prefix k _ _ Hpre Hin). }
  destruct Hfi as [Hlen Hall]. destruct (lookup_lt_is_Some_2 (m_fds s) (Z.to_nat (Z.of_nat i mod n))) as [fd Hfd]; [lia|].
  destruct (files_ok_store (m_fds s) qs rs p _ fd Hp (conj Hlen Hall) Hlands Hfd) as (fd' & Est & Hfi').
  rewrite Hfd. cbn [try mbind run_bind]. rewrite store_front, Est. cbn [try mbind run_bind]. eexists. split; [done|].
  split_and!; [done|done|done].
Qed.

Lemma loop_spec rs s qs p m :
  flows_of (flow_of fuel type <$> (qs ++ p :: rs)) = flows -> Forall (capture_ok fuel type) (p :: rs) -> round_ok s qs p rs ->
  (length rs < m)%nat ->
  if decide (length flows <= count)%nat then
    exists s', flowsplit_loop m fuel _flow n s = Done s' /\ flow_inv base count (m_track s') (m_world s') flows no_lis /\
      files_ok (m_fds s') (qs ++ p :: rs) []
  else flowsplit_loop m fuel _flow n s = Undefined.
Proof.
  revert s qs p m. induction rs as [|q rs IH]; intros s qs p m Eall Hps Hro Hm; (destruct m as [|m]; [simpl in Hm; lia|]);
    inversion Hps as [|? ? Hp Hrs]; subst; cbn [flowsplit_loop]; pose proof (round_spec s qs p _ Eall Hp Hro) as Hr.
  - rewrite Eall in Hr. case_decide as Hc; [|by rewrite Hr]. destruct Hr as (s' & -> & Hfl & Hfi & Et). cbn [mbind run_bind].
    destruct Hro as [_ _ [_ Lsize _ _ _ _ Lfmt Lahead]]. rewrite Et. destruct (load_end fuel (m_trace s) swap rest Lfmt Lsize rest_end Lahead) as [last ->].
    cbn [mbind run_bind]. simpl. eexists. split; [done|]. done.
  - destruct (decide (length (flows_of (flow_of fuel type <$> (qs ++ [p]))) <= count)%nat) as [Hc|Hc].
    + destruct Hr as (s' & -> & Hfl & Hfi & Et). cbn [mbind run_bind]. destruct Hro as [_ _ [_ Lsize _ _ _ Lll Lfmt Lahead]]. rewrite Et.
      inversion Hrs as [|? ? Hq Hrs']; subst.
      destruct (load_next fuel type swap rest (m_trace s) rs q Lfmt Lsize Lll Lahead) as (t' & -> & Hlo); [apply Hq|].
      cbn [mbind run_bind]. destruct Hq as (Hq1 & Hq2 & Hq3). destruct (Z.eqb_spec (msize (p_bytes q)) 0); [lia|].
      replace (qs ++ p :: q :: rs) with ((qs ++ [p]) ++ q :: rs) in * by (by rewrite <- app_assoc).
      apply IH; [done|done|split; done|simpl in Hm; lia].
    + rewrite Hr. cbn [mbind run_bind]. rewrite decide_False; [done|]. intros Hle. apply Hc.
      rewrite <- Eall in Hle. replace (qs ++ p :: q :: rs) with ((qs ++ [p]) ++ q :: rs) in Hle by (by rewrite <- app_assoc).
      etransitivity; [apply prefix_length, flows_of_prefix|exact Hle].
Qed.

End rounds.

End flows.

(** ** The program *)

(** The output files can be opened, are empty and have room for the capture. *)
Definition files_ready (files : Z -> option output) (k : Z) (ps : list packet) : Prop :=
  forall i, 0 <= i < k -> exists o, files i = Some o /\ written o = [] /\ msize (pcap_file false LINKTYPE_ETHERNET ps) <= room o.

Lemma store_init_spec o ps :
  written o = [] -> msize (pcap_file false LINKTYPE_ETHERNET ps) <= room o ->
  exists o', peak_store_init (Some o) = Some o' /\ written o' = pcap_file false LINKTYPE_ETHERNET [] /\
    msize (concat (pcap_record false <$> ps)) <= room o'.
Proof.
  intros Hw Hr. unfold peak_store_init. change store_file_header with (pcap_file_head false LINKTYPE_ETHERNET).
  unfold pcap_file in *. set (h := pcap_file_head false LINKTYPE_ETHERNET) in *. set (r := concat _) in *.
  assert (msize (h ++ r) = msize h + msize r) as Hs by (unfold msize; rewrite length_app; lia). rewrite Hs in Hr.
  assert (0 <= msize h /\ 0 <= msize r) as [H0 H1] by (unfold msize; lia).
  destruct (write_room o h) as [E1 E2]; [lia|]. destruct (write o h) as [o1 r1]. simpl in E1, E2. subst r1.
  rewrite Z.min_l, Z.eqb_refl by lia. exists o1. split; [done|]. rewrite E1, Hw. cbn [written room].
  rewrite take_ge by (unfold msize in *; lia). split; [done|lia].
Qed.

Lemma open_loop_spec (files : Z -> option output) (l : list Z) ps :
  (forall i, i ∈ l -> exists o, files i = Some o /\ written o = [] /\ msize (pcap_file false LINKTYPE_ETHERNET ps) <= room o) ->
  exists fds, open_loop (files <$> l) = Some fds /\ length fds = length l /\
    forall i fd, fds !! i = Some fd -> written fd = pcap_file false LINKTYPE_ETHERNET [] /\
      msize (concat (pcap_record false <$> ps)) <= room fd.
Proof.
  induction l as [|x l IH]; intros Hl; [by exists []|]. cbn [fmap list_fmap open_loop].
  destruct (Hl x) as (o & -> & Hw & Hr); [left|]. destruct (store_init_spec o ps Hw Hr) as (o' & -> & Ho').
  destruct IH as (fds & -> & El & Hf); [intros i Hi; apply Hl; by right|]. cbn [mbind option_bind].
  exists (o' :: fds). split; [done|]. split; [simpl; by rewrite El|]. intros [|i] fd; simpl; [by intros [= <-]|apply Hf].
Qed.

Lemma flowsplit_ok fuel swap type rest loader ps w _flow flow_count file_count malign base files :
  fmt loader = pcap_fmt swap -> msize (buf (data loader)) = sizeof_buf -> ll (data loader) = type ->
  capture_end swap rest -> ahead (fd loader) (concat (pcap_record swap <$> ps) ++ rest) -> Forall (capture_ok fuel type) ps ->
  0 < flow_count < 2 ^ 32 -> 0 < file_count -> malign flow_count sizeof_track = Some base ->
  _flow ∉ chunks base sizeof_track (Z.to_nat flow_count) -> store_ok (tracks w) -> next_flow_id w = 0 ->
  files_ready files (Z.min file_count flow_count) ps ->
  let k := Z.min file_count flow_count in
  let flows := flows_of (flow_of fuel type <$> ps) in
  let run := flowsplit (length ps) fuel (Some loader) w _flow flow_count file_count true malign true files in
  if decide (Z.of_nat (length flows) <= flow_count) then
    exists fds, run = Done fds /\ files_ok fuel type k flows fds ps []
  else run = Undefined.
Proof.
  intros Hf Hb Hl Hend Ha Hps Hfc Hn Hm Hst Hs Hid Hready k flows run. unfold run, flowsplit. cbn [try mbind run_bind].
  destruct (track_init_some flow_count malign base ltac:(lia) Hm) as [track Etr]. rewrite Etr. cbn [try mbind run_bind negb].
  pose proof (flow_inv_init flow_count malign base w track ltac:(unfold fits; lia) Hs Hid Hm Etr) as Hinv.
  destruct (Z.eqb_spec file_count 0); [lia|]. fold k.
  destruct (open_loop_spec files (seqZ 0 k) ps) as (fds & -> & Elen & Hfds).
  { intros i Hi%elem_of_seqZ. apply Hready. fold k. lia. }
  rewrite length_seqZ in Elen. cbn [try mbind run_bind].
  assert (files_ok fuel type k flows fds [] ps) as Hfiles by (split; [lia|exact Hfds]).
  destruct ps as [|p ps].
  - destruct (load_end fuel loader swap rest Hf Hb Hend Ha) as [t ->]. cbn [mbind run_bind]. change (negb (0 =? 0)) with false. cbv iota.
    cbn [mbind run_bind]. unfold m_track. rewrite (track_exit_ok base (Z.to_nat flow_count) track w) by apply Hinv. cbn [try mbind run_bind].
    rewrite decide_True by (simpl; lia). eexists. split; [done|]. done.
  - inversion Hps as [|? ? Hp Hps']; subst. pose proof Hp as (Hp1 & Hp2 & Hp3).
    destruct (load_next fuel (ll (data loader)) swap rest loader ps p Hf Hb eq_refl Ha Hp1) as (t & -> & Hlo). cbn [mbind run_bind].
    destruct (Z.eqb_spec (msize (p_bytes p)) 0); [lia|]. cbn [negb].
    pose proof (loop_spec base (Z.to_nat flow_count) ltac:(lia) fuel (ll (data loader)) swap rest _flow k flows Hend Hst ltac:(lia) ps
      (State track w fds t) [] p (length (p :: ps)) eq_refl Hps ltac:(by split) ltac:(simpl; lia)) as Hloop.
    destruct (decide (Z.of_nat (length flows) <= flow_count)) as [Hc|Hc].
    + rewrite decide_True in Hloop by lia. destruct Hloop as (s' & -> & Hinv' & Hfi'). cbn [mbind run_bind].
      rewrite (track_exit_ok base (Z.to_nat flow_count) (m_track s') (m_world s')) by apply Hinv'. cbn [try mbind run_bind].
      eexists. split; [done|]. done.
    + rewrite decide_False in Hloop by lia. by rewrite Hloop.
Qed.

(** ** Properties *)

Lemma length_append s t : String.length (s +:+ t) = (String.length s + String.length t)%nat.
Proof. induction s as [|a s IH]; [done|]. change (S (String.length (s +:+ t)) = S (String.length s + String.length t)). by rewrite IH. Qed.

Lemma append_cancel s t u : (s +:+ u = t +:+ u)%string -> s = t.
Proof.
  revert t. induction s as [|a s IH]; intros [|b t] H; [done|..].
  - apply (f_equal String.length) in H. rewrite !length_append in H. cbn in H. lia.
  - apply (f_equal String.length) in H. rewrite !length_append in H. cbn in H. lia.
  - injection H as -> H. f_equal. by apply IH.
Qed.

Lemma dot_fn_length name : (String.length (dot_fn name) <= String.length name)%nat.
Proof.
  unfold dot_fn. destruct (strrchr name ".") as [i|]; [|done]. generalize i. clear i.
  induction name as [|a name IH]; intros [|i]; cbn; [lia..|]. specialize (IH i). lia.
Qed.

(** Different numbers are in different files, unless the name is too long for one. *)
Theorem split_names name i j :
  fits 32 i -> fits 32 j -> (String.length name + 16 < PATH_MAX)%nat -> split_fn name i = split_fn name j -> i = j.
Proof.
  intros Hi Hj Hn. pose proof (dot_fn_length name) as Hd.
  assert (forall k, fits 32 k -> (String.length (pretty k) <= 10)%nat) as Hp.
  { unfold fits. intros k Hk. destruct k as [|p|p]; [cbn; lia| |lia]. change (pretty (Z.pos p)) with (pretty_N_go (N.pos p) "").
    assert (N.pos p < 10 ^ N.of_nat 10)%N as H by (change (10 ^ N.of_nat 10)%N with 10000000000%N; lia).
    apply (pretty_N_go_length 10 _ "") in H. cbn [String.length] in H. lia. }
  assert (forall k, fits 32 k -> split_fn name k = (dot_fn name +:+ "_" +:+ pretty k +:+ ".pcap")%string) as Hw.
  { intros k Hk. apply substring_whole. rewrite !length_append. specialize (Hp k Hk). cbn [String.length]. lia. }
  rewrite !Hw by done. intros H. apply (inj (String.append _)) in H. apply (inj (String.append _)) in H. apply append_cancel in H.
  by apply (inj pretty) in H.
Qed.

(** A dot in front of the name of a directory ends the name of the files. *)
Example split_names_parent : split_fn "../capture" 1 = "._1.pcap"%string.
Proof. vm_compute. reflexivity. Qed.

(** C3.  [flowsplit] puts every packet of a flow in the file of the flow, and nowhere else,
    in the order of the capture.  Its input is a pcap file, in either byte order: packets that
    are not empty and are parsed inside their own bytes (with enough fuel for their IPv6
    headers), up to what ends the capture for the loader ([capture_end]: the end of the file,
    a record that is cut off, empty or too large; nothing behind it gets into any file).
    [main] has its memory, [1 <= flow_count < 2^32] and [1 <= file_count], and the output
    files can be opened, are empty and have room.  If the packets are of at most [flow_count]
    flows, [flowsplit] comes to its end without a panic, and file [i] is the pcap file of the
    packets whose flow has a number, in the order of the flows' first packets, that is [i]
    modulo the number of files; packets that are of no flow are dropped.  With more flows
    it panics. *)
Theorem flowsplit_splits mem timegm fuel swap network ps rest w _flow flow_count file_count malign base files :
  mem sizeof_peak_load = true -> fits 32 network -> Forall (capture_ok fuel network) ps -> capture_end swap rest ->
  0 < flow_count < 2 ^ 32 -> 0 < file_count -> malign flow_count sizeof_track = Some base ->
  _flow ∉ chunks base sizeof_track (Z.to_nat flow_count) -> store_ok (tracks w) -> next_flow_id w = 0 ->
  files_ready files (Z.min file_count flow_count) ps ->
  let flows := flows_of (flow_of fuel network <$> ps) in
  let k := Z.min file_count flow_count in
  exists loader,
    peak_load_init mem timegm (inl (Some {| content := pcap_file swap network ps ++ rest; pos := 0 |})) = Some (Some loader) /\
    let run := flowsplit (length ps) fuel (Some loader) w _flow flow_count file_count true malign true files in
    if decide (Z.of_nat (length flows) <= flow_count) then
      exists fds, run = Done fds /\ Z.of_nat (length fds) = k /\
        forall i fd, fds !! i = Some fd ->
          written fd = pcap_file false LINKTYPE_ETHERNET
            (filter (fun p => lands fuel network flows k p = Some (Z.of_nat i)) ps)
    else run = Undefined.
Proof.
  intros Hmem Hnet Hps Hend Hfc Hn Hm Hst Hs Hid Hready flows k.
  destruct (pcap_init mem timegm swap network (concat (pcap_record swap <$> ps) ++ rest) Hnet Hmem) as (loader & E & Hf & Hb & Hl & Ha).
  exists loader. split; [by rewrite app_assoc in E|]. intros run.
  pose proof (flowsplit_ok fuel swap network rest loader ps w _flow flow_count file_count malign base files Hf Hb Hl Hend Ha Hps Hfc Hn Hm Hst Hs Hid Hready) as Hrun.
  cbv zeta in Hrun. fold k flows run in Hrun.
  destruct (decide (Z.of_nat (length flows) <= flow_count)); [|done]. destruct Hrun as (fds & -> & Hlen & Hfds).
  exists fds. split_and!; [done..|]. intros i fd Hi. by destruct (Hfds i fd Hi) as [-> _].
Qed.

End program.

(** An empty record, and a packet behind it. *)
Definition sample_rest : list Z :=
  concat (pcap_record true <$> {| p_sec := 9; p_usec := 0; p_bytes := [] |} :: take 1 sample_capture).

Lemma sample_rest_end : capture_end true sample_rest.
Proof.
  apply (end_empty true {| p_sec := 9; p_usec := 0; p_bytes := [] |}); [|reflexivity].
  apply (bool_decide_unpack _). vm_compute. exact I.
Qed.

Definition sample_output : output := {| written := []; room := 1000 |}.

Lemma flowsplit_splits_witness :
  exists loader fds,
    flowsplit (T := tree Z) 4 0 (Some loader) (World ∅ 0 zeros) 64 100 2 true (fun _ _ => Some 4096) true (fun _ => Some sample_output) = Done fds /\
    written <$> fds !! 0%nat = Some (pcap_file false LINKTYPE_ETHERNET (take 1 sample_capture ++ drop 3 sample_capture)).
Proof.
  destruct (flowsplit_splits (T := tree Z) (fun _ => true) (fun _ => 0) 0 true LINKTYPE_ETHERNET sample_capture sample_rest (World ∅ 0 zeros) 64 100 2
    (fun _ _ => Some 4096) 4096 (fun _ => Some sample_output)) as (loader & _ & H).
  - reflexivity.
  - split; [vm_compute; discriminate|reflexivity].
  - exact sample_capture_ok.
  - exact sample_rest_end.
  - lia.
  - lia.
  - reflexivity.
  - intros (i & _ & E)%in_chunks. unfold sizeof_track in E. lia.
  - intros a. cbn [tracks]. rewrite lookup_total_empty. apply track_zero_wf.
  - reflexivity.
  - intros i _. exists sample_output. split; [reflexivity|]. split; [reflexivity|]. vm_compute. discriminate.
  - rewrite decide_True in H by (vm_compute; discriminate). destruct H as (fds & E & Hlen & Hfds).
    exists loader, fds. split; [exact E|].
    destruct (lookup_lt_is_Some_2 fds 0) as [fd Hfd]; [lia|]. rewrite Hfd. simpl. rewrite (Hfds 0%nat fd Hfd).
    vm_compute. reflexivity.
Defined.

