(* ===== verification/Peek.v ===== *)
(** * Reporting the packets of a capture

    Models [bin/peek/peek.c], the program that prints a line per packet of a capture file:
    the loader ([Load]), the clock ([Clock]), the decapsulation ([Packet]), the tracker
    ([Track]) and the detection ([Li]) together.  A panic is undefined.  What is printed is
    a list of the conversions of the [pout] calls with their arguments, of which [render]
    makes the text with any [inet_ntop(3)] and [strftime(3)]. *)

From stdpp Require Import pretty.
From Stdlib Require Import Ascii.
From S2P Require Import Prelude Bytes Net Counters Clock Packet Typed File Load Store Li Order Prealloc Tree Track Stable Flows.
Open Scope Z_scope.

(** ** Options *)

Definition USE_APP : Z := 0.
Definition USE_APP_LEN : Z := 1.
Definition USE_FLOW : Z := 2.
Definition USE_IP_LEN : Z := 3.
Definition USE_IP_TYPE : Z := 4.
Definition USE_TIME : Z := 5.
Definition USE_SRC : Z := 6.
Definition USE_DST : Z := 7.
Definition USE_MAX : Z := 8.

(** The variables outside the functions. *)
Record uses := Uses { use_print : list Z; use_count : Z }.

Definition uses_init : uses := Uses (replicate (Z.to_nat USE_MAX) 0) 0.

(** [use_print[use_count++] = v]. *)
Definition use (u : uses) (v : Z) : option uses :=
  print ← wr (use_print u) (use_count u) v; Some (Uses print (use_count u + 1)).

(** The switch over the option; [None] is its default. *)
Definition peek_option (c : ascii) : option Z :=
  match c with
  | "A" => Some USE_APP_LEN
  | "a" => Some USE_APP
  | "d" => Some USE_DST
  | "f" => Some USE_FLOW
  | "N" => Some USE_IP_LEN
  | "n" => Some USE_IP_TYPE
  | "s" => Some USE_SRC
  | "t" => Some USE_TIME
  | _ => None
  end%char.

(** The loop over what [getopt] returns; [None] inside is the exit in [usage]. *)
Fixpoint options_loop (opts : list ascii) (u : uses) : option (option uses) :=
  match opts with
  | [] => Some (Some u)
  | c :: opts =>
      match peek_option c with
      | None => Some None
      | Some v =>
          u ← use u v;
          if USE_MAX <? use_count u then Some None else options_loop opts u
      end
  end.

(** The default output. *)
Definition peek_default : list Z := [USE_TIME; USE_FLOW; USE_IP_TYPE; USE_IP_LEN; USE_SRC; USE_DST; USE_APP].

Definition default_uses (u : uses) : option uses :=
  if use_count u =? 0 then foldl (fun u v => u ← u; use u v) (Some u) peek_default else Some u.

(** ** Operations *)

Section program.
Context {T : Type} {ST : SearchTree T Z}.
Context {tm : Type} (tm_zero : tm) (localtime_r gmtime_r : Z -> tm).

(** What [pout] prints. *)
Inductive printed :=
  | Comma
  | App (name : string)
  | AppLen (len : Z)
  | FlowId (id : Z)
  | IpLen (len : Z)
  | IpType (type : Z)
  | Src (brackets : bool) (addr : netaddr) (port : Z)
  | Dst (brackets : bool) (addr : netaddr) (port : Z)
  | Time (gmt : tm) (usec : Z)
  | Newline.

(** [%06ld]. *)
Definition pad6 (n : Z) : string :=
  let digits := pretty.pretty (Z.abs n) in
  let sign := if n <? 0 then "-"%string else ""%string in
  (sign +:+ String.concat "" (replicate (6 - String.length sign - String.length digits) "0"%string) +:+ digits)%string.

(** [netprint] and [portprint], the address in brackets or not. *)
Definition end_text (inet_ntop : Z -> list Z -> string) (brackets : bool) (addr : netaddr) (port : Z) : option string :=
  text ← netprint inet_ntop addr;
  Some ((if brackets then "[" +:+ text +:+ "]" else text) +:+ portprint port)%string.

(** The text of a conversion; [strftime(3)] yields nothing if there is no room. *)
Definition render (inet_ntop : Z -> list Z -> string) (strftime : tm -> option string) (p : printed) : option string :=
  match p with
  | Comma => Some ", "
  | App name => Some ("app: " +:+ name)
  | AppLen len => Some ("app_len: " +:+ pretty.pretty (u16 len))
  | FlowId id => Some ("flow: " +:+ pretty.pretty (u64 id))
  | IpLen len => Some ("ip_len: " +:+ pretty.pretty (u16 len))
  | IpType type => Some ("ip_type: " +:+ pretty.pretty (u8 type))
  | Src brackets addr port => text ← end_text inet_ntop brackets addr port; Some ("src: " +:+ text)
  | Dst brackets addr port => text ← end_text inet_ntop brackets addr port; Some ("dst: " +:+ text)
  | Time gmt usec => Some ("time: " +:+ default "????" (strftime gmt) +:+ "." +:+ pad6 usec)
  | Newline => Some (String (Ascii.ascii_of_nat 10) EmptyString)
  end%string.

(** The switch of [peek_report]. *)
Definition report_field (x : Z) (packet : peak_packet) (flow : peak_track) (timer : timeslice_t (tm := tm)) : option (list printed) :=
  let brackets port := (net_family packet =? AF_INET6) && negb (port =? 0) in
  if x =? USE_APP then name ← peak_li_name (peak_li_merge (fst (li flow)) (snd (li flow))); Some [App name]
  else if x =? USE_APP_LEN then Some [AppLen (app_len packet)]
  else if x =? USE_FLOW then Some [FlowId (id flow)]
  else if x =? USE_IP_LEN then Some [IpLen (net_len packet)]
  else if x =? USE_IP_TYPE then Some [IpType (net_type packet)]
  else if x =? USE_SRC then Some [Src (brackets (flow_sport packet)) (net_saddr packet) (flow_sport packet)]
  else if x =? USE_DST then Some [Dst (brackets (flow_dport packet)) (net_daddr packet) (flow_dport packet)]
  else if x =? USE_TIME then Some [Time (gmt timer) (tv_usec (tv timer))]
  else Some [].

(** The loop of [peek_report], for the [n] options from [i] on. *)
Fixpoint report_loop (n : nat) (i : Z) (u : uses) packet flow timer : option (list printed) :=
  match n with
  | O => Some []
  | S n =>
      x ← rd (use_print u) i;
      field ← report_field x packet flow timer;
      rest ← report_loop n (i + 1) u packet flow timer;
      Some ((if negb (i =? 0) then [Comma] else []) ++ field ++ rest)
  end.

Definition peek_report (u : uses) packet flow timer : option (list printed) :=
  fields ← report_loop (Z.to_nat (use_count u)) 0 u packet flow timer; Some (fields ++ [Newline]).

(** [fuel] is for the IPv6 headers; [_flow] is the address of the structure on the stack. *)
Definition peek_packet (fuel : nat) (u : uses) (peek : peak_tracks T) (w : world) timer (_flow : Z) (buf : list Z) (len type : Z)
    : run (peak_tracks T * world * list printed) :=
  '(packet, audit, ret) ← peak_packet_parse fuel buf (audit w) 0 len type;
  let w := World (tracks w) (next_flow_id w) audit in
  if negb (ret =? 0) || (net_len packet =? 0) then Done (peek, w, []) else
  let w := World (<[_flow := TRACK_KEY (tracks w !!! _flow) packet]> (tracks w)) (next_flow_id w) audit in
  '(peek, w, flow) ← try (peak_track_acquire peek w (Some _flow));
  flow ← try flow;
  let t := tracks w !!! flow in
  let dir := negb (netcmp (net_saddr packet) (fst (addr t)) =? 0) in
  w ←
    (if (if dir then snd (li t) else fst (li t)) =? 0 then
       app ← try (peak_li_get buf packet);
       Done (World (<[flow := set_li (set_dir dir (u16 app) (li t)) t]> (tracks w)) (next_flow_id w) (Track.audit w))
     else Done w);
  out ← try (peek_report u packet (tracks w !!! flow) timer);
  Done (peek, w, out).

(** The state of [main]. *)
Record state := State {
  m_peek : peak_tracks T;
  m_world : world;
  m_timer : timeslice_t (tm := tm);
  m_trace : _peak_load;
  m_out : list printed;
}.

Definition trace_ts (trace : _peak_load) : peak_timeval :=
  {| tv_sec := ts_sec (data trace); tv_usec := ts_usec (data trace) |}.

(** The body of the loop over the packets. *)
Definition peek_round (fuel : nat) (u : uses) (_flow : Z) (s : state) : run state :=
  let t := data (m_trace s) in
  let timer := TIMESLICE_ADVANCE localtime_r gmtime_r (m_timer s) (trace_ts (m_trace s)) in
  '(peek, w, out) ← peek_packet fuel u (m_peek s) (m_world s) timer _flow (buf t) (len t) (ll t);
  Done (State peek w timer (m_trace s) (m_out s ++ out)).

(** [do ... while], for at most [n] packets. *)
Fixpoint peek_loop (n fuel : nat) (u : uses) (_flow : Z) (s : state) : run state :=
  match n with
  | O => OutOfFuel
  | S n =>
      s ← peek_round fuel u _flow s;
      '(trace, more) ← peak_load_packet fuel (m_trace s);
      let s := State (m_peek s) (m_world s) (m_timer s) trace (m_out s) in
      if more =? 0 then Done s else peek_loop n fuel u _flow s
  end.

(** [main]: what [getopt] returns, what [peak_load_init] makes of the other arguments,
    what is outside the tracker and its allocations.  What is printed, or [None] after
    [usage]. *)
Definition peek (n fuel : nat) (opts : list ascii) (args : list (option _peak_load)) (w : world) (_flow : Z)
    (calloc : bool) (malign : Z -> Z -> option Z) : run (option (list printed)) :=
  u ← try (options_loop opts uses_init);
  match u, args with
  | None, _ | _, [] => Done None
  | Some u, loader :: _ =>
      u ← try (default_uses u);
      trace ← try loader;
      track ← try (peak_track_init 10000 1 calloc malign);
      let timer := TIMESLICE_INIT tm_zero in
      '(trace, more) ← peak_load_packet fuel trace;
      s ←
        (if negb (more =? 0)
         then peek_loop n fuel u _flow (State track w (TIMESLICE_CALIBRATE timer (trace_ts trace)) trace [])
         else Done (State track w timer trace []));
      _ ← try (peak_track_exit (Some (m_peek s)));
      Done (Some (m_out s))
  end.

Lemma end_text_some inet_ntop b addr port : netaddr_ok addr -> is_Some (end_text inet_ntop b addr port).
Proof.
  intros H. unfold end_text, netprint, netprint_family. destruct (netprefix_spec addr net_in64 96) as (r & -> & _); [done|apply net_in64_ok|lia|].
  by eexists.
Qed.

(** Every report on a packet of the right types has a text. *)
Theorem report_renders inet_ntop strftime u packet flow timer out :
  layers_typed packet -> peek_report u packet flow timer = Some out -> Forall (fun p => is_Some (render inet_ntop strftime p)) out.
Proof.
  intros []. unfold peek_report. intros (fields & H & [= <-])%bind_Some. apply Forall_app. split; [|by repeat constructor].
  revert H. generalize 0 at 1. generalize (Z.to_nat (use_count u)). intros n. revert fields.
  induction n as [|n IH]; intros fields i H; [by injection H as <-|]. cbn [report_loop] in H.
  apply bind_Some in H as (x & _ & H). apply bind_Some in H as (field & Hf & H). apply bind_Some in H as (rest & Hr & H). injection H as <-.
  apply Forall_app. split; [destruct (negb _); by repeat constructor|]. apply Forall_app. split; [|by eapply IH]. clear IH Hr.
  unfold report_field in Hf. repeat case_match; try apply bind_Some in Hf as (? & _ & Hf); injection Hf as <-; try apply Forall_nil_2.
  all: apply Forall_cons_2; [|apply Forall_nil_2]; cbn [render]; try (by eexists).
  all: match goal with |- is_Some (end_text ?f ?b ?a ?p ≫= _) => destruct (end_text_some f b a p) as [text ->]; [done|by eexists] end.
Qed.

(** ** Specification *)

(** The detection stays inside the packet. *)
Definition detects_inside (fuel : nat) (type : Z) (p : packet) : Prop :=
  forall packet, accepted fuel type p = Some packet -> is_Some (peak_li_get (p_bytes p) packet).

(** The packet comes from the upper end of its flow. *)
Definition from_upper (packet : peak_packet) : bool := 0 <? netcmp (net_saddr packet) (net_daddr packet).

(** The verdict on a packet, if it goes in direction [d] of flow [k]. *)
Definition verdict (fuel : nat) (type : Z) (k : Z) (d : bool) (p : packet) : option Z :=
  packet ← accepted fuel type p;
  if (key_of packet =? k) && eqb (from_upper packet) d then peak_li_get (p_bytes p) packet else None.

(** The first verdict that is one. *)
Definition first_verdict (fuel : nat) (type : Z) (k : Z) (d : bool) (ps : list packet) : Z :=
  default LI_UNKNOWN (head (filter (fun v => v <> LI_UNKNOWN) (omap (verdict fuel type k d) ps))).

(** The application of a flow, by the packets so far. *)
Definition app_of (fuel : nat) (type : Z) (k : Z) (ps : list packet) : Z :=
  peak_li_merge (first_verdict fuel type k false ps) (first_verdict fuel type k true ps).

(** The broken-down time of the last packet. *)
Definition gmt_of (ps : list packet) : tm :=
  if forallb (fun p => p_sec p =? 0) ps then tm_zero else gmtime_r (default 0 (p_sec <$> last ps)).

(** A field of the line of [p], the last of the packets [ps]. *)
Definition field_of (fuel : nat) (type : Z) (ps : list packet) (p : packet) (packet : peak_packet) (x : Z) : list printed :=
  let k := key_of packet in
  let brackets port := (net_family packet =? AF_INET6) && negb (port =? 0) in
  if x =? USE_APP then [App (default "" (peak_li_name (app_of fuel type k ps)))]
  else if x =? USE_APP_LEN then [AppLen (app_len packet)]
  else if x =? USE_FLOW then [FlowId (Z.of_nat (index_of k (flows_of (flow_of fuel type <$> ps))))]
  else if x =? USE_IP_LEN then [IpLen (net_len packet)]
  else if x =? USE_IP_TYPE then [IpType (net_type packet)]
  else if x =? USE_SRC then [Src (brackets (flow_sport packet)) (net_saddr packet) (flow_sport packet)]
  else if x =? USE_DST then [Dst (brackets (flow_dport packet)) (net_daddr packet) (flow_dport packet)]
  else if x =? USE_TIME then [Time (gmt_of ps) (p_usec p)]
  else [].

(** The fields with commas between them, and the end of the line. *)
Fixpoint joined (fields : list (list printed)) : list printed :=
  match fields with
  | [] => []
  | f :: fields => Comma :: f ++ joined fields
  end.
Definition line (fields : list (list printed)) : list printed := tail (joined fields) ++ [Newline].

(** The line of the packet [p] behind [qs]: none if it is of no flow. *)
Definition line_of (fuel : nat) (type : Z) (xs : list Z) (qs : list packet) (p : packet) : list printed :=
  match accepted fuel type p with
  | Some packet => line (field_of fuel type (qs ++ [p]) p packet <$> xs)
  | None => []
  end.

Fixpoint lines_of (fuel : nat) (type : Z) (xs : list Z) (qs ps : list packet) : list printed :=
  match ps with
  | [] => []
  | p :: ps => line_of fuel type xs qs p ++ lines_of fuel type xs (qs ++ [p]) ps
  end.

(** ** The options *)

(** The array holds [xs]. *)
Definition uses_ok (u : uses) (xs : list Z) : Prop :=
  length (use_print u) = Z.to_nat USE_MAX /\ use_count u = Z.of_nat (length xs) /\ take (length xs) (use_print u) = xs.

Lemma use_spec u xs v :
  uses_ok u xs ->
  if decide (length xs < Z.to_nat USE_MAX)%nat then exists u', use u v = Some u' /\ uses_ok u' (xs ++ [v]) else use u v = None.
Proof.
  intros (Hl & Hc & Ht). unfold use, wr, msize. rewrite Hc, Hl, Nat2Z.id.
  destruct (Z.leb_spec 0 (Z.of_nat (length xs))); [|lia]. change (Z.to_nat USE_MAX) with 8%nat in *.
  destruct (Z.ltb_spec (Z.of_nat (length xs)) (Z.of_nat 8)); case_decide; try lia; [|done]. cbn [andb mbind option_bind].
  eexists. split; [done|]. split_and!; cbn [use_print use_count].
  - by rewrite length_insert.
  - rewrite length_app. simpl. lia.
  - rewrite length_app. cbn [length]. rewrite Nat.add_1_r. rewrite (take_S_r _ _ v) by (apply list_lookup_insert_eq; lia).
    by rewrite take_insert_ge, Ht by lia.
Qed.

Lemma options_spec opts u xs vs :
  uses_ok u xs -> mapM peek_option opts = Some vs -> (length xs <= Z.to_nat USE_MAX)%nat ->
  if decide (length (xs ++ vs) <= Z.to_nat USE_MAX)%nat then exists u', options_loop opts u = Some (Some u') /\ uses_ok u' (xs ++ vs)
  else options_loop opts u = None.
Proof.
  revert u xs vs. induction opts as [|c opts IH]; intros u xs vs Hu Hvs Hle; simpl in Hvs.
  { injection Hvs as <-. rewrite app_nil_r, decide_True by done. by exists u. }
  apply bind_Some in Hvs as (v & Ev & (vs' & Evs & [= <-])%bind_Some). cbn [options_loop]. rewrite Ev.
  pose proof (use_spec u xs v Hu) as Hv. case_decide as Hlt.
  - destruct Hv as (u' & -> & Hu'). cbn [mbind option_bind]. pose proof Hu' as (_ & Hc' & _). rewrite Hc'.
    assert (length (xs ++ [v]) <= Z.to_nat USE_MAX)%nat as Hle' by (rewrite length_app; simpl; lia).
    destruct (Z.ltb_spec USE_MAX (Z.of_nat (length (xs ++ [v])))); [unfold USE_MAX in *; lia|].
    specialize (IH u' (xs ++ [v]) vs' Hu' Evs Hle'). by rewrite <- app_assoc in IH.
  - rewrite Hv, decide_False; [done|]. rewrite length_app. simpl. lia.
Qed.

Lemma uses_init_ok : uses_ok uses_init [].
Proof. done. Qed.

(** What is printed with options [vs]. *)
Definition fields_of (vs : list Z) : list Z := match vs with [] => peek_default | _ => vs end.

Lemma default_spec u vs : uses_ok u vs -> exists u', default_uses u = Some u' /\ uses_ok u' (fields_of vs).
Proof.
  intros Hu. pose proof Hu as (Hl & Hc & _). unfold default_uses. rewrite Hc. destruct vs as [|v vs]; [|by exists u].
  cbn [length Z.of_nat Z.eqb]. destruct u as [print count]. cbn [use_print use_count] in *. subst count.
  do 9 (destruct print as [|? print]; try done). eexists. by split.
Qed.

(** ** One line *)

Lemma joined_spec (xs : list Z) (f : Z -> list printed) i u packet flow timer :
  uses_ok u xs -> (i <= length xs)%nat -> (forall x, x ∈ xs -> report_field x packet flow timer = Some (f x)) ->
  report_loop (length xs - i) (Z.of_nat i) u packet flow timer =
    Some ((if decide (i = 0%nat) then tail else fun l => l) (joined (f <$> drop i xs))).
Proof.
  intros (Hl & Hc & Ht) Hi Hf. remember (length xs - i)%nat as n eqn:En. revert i Hi En.
  induction n as [|n IH]; intros i Hi En.
  { rewrite drop_ge by lia. by case_decide. }
  destruct (lookup_lt_is_Some_2 xs i) as [x Hx]; [lia|]. rewrite (drop_S _ _ _ Hx). cbn [report_loop fmap list_fmap joined].
  assert (rd (use_print u) (Z.of_nat i) = Some x) as ->.
  { unfold rd. destruct (Z.leb_spec 0 (Z.of_nat i)); [|lia]. rewrite Nat2Z.id. rewrite <- Ht in Hx. by apply lookup_take_Some in Hx as [Hx _]. }
  cbn [mbind option_bind]. rewrite Hf by (by eapply list_elem_of_lookup_2). cbn [mbind option_bind].
  replace (Z.of_nat i + 1) with (Z.of_nat (S i)) by lia. rewrite IH by lia. cbn [mbind option_bind]. f_equal.
  destruct i as [|i]; [done|]. destruct (Z.eqb_spec (Z.of_nat (S i)) 0); [lia|]. done.
Qed.

Lemma report_spec xs f u packet flow timer :
  uses_ok u xs -> (forall x, x ∈ xs -> report_field x packet flow timer = Some (f x)) ->
  peek_report u packet flow timer = Some (line (f <$> xs)).
Proof.
  intros Hu Hf. unfold peek_report. pose proof Hu as (_ & Hc & _). rewrite Hc, Nat2Z.id.
  pose proof (joined_spec xs f 0 u packet flow timer Hu ltac:(lia) Hf) as H. rewrite Nat.sub_0_r in H.
  change (Z.of_nat 0) with 0 in H. by rewrite H.
Qed.

(** ** Verdicts *)

Definition named (n : Z) : Prop := is_Some (peak_li_name n) /\ fits 16 n.

#[local] Instance named_dec n : Decision (named n).
Proof. unfold named. apply _. Defined.

Lemma apps_named : Forall (fun a => named (number a)) apps.
Proof. apply (bool_decide_unpack _). vm_compute. exact I. Qed.

Lemma li_get_loop_number l m packet n : li_get_loop l m packet = Some (Some n) -> exists a, a ∈ l /\ number a = n.
Proof.
  induction l as [|a l IH]; cbn [li_get_loop]; [done|]. intros H.
  assert (forall r, li_get_loop l m packet = Some r -> r = Some n -> exists a0, a0 ∈ a :: l /\ number a0 = n) as Hl.
  { intros r Hr ->. destruct (IH Hr) as (a' & Ha' & En). exists a'. split; [by right|done]. }
  destruct (proto_matches packet a); [|by eapply Hl].
  apply bind_Some in H as ([] & E & H); [|by eapply Hl]. injection H as <-. exists a. split; [left|done].
Qed.

Lemma li_get_named m packet n : peak_li_get m packet = Some n -> named n.
Proof.
  assert (named LI_UNKNOWN /\ named LI_UNDEFINED) as [H0 H1] by (split; apply (bool_decide_unpack _); vm_compute; exact I).
  unfold peak_li_get. destruct (_ && _); [by intros [= <-]|]. intros ([n'|] & E & H)%bind_Some; simplify_eq.
  - apply li_get_loop_number in E as (a & Ha & <-). by apply (proj1 (Forall_forall _ _) apps_named).
  - by destruct (negb _).
Qed.

Lemma merge_named a b : named a -> named b -> named (peak_li_merge a b).
Proof.
  intros Ha Hb. unfold peak_li_merge. destruct (_ && _); [apply (bool_decide_unpack _); vm_compute; exact I|].
  by destruct (Z.max_spec a b) as [[_ ->]|[_ ->]].
Qed.

Section verdicts.
Variables (fuel : nat) (type : Z).

Lemma first_verdict_snoc k d qs p :
  first_verdict fuel type k d (qs ++ [p]) =
    if first_verdict fuel type k d qs =? LI_UNKNOWN then default LI_UNKNOWN (verdict fuel type k d p) else first_verdict fuel type k d qs.
Proof.
  unfold first_verdict. rewrite omap_app, filter_app. set (l := filter _ (omap _ qs)).
  assert (Forall (fun v => v <> LI_UNKNOWN) l) as Hl by (apply Forall_forall; intros v [Hv _]%list_elem_of_filter; exact Hv).
  destruct l as [|v l]; cbn [app head default].
  - rewrite Z.eqb_refl. cbn [omap list_omap]. destruct (verdict fuel type k d p) as [v|]; [|done]. cbn [default].
    destruct (decide (v <> LI_UNKNOWN)); [by rewrite filter_cons_True|].
    rewrite filter_cons_False by done. cbn. destruct (Z.eqb_spec v LI_UNKNOWN); done.
  - apply Forall_inv in Hl. unfold id. simpl. destruct (Z.eqb_spec v LI_UNKNOWN); done.
Qed.

Lemma first_verdict_named k d qs : named (first_verdict fuel type k d qs).
Proof.
  induction qs as [|p qs IH] using rev_ind; [by apply (bool_decide_unpack _); vm_compute; exact I|]. rewrite first_verdict_snoc.
  destruct (_ =? _); [|done]. destruct (verdict fuel type k d p) as [v|] eqn:E; [|apply (bool_decide_unpack _); vm_compute; exact I].
  unfold verdict in E. apply bind_Some in E as (packet & _ & E). destruct (_ && _); [|done]. by eapply li_get_named.
Qed.

(** What the flow of key [k] has stored after the packets [qs]. *)
Definition lis_of (qs : list packet) (k : Z) : Z * Z := (first_verdict fuel type k false qs, first_verdict fuel type k true qs).

Lemma lis_skip qs p : accepted fuel type p = None -> forall x, lis_of (qs ++ [p]) x = lis_of qs x.
Proof.
  intros Hp x. unfold lis_of. rewrite !first_verdict_snoc. unfold verdict. rewrite Hp. cbn [mbind option_bind default].
  destruct (Z.eqb_spec (first_verdict fuel type x false qs) LI_UNKNOWN) as [->|], (Z.eqb_spec (first_verdict fuel type x true qs) LI_UNKNOWN) as [->|]; done.
Qed.

Lemma lis_snoc qs p packet v :
  accepted fuel type p = Some packet -> peak_li_get (p_bytes p) packet = Some v ->
  forall x, lis_of (qs ++ [p]) x =
    if x =? key_of packet then
      let l := lis_of qs (key_of packet) in
      if (if from_upper packet then snd l else fst l) =? LI_UNKNOWN then set_dir (from_upper packet) v l else l
    else lis_of qs x.
Proof.
  intros Hp Hv x. unfold lis_of. rewrite !first_verdict_snoc. unfold verdict. rewrite Hp. cbn [mbind option_bind]. rewrite Hv.
  rewrite (Z.eqb_sym (key_of packet) x). destruct (Z.eqb_spec x (key_of packet)) as [->|]; cbn [andb].
  - generalize (first_verdict fuel type (key_of packet) false qs) as a. generalize (first_verdict fuel type (key_of packet) true qs) as b.
    intros b a. destruct (from_upper packet); cbn [eqb fst snd set_dir default].
    + destruct (Z.eqb_spec a LI_UNKNOWN) as [->|], (Z.eqb_spec b LI_UNKNOWN) as [->|]; done.
    + destruct (Z.eqb_spec a LI_UNKNOWN) as [->|], (Z.eqb_spec b LI_UNKNOWN) as [->|]; done.
  - cbn [default]. destruct (Z.eqb_spec (first_verdict fuel type x false qs) LI_UNKNOWN) as [->|], (Z.eqb_spec (first_verdict fuel type x true qs) LI_UNKNOWN) as [->|]; done.
Qed.

End verdicts.

(** The end the flow of a packet calls the lower one. *)
Lemma key_lower t packet :
  track_wf t -> ends_ok packet -> be_val (track_bytes t) = key_of packet -> fst (addr t) = fst (addr (TRACK_KEY track_zero packet)).
Proof.
  intros Ht Hp E. pose proof (TRACK_KEY_wf track_zero packet Hp) as Hu. unfold key_of in E. set (u := TRACK_KEY track_zero packet) in *.
  destruct (track_bytes_ok _ Ht) as [Lt Bt]. destruct (track_bytes_ok _ Hu) as [Lu Bu].
  assert (track_bytes t = track_bytes u) as Eb.
  { apply memcmp_eq; [congruence|]. rewrite memcmp_be_val by congruence. by rewrite E, Z.compare_refl. }
  apply (f_equal (take 16)) in Eb. unfold track_bytes in Eb. destruct Ht as ([L1 _] & _), Hu as ([L2 _] & _).
  by rewrite !take_app_length' in Eb by done.
Qed.

Lemma netcmp_refl a : netcmp a a = 0.
Proof. by apply memcmp_eq. Qed.

(** The direction of a packet in its flow. *)
Lemma packet_dir t packet :
  track_wf t -> ends_ok packet -> be_val (track_bytes t) = key_of packet ->
  negb (netcmp (net_saddr packet) (fst (addr t)) =? 0) = from_upper packet.
Proof.
  intros Ht Hp E. rewrite (key_lower t packet Ht Hp E). unfold from_upper, TRACK_KEY. cbv zeta.
  destruct (Z.ltb_spec (netcmp (net_saddr packet) (net_daddr packet)) 0); cbn [negb set_dir fst snd addr].
  - rewrite netcmp_refl. destruct (Z.ltb_spec 0 (netcmp (net_saddr packet) (net_daddr packet))); [lia|done].
  - destruct (Z.eqb_spec (netcmp (net_saddr packet) (net_daddr packet)) 0), (Z.ltb_spec 0 (netcmp (net_saddr packet) (net_daddr packet))); done || lia.
Qed.

(** ** One packet *)

Section flows.
Variables (base : Z) (count : nat).
Hypothesis count_small : Z.of_nat count < 2 ^ 32.
Variables (fuel : nat) (type : Z) (swap : bool) (rest : list Z) (_flow : Z) (u : uses) (xs : list Z).
Hypothesis rest_end : capture_end swap rest.
Hypothesis stack_apart : _flow ∉ chunks base sizeof_track count.
Hypothesis Hu : uses_ok u xs.

(** The tracker after the packets [qs]. *)
Definition tracker_ok (track : peak_tracks T) (w : world) (qs : list packet) : Prop :=
  flow_inv base count track w (flows_of (flow_of fuel type <$> qs)) (lis_of fuel type qs).

(** The clock at the last of the packets [ps]. *)
Definition timer_ok (timer : timeslice_t (tm := tm)) (ps : list packet) (p : packet) : Prop :=
  gmt timer = gmt_of ps /\ tv_usec (tv timer) = p_usec p.

Lemma fields_spec timer packet flow qs p x :
  timer_ok timer (qs ++ [p]) p -> li flow = lis_of fuel type (qs ++ [p]) (key_of packet) ->
  id flow = Z.of_nat (index_of (key_of packet) (flows_of (flow_of fuel type <$> (qs ++ [p])))) ->
  report_field x packet flow timer = Some (field_of fuel type (qs ++ [p]) p packet x).
Proof.
  intros [Hg Ht] Hl Hid. unfold report_field, field_of. rewrite Hl, Hid, Hg, Ht. unfold lis_of. cbn [fst snd].

  destruct (merge_named _ _ (first_verdict_named fuel type (key_of packet) false (qs ++ [p]))
    (first_verdict_named fuel type (key_of packet) true (qs ++ [p]))) as [[nm En] _].
  unfold app_of. rewrite En. cbn [mbind option_bind default].
  repeat match goal with |- context [x =? ?y] => destruct (x =? y); [done|] end. done.
Qed.

(** Detection, on the first packets of a direction. *)
Lemma detect_spec track w f packet p tail qs v :
  flow_inv base count track w (flows_of (flow_of fuel type <$> (qs ++ [p]))) (lis_of fuel type qs) -> f ∈ tos track ->
  track_key (tracks w) f = key_of packet -> ends_ok packet -> accepted fuel type p = Some packet ->
  peak_li_get (p_bytes p) packet = Some v ->
  let t := tracks w !!! f in
  let dir := negb (netcmp (net_saddr packet) (fst (addr t)) =? 0) in
  exists w',
    (if (if dir then snd (li t) else fst (li t)) =? 0 then
       app ← try (peak_li_get (p_bytes p ++ tail) packet);
       Done (World (<[f := set_li (set_dir dir (u16 app) (li t)) t]> (tracks w)) (next_flow_id w) (Track.audit w))
     else Done w) = Done w' /\ tracker_ok track w' (qs ++ [p]) /\ track_key (tracks w') f = key_of packet.
Proof.
  intros Hinv Hf Ek Hends Hacc Hv t dir.
  assert (dir = from_upper packet) as Ed.
  { apply packet_dir; [|done|done]. apply (ok_store _ _ _ _ (fi_ok _ _ _ _ _ _ Hinv)). }
  assert (li t = lis_of fuel type qs (key_of packet)) as El.
  { unfold t. by rewrite (fi_lis _ _ _ _ _ _ Hinv f Hf), Ek. }
  pose proof (lis_snoc fuel type qs p packet v Hacc Hv) as Hsnoc. cbv zeta in Hsnoc. rewrite <- Ed, <- El in Hsnoc.
  change LI_UNKNOWN with 0 in Hsnoc. destruct ((if dir then snd (li t) else fst (li t)) =? 0).
  - pose proof (stable_li_get packet (p_bytes p) tail v Hv) as ->. cbn [try mbind run_bind]. eexists. split; [done|].
    destruct (li_get_named _ _ _ Hv) as [_ Hfits]. rewrite wrap_small by done.
    pose proof (flow_inv_li base count track w _ _ f (set_dir dir v (li t)) Hinv Hf) as Hinv'. cbv zeta in Hinv'. rewrite Ek in Hinv'.
    split.
    + refine (flow_inv_ext _ _ _ _ _ _ _ Hinv' _). intros x. by rewrite Hsnoc.
    + cbn [tracks]. unfold track_key. rewrite lookup_total_insert_eq. exact Ek.
  - exists w. split_and!; [done| |done]. refine (flow_inv_ext _ _ _ _ _ _ _ Hinv _). intros x. rewrite Hsnoc.
    destruct (Z.eqb_spec x (key_of packet)) as [->|]; done.
Qed.

Lemma peek_packet_spec track w timer p tail qs :
  tracker_ok track w qs -> bytes (p_bytes p) -> parsed fuel type p -> detects_inside fuel type p -> timer_ok timer (qs ++ [p]) p ->
  let run := peek_packet fuel u track w timer _flow (p_bytes p ++ tail) (msize (p_bytes p)) type in
  if decide (length (flows_of (flow_of fuel type <$> (qs ++ [p]))) <= count)%nat then
    exists track' w', run = Done (track', w', line_of fuel type xs qs p) /\ tracker_ok track' w' (qs ++ [p])
  else run = Undefined.
Proof.
  intros Hinv Hb [[[packet a0] ret] Hp] Hdet Htimer run. unfold run, peek_packet, tracker_ok.
  pose proof (parse_ends fuel _ _ _ _ _ _ Hb Hp) as Hends. cbn [fst] in Hends. pose proof (fi_length _ _ _ _ _ _ Hinv) as [_ Hle].
  destruct (packet_flow base count count_small fuel track w _flow p tail type _ _ packet a0 ret Hinv stack_apart Hb Hp)
    as (a & -> & Hinv0 & Ha). cbn [mbind run_bind]. rewrite flows_of_snoc.
  assert (accepted fuel type p = if negb (ret =? 0) || (net_len packet =? 0) then None else Some packet) as Hacc
    by (unfold accepted; by rewrite Hp).
  assert (flow_of fuel type p = key_of <$> accepted fuel type p) as Hflow by done.
  unfold line_of. rewrite Hflow. destruct (negb (ret =? 0) || (net_len packet =? 0)); rewrite Hacc in Hflow |- *.
  { cbn [fmap option_fmap option_map note]. rewrite decide_True by done. do 2 eexists. split; [done|].
    refine (flow_inv_ext _ _ _ _ _ _ _ Hinv0 _). intros x. symmetry. by apply lis_skip. }
  cbn [fmap option_fmap option_map] in Hflow |- *. destruct (Hdet packet Hacc) as [v Hv].
  cbv zeta in Ha |- *. cbn [tracks next_flow_id] in Ha |- *. set (k := key_of packet) in *.
  set (seen := flows_of (flow_of fuel type <$> qs)) in *. destruct (decide ((k ∈ seen) \/ (length seen < count)%nat)) as [Hk|Hk].
  - destruct Ha as (track' & w' & f & -> & Hinv' & Hf & Ek). cbn [try mbind run_bind].
    pose proof (fi_length _ _ _ _ _ _ Hinv') as [_ Hle']. rewrite decide_True by done.
    assert (note seen (Some k) = flows_of (flow_of fuel type <$> (qs ++ [p]))) as Es.
    { by rewrite flows_of_snoc, Hflow. }
    rewrite Es in *. destruct (detect_spec track' w' f packet p tail qs v Hinv' Hf Ek Hends Hacc Hv) as (w'' & Ew & Hok & Ek').
    cbv zeta in Ew. rewrite Ew. cbn [mbind run_bind].
    rewrite (report_spec xs (field_of fuel type (qs ++ [p]) p packet) u packet _ timer Hu).
    + cbn [try mbind run_bind]. by do 2 eexists.
    + intros x _. apply fields_spec; [done|..]; by rewrite <- Ek'; (apply (fi_lis _ _ _ _ _ _ Hok) || apply (fi_ids _ _ _ _ _ _ Hok)).
  - destruct Ha as [w' ->]. rewrite decide_False; [done|]. simpl. rewrite decide_False by tauto.
    rewrite length_app. simpl. assert (~ (length seen < count)%nat) by tauto. lia.
Qed.

(** ** The loop over the packets *)

(** The clock after the packets [qs]. *)
Definition clock_ok (timer : timeslice_t (tm := tm)) (qs : list packet) : Prop :=
  gmt timer = gmt_of qs /\ time timer = default 0 (p_sec <$> last qs).

Lemma clock_advance timer qs p t :
  clock_ok timer qs -> tv_sec t = p_sec p -> tv_usec t = p_usec p ->
  let timer' := TIMESLICE_ADVANCE localtime_r gmtime_r timer t in
  clock_ok timer' (qs ++ [p]) /\ timer_ok timer' (qs ++ [p]) p.
Proof.
  intros [Hg Ht] Es Eu timer'. destruct (advance_spec tm_zero localtime_r gmtime_r timer t) as (Etv & Etime & _). fold timer' in Etv, Etime.
  assert (gmt timer' = gmt_of (qs ++ [p])) as Egmt.
  { unfold timer', TIMESLICE_ADVANCE, gmt_of in *. rewrite forallb_app, last_snoc. cbn [forallb fmap option_fmap option_map default].
    rewrite Ht, Es. destruct (_TIMESLICE_RECALIBRATE (p_sec p) _ _), (_TIMESLICE_RECALIBRATE (timeval_msec t) _ _), (_TIMESLICE_RECALIBRATE (timeval_usec t) _ _).
    destruct (Z.eqb_spec (p_sec p) (default 0 (p_sec <$> last qs))) as [E|E]; cbn [negb gmt].
    - rewrite Hg, <- E. destruct (forallb _ qs) eqn:Eall; cbn [andb]; [|done]. rewrite andb_true_r.
      destruct (last qs) as [q|] eqn:El; cbn [fmap option_fmap option_map default] in E.
      + apply last_Some in El as [l ->]. rewrite forallb_app in Eall. cbn [forallb] in Eall. rewrite andb_true_r in Eall.
        apply andb_true_iff in Eall as [_ Eq%Z.eqb_eq]. rewrite E. cbn. by rewrite Eq.
      + unfold Datatypes.id in E. by rewrite E, Z.eqb_refl.
    - rewrite andb_true_r. destruct (forallb _ qs) eqn:Eall; cbn [andb]; [|done]. destruct (Z.eqb_spec (p_sec p) 0) as [E0|]; [|done].
      destruct E. rewrite E0. destruct (last qs) as [q|] eqn:El; [|done].
      apply last_Some in El as [l ->]. rewrite forallb_app in Eall. cbn [forallb] in Eall. rewrite andb_true_r in Eall.
      apply andb_true_iff in Eall as [_ Eq%Z.eqb_eq]. cbn. by rewrite Eq. }
  split; split; try done.
  - by rewrite Etime, Es, last_snoc.
  - by rewrite Etv.
Qed.

(** The state before the round of [p]. *)
Record round_ok (s : state) (qs : list packet) (p : packet) (rs : list packet) : Prop := {
  ro_tracker : tracker_ok (m_peek s) (m_world s) qs;
  ro_clock : clock_ok (m_timer s) qs;
  ro_trace : loaded_ok type swap rest (m_trace s) p rs;
}.

Lemma peek_round_spec s qs p rs :
  capture_ok fuel type p -> detects_inside fuel type p -> round_ok s qs p rs ->
  if decide (length (flows_of (flow_of fuel type <$> (qs ++ [p]))) <= count)%nat then
    exists s', peek_round fuel u _flow s = Done s' /\ tracker_ok (m_peek s') (m_world s') (qs ++ [p]) /\
      clock_ok (m_timer s') (qs ++ [p]) /\ m_trace s' = m_trace s /\ m_out s' = m_out s ++ line_of fuel type xs qs p
  else peek_round fuel u _flow s = Undefined.
Proof.
  intros (Hp & Hne & Hparse) Hdet [Htr Hcl [[tail Et] Hbs Es Eu El Ell Ef Ha]]. unfold peek_round. rewrite Et, El, Ell.
  destruct (clock_advance (m_timer s) qs p (trace_ts (m_trace s)) Hcl Es Eu) as [Hcl' Htimer].
  pose proof (peek_packet_spec (m_peek s) (m_world s) _ p tail qs Htr ltac:(apply Hp) Hparse Hdet Htimer) as Hpk.
  cbv zeta in Hpk. case_decide as Hk; [|by rewrite Hpk]. destruct Hpk as (track' & w' & -> & Htr'). cbn [mbind run_bind].
  by eexists.
Qed.

Lemma peek_loop_spec rs s qs p m :
  Forall (capture_ok fuel type) (p :: rs) -> Forall (detects_inside fuel type) (p :: rs) -> round_ok s qs p rs -> (length rs < m)%nat ->
  if decide (length (flows_of (flow_of fuel type <$> (qs ++ p :: rs))) <= count)%nat then
    exists s', peek_loop m fuel u _flow s = Done s' /\ tracker_ok (m_peek s') (m_world s') (qs ++ p :: rs) /\
      m_out s' = m_out s ++ lines_of fuel type xs qs (p :: rs)
  else peek_loop m fuel u _flow s = Undefined.
Proof.
  revert s qs p m. induction rs as [|q rs IH]; intros s qs p m Hps Hds Hro Hm; (destruct m as [|m]; [simpl in Hm; lia|]);
    inversion Hps as [|? ? Hp Hrs]; inversion Hds as [|? ? Hd Hdr]; subst; cbn [peek_loop];
    pose proof (peek_round_spec s qs p _ Hp Hd Hro) as Hr; destruct Hro as [_ _ [_ Lsize _ _ _ Lll Lfmt Lahead]].
  - case_decide as Hc; [|by rewrite Hr]. destruct Hr as (s' & -> & Htr & Hcl & Et & Eo). cbn [mbind run_bind]. rewrite Et.
    destruct (load_end fuel (m_trace s) swap rest Lfmt Lsize rest_end Lahead) as [last ->]. cbn [mbind run_bind lines_of]. rewrite app_nil_r.
    eexists. split; [done|]. done.
  - replace (qs ++ p :: q :: rs) with ((qs ++ [p]) ++ q :: rs) by (by rewrite <- app_assoc).
    destruct (decide (length (flows_of (flow_of fuel type <$> (qs ++ [p]))) <= count)%nat) as [Hc|Hc].
    + destruct Hr as (s' & -> & Htr & Hcl & Et & Eo). cbn [mbind run_bind]. rewrite Et. inversion Hrs as [|? ? Hq Hrs']; subst.
      destruct (load_next fuel type swap rest (m_trace s) rs q Lfmt Lsize Lll Lahead) as (t' & -> & Hlo); [apply Hq|].
      cbn [mbind run_bind]. destruct Hq as (Hq1 & Hq2 & Hq3). destruct (Z.eqb_spec (msize (p_bytes q)) 0); [lia|].
      pose proof (IH (State (m_peek s') (m_world s') (m_timer s') t' (m_out s')) (qs ++ [p]) q m Hrs Hdr ltac:(by split) ltac:(simpl in Hm; lia)) as H.
      case_decide; [|done]. destruct H as (s'' & E & Htr' & Eo'). exists s''. split_and!; [done..|].
      rewrite Eo'. cbn [m_out]. by rewrite Eo, <- app_assoc.
    + rewrite Hr. cbn [mbind run_bind]. rewrite decide_False; [done|]. intros Hle. apply Hc.
      etransitivity; [apply prefix_length, flows_of_prefix|exact Hle].
Qed.

End flows.

(** ** The program *)

(** The room of the tracker. *)
Definition max_flows : Z := 10000.

(** What is outside the tracker when the program starts: [calloc] and [malign] give its
    memory, and the structure on the stack is not in it. *)
Definition start_ok (w : world) (_flow : Z) (malign : Z -> Z -> option Z) : Prop :=
  exists base, malign max_flows sizeof_track = Some base /\ _flow ∉ chunks base sizeof_track (Z.to_nat max_flows) /\ store_ok (tracks w) /\ next_flow_id w = 0.

Lemma peek_ok fuel swap type rest opts vs loader more ps w _flow malign :
  fmt loader = pcap_fmt swap -> msize (buf (data loader)) = sizeof_buf -> ll (data loader) = type ->
  capture_end swap rest -> ahead (fd loader) (concat (pcap_record swap <$> ps) ++ rest) -> Forall (capture_ok fuel type) ps -> Forall (detects_inside fuel type) ps ->
  start_ok w _flow malign -> mapM peek_option opts = Some vs ->
  let run := peek (length ps) fuel opts (Some loader :: more) w _flow true malign in
  if decide (Z.of_nat (length opts) <= USE_MAX /\ Z.of_nat (length (flows_of (flow_of fuel type <$> ps))) <= max_flows)
  then run = Done (Some (lines_of fuel type (fields_of vs) [] ps)) else run = Undefined.
Proof.
  intros Hf Hb Hl Hend Ha Hps Hds (base & Hm & Hst & Hs & Hid) Hvs run. unfold run, peek. change 10000 with max_flows.
  pose proof (length_mapM _ _ _ Hvs) as Elen. pose proof (options_spec opts uses_init [] vs uses_init_ok Hvs ltac:(simpl; lia)) as Ho.
  destruct (decide (length ([] ++ vs) <= Z.to_nat USE_MAX)%nat) as [Hlen|Hlen]; simpl in Hlen.
  2: { rewrite Ho, decide_False by (unfold USE_MAX in *; lia). done. }
  destruct Ho as (u0 & -> & Hu0). cbn [try mbind run_bind].
  destruct (default_spec u0 vs Hu0) as (u & -> & Hu). cbn [try mbind run_bind].
  destruct (track_init_some max_flows malign base ltac:(done) Hm) as [track Etr]. rewrite Etr. cbn [try mbind run_bind].
  pose proof (flow_inv_init max_flows malign base w track ltac:(by split) Hs Hid Hm Etr) as Hinv.
  destruct ps as [|p ps].
  - destruct (load_end fuel loader swap rest Hf Hb Hend Ha) as [t ->]. cbn [mbind run_bind]. change (negb (0 =? 0)) with false. cbv iota.
    cbn [mbind run_bind m_peek]. rewrite (track_exit_ok base (Z.to_nat max_flows) track w) by apply Hinv. cbn [try mbind run_bind].
    by rewrite decide_True by (unfold max_flows, USE_MAX in *; simpl; lia).
  - inversion Hps as [|? ? Hp Hps']; subst. pose proof Hp as (Hp1 & Hp2 & Hp3).
    destruct (load_next fuel (ll (data loader)) swap rest loader ps p Hf Hb eq_refl Ha Hp1) as (t & -> & Hlo). cbn [mbind run_bind].
    destruct (Z.eqb_spec (msize (p_bytes p)) 0); [lia|]. cbn [negb].
    pose proof (peek_loop_spec base (Z.to_nat max_flows) ltac:(unfold max_flows; lia) fuel (ll (data loader)) swap rest _flow u (fields_of vs) Hend Hst Hu ps
      (State track w (TIMESLICE_CALIBRATE (TIMESLICE_INIT tm_zero) (trace_ts t)) t []) [] p (length (p :: ps)) Hps Hds
      ltac:(by split) ltac:(simpl; lia)) as Hloop.
    cbn [app] in Hloop. destruct (decide (Z.of_nat (length opts) <= USE_MAX /\ Z.of_nat _ <= max_flows)) as [Hc|Hc].
    2: { rewrite decide_False in Hloop by (unfold max_flows, USE_MAX in *; lia). by rewrite Hloop. }
    rewrite decide_True in Hloop by (unfold max_flows, USE_MAX in *; lia). destruct Hloop as (s' & -> & Hok & Eo). cbn [mbind run_bind].
    rewrite (track_exit_ok base (Z.to_nat max_flows) (m_peek s') (m_world s')) by apply Hok. cbn [try mbind run_bind]. by rewrite Eo.
Qed.

(** ** Properties *)

(** C4.  [peek] reports the packets of a capture.  Its input is a pcap file, in either byte
    order: packets that are not empty and are parsed inside their own bytes (with enough
    fuel for their IPv6 headers), with a detection that stays inside them, up to what ends the
    capture for the loader ([capture_end]: the end of the file, a record that is cut off,
    empty or too large; nothing behind it is reported).  The options are known ones, and the
    tracker gets its memory.  With at most eight options and packets of at most 10000 flows,
    [peek] comes to its end without a panic and prints, in the order of the capture, one line
    per packet that is of a flow, with the fields of the options in their order.  The flow is
    the number of the packet's flow in the order of first packets, and the application of the
    flow is merged from the first verdict in either direction up to this packet; the time is
    that of the packet, unless all packets so far are of second 0, whose broken-down time is
    never set.  With more flows it panics; with more options it writes behind its array. *)
Theorem peek_reports mem timegm fuel swap network opts vs more ps rest w _flow malign :
  mem sizeof_peak_load = true -> fits 32 network -> Forall (capture_ok fuel network) ps -> Forall (detects_inside fuel network) ps ->
  capture_end swap rest -> start_ok w _flow malign -> mapM peek_option opts = Some vs ->
  exists loader,
    peak_load_init mem timegm (inl (Some {| content := pcap_file swap network ps ++ rest; pos := 0 |})) = Some (Some loader) /\
    let run := peek (length ps) fuel opts (Some loader :: more) w _flow true malign in
    if decide (Z.of_nat (length opts) <= USE_MAX /\ Z.of_nat (length (flows_of (flow_of fuel network <$> ps))) <= max_flows)
    then run = Done (Some (lines_of fuel network (fields_of vs) [] ps))
    else run = Undefined.
Proof.
  intros Hmem Hnet Hps Hds Hend Hst Hvs.
  destruct (pcap_init mem timegm swap network (concat (pcap_record swap <$> ps) ++ rest) Hnet Hmem) as (loader & E & Hf & Hb & Hl & Ha).
  exists loader. split; [by rewrite app_assoc in E|]. by apply (peek_ok fuel swap network rest opts vs loader more ps w _flow malign).
Qed.

End program.

(** Options that are known are kept in order while the array has room; the next write is
    behind its end, before the check that is meant to prevent it.  An option that is not
    known exits. *)
Theorem peek_options opts vs :
  mapM peek_option opts = Some vs ->
  if decide (length opts <= Z.to_nat USE_MAX)%nat then
    exists u, options_loop opts uses_init = Some (Some u) /\ uses_ok u vs /\
      forall c rest, peek_option c = None -> options_loop (opts ++ c :: rest) uses_init = Some None
  else options_loop opts uses_init = None.
Proof.
  intros Hvs. pose proof (length_mapM _ _ _ Hvs) as Elen.
  pose proof (options_spec opts uses_init [] vs uses_init_ok Hvs ltac:(simpl; lia)) as Ho. cbn [app] in Ho. rewrite <- Elen in Ho.
  case_decide as Hc; [|done]. destruct Ho as (u & E & Hu). exists u. split_and!; [done..|]. intros c rest Hn. revert E.
  generalize uses_init as u0. clear - Hn. induction opts as [|o opts IH]; intros u0; cbn [options_loop app]; [by rewrite Hn|].
  destruct (peek_option o); [|done]. intros (u1 & -> & H)%bind_Some. cbn [mbind option_bind]. destruct (USE_MAX <? use_count u1); [done|]. by apply IH.
Qed.

(** Nine options write behind the array. *)
Example ninth_option : options_loop (String.list_ascii_of_string "fffffffff") uses_init = None.
Proof. reflexivity. Qed.

Lemma peek_reports_witness :
  exists loader,
    peek (T := tree Z) (tm := Z) 0 (fun s => s) (fun s => s) 4 0 [] [Some loader] (World ∅ 0 zeros) 64 true (fun _ _ => Some 4096) =
      Done (Some (lines_of 0 (fun s => s) 0 LINKTYPE_ETHERNET peek_default [] sample_capture)).
Proof.
  destruct (peek_reports (T := tree Z) (tm := Z) 0 (fun s => s) (fun s => s) (fun _ => true) (fun _ => 0) 0 true LINKTYPE_ETHERNET [] [] []
    sample_capture [] (World ∅ 0 zeros) 64 (fun _ _ => Some 4096)) as (loader & _ & H).
  - reflexivity.
  - split; [vm_compute; discriminate|reflexivity].
  - exact sample_capture_ok.
  - repeat constructor; intros packet E; vm_compute in E; simplify_eq; vm_compute; by eexists.
  - apply end_file.
  - exists 4096. split_and!; [reflexivity| | |reflexivity].
    + intros (i & _ & E)%in_chunks. unfold sizeof_track in E. lia.
    + intros a. cbn [tracks]. rewrite lookup_total_empty. apply track_zero_wf.
  - reflexivity.
  - exists loader. rewrite decide_True in H by (apply (bool_decide_unpack _); vm_compute; exact I). exact H.
Defined.
