(* ===== verification/Netfuse.v ===== *)
(** * Two devices back to back

    Models [bin/netfuse/netfuse.c], the program that passes packets between two devices:
    what is received on either one is sent on the other one, or dropped if that has no
    room.  It is composed of the operations of [Netmap].  The signal that ends the loop
    comes after the rounds of a list; what it and the errors print is left out. *)

From S2P Require Import Prelude Bytes Clock Packet Netmap.
Open Scope Z_scope.

Section netfuse.
Context {R netmap_if M : Type} {API : NetmapApi R netmap_if M}.
Abbreviation state := (Netmap.state (R := R) (netmap_if := netmap_if) (M := M)).
Abbreviation rings_t := (gmap Z (netmap_ring R)).
Abbreviation device := (peak_netmap_dev (netmap_if := netmap_if) (M := M)).

(** What the system does in a round: the call of [poll(2)] in [recv], if it comes to one,
    and the [ioctl] in [send]. *)
Record env := Env { e_poll : rings_t -> polled (R := R); e_sync : rings_t -> rings_t }.

(** The body of the loop. *)
Definition netfuse_round (dev0 dev1 : list Z) (e : env) (s : state) (pkt : peak_transfer) : option (state * peak_transfer) :=
  '(s, pkt, found) ← peak_netmap_recv s pkt (e_poll e (rings s)) None NETMAP_WIRE;
  if negb found then Some (s, pkt) else
  j ← ifname pkt;
  d ← dev (self s) !! Z.to_nat j;
  let to := if name_is dev0 d then dev1 else dev0 in
  '(s, pkt, ret) ← peak_netmap_send s pkt (e_sync e) (Some to) NETMAP_WIRE;
  if negb (ret =? 0) then
    '(s, pkt, _) ← peak_netmap_send s pkt (e_sync e) None NETMAP_WIRE; Some (s, pkt)
  else Some (s, pkt).

(** [while (loop)], until the signal comes. *)
Fixpoint netfuse_loop (dev0 dev1 : list Z) (envs : list env) (s : state) (pkt : peak_transfer) : option (state * peak_transfer) :=
  match envs with
  | [] => Some (s, pkt)
  | e :: envs => '(s, pkt) ← netfuse_round dev0 dev1 e s pkt; netfuse_loop dev0 dev1 envs s pkt
  end.

(** [main] on its arguments; [None] inside is the exit in [usage]. *)
Definition netfuse (os0 os1 : system (R := R) (M := M)) (envs : list env) (args : list (list Z)) (s : state) (pkt : peak_transfer)
    : option (state * option Z) :=
  match args with
  | dev0 :: dev1 :: _ =>
      '(s, ret) ← peak_netmap_attach os0 s dev0;
      if negb (ret =? 0) then Some (s, Some 1) else
      '(s, ret) ← peak_netmap_attach os1 s dev1;
      if negb (ret =? 0) then '(s, _) ← peak_netmap_detach s dev0; Some (s, Some 1) else
      s ← peak_netmap_lock s;
      '(s, pkt) ← netfuse_loop dev0 dev1 envs s pkt;
      s ← peak_netmap_unlock s;
      '(s, _) ← peak_netmap_detach s dev0;
      '(s, _) ← peak_netmap_detach s dev1;
      Some (s, Some 0)
  | _ => Some (s, None)
  end.

(** ** One round *)

(** The two devices are attached and nothing is claimed. *)
Record fused (dev0 dev1 : list Z) (d0 d1 : device) (s : state) : Prop := {
  fu_inv : netmap_inv s;
  fu_free : netmap_priv s = netmap_zero;
  fu_active : active (self s) = [d0; d1];
  fu_name0 : name_of d0 = dev0;
  fu_name1 : name_of d1 = dev1;
  fu_nic0 : dev_type d0 = NR_REG_ALL_NIC;
  fu_nic1 : dev_type d1 = NR_REG_ALL_NIC;
  fu_names : dev0 <> dev1;
  fu_mutex : netmap_mutex s = true;
}.

(** The kernel keeps to its rules, whatever the rings. *)
Definition env_ok (e : env) : Prop :=
  forall m, bufs_ok m -> kernel m (poll_rings (e_poll e m)) /\ length (poll_revents (e_poll e m)) = 2%nat /\ kernel m (e_sync e m).

(** The next packet of a receive ring of [dx] leaves it: it goes out on the first ring of
    [dy] with room, in exchange for the buffer there, or is dropped if there is none. *)
Definition relayed (e : env) (m m' : rings_t) (dx dy : device) : Prop :=
  exists nif rx rc k, nifp dx = Some nif /\ let c := NETMAP_RXRING nif rx in
    m !! c = Some rc /\ avail rc = cur rc :: k /\
    match (nif' ← nifp dy; first_room m nif' (NR_FOREACH_WIRE dy)) with
    | Some (a, r) =>
        m' = e_sync e (swapped m c rc a r) /\ buffers (swapped m c rc a r) ≡ₚ buffers m /\
        slot (stepped r (sent_slot (cur_slot rc) (cur_slot r))) !! Z.to_nat (cur r) = Some (sent_slot (cur_slot rc) (cur_slot r))
    | None => m' = <[c := stepped rc (clear_flags NS_FORWARD (cur_slot rc))]> m /\ buffers m' ≡ₚ buffers m
    end.

Lemma active_two (s : state) j d d0 d1 :
  table_ok (self s) -> active (self s) = [d0; d1] -> 0 <= j < count (self s) -> dev (self s) !! Z.to_nat j = Some d ->
  count (self s) = 2 /\ (j = 0 /\ d = d0 \/ j = 1 /\ d = d1).
Proof.
  intros Ht Ha Hj Hd. pose proof Ht as (Hl & _ & Hc & _). pose proof (f_equal length Ha) as Hlen. unfold active in Hlen.
  rewrite length_take in Hlen. simpl in Hlen. assert (count (self s) = 2) as E by (unfold NETMAP_MAX in *; lia). split; [done|].
  destruct (active_lookup _ _ Ht Hj) as (d' & Hd' & Had). assert (d' = d) as -> by congruence. rewrite Ha in Had.
  assert (j = 0 \/ j = 1) as [-> | ->] by lia; simpl in Had; injection Had as ->; auto.
Qed.

Lemma active_index (s : state) d d0 d1 :
  table_ok (self s) -> active (self s) = [d0; d1] -> d = d0 \/ d = d1 ->
  count (self s) = 2 /\ exists j, 0 <= j < 2 /\ dev (self s) !! Z.to_nat j = Some d.
Proof.
  intros Ht Ha Hd. pose proof Ht as (Hl & _ & Hc & _). pose proof (f_equal length Ha) as Hlen. unfold active in Hlen.
  rewrite length_take in Hlen. simpl in Hlen. assert (count (self s) = 2) as E by (unfold NETMAP_MAX in *; lia). split; [done|].
  assert (exists j, 0 <= j < 2 /\ [d0; d1] !! Z.to_nat j = Some d) as (j & Hj & Hjd) by (destruct Hd as [-> | ->]; [by exists 0|by exists 1]).
  exists j. split; [done|]. destruct (active_lookup _ j Ht ltac:(lia)) as (d' & H1 & H2). rewrite Ha in H2. congruence.
Qed.

(** The device of a name. *)
Lemma find_fused dev0 dev1 d0 d1 s nm d j :
  fused dev0 dev1 d0 d1 s -> (nm = dev0 /\ d = d0 \/ nm = dev1 /\ d = d1) ->
  peak_netmap_find (self s) (Some nm) NR_REG_PIPE_SLAVE = Some j -> j < count (self s) /\ dev (self s) !! Z.to_nat j = Some d.
Proof.
  intros [[(Ht & _) _] _ Ha Hn0 Hn1 Ht0 Ht1 Hne _] Hnm Ej.
  destruct (find_spec (self s) nm NR_REG_PIPE_SLAVE Ht) as (j' & Ej' & Hj & Hhit & Hno). assert (j' = j) as -> by congruence.
  destruct (active_index s d d0 d1 Ht Ha ltac:(tauto)) as (E & k & Hk & Hdk).
  assert (hit nm NR_REG_PIPE_SLAVE d = true) as Hd.
  { unfold hit, name_is. assert (dev_type d = NR_REG_ALL_NIC /\ name_of d = nm) as [-> <-] by (destruct Hnm as [[-> ->]|[-> ->]]; done).
    pose proof reg_distinct as Hr. apply NoDup_cons in Hr as [Hr _]. destruct (Z.eqb_spec NR_REG_PIPE_SLAVE NR_REG_ALL_NIC) as [Er|]; [destruct Hr; rewrite Er; set_solver|].
    destruct (Z.eqb_spec NR_REG_PIPE_SLAVE NR_REG_ALL_NIC); [done|]. cbn [negb andb]. by apply bool_decide_eq_true_2. }
  assert (j <= k) as Hjk.
  { destruct (decide (k < j)); [|lia]. specialize (Hno k d ltac:(lia) Hdk). congruence. }
  split; [lia|]. destruct (Hhit ltac:(lia)) as (d' & Hd' & Hh'). unfold hit in Hh', Hd.
  apply andb_true_iff in Hh' as [_ Hn'], Hd as [_ Hn]. apply bool_decide_eq_true in Hn', Hn.
  destruct (active_two s j d' d0 d1 Ht Ha ltac:(lia) Hd') as [_ [[-> ->]|[-> ->]]], (active_two s k d d0 d1 Ht Ha ltac:(lia) Hdk) as [_ [[-> ->]|[-> ->]]]; try done;
    unfold name_of in *; congruence.
Qed.

Lemma fused_table dev0 dev1 d0 d1 (s s' : state) :
  fused dev0 dev1 d0 d1 s -> netmap_ok s' -> same_table (self s) (self s') -> netmap_priv s' = netmap_zero -> netmap_mutex s' = netmap_mutex s ->
  fused dev0 dev1 d0 d1 s'.
Proof.
  intros [Hinv Hfr Ha] Hok Hsame Hpriv Hmu. split; try done; [by apply (same_table_inv s)| |congruence].
  destruct Hsame as [Hc Hd]. unfold active in *. by rewrite Hc, Hd.
Qed.

(** The packet of [dx] that was received leaves by [dy]. *)
Lemma relay_spec dev0 dev1 d0 d1 e (s : state) pkt a rc k :
  fused dev0 dev1 d0 d1 (set_priv netmap_zero s) -> netmap_ok s -> env_ok e -> claimed s a rc k -> describes s pkt rc a ->
  exists j d s' dx dy, ifname pkt = Some j /\ dev (self s) !! Z.to_nat j = Some d /\
    ('(s, pkt, ret) ← peak_netmap_send s pkt (e_sync e) (Some (if name_is dev0 d then dev1 else dev0)) NETMAP_WIRE;
     if negb (ret =? 0) then '(s, pkt, _) ← peak_netmap_send s pkt (e_sync e) None NETMAP_WIRE; Some (s, pkt) else Some (s, pkt))
      = Some (s', transfer_zero) /\
    fused dev0 dev1 d0 d1 s' /\ same_table (self s) (self s') /\ (dx = d0 /\ dy = d1 \/ dx = d1 /\ dy = d0) /\ relayed e (rings s) (rings s') dx dy.
Proof.
  intros Hfu Hok He Hcl (sl & Hsl & _ & _ & _ & Hpd & j & d & nif & rx & Hif & Hj & Hdj & Hnif & Ea). exists j, d.
  pose proof Hok as (Ht & _ & Hb & _). pose proof Hfu as [Hinv _ Hact Hn0 Hn1 _ _ Hne _]. cbn [self set_priv] in Hact.
  destruct (active_two s j d d0 d1 Ht Hact Hj Hdj) as [_ Hcase].
  pose proof Hcl as (_ & _ & Hc & Ha & _). destruct (avail_cur _ _ _ Ha) as (Hcur & _). rewrite <- Hcur in Ha.
  assert (exists nm dy, (if name_is dev0 d then dev1 else dev0) = nm /\ (nm = dev0 /\ dy = d0 \/ nm = dev1 /\ dy = d1) /\ (d = d0 /\ dy = d1 \/ d = d1 /\ dy = d0))
    as (nm & dy & -> & Hnm & Hxy).
  { unfold name_is. unfold name_of in *. destruct Hcase as [[_ ->]|[_ ->]].
    - rewrite bool_decide_eq_true_2 by done. exists dev1, d1. auto.
    - rewrite bool_decide_eq_false_2 by congruence. exists dev0, d0. auto. }
  destruct (send_named s pkt a rc k (e_sync e) nm NETMAP_WIRE Hok Hcl Hpd) as (j' & Ej' & Hsend); [intros m Hm; by apply He|].
  destruct (find_fused dev0 dev1 d0 d1 _ nm dy j' Hfu Hnm Ej') as [Hj' Hdy]. cbn [self set_priv] in Hj', Hdy.
  destruct (Z.ltb_spec j' (count (self s))); [|lia]. rewrite Hdy in Hsend. cbn [mbind option_bind] in Hsend. unfold targets in Hsend.
  change (NETMAP_WIRE =? NETMAP_HOST) with false in Hsend. cbv iota in Hsend.
  assert (forall o, (nif' ← nifp dy; first_room (rings s) nif' (NR_FOREACH_WIRE dy)) = o ->
    (forall m', match o with
      | Some (a', r) => m' = e_sync e (swapped (rings s) a rc a' r) /\ buffers (swapped (rings s) a rc a' r) ≡ₚ buffers (rings s) /\
          slot (stepped r (sent_slot (cur_slot rc) (cur_slot r))) !! Z.to_nat (cur r) = Some (sent_slot (cur_slot rc) (cur_slot r))
      | None => m' = <[a := stepped rc (clear_flags NS_FORWARD (cur_slot rc))]> (rings s) /\ buffers m' ≡ₚ buffers (rings s)
      end -> relayed e (rings s) m' d dy)) as Hrel.
  { intros o Eo m' Hm'. exists nif, rx, rc, k. rewrite <- Ea, Eo. by split_and!. }
  destruct (nif' ← nifp dy; first_room (rings s) nif' (NR_FOREACH_WIRE dy)) as [[a' r]|] eqn:Eroom.
  - destruct Hsend as (-> & Hok' & Hbuf & (l & Hl & _) & _). cbn [mbind option_bind Z.eqb negb]. eexists _, d, dy. split_and!; [done..| |done|done|].
    + by apply (fused_table _ _ _ _ (set_priv netmap_zero s)).
    + apply (Hrel _ eq_refl). split_and!; [done..|]. unfold stepped. cbn [slot set_pos set_slots]. apply list_lookup_insert_eq.
      apply bind_Some in Eroom as (nif' & _ & (_ & Hr & _)%first_room_spec).
      destruct (cur_slot_spec _ a' r l Hb Hr Hl) as [Hlk _]. by apply lookup_lt_Some in Hlk.
  - rewrite Hsend. cbn [mbind option_bind Z.eqb negb]. rewrite (send_null s pkt a rc k (e_sync e) NETMAP_WIRE Hok Hcl Hpd). cbn [mbind option_bind].
    destruct (step_claimed s a rc k (clear_flags NS_FORWARD (cur_slot rc)) Hok Hcl eq_refl) as (_ & Hok' & Hbuf).
    eexists _, d, dy. split_and!; [done..| |done|done|].
    + by apply (fused_table _ _ _ _ (set_priv netmap_zero s)).
    + apply (Hrel _ eq_refl). by split.
Qed.

(** Either of two is at most two places away. *)
Lemma turn_of l j : 0 <= j < 2 -> exists k, 1 <= k <= 2 /\ (l + k) mod 2 = j.
Proof.
  intros Hj. rewrite (Z.div_mod l 2) by lia. pose proof (Z.mod_pos_bound l 2 ltac:(lia)).
  destruct (decide (j = l mod 2)) as [->|]; [exists 2|exists 1]; (split; [lia|]).
  - symmetry. apply Z.mod_unique_pos with (l / 2 + 1); lia.
  - symmetry. destruct (decide (l mod 2 = 0)); [apply Z.mod_unique_pos with (l / 2)|apply Z.mod_unique_pos with (l / 2 + 1)]; lia.
Qed.

(** A round, in a state between the rounds. *)
Definition round_post (dev0 dev1 : list Z) (d0 d1 : device) (e : env) (s s' : state) : Prop :=
  fused dev0 dev1 d0 d1 s' /\
  let polled m := m = rings s \/ m = poll_rings (e_poll e (rings s)) in
  let waits := exists d, (d = d0 \/ d = d1) /\ is_Some (picked (rings s) d NETMAP_WIRE) in
  (~ waits /\ polled (rings s') \/
   exists m dx dy, polled m /\ (dx = d0 /\ dy = d1 \/ dx = d1 /\ dy = d0) /\ relayed e m (rings s') dx dy).

Lemma netfuse_round_spec dev0 dev1 d0 d1 e (s : state) pkt :
  fused dev0 dev1 d0 d1 s -> env_ok e ->
  exists s' pkt', netfuse_round dev0 dev1 e s pkt = Some (s', pkt') /\ round_post dev0 dev1 d0 d1 e s s'.
Proof.
  intros Hfu He. pose proof Hfu as [[Hok Hdev] Hfr Hact _ _ _ _ _ _]. pose proof Hok as (Ht & _ & Hb & _).
  destruct (He (rings s) Hb) as (Hk & Hlen & _). destruct (active_index s d0 d0 d1 Ht Hact ltac:(auto)) as [Ec _].
  unfold netfuse_round.
  destruct (recv_turn_post s pkt (e_poll e (rings s)) NETMAP_WIRE Hok Hk ltac:(lia) ltac:(by rewrite Hfr)) as (s1 & p & found & -> & Hpost & Hturn).
  destruct Hpost as (Hok1 & Hsame & Hrings & Hyes & Hno & Hmu). cbn [mbind option_bind]. destruct found; cbn [negb].
  - destruct (Hyes eq_refl) as (a & rc & k & Hcl & Hdesc).
    assert (fused dev0 dev1 d0 d1 (set_priv netmap_zero s1)) as Hfu1.
    { apply (fused_table _ _ _ _ s); [done| |done|done|done]. destruct Hok1 as (H1 & H2 & H3 & _). split_and!; [done..|by left]. }
    destruct (relay_spec dev0 dev1 d0 d1 e s1 p a rc k Hfu1 Hok1 He Hcl Hdesc) as (j & d & s' & dx & dy & -> & Hd & E & Hfu' & Hsame' & Hxy & Hrel).
    cbn [mbind option_bind]. rewrite Hd. cbn [mbind option_bind]. rewrite E. do 2 eexists. split; [done|]. split; [done|]. right.
    exists (rings s1), dx, dy. by split_and!.
  - destruct (Hno eq_refl) as [Hpriv ->]. do 2 eexists. split; [done|]. split; [apply (fused_table _ _ _ _ s); [done..|congruence|done]|]. left. split; [|done].
    intros (d & Hd & Hp).
    destruct (active_index s d d0 d1 Ht Hact Hd) as (_ & j & Hj & Hdj).
    destruct (turn_of (last (self s)) j Hj) as (k & Hk1 & Ek). rewrite <- Ek, <- Ec in Hdj. rewrite <- Ec in Hk1.
    destruct (Hturn k d Hk1 Hdj Hp) as [Hf _]. done.
Qed.

Lemma netfuse_loop_spec dev0 dev1 d0 d1 envs (s : state) pkt :
  fused dev0 dev1 d0 d1 s -> Forall env_ok envs -> exists s' pkt', netfuse_loop dev0 dev1 envs s pkt = Some (s', pkt') /\ fused dev0 dev1 d0 d1 s'.
Proof.
  intros Hs He. revert s pkt Hs. induction He as [|e envs He _ IH]; intros s pkt Hs; [by exists s, pkt|]. cbn [netfuse_loop].
  destruct (netfuse_round_spec dev0 dev1 d0 d1 e s pkt Hs He) as (s' & pkt' & -> & Hs' & _). cbn [mbind option_bind]. by apply IH.
Qed.

(** ** The program *)

(** Nothing is claimed. *)
Lemma free_unclaimed (s : state) nm : netmap_priv s = netmap_zero -> unclaimed s nm.
Proof. intros H a d m Ha. by rewrite H in Ha. Qed.

(** Between the calls outside the loop: these devices are attached. *)
Definition attached_are (s : state) (l : list device) : Prop :=
  netmap_inv s /\ netmap_priv s = netmap_zero /\ netmap_mutex s = false /\ active (self s) ≡ₚ l.

Lemma detach_last (s : state) d l :
  attached_are s (d :: l) -> (forall d', d' ∈ l -> name_of d' <> name_of d) ->
  exists s', peak_netmap_detach s (name_of d) = Some (s', 0) /\ attached_are s' l.
Proof.
  intros (Hinv & Hfr & Hmu & Ha) Hl. destruct (detach_spec s (name_of d) Hinv (free_unclaimed s _ Hfr)) as (s' & ret & E & Hinv' & [Hp' Hm'] & Hret).
  destruct Hret as [(_ & _ & Hno)|(-> & d' & En & Hperm)].
  - destruct (Hno Hmu d); [rewrite Ha; left|done].
  - exists s'. split; [done|]. split_and!; [done|congruence|congruence|]. rewrite Ha in Hperm.
    assert (d' = d) as ->.
    { assert (d' ∈ d :: l) as [->|Hd']%elem_of_cons by (rewrite Hperm; left); [done|]. by destruct (Hl d' Hd'). }
    by apply Permutation_cons_inv in Hperm.
Qed.

Lemma netfuse_returns os0 os1 envs dev0 dev1 rest pkt :
  fitting dev0 -> fitting dev1 -> system_ok os0 netmap_init ->
  (forall s ret, peak_netmap_attach os0 netmap_init dev0 = Some (s, ret) -> system_ok os1 s) -> Forall env_ok envs ->
  exists s' ret, netfuse os0 os1 envs (dev0 :: dev1 :: rest) netmap_init pkt = Some (s', Some ret) /\ attached_are s' [].
Proof.
  intros Hf0 Hf1 Hos0 Hos1 Henvs. pose proof reg_distinct as [Hr _]%NoDup_cons.
  assert (forall x y : device, dev_type x = NR_REG_ALL_NIC -> dev_type y = NR_REG_ALL_NIC -> pipe_ends x y -> False) as Hnic.
  { intros x y Hx Hy [[H _]|[H _]]; rewrite Hx in H; apply Hr; rewrite H; set_solver. }
  assert (a_type NR_REG_ALL_NIC) as Hty by left. unfold netfuse.
  destruct (attach_spec os0 netmap_init dev0 NR_REG_ALL_NIC netmap_init_inv Hos0 Hf0 Hty) as (s1 & r1 & E1 & Hinv1 & [Hp1 Hm1] & Hatt1).
  unfold peak_netmap_attach in Hos1 |- *. rewrite E1. cbn [mbind option_bind]. destruct Hatt1 as [(-> & Ha1 & _)|(-> & _ & _ & _ & d0 & Ha1 & Hn0 & Ht0 & _)].
  { cbn [Z.eqb negb]. do 2 eexists. split; [done|]. split_and!; [done|by rewrite Hp1|by rewrite Hm1|by rewrite Ha1]. }
  cbn [Z.eqb negb]. cbn in Ha1, Hp1, Hm1.
  destruct (attach_spec os1 s1 dev1 NR_REG_ALL_NIC Hinv1 (Hos1 s1 0 E1) Hf1 Hty) as (s2 & r2 & E2 & Hinv2 & [Hp2 Hm2] & Hatt2).
  rewrite E2. cbn [mbind option_bind]. destruct Hatt2 as [(-> & Ha2 & _)|(-> & _ & _ & _ & d1 & Ha2 & Hn1 & Ht1 & Hpipe)].
  { cbn [Z.eqb negb]. destruct (detach_last s2 d0 []) as (s3 & E3 & H3); [|by intros d' H%elem_of_nil|].
    - split_and!; [done|congruence|congruence|by rewrite Ha2, Ha1].
    - rewrite <- Hn0, E3. cbn [mbind option_bind]. by do 2 eexists. }
  cbn [Z.eqb negb]. assert (dev0 <> dev1) as Hne.
  { intros Heq. apply (Hnic d0 d1 Ht0 Ht1). apply Hpipe; [rewrite Ha1; left|congruence]. }
  assert (netmap_mutex s2 = false) as Hmu2 by congruence. unfold peak_netmap_lock. rewrite Hmu2. cbn [mbind option_bind].
  destruct (netfuse_loop_spec dev0 dev1 d0 d1 envs (set_mutex true s2) pkt) as (s3 & pkt3 & -> & Hfu); [|done|].
  { split; try done; cbn [netmap_priv set_mutex self]; [congruence|by rewrite Ha2, Ha1]. }
  destruct Hfu as [Hinv3 Hfr3 Ha3 _ _ _ _ _ Hmu3]. cbn [mbind option_bind]. unfold peak_netmap_unlock. rewrite Hmu3. cbn [mbind option_bind].
  destruct (detach_last (set_mutex false s3) d0 [d1]) as (s4 & E4 & H4).
  - split_and!; [done..|]. cbn [self set_mutex]. by rewrite Ha3.
  - intros d' ->%list_elem_of_singleton. congruence.
  - rewrite <- Hn0, E4. cbn [mbind option_bind]. destruct (detach_last s4 d1 [] H4) as (s5 & E5 & H5); [by intros d' H%elem_of_nil|].
    rewrite <- Hn1, E5. cbn [mbind option_bind]. by do 2 eexists.
Qed.

(** ** Properties *)

(** C16.  [netfuse] relays.  Between two rounds nothing is claimed and both devices are
    attached; if a packet waits in a ring of either device, the next packet of a ring of
    one of them leaves it in this round: it goes out on the first ring of the other device
    that has room, with its length and in exchange for a buffer, and only if there is no
    room it is dropped; no buffer is lost.  The whole program comes to its end, whatever
    the system makes of the two attachments, without a device attached or a packet claimed
    or the mutex locked; with fewer than two arguments it does nothing. *)
Theorem netfuse_relays os0 os1 envs dev0 dev1 rest pkt :
  fitting dev0 -> fitting dev1 -> system_ok os0 netmap_init ->
  (forall s ret, peak_netmap_attach os0 netmap_init dev0 = Some (s, ret) -> system_ok os1 s) -> Forall env_ok envs ->
  (forall d0 d1 e (s : state) p, fused dev0 dev1 d0 d1 s -> env_ok e ->
     exists s' p', netfuse_round dev0 dev1 e s p = Some (s', p') /\ round_post dev0 dev1 d0 d1 e s s') /\
  (exists s' ret, netfuse os0 os1 envs (dev0 :: dev1 :: rest) netmap_init pkt = Some (s', Some ret) /\ attached_are s' []) /\
  netfuse os0 os1 envs [dev0] netmap_init pkt = Some (netmap_init, None).
Proof.
  intros Hf0 Hf1 Hos0 Hos1 Henvs. split; [|split; [by apply netfuse_returns|done]].
  intros d0 d1 e s p Hs He. by apply netfuse_round_spec.
Qed.

End netfuse.

(** ** Two devices and a packet *)

#[local] Existing Instance cyclic_api.

(** em1 next to em0, with nothing to receive. *)
Definition w_rings1 : gmap Z (netmap_ring Z) :=
  list_to_map [(2, w_ring 0 10 11 0); (3, w_ring 1 12 13 0); (6, w_ring 0 14 15 0); (7, w_ring 1 16 17 0)].

Definition w_os1 : system := {|
  sys_open := 4; sys_getflags := Some 0; sys_setflags _ := true; sys_getcap := Some 0; sys_setcap _ := true;
  sys_regif _ := Some (4096, 0, 1); sys_mmap _ := Some (true, w_rings1) |}.

(** Nothing happens in the calls. *)
Definition w_env : env (R := Z) := Env (fun m => {| poll_ret := 0; poll_revents := [0; 0]; poll_rings := m |}) (fun m => m).

Lemma w_env_ok : env_ok w_env.
Proof. intros m Hm. split_and!; [by apply kernel_refl|done|by apply kernel_refl]. Qed.

Lemma w_os1_ok s ret : peak_netmap_attach w_os w_start w_name = Some (s, ret) -> system_ok w_os1 s.
Proof.
  intros E. assert (w_attached = s) as <- by (unfold w_attached; by rewrite E).
  intros req size off n m new [= <- <- <-] [= <- <-]. split; [lia|]. split; [by apply bufs_check; vm_compute|].
  split; [apply map_disjoint_list_to_map_l; repeat constructor; by vm_compute|]. split.
  - intros d Hd. assert (Forall (fun d => mem d <> Some true) (active (self w_attached))) as H by (by repeat constructor).
    rewrite Forall_forall in H. by apply H.
  - intros x Hx. assert (x = 0 \/ x = 1) as [-> | ->] by lia; split; vm_compute; by eexists.
Qed.

(** The packet of em0 goes out on em1, whose buffer comes back. *)
Example w_relayed :
  (s ← fst <$> peak_netmap_attach w_os w_start w_name; s ← fst <$> peak_netmap_attach w_os1 s w_other;
   s ← peak_netmap_lock s; s ← fst <$> netfuse_round w_name w_other w_env s transfer_zero;
   out ← rings s !! 3; back ← rings s !! 0; o ← slot out !! 0%nat; b ← slot back !! 0%nat;
   Some (buf_idx o, s_len o, buf_idx b)) = Some (2, 60, 12).
Proof. by vm_compute. Qed.

Lemma netfuse_relays_witness :
  exists s' ret, netfuse w_os w_os1 [w_env] [w_name; w_other] w_start transfer_zero = Some (s', Some ret) /\ active (self s') ≡ₚ [].
Proof.
  destruct (netfuse_relays w_os w_os1 [w_env] w_name w_other [] transfer_zero) as (_ & (s' & ret & E & _ & _ & _ & H) & _).
  - exact w_fitting.
  - split; [by repeat constructor|vm_compute; lia].
  - exact w_os_ok.
  - exact w_os1_ok.
  - apply Forall_singleton, w_env_ok.
  - exists s', ret. exact (conj E H).
Defined.
