(* ===== verification/Tests.v ===== *)
(** * The tests of the repository

    The tests under [src/test] on the definitions of this development: each is the C function of
    the same name, assertion by assertion, and evaluates to [Some tt].  What the tests do with
    the C library (addresses printed, memory given out) is left out or an argument here. *)

From S2P Require Import Prelude Compat Bytes Hash Net Counters Token Clock Stash Order Page Number Strings.
Open Scope Z_scope.

(** [assert(3)]. *)
Definition assert (b : bool) : option unit := if b then Some tt else None.

(** The bytes of a literal, with its final zero. *)
Definition text (s : string) : list Z := (fun c => Z.of_nat (Ascii.nat_of_ascii c)) <$> String.list_ascii_of_string s ++ [Ascii.zero].

(** ** test/base/base.c *)

(** [test_type] for one width: what is encoded in either order is decoded, the other one is swapped. *)
Definition test_type_width (enc_le enc_be : list Z -> Z -> Z -> option (list Z)) (dec_le dec_be : list Z -> Z -> option Z)
    (bswap : Z -> Z) (wrap : Z -> bool) (width : nat) (orig : Z) : option unit :=
  m ← enc_le (replicate width 0) 0 orig;
  le ← dec_le m 0; be ← dec_be m 0;
  _ ← assert (le =? bswap be);
  m ← enc_be m 0 (bswap orig);
  v ← dec_le m 0;
  _ ← assert (v =? orig);
  _ ← assert (negb (wrap 0));
  assert (wrap (0 - 1)).

Definition UNALIGNED_16_ORIG : Z := 0x1234.
Definition UNALIGNED_32_ORIG : Z := 0x12345678.
Definition UNALIGNED_64_ORIG : Z := 0x123456789ABCDEF0.

Definition test_type : option unit :=
  _ ← test_type_width peak_le16enc peak_be16enc peak_le16dec peak_be16dec peak_bswap16 wrap16 2 UNALIGNED_16_ORIG;
  _ ← test_type_width peak_le32enc peak_be32enc peak_le32dec peak_be32dec peak_bswap32 wrap32 4 UNALIGNED_32_ORIG;
  test_type_width peak_le64enc peak_be64enc peak_le64dec peak_be64dec peak_bswap64 wrap64 8 UNALIGNED_64_ORIG.

Example test_type_holds : test_type = Some tt.
Proof. vm_compute. reflexivity. Qed.

(** All prefixes up to [n] match. *)
Fixpoint prefixes_match (x y : netaddr) (plen : Z -> Z) (n : nat) : option unit :=
  match n with
  | O => Some tt
  | S m => r ← netprefix x y (plen (Z.of_nat n)); _ ← assert (r =? 0); prefixes_match x y plen m
  end.

Definition matches (x y : netaddr) (yp : Z) : option bool := r ← netprefix x y yp; Some (r =? 0).

Definition test_net : option unit :=
  let ip4_ref : netaddr := [0; 0; 0; 0; 0; 0; 0; 0; 0; 0; 0xff; 0xff; 0x11; 0x22; 0x33; 0x44] in
  let ip6_ref : netaddr := [0xfe; 0x80; 0; 0; 0; 0; 0; 0; 0x12; 0x40; 0xf3; 0xff; 0xfe; 0xa6; 0xd7; 0x62] in
  m ← peak_be32enc [0; 0; 0; 0] 0 0x11223344;
  ipv4_addr ← peak_le32dec m 0;
  ip ← netaddr4 (replicate 16 0) ipv4_addr;
  _ ← assert (memcmp m (netto4 ip) =? 0);
  _ ← assert (netcmp ip ip4_ref =? 0);
  _ ← assert (netcmp4 ip =? 0);
  _ ← assert (negb (netcmp6 ip =? 0));
  _ ← prefixes_match ip ip4_ref NET_PREFIX4 33;
  b ← matches ip ip4_ref (NET_PREFIX4 0); _ ← assert b;
  ip ← netaddr6 ip ip6_ref 0;
  _ ← assert (memcmp ip6_ref (netto6 ip) =? 0);
  _ ← assert (netcmp ip ip6_ref =? 0);
  _ ← assert (negb (netcmp4 ip =? 0));
  _ ← assert (netcmp6 ip =? 0);
  _ ← prefixes_match ip ip6_ref NET_PREFIX6 129;
  b ← matches ip ip6_ref (NET_PREFIX6 0); _ ← assert b;
  b ← matches ip4_ref ip6_ref (NET_PREFIX6 1); _ ← assert (negb b);
  m ← peak_be32enc m 0 0x11224433;
  ipv4_addr ← peak_le32dec m 0;
  ip ← netaddr4 ip ipv4_addr;
  b ← matches ip ip4_ref (NET_PREFIX4 16); _ ← assert b;
  b ← matches ip ip4_ref (NET_PREFIX4 17); _ ← assert b;
  b ← matches ip ip4_ref (NET_PREFIX4 18); _ ← assert (negb b);
  f ← netprint_family ip4_ref; _ ← assert (f =? AF_INET);
  f ← netprint_family ip6_ref; _ ← assert (f =? AF_INET6);
  _ ← assert (String.eqb (portprint 0) "");
  _ ← assert (String.eqb (portprint (-1)) "");
  _ ← assert (String.eqb (portprint 1) ":1");
  _ ← assert (String.eqb (portprint 12345) ":12345");
  _ ← assert (String.eqb (portprint 65535) ":65535");
  assert (String.eqb (portprint 65536) "").

Example test_net_holds : test_net = Some tt.
Proof. vm_compute. reflexivity. Qed.

(** A call with the answer and the state the test expects of it. *)
Definition credit_is (credit : peak_token -> Z -> Z -> option (peak_token * Z)) (bucket : peak_token) (want ts ret have_ ts_ms_ : Z) : option peak_token :=
  '(bucket, r) ← credit bucket want ts;
  _ ← assert ((r =? ret) && (have bucket =? have_) && (ts_ms bucket =? ts_ms_));
  Some bucket.

Definition ref_is (r : peak_token * Z) (n : Z) : option peak_token := _ ← assert (snd r =? n); Some (fst r).

Definition test_token (garbage : peak_token) : option unit :=
  let bucket := peak_token_init garbage 100 in
  let bucket := set_ref 0 bucket in
  bucket ← ref_is (peak_token_inc bucket) 1;
  bucket ← ref_is (peak_token_inc bucket) 2;
  bucket ← ref_is (peak_token_dec bucket) 1;
  bucket ← ref_is (peak_token_inc bucket) 2;
  bucket ← ref_is (peak_token_dec bucket) 1;
  bucket ← ref_is (peak_token_dec bucket) 0;
  bucket ← credit_is peak_token_credit bucket 50 0 1 50 0;
  bucket ← credit_is peak_token_credit bucket 0 0 1 50 0;
  bucket ← credit_is peak_token_credit bucket 50 0 1 0 0;
  bucket ← credit_is peak_token_credit bucket 50 0 0 0 0;
  bucket ← credit_is peak_token_credit bucket 1 0 0 0 0;
  bucket ← credit_is _peak_token_credit bucket 50 1000 1 50 1000;
  bucket ← credit_is _peak_token_credit bucket 75 1000 1 (-25) 1000;
  bucket ← credit_is _peak_token_credit bucket (-75) 1000 1 50 1000;
  bucket ← credit_is _peak_token_credit bucket 75 1000 1 (-25) 1000;
  bucket ← credit_is _peak_token_credit bucket 1 1000 0 (-25) 1000;
  bucket ← credit_is _peak_token_credit bucket 25 1500 1 0 1500;
  bucket ← credit_is _peak_token_credit bucket 0 2000 1 50 2000;
  bucket ← credit_is peak_token_credit bucket 50 1000 1 0 2000;
  bucket ← credit_is peak_token_credit bucket 1 1000 0 0 2000;
  let bucket := _peak_token_init bucket 0 in
  bucket ← credit_is peak_token_credit bucket 1000000 0 1 0 0;
  bucket ← credit_is peak_token_credit bucket 1000000 0 1 0 0;
  _ ← credit_is peak_token_credit bucket 1000000 0 1 0 0;
  Some tt.

Example test_token_holds : test_token {| Token.have := 1; Token.max := 2; Token.ts_ms := 3; Token.lock := true; Token.ref := 0 |} = Some tt.
Proof. vm_compute. reflexivity. Qed.

Definition struct_interval : Type := Z * Z.
Definition test : list struct_interval := [(2, 1); (1, 2)].

Definition test_stash_cmp (x y : struct_interval) : Z :=
  let ret := fst x - fst y in if negb (ret =? 0) then ret else snd x - snd y.

(** The elements a loop visits are those of [test]. *)
Definition visits (slots : list nat) (s : stash struct_interval) : bool :=
  bool_decide (omap (fun i => values s !! i) slots = test).

Definition pushed (x : struct_interval) (s : stash struct_interval) : option (stash struct_interval) :=
  let '(s, r) := STASH_PUSH x s in _ ← assert (bool_decide (is_Some r)); Some s.

Definition popped {A} (s : stash A) : option (stash A) :=
  let '(s, r) := STASH_POP s in _ ← assert (bool_decide (is_Some r)); Some s.

Definition _test_stash (s : stash struct_interval) : option (stash struct_interval) :=
  _ ← assert (STASH_EMPTY s);
  s ← pushed (2, 1) s;
  s ← pushed (1, 2) s;
  _ ← assert (bool_decide (snd (STASH_PUSH (1, 2) s) = None));
  _ ← assert (STASH_FULL s);
  _ ← assert (visits (STASH_FOREACH s) s);
  _ ← assert (STASH_COUNT s =? length test)%nat;
  Some s.

Definition test_stash : option unit :=
  let s := STASH_DECLARE [(0, 0); (0, 0)] in
  _ ← assert (bool_decide (snd (STASH_POP s) = None));
  s ← _test_stash s;
  let s := STASH_SORT Stash.sort test_stash_cmp s in
  _ ← assert (visits (STASH_FOREACH_REVERSE s) s);
  s ← popped s;
  s ← popped s;
  _ ← assert (bool_decide (snd (STASH_POP s) = None));
  assert (STASH_EMPTY s).

Example test_stash_holds : test_stash = Some tt.
Proof. vm_compute. reflexivity. Qed.

Definition TEST_PAGE_CMP (x y : Z) : Z := x - y.

Definition test_page_list : list Z :=
  [2; 1; 20; 21; 19; 18; 17; 22; 0; 3; 4; 7; 6; 5; 16; 15; 14; 13; 12; 11; 10; 8; 9].

(** The loop over the values, which are not found before they are in. *)
Fixpoint insert_list (num : nat) (twice : bool) (l : list Z) (root : list (list Z)) : option (list (list Z)) :=
  match l with
  | [] => Some root
  | x :: l =>
      f ← PAGE_FIND TEST_PAGE_CMP root x; _ ← assert (bool_decide (f = None));
      '(root, r) ← PAGE_INSERT TEST_PAGE_CMP num root x true; _ ← assert (bool_decide (is_Some r));
      '(root, r) ← (if twice then PAGE_INSERT TEST_PAGE_CMP num root x true else Some (root, r)); _ ← assert (bool_decide (is_Some r));
      insert_list num twice l root
  end.

Definition test_page_lists (num : nat) : option unit :=
  let root : list (list Z) := [] in
  _ ← assert (bool_decide (PAGE_FOREACH root = Some []));
  _ ← assert (bool_decide (PAGE_MIN root = None) && bool_decide (PAGE_MAX root = None));
  f ← PAGE_FIND TEST_PAGE_CMP root 2; _ ← assert (bool_decide (f = None));
  '(root, r) ← PAGE_INSERT TEST_PAGE_CMP num root 2 false; _ ← assert (bool_decide (r = None));
  root ← insert_list num true test_page_list root;
  l ← PAGE_FOREACH root; _ ← assert (bool_decide (l = Z.of_nat <$> seq 0 23));
  assert (bool_decide (snd (PAGE_COLLAPSE root) = [])).

(** Pages of seven elements, and of one. *)
Definition test_page : option unit := _ ← test_page_lists 7; test_page_lists 1.

Example test_page_holds : test_page = Some tt.
Proof. vm_compute. reflexivity. Qed.

Definition test_hash : option unit :=
  let m := text "test" in
  h ← hash_fnv32 m 0 4; _ ← assert (h =? 0xAFD071E5);
  h ← hash_fnv32 [] 0 0; _ ← assert (h =? 0x811C9DC5);
  h ← hash_joaat m 0 4; _ ← assert (h =? 0x76705442);
  h ← hash_joaat [] 0 0; _ ← assert (h =? 0x11C50567);
  let head := ROLL_INIT 0 in
  _ ← assert (ROLL_HASH head =? 0);
  head ← ROLL_NEXT m head;
  let backup := ROLL_HASH head in
  _ ← assert (negb (backup =? 0));
  head ← ROLL_SHIFT m head;
  _ ← assert (negb (backup =? ROLL_HASH head));
  head ← ROLL_SHIFTN m head 2;
  _ ← assert (backup =? ROLL_HASH head);
  head ← ROLL_NEXTN m (ROLL_INIT 0) 4;
  let backup := ROLL_HASH head in
  h ← hash_roll m 0 4; _ ← assert (backup =? h);
  let m := text "testest" in
  head ← ROLL_NEXTN m (ROLL_INIT 0) 4; _ ← assert (backup =? ROLL_HASH head);
  head ← ROLL_SHIFT m head; _ ← assert (negb (backup =? ROLL_HASH head));
  head ← ROLL_SHIFTN m head 2; _ ← assert (backup =? ROLL_HASH head);
  h ← hash_roll (text "tesT") 0 4; assert (negb (backup =? h)).

Example test_hash_holds : test_hash = Some tt.
Proof. vm_compute. reflexivity. Qed.

(** The clock after a time shows these values. *)
Definition shows (clock : timeslice_t) (sec usec mono mono_m mono_u : Z) : option timeslice_t :=
  let clock := TIMESLICE_ADVANCE (fun t => t) (fun t => t) clock {| tv_sec := sec; tv_usec := usec |} in
  _ ← assert ((mono_sec clock =? mono) && (mono_msec clock =? mono_m) && (mono_usec clock =? mono_u));
  Some clock.

Definition test_time : option unit :=
  let timer := TIMESLICE_CALIBRATE (TIMESLICE_INIT 0) {| tv_sec := 42; tv_usec := 0 |} in
  timer ← shows timer 42 15003 0 15 15003;
  timer ← shows timer 45 18001 3 3018 3018001;
  timer ← shows timer 44 842 3 3018 3018001;
  timer ← shows timer 43 842 3 3018 3018001;
  timer ← shows timer 44 845 4 4018 4018004;
  timer ← shows timer 44 840 4 4018 4018004;
  _ ← shows timer 44 841 4 4018 4018005;
  Some tt.

Example test_time_holds : test_time = Some tt.
Proof. vm_compute. reflexivity. Qed.

(** ** test/string/string.c *)

(** The bytes a pointer to a literal and a length give. *)
Definition slice (s : string) (len : nat) : option (list Z) := rd_n (text s) 0 len.

Definition ten : stash Z := STASH_DECLARE (replicate 10 0).

(** [peak_string_add] with an expected answer; NULL is [None]. *)
Definition add (root : peak_strings) (v : Z) (s : string) (len : nat) (flags want : Z) : option peak_strings :=
  buf ← slice s len;
  '(root, ret) ← peak_string_add root v (Some buf) flags (fun _ => true);
  _ ← assert (ret =? want);
  Some root.

(** What a search leaves on an empty stash, oldest first. *)
Definition finds (root : peak_strings) (s : string) (len : nat) (want : list Z) : option unit :=
  buf ← slice s len;
  temp ← peak_string_find root buf ten;
  assert (bool_decide (contents temp = want)).

Definition test_string_single : option unit :=
  let root := peak_string_init in
  _ ← finds root "test" 4 [];
  root ← add root 1 "test" 4 0 1;
  root ← add root 2 "test" 4 0 1;
  _ ← finds root "" 0 [];
  _ ← finds root "test" 3 [];
  _ ← finds root "test" 4 [1];
  _ ← finds root ("oO" +:+ String Ascii.zero "test") 7 [1];
  finds root "test testest tesT tes" 21 [1; 1; 1].

Definition test_string_left : option unit :=
  root ← add peak_string_init 1 "test" 4 STRING_LEFT 1;
  _ ← finds root "string test" 11 [];
  finds root "test string" 11 [1].

Definition test_string_wildcard : option unit :=
  root ← add peak_string_init 1 "t?st" 4 0 1;
  _ ← finds root "string tst" 10 [];
  finds root "test string" 11 [1; 1].

Definition test_string_nocase : option unit :=
  root ← add peak_string_init 1 "aToZ" 4 STRING_NOCASE 1;
  _ ← finds root "atoz" 4 [1];
  finds root "aToz AtOZ ATOzatOz aTO" 21 [1; 1; 1; 1].

Definition test_string_right : option unit :=
  root ← add peak_string_init 1 "test" 4 STRING_RIGHT 1;
  _ ← finds root "test string" 11 [];
  finds root "string test" 11 [1].

Definition test_string_exact : option unit :=
  root ← add peak_string_init 1 "test" 4 (STRING_LEFT .| STRING_RIGHT) 1;
  _ ← finds root "test string test" 16 [];
  finds root "test" 4 [1].

(** [beyond] are the bytes behind the literal of the last pattern, of which the test reads one. *)
Definition test_string_multiple (beyond : list Z) : option unit :=
  let text1 := "Lorem ipsum dolor sit amet, consetetur sadipscing elitr, sed diam nonumy eirmod tempor invidunt ut labore et dolore magna aliquyam erat, sed diam voluptua."%string in
  let root := peak_string_init in
  '(root, ret) ← peak_string_add root 1 None 0 (fun _ => true); _ ← assert (ret =? 0);
  root ← add root 1 " ipsum " 7 0 1;
  root ← add root 2 ", sed" 5 0 2;
  root ← add root 3 ", sef " 5 0 3;
  root ← add root 4 "." 1 0 4;
  root ← add root 5 "diam " 4 0 5;
  root ← add root 6 "dolor sit amet," 15 0 6;
  root ← add root 7 "" 0 0 7;
  root ← add root 8 " ipsum " 0 (STRING_LEFT .| STRING_RIGHT) 8;
  buf ← rd_n (text " erat " ++ beyond) 0 8;
  '(root, ret) ← peak_string_add root 9 (Some buf) 0 (fun _ => true); _ ← assert (ret =? 9);
  _ ← finds root text1 (String.length text1) [7; 1; 6; 2; 5; 2; 5; 4];
  finds root "" 0 [7; 8].

Example test_string_holds :
  [test_string_single; test_string_left; test_string_wildcard; test_string_nocase; test_string_right; test_string_exact;
   test_string_multiple [0]] = replicate 7 (Some tt).
Proof. vm_compute. reflexivity. Qed.

(** The literal has seven bytes, the test passes a length of eight. *)
Example test_string_overread : test_string_multiple [] = None.
Proof. vm_compute. reflexivity. Qed.

(** ** test/number/number.c *)

Definition add_number (root : peak_numbers) (res : Z) (s : string) (len flags want : Z) : option peak_numbers :=
  '(root, ret) ← peak_number_add true root res (Some (text s)) len flags;
  _ ← assert (ret =? want);
  Some root.

(** The results from the newest one on, as the test pops them. *)
Definition finds_number (root : peak_numbers) (s : string) (len : Z) (want : list Z) : option unit :=
  temp ← peak_number_find root (text s) len ten;
  assert (bool_decide (reverse (contents temp) = want)).

Definition test_number_string : option unit :=
  let root := peak_number_init in
  _ ← finds_number root "30" 2 [];
  root ← add_number root 1 "404" 2 NUMBER_LT 1;
  root ← add_number root 2 "40" 2 NUMBER_LT 1;
  root ← add_number root 3 "44" 2 NUMBER_LT 3;
  root ← add_number root 4 "505" 3 0 4;
  root ← add_number root 5 "505" 3 NUMBER_NE 5;
  root ← add_number root 6 "505" 3 NUMBER_GT 6;
  root ← add_number root 7 "505" 3 NUMBER_GE 7;
  root ← add_number root 8 "505" 3 (NUMBER_STRING .| NUMBER_LE) 8;
  _ ← finds_number root "" 0 [];
  _ ← finds_number root "best" 4 [];
  _ ← finds_number root "30 432 40 987 404" 17 [1; 3; 5; 8];
  _ ← finds_number root "506" 3 [5; 6; 7];
  _ ← finds_number root "  505" 5 [4; 7; 8];
  finds_number root "505" 2 [5; 8].

Definition test_number_length : option unit :=
  root ← add_number peak_number_init 1 "44" 2 (NUMBER_LENGTH .| NUMBER_LE) 1;
  _ ← finds_number root "" 30 [1];
  _ ← finds_number root "" 44 [1];
  finds_number root "" 45 [].

Example test_number_holds : [test_number_string; test_number_length] = [Some tt; Some tt].
Proof. vm_compute. reflexivity. Qed.

(** ** test/audit/audit.c *)

Definition AUDIT_FIELDS : list Z := Z.of_nat <$> seq 0 (Z.to_nat AUDIT_MAX).

(** A sync after which a field of the aggregate has this value. *)
Definition syncs (data thread : list Z) (want : Z) : option (list Z * list Z) :=
  let '(data, thread) := peak_audit_sync data thread in
  _ ← assert (bool_decide (data !! 0%nat = Some want));
  Some (data, thread).

(** [thread] is what was counted before the test. *)
Definition test_audit (thread : list Z) : option unit :=
  let '(_, thread) := peak_audit_sync zeros thread in
  let data := zeros in
  _ ← assert (forallb (fun i => bool_decide (is_Some (peak_audit_name i)) && (peak_audit_get thread i =? 0)) AUDIT_FIELDS);
  let thread := peak_audit_add thread 0 41 in
  _ ← assert (peak_audit_get thread 0 =? 41);
  '(data, thread) ← syncs data thread 41;
  let thread := peak_audit_inc thread 0 in
  _ ← assert (peak_audit_get thread 0 =? 1);
  '(data, thread) ← syncs data thread 42;
  _ ← assert (peak_audit_get thread 0 =? 0);
  '(data, thread) ← syncs data thread 42;
  let thread := peak_audit_set thread 0 7 in
  '(data, thread) ← syncs data thread 49;
  _ ← syncs zeros thread 0;
  Some tt.

Example test_audit_holds : test_audit zeros = Some tt.
Proof. vm_compute. reflexivity. Qed.
